(* ===== verification/_CoqProject ===== *)
-Q . S2P
Prelude.v
Common.v
Quicr.v
NodeId.v
NodeInfo.v
Connect.v
DataHeader.v
SubscribeInfo.v
SubscribeNodeSet.v
AnnounceInfo.v
InfoBase.v
InfoBaseNodes.v
InfoBaseTables.v
TrackRanking.v
TrackRankingSpec.v
Transport.v
State.v
QuicrServer.v
PeerSession.v
PeerSessionSns.v
PeerSessionEvents.v
PeerSessionControl.v
PeerWorld.v
ClientState.v
PeerManager.v
Startup.v
PeerForwarding.v
PublishHandler.v
NamespaceHandler.v
NamespaceHandlerSpec.v
SubscribeHandler.v
ClientManager.v
ClientPublish.v
FetchHandler.v
ClientFetch.v
ClientPublishers.v
ClientFetchSpec.v
SubscribeHandlerSpec.v
PeerEvents.v
PeerFrames.v
SubscribeReject.v
RelayEvents.v
ClientFrames.v
ClientTables.v
ClientTablesSpec.v
ClientCleanup.v
ClientHandles.v
PeerFlooding.v
PeerData.v
Flood.v
PathFlood.v
Mesh.v
MeshFlood.v
NodeMesh.v
