(* ===== verification/Prelude.v ===== *)
(** * LAPS relay: a verification development

    ** The program

    LAPS (src/src) is a relay for Media over QUIC.  Clients publish and subscribe
    to tracks through libquicr; relays form a mesh and pass tracks on to each
    other.  Its parts are

    - the client manager ([ClientManager], client_manager.cc), which answers the
      callbacks of the libquicr server, and the handlers it makes for tracks:
      [SubscribeTrackHandler] receives a track and fans it out,
      [PublishTrackHandler] sends one to a subscriber, [PublishNamespaceHandler]
      sends the tracks of a namespace, the best ranked ones only when a
      [TrackRanking] selects them, [FetchTrackHandler] passes a fetch on;
    - the tables of [State] (state.h) that it shares with peering;
    - peering: the [PeerManager] floods what it knows of nodes, subscriptions and
      announcements to the neighbours and keeps it in the [InfoBase]; a
      [PeerSession] speaks the wire protocol of src/src/peering/messages with one
      neighbour over a QUIC transport;
    - [main], the configuration and the signal handlers.

    The client manager calls the peer manager when a local client publishes or
    subscribes and when data is to leave; the peer manager calls the client
    manager through [ClientManagerI] (PeerWorld.v) when a neighbour does.
    Sessions call their manager through [PeerManagerI] (PeerSessionEvents.v), the
    track ranking its namespace handlers through [NamespaceHandler]
    (TrackRanking.v): each is proved against the interface, and the instances are
    [manager_callbacks], [ClientPublish.client_manager] and [ranking_handlers].

    ** How it is modelled

    Code is translated function by function into the error-and-state monad [ST]
    of this file: a run ends in [Ok], in an exception ([Throw]) or in undefined
    behaviour ([UB]: a null or dangling pointer, reading past an end, locking a
    mutex twice).  Integers are [Z] with the conversions written out ([u8] ..
    [u64]), bytes are [list Z], maps are [gmap]s iterated in key order
    ([entries]).  Objects that are shared are kept at addresses ([SessRef], [Ref])
    in heaps, so that aliasing, weak pointers and destruction are those of the
    code; a mutex is a flag that says whether it is held.  Threads are the order
    of events: an event runs to its end, but a fetch thread is a step machine
    with its sleeps between the steps.

    libquicr and the transport are not in the repository (git submodules).  They
    are classes of operations (Quicr.v, QuicrServer.v, Transport.v): a call is
    appended to a trace, and an answer is a function of the trace.  Their
    documented laws are classes of their own ([UintVarLaws], [TrackNamesLaws],
    [TransportLaws], [PipelineLaws], [TimeoutLaw]); the [Demo] modules instantiate all of them, and every
    property is applied to a concrete relay.

    ** The files

    - Prelude.v: integers, the monad and its rules, relations that runs respect
      ([always], [leaves], [calm], with their hint databases), ordered iteration.
    - Common.v, NodeId.v, NodeInfo.v, Connect.v, DataHeader.v, SubscribeInfo.v,
      SubscribeNodeSet.v, AnnounceInfo.v: src/src/peering/common.h and
      messages/*.  A message is a [Codec]; decoding what was encoded gives it
      back, sizes are right, and short or inconsistent bytes are errors.
    - InfoBase.v: info_base.cc.  InfoBaseNodes.v: the node tables stay consistent
      and the best session is selected.  InfoBaseTables.v: subscriptions refine a
      flat map; announcements are found by every prefix.
    - TrackRanking.v, TrackRankingSpec.v: track_ranking.h; the buckets refine a
      map from tracks to values, the list is sorted when it is rebuilt.
    - PeerSession.v, PeerSessionEvents.v: peer_session.cc.  PeerSessionSns.v: what
      the neighbour has been told follows the tables.  PeerSessionControl.v: the
      control and data streams.
    - State.v (state.h), PeerWorld.v, PeerManager.v, PeerForwarding.v,
      PeerEvents.v: peer_manager.cc and the state it works on.  PeerFlooding.v:
      which messages leave, to whom.  PeerData.v: a stream of a publisher on its
      way to the relay of a subscriber.  Flood.v, Mesh.v, MeshFlood.v: several
      relays, connected with each other; a mesh refines an abstract flood of a
      subscription.  PathFlood.v, NodeMesh.v: the withdrawal of a node in a mesh.
    - ClientState.v, PublishHandler.v, NamespaceHandler.v, SubscribeHandler.v,
      FetchHandler.v: the handlers (publish_handler.cc,
      publish_namespace_handler.cc, subscribe_handler.cc, fetch_handler.cc).
      NamespaceHandlerSpec.v, SubscribeHandlerSpec.v, SubscribeReject.v: their
      properties.
    - ClientManager.v, ClientPublish.v, ClientFetch.v: client_manager.cc
      (subscriptions; publishers, namespaces, the end of a connection; fetches).
      RelayEvents.v: everything that happens to a relay, as one type of events.
      PeerFrames.v, ClientFrames.v, ClientTables.v: what each operation leaves
      alone.  ClientTablesSpec.v, ClientHandles.v: invariants over all events.
      ClientPublishers.v, ClientCleanup.v, ClientFetchSpec.v: what operations
      achieve.
    - Startup.v: main.cc, config.cc, signal_handler.h.

    An operation has the name it has in the code; where two classes share one,
    the class comes first ([Pub_StatusChanged], [Manager_CloseStream]).  A data
    member keeps its name, the setter of [x_] is [set_x].

    ** The theorems

    - Over all events of a relay: no handler table holds a dangling pointer; the
      three subscription tables stay in step while clients do not reuse the id of
      a live request; a closed connection is forgotten.
    - Over sequences of operations: the information base, the ranking and the
      tables of a session refine simple maps and keep their invariants.
    - Of single operations, on every branch: what is recorded, what is sent, to
      whom; how many steps a fetch thread takes and what the client gets.
    - Of several relays, whose clients do not publish the track: a subscription
      that enters a mesh reaches all of it; one of a relay in a ring never comes
      to rest.  The withdrawal of a node goes
      along every path without repetition.  Stream data crosses them
      unchanged but for the node set in its header.
    - Round trips of every message and of node ids, and the bytes on which
      decoding fails.
    - Where the code goes wrong, the theorem says so: deadlock, undefined
      behaviour and lost or repeated data are proved to occur, and listed as
      findings.

    ** Bounds and fuel

    [recv_loop] takes the length of the receive queue as fuel, every round takes
    an element off it.  [read_path] takes the number of bytes, every item takes
    some.  The wait of a fetch thread ends after 402 steps: 2000 ms in rounds of
    5 ms, the start and the answer.  Decimal printing of a 64-bit number uses 20
    digits, of a 16-bit number 5.  Sequence numbers have 16 bits, sizes in
    messages 32 bits; the round trips are stated for the values that fit.

    ** Not modelled

    - Data races: events are atomic, a held mutex that is locked again by the
      same thread is undefined behaviour, and one that another thread holds is
      not waited for; but main and the signal handlers, which do share a mutex
      and interrupt each other, are steps of a process of their own (Startup.v).
      A fetch thread sees the cached groups as they were when the fetch came.
    - Log messages and metrics, and so [NewConnectionAccepted],
      [ClientSetupReceived] and [MetricsSampled], which do nothing else, but not
      the exceptions that arguments of log messages throw.
    - libquicr and the transport do not call back while they are called; what
      they do later is an event.  When libquicr lets go of a handler is an event
      too ([ev_let_go]).
    - The option parser (dependencies/oss/cxxopts.hpp, third-party),
      helper_functions.h (used by nothing in the relay), the tests, and the node
      channel functions that peer_manager.h declares and nothing defines. *)

From Stdlib Require Export ZArith Lia.
From stdpp Require Export base tactics list gmap sets fin_maps fin_sets sorting.
#[global] Open Scope Z_scope.
(* stdpp's set_solver and naive_solver clear hypotheses that are gone already. *)
#[export] Set Warnings "-clear-no-such-hyp".

(** ** 1. Machine integers

    A C++ unsigned integer of [w] bits is a [Z] in [0, 2^w); conversions
    wrap.  Casts are written where the source has them. *)

Definition wrap (w z : Z) : Z := z mod 2 ^ w.
#[global] Arguments wrap : simpl never.
Abbreviation u8 := (wrap 8).
Abbreviation u16 := (wrap 16).
Abbreviation u32 := (wrap 32).
Abbreviation u64 := (wrap 64).

Definition in_range (w z : Z) : Prop := 0 ≤ z < 2 ^ w.

#[global] Instance in_range_dec w z : Decision (in_range w z).
Proof. unfold in_range. apply _. Defined.

(** A closed decidable proposition, by evaluation. *)
Ltac decide_now := refine (bool_decide_unpack _ _); vm_compute; exact I.

(** A closed equation, by evaluating both sides. *)
Ltac vm_refl := match goal with |- _ = ?b => vm_cast_no_check (eq_refl b) end.

Create HintDb laps discriminated.

Lemma wrap_range w z : 0 ≤ w → in_range w (wrap w z).
Proof. intros ?. apply Z.mod_pos_bound. lia. Qed.

Lemma wrap_small w z : in_range w z → wrap w z = z.
Proof. apply Z.mod_small. Qed.

Lemma in_range_mono w w' z : w ≤ w' → in_range w z → in_range w' z.
Proof.
  intros Hw [??]. split; [done|].
  apply Z.lt_le_trans with (2 ^ w); [done|]. apply Z.pow_le_mono_r; lia.
Qed.

(** Bit fields: a low part below the shift distance. *)
Lemma lor_shiftl a b k :
  0 ≤ k → 0 ≤ b < 2 ^ k → Z.lor (Z.shiftl a k) b = a * 2 ^ k + b.
Proof.
  intros Hk Hb. rewrite <- Z.shiftl_mul_pow2 by done.
  assert (Z.land (Z.shiftl a k) b = 0) as Hl.
  { apply Z.bits_inj'. intros n Hn. rewrite Z.land_spec, Z.bits_0.
    destruct (decide (n < k)).
    - by rewrite Z.shiftl_spec_low.
    - rewrite <- (Z.mod_small b (2 ^ k)) by done.
      rewrite Z.mod_pow2_bits_high by lia. apply andb_false_r. }
  by rewrite <- Z.lxor_lor, <- Z.add_nocarry_lxor.
Qed.

Lemma land_ones_small a k : 0 ≤ k → in_range k a → Z.land (Z.ones k) a = a.
Proof. intros. rewrite Z.land_comm, Z.land_ones by done. by apply wrap_small. Qed.

#[export] Hint Resolve wrap_range : laps.
#[export] Hint Extern 1 (_ ≤ _) => lia : laps.

(** ** 2. Outcomes, and the state monad of the C++ code

    [Throw] is a C++ exception derived from [std::exception]; the state at the
    throw point is kept, since C++ does not roll back.  [UB] is undefined
    behaviour: a read past the end of a buffer, a null dereference, a
    dereferenced end iterator, locking a mutex its thread already holds. *)

Inductive exn : Type :=
  | runtime_error
  | invalid_argument
  | out_of_range
  | bad_any_cast
  | bad_optional_access
  | protocol_violation.

#[global] Instance exn_eq_dec : EqDecision exn.
Proof. solve_decision. Defined.

Inductive outcome (A : Type) : Type :=
  | Ok (a : A)
  | Throw (e : exn)
  | UB.
Arguments Ok {_} _.
Arguments Throw {_} _.
Arguments UB {_}.

Definition ST (S A : Type) : Type := S → outcome A * S.

Section monad.
Context {S : Type}.

#[global] Instance st_ret : MRet (ST S) := λ A a s, (Ok a, s).
#[global] Instance st_bind : MBind (ST S) := λ A B f m s,
  match m s with
  | (Ok a, s') => f a s'
  | (Throw e, s') => (Throw e, s')
  | (UB, s') => (UB, s')
  end.

Definition throw {A} (e : exn) : ST S A := λ s, (Throw e, s).
Definition undefined {A} : ST S A := λ s, (UB, s).
Definition get : ST S S := λ s, (Ok s, s).
Definition put (s : S) : ST S unit := λ _, (Ok tt, s).
Definition gets {A} (f : S → A) : ST S A := λ s, (Ok (f s), s).
Definition modify (f : S → S) : ST S unit := λ s, (Ok tt, f s).

(** [try { m } catch (const std::exception&) { h }] *)
Definition try_catch {A} (m : ST S A) (h : exn → ST S A) : ST S A := λ s,
  match m s with
  | (Throw e, s') => h e s'
  | r => r
  end.

(** Dereference of something that may not be there. *)
Definition deref {A} (o : option A) : ST S A :=
  match o with Some a => mret a | None => undefined end.

Definition when (b : bool) (m : ST S unit) : ST S unit :=
  if b then m else mret tt.

(** A range-for whose body never leaves the loop early. *)
Fixpoint for_each {A} (l : list A) (f : A → ST S unit) : ST S unit :=
  match l with
  | [] => mret tt
  | x :: l => _ ← f x; for_each l f
  end.

(** A range-for with loop-carried local variables. *)
Fixpoint fold_each {A B} (l : list A) (b : B) (f : B → A → ST S B) : ST S B :=
  match l with
  | [] => mret b
  | x :: l => b ← f b x; fold_each l b f
  end.

(** A loop whose body may leave it ([break], or [return] of the enclosing
    function): [f] returns [true] to go on. *)
Fixpoint for_while {A} (l : list A) (f : A → ST S bool) : ST S unit :=
  match l with
  | [] => mret tt
  | x :: l => b ← f x; if (b : bool) then for_while l f else mret tt
  end.
End monad.

Notation "m1 ;; m2" := (mbind (λ _, m2) m1)
  (at level 100, m2 at level 200, right associativity) : stdpp_scope.

(** Lifting a computation on a component into the state that holds it. *)
Definition zoom {S T A} (view : S → T) (upd : T → S → S) (m : ST T A) : ST S A :=
  λ s, match m (view s) with (o, t) => (o, upd t s) end.

(** ** 3. Total-correctness triples

    [hoare P m Q E]: from a state of [P], [m] has defined behaviour, ends in
    [Q] when it returns and in [E] when it throws. *)

Definition hoare {S A} (P : S → Prop) (m : ST S A)
    (Q : A → S → Prop) (E : exn → S → Prop) : Prop :=
  ∀ s, P s → match m s with
             | (Ok a, s') => Q a s'
             | (Throw e, s') => E e s'
             | (UB, _) => False
             end.

Definition no_throw {S} : exn → S → Prop := λ _ _, False.

Section hoare_rules.
Context {S : Type}.
Implicit Types P : S → Prop.

Lemma hoare_conseq {A} P P' (m : ST S A) Q Q' E E' :
  hoare P m Q E → (∀ s, P' s → P s) →
  (∀ a s, Q a s → Q' a s) → (∀ e s, E e s → E' e s) → hoare P' m Q' E'.
Proof.
  intros Hm HP HQ HE s Hs. specialize (Hm s (HP s Hs)).
  destruct (m s) as [[a|e|] s']; auto.
Qed.

Lemma hoare_weaken {A} P P' (m : ST S A) Q Q' E :
  hoare P m Q E → (∀ s, P' s → P s) → (∀ a s, Q a s → Q' a s) → hoare P' m Q' E.
Proof. intros Hm HP HQ. by eapply hoare_conseq. Qed.

Lemma hoare_get P (Q : S → S → Prop) E : (∀ s, P s → Q s s) → hoare P get Q E.
Proof. intros H s Hs. by apply H. Qed.

Lemma hoare_gets {A} P (f : S → A) (Q : A → S → Prop) E : (∀ s, P s → Q (f s) s) → hoare P (gets f) Q E.
Proof. intros H s Hs. by apply H. Qed.

Lemma hoare_modify P (f : S → S) (Q : unit → S → Prop) E : (∀ s, P s → Q tt (f s)) → hoare P (modify f) Q E.
Proof. intros H s Hs. by apply H. Qed.

Lemma hoare_deref {A} P (o : option A) (Q : A → S → Prop) E :
  (∀ s, P s → ∃ a, o = Some a ∧ Q a s) → hoare P (deref o) Q E.
Proof. intros H s Hs. by destruct (H s Hs) as (a & -> & ?). Qed.

(** A fact about the state that does not depend on what [m] does to it. *)
Lemma hoare_pre {A} P (φ : Prop) (m : ST S A) Q E :
  (∀ s, P s → φ) → (φ → hoare P m Q E) → hoare P m Q E.
Proof. intros Hφ Hm s Hs. exact (Hm (Hφ s Hs) s Hs). Qed.

Lemma hoare_ret {A} P (a : A) (Q : A → S → Prop) E :
  (∀ s, P s → Q a s) → hoare P (mret a) Q E.
Proof. intros H s Hs. by apply H. Qed.

Lemma hoare_bind {A B} P (m : ST S A) (f : A → ST S B) R Q E :
  hoare P m R E → (∀ a, hoare (R a) (f a) Q E) → hoare P (m ≫= f) Q E.
Proof.
  intros Hm Hf s Hs. specialize (Hm s Hs).
  unfold mbind, st_bind. destruct (m s) as [[a|e|] s'];
    [by apply Hf|done|done].
Qed.

Lemma hoare_for_each {A} P (l : list A) (f : A → ST S unit) E :
  (∀ x, x ∈ l → hoare P (f x) (λ _, P) E) → hoare P (for_each l f) (λ _, P) E.
Proof.
  induction l as [|x l IH]; intros Hf; simpl.
  - by apply hoare_ret.
  - eapply hoare_bind; [apply Hf; set_solver|].
    intros ?. apply IH. intros y Hy. apply Hf. set_solver.
Qed.

(** The same with an invariant that knows the rounds done. *)
Lemma hoare_for_each_done {A} (I : list A → S → Prop) (l : list A) (f : A → ST S unit) E :
  (∀ done x rest, l = done ++ x :: rest → hoare (I done) (f x) (λ _, I (done ++ [x])) E) →
  hoare (I []) (for_each l f) (λ _, I l) E.
Proof.
  assert (∀ done rest, l = done ++ rest →
    (∀ done x rest, l = done ++ x :: rest → hoare (I done) (f x) (λ _, I (done ++ [x])) E) →
    hoare (I done) (for_each rest f) (λ _, I l) E) as Hgen.
  { intros done rest. revert done. induction rest as [|x rest IH]; intros done Hl Hf; simpl.
    - apply hoare_ret. by rewrite Hl, app_nil_r.
    - eapply hoare_bind; [by eapply Hf|]. intros []. apply IH; [|done]. by rewrite <- app_assoc. }
  intros Hf. by apply (Hgen []).
Qed.

Lemma for_each_app {A} (l1 l2 : list A) (f : A → ST S unit) s :
  for_each (l1 ++ l2) f s = (for_each l1 f ;; for_each l2 f) s.
Proof.
  revert s. induction l1 as [|x l1 IH]; intros s; [done|]. cbn [app for_each]. unfold mbind, st_bind.
  destruct (f x s) as [[[]|e|] s']; [apply IH|done..].
Qed.

(** A loop none of whose rounds changes the state. *)
Lemma for_each_skip {A} (l : list A) (f : A → ST S unit) s :
  (∀ x, x ∈ l → f x s = (Ok tt, s)) → for_each l f s = (Ok tt, s).
Proof.
  induction l as [|x l IH]; intros Hf; simpl; [done|].
  unfold mbind, st_bind. rewrite Hf by set_solver. apply IH. set_solver.
Qed.

Lemma hoare_fold_each {A B} (I : B → S → Prop) (l : list A) b (f : B → A → ST S B) E :
  (∀ x b, x ∈ l → hoare (I b) (f b x) I E) → hoare (I b) (fold_each l b f) I E.
Proof.
  revert b. induction l as [|x l IH]; intros b Hf; simpl.
  - by apply hoare_ret.
  - eapply hoare_bind; [apply Hf; set_solver|].
    intros b'. apply IH. intros y b'' Hy. apply Hf. set_solver.
Qed.

Lemma hoare_for_while {A} P (l : list A) (f : A → ST S bool) E :
  (∀ x, x ∈ l → hoare P (f x) (λ _, P) E) → hoare P (for_while l f) (λ _, P) E.
Proof.
  induction l as [|x l IH]; intros Hf; simpl.
  - by apply hoare_ret.
  - eapply hoare_bind; [apply Hf; set_solver|].
    intros [|]; [|by apply hoare_ret].
    apply IH. intros y Hy. apply Hf. set_solver.
Qed.

Lemma hoare_try_catch {A} P (m : ST S A) h Q E E' :
  hoare P m Q E' → (∀ e, hoare (E' e) (h e) Q E) → hoare P (try_catch m h) Q E.
Proof.
  intros Hm Hh s Hs. specialize (Hm s Hs). unfold try_catch.
  destruct (m s) as [[a|e|] s']; [done| |done]. by apply Hh.
Qed.

(** A triple without exceptions, at one state. *)
Lemma hoare_run {A} P (m : ST S A) Q s :
  hoare P m Q no_throw → P s → ∃ a s', m s = (Ok a, s') ∧ Q a s'.
Proof. intros Hm Hs. specialize (Hm s Hs). destruct (m s) as [[a|e|] s']; [eauto|done|done]. Qed.
End hoare_rules.

(** Unfolding a bind whose first computation is known. *)
Lemma bind_ok {S A B} (m : ST S A) (f : A → ST S B) s a s' :
  m s = (Ok a, s') → (m ≫= f) s = f a s'.
Proof. intros H. unfold mbind, st_bind. by rewrite H. Qed.

Lemma ok_pair {S A} (p : outcome A * S) a : p.1 = Ok a → p = (Ok a, p.2).
Proof. destruct p. by intros [= ->]. Qed.

Lemma get_bind {S A} (f : S → ST S A) s : (get ≫= f) s = f s s.
Proof. done. Qed.
Lemma gets_bind {S A B} (g : S → A) (f : A → ST S B) s : (gets g ≫= f) s = f (g s) s.
Proof. done. Qed.
Lemma modify_bind {S A} (g : S → S) (f : unit → ST S A) s : (modify g ≫= f) s = f tt (g s).
Proof. done. Qed.

Lemma bind_ext {S A B} (m : ST S A) (f g : A → ST S B) s :
  (∀ a s', m s = (Ok a, s') → f a s' = g a s') → (m ≫= f) s = (m ≫= g) s.
Proof. intros H. unfold mbind, st_bind. destruct (m s) as [[a|e|] s'] eqn:Hm; auto. Qed.

Lemma bind_throw {S A B} (m : ST S A) (f : A → ST S B) s e s' :
  m s = (Throw e, s') → (m ≫= f) s = (Throw e, s').
Proof. intros H. unfold mbind, st_bind. by rewrite H. Qed.

Lemma bind_ub {S A B} (m : ST S A) (f : A → ST S B) s s' :
  m s = (UB, s') → (m ≫= f) s = (UB, s').
Proof. intros H. unfold mbind, st_bind. by rewrite H. Qed.

(** ** 4. What a computation leaves alone

    [always R m]: the state after [m] is related to the state before it, whether
    [m] returns or throws.  With a preorder [R] this says what [m] keeps, or
    which invariant it preserves.  Of undefined behaviour nothing is said. *)

Definition leaves {S A} (m : ST S A) (s : S) (Q : S → Prop) : Prop :=
  match m s with (UB, _) => True | (_, s') => Q s' end.
Definition always {S A} (R : S → S → Prop) (m : ST S A) : Prop := ∀ s, leaves m s (R s).

(** [m] does not throw. *)
Definition never_throws {S A} (m : ST S A) : Prop := ∀ s e s', m s ≠ (Throw e, s').

Create HintDb frame discriminated.

Section always.
Context {S : Type} (R : S → S → Prop) `{!PreOrder R}.

Lemma always_ret {A} (a : A) : always R (mret a).
Proof. intros s. unfold leaves. simpl. reflexivity. Qed.
Lemma always_throw {A} e : always R (throw e : ST S A).
Proof. intros s. unfold leaves. simpl. reflexivity. Qed.
Lemma always_undefined {A} : always R (undefined : ST S A).
Proof. done. Qed.
Lemma always_get : always R get.
Proof. intros s. unfold leaves. simpl. reflexivity. Qed.
Lemma always_gets {A} (f : S → A) : always R (gets f).
Proof. intros s. unfold leaves. simpl. reflexivity. Qed.
Lemma always_deref {A} (o : option A) : always R (deref o).
Proof. destruct o; [apply always_ret|apply always_undefined]. Qed.

Lemma always_bind {A B} (m : ST S A) (f : A → ST S B) :
  always R m → (∀ a, always R (f a)) → always R (m ≫= f).
Proof.
  intros Hm Hf s. specialize (Hm s). unfold leaves, mbind, st_bind in *. destruct (m s) as [[a|e|] s']; [|done..].
  specialize (Hf a s'). unfold leaves in Hf. destruct (f a s') as [[b|e|] s'']; [by etrans..|done].
Qed.

Lemma always_for_each {A} (l : list A) (f : A → ST S unit) :
  (∀ x, always R (f x)) → always R (for_each l f).
Proof. intros Hf. induction l; simpl; [apply always_ret|by apply always_bind]. Qed.

Lemma always_fold_each {A B} (l : list A) (b : B) (f : B → A → ST S B) :
  (∀ b x, always R (f b x)) → always R (fold_each l b f).
Proof. intros Hf. revert b. induction l; intros b; simpl; [apply always_ret|by apply always_bind]. Qed.

Lemma always_for_while {A} (l : list A) (f : A → ST S bool) :
  (∀ x, always R (f x)) → always R (for_while l f).
Proof.
  intros Hf. induction l; simpl; [apply always_ret|]. apply always_bind; [done|]. intros [|]; [done|apply always_ret].
Qed.

Lemma always_try_catch {A} (m : ST S A) h :
  always R m → (∀ e, always R (h e)) → always R (try_catch m h).
Proof.
  intros Hm Hh s. specialize (Hm s). unfold leaves, try_catch in *. destruct (m s) as [[a|e|] s']; [done| |done].
  specialize (Hh e s'). unfold leaves in Hh. destruct (h e s') as [[b|e'|] s'']; [by etrans..|done].
Qed.

Lemma always_modify (f : S → S) : (∀ s, R s (f s)) → always R (modify f).
Proof. intros Hf s. apply Hf. Qed.

Lemma always_zoom {T A} (view : S → T) (upd : T → S → S) (m : ST T A) :
  (∀ t s, R s (upd t s)) → always R (zoom view upd m).
Proof. intros Hu s. unfold leaves, zoom. by destruct (m (view s)) as [[] t]. Qed.

(** Taking and releasing a lock around [m]. *)
Lemma always_bracket {A} (m : ST S A) (f g : S → S) s :
  (∀ s, R s (f s)) → (∀ s, R s (g s)) → always R m →
  leaves (λ s, let (o, s') := m (f s) in (o, g s')) s (R s).
Proof.
  intros Hf Hg Hm. specialize (Hm (f s)). unfold leaves in *. destruct (m (f s)) as [[a|e|] s']; [| |done].
  - etrans; [apply Hf|]. etrans; [exact Hm|apply Hg].
  - etrans; [apply Hf|]. etrans; [exact Hm|apply Hg].
Qed.
End always.

(** Keeping a part of the state, and preserving a property, are preorders. *)
Definition same {S T} (f : S → T) (s s' : S) : Prop := f s' = f s.
Definition stays {S} (I : S → Prop) (s s' : S) : Prop := I s → I s'.
#[global] Instance same_preorder {S T} (f : S → T) : PreOrder (same f).
Proof. split; [by intros ?|]. unfold same. intros ??? H1 H2. congruence. Qed.
#[global] Instance stays_preorder {S} (I : S → Prop) : PreOrder (stays I).
Proof. split; [by intros ? ?|]. unfold stays. intros ??? ? ? ?. auto. Qed.

Lemma always_weaken {S A} (R R' : S → S → Prop) (m : ST S A) :
  (∀ s s', R s s' → R' s s') → always R m → always R' m.
Proof. intros HR Hm s. specialize (Hm s). unfold leaves in *. destruct (m s) as [[] s']; auto. Qed.

Lemma never_throws_deref {S A} (o : option A) : never_throws (deref o : ST S A).
Proof. by destruct o. Qed.

(** The same at one state. *)
Lemma leaves_ok {S A B} (m : ST S A) (f : A → ST S B) s a s' Q :
  m s = (Ok a, s') → leaves (f a) s' Q → leaves (m ≫= f) s Q.
Proof. intros Hm Hf. unfold leaves. by rewrite (bind_ok _ _ _ _ _ Hm). Qed.

Lemma leaves_bind {S A B} (m : ST S A) (f : A → ST S B) s P Q :
  leaves m s P → (∀ s', P s' → Q s') → (∀ a s', P s' → leaves (f a) s' Q) → leaves (m ≫= f) s Q.
Proof.
  intros Hm HQ Hf. unfold leaves, mbind, st_bind in *. destruct (m s) as [[a|e|] s']; [by apply Hf|auto|done].
Qed.

Lemma leaves_then {S A B} (m : ST S A) (f : A → ST S B) s (R : S → S → Prop) Q :
  always R m → never_throws m → (∀ a s', R s s' → leaves (f a) s' Q) → leaves (m ≫= f) s Q.
Proof.
  intros Hm Hnt Hf. specialize (Hm s). specialize (Hnt s). unfold leaves, mbind, st_bind in *.
  destruct (m s) as [[a|e|] s']; [by apply Hf|by destruct (Hnt e s')|done].
Qed.

Lemma leaves_weaken {S A} (m : ST S A) s (P Q : S → Prop) : leaves m s P → (∀ s', P s' → Q s') → leaves m s Q.
Proof. unfold leaves. destruct (m s) as [[] s']; auto. Qed.

Lemma leaves_always {S A} (R : S → S → Prop) (m : ST S A) s Q : always R m → (∀ s', R s s' → Q s') → leaves m s Q.
Proof. intros Hm. by apply leaves_weaken. Qed.

Lemma stays_leaves {S A} (m : ST S A) (I : S → Prop) : (∀ s, I s → leaves m s I) → always (stays I) m.
Proof. intros Hm s. unfold leaves, stays in *. specialize (Hm s). destruct (m s) as [[] s']; auto. Qed.

Lemma leaves_stays {S A} (m : ST S A) (I : S → Prop) s : always (stays I) m → I s → leaves m s I.
Proof. intros Hm Hs. specialize (Hm s). unfold leaves, stays in *. destruct (m s) as [[] s']; auto. Qed.

(** ** Computations that do not throw *)

Create HintDb calm discriminated.

Section calm.
Context {S : Type}.

Lemma never_throws_bind {A B} (m : ST S A) (f : A → ST S B) :
  never_throws m → (∀ a, never_throws (f a)) → never_throws (m ≫= f).
Proof.
  intros Hm Hf s e s'. unfold mbind, st_bind. specialize (Hm s). destruct (m s) as [[a|e'|] s1] eqn:E; [apply Hf| |done].
  by destruct (Hm e' s1).
Qed.

Lemma never_throws_for_each {A} (l : list A) (f : A → ST S unit) :
  (∀ x, never_throws (f x)) → never_throws (for_each l f).
Proof. intros Hf. induction l; simpl; [by intros ???|by apply never_throws_bind]. Qed.

Lemma never_throws_fold_each {A B} (l : list A) (b : B) (f : B → A → ST S B) :
  (∀ b x, never_throws (f b x)) → never_throws (fold_each l b f).
Proof. intros Hf. revert b. induction l; intros b; simpl; [by intros ???|by apply never_throws_bind]. Qed.

Lemma never_throws_zoom {T A} (view : S → T) (upd : T → S → S) (m : ST T A) :
  never_throws m → never_throws (zoom view upd m).
Proof. intros Hm s e s'. unfold zoom. specialize (Hm (view s)). destruct (m (view s)) as [[] t]; [done| |done]. by destruct (Hm e0 t). Qed.
End calm.

(** The structural rules, and what the database says of the calls. *)
Ltac calm_structure :=
  match goal with
  | |- never_throws (mbind _ _) => apply never_throws_bind; [|intros ?]
  | |- never_throws (let _ := _ in _) => cbv zeta
  | |- never_throws (match ?x with _ => _ end) => destruct x
  | |- never_throws (for_each _ _) => apply never_throws_for_each; intros ?
  | |- never_throws (fold_each _ _ _) => apply never_throws_fold_each; intros ? ?
  | |- never_throws (zoom _ _ _) => apply never_throws_zoom
  | |- never_throws (when ?b _) => destruct b; simpl
  | |- never_throws (deref _) => apply never_throws_deref
  | |- never_throws (mret _) => by intros ???
  | |- never_throws undefined => by intros ???
  | |- never_throws get => by intros ???
  | |- never_throws (gets _) => by intros ???
  | |- never_throws (modify _) => by intros ???
  end.
Ltac calm := intros; repeat (first [assumption | calm_structure | solve [eauto 4 with calm]]).

(** ** What holds when a computation returns *)

Definition returns {S A} (m : ST S A) (s : S) (Q : A → S → Prop) : Prop :=
  match m s with (Ok a, s') => Q a s' | _ => True end.

Lemma returns_bind {S A B} (m : ST S A) (f : A → ST S B) s P Q :
  returns m s P → (∀ a s', P a s' → returns (f a) s' Q) → returns (m ≫= f) s Q.
Proof. unfold returns, mbind, st_bind. intros Hm Hf. destruct (m s) as [[a|e|] s']; [by apply Hf|done..]. Qed.

Lemma returns_ok {S A B} (m : ST S A) (f : A → ST S B) s a s' Q :
  m s = (Ok a, s') → returns (f a) s' Q → returns (m ≫= f) s Q.
Proof. intros Hm Hf. unfold returns. by rewrite (bind_ok _ _ _ _ _ Hm). Qed.

Lemma returns_always {S A} (R : S → S → Prop) (m : ST S A) s : always R m → returns m s (λ _, R s).
Proof. intros Hm. specialize (Hm s). unfold returns, leaves in *. by destruct (m s) as [[a|e|] s']. Qed.

Lemma returns_leaves {S A} (m : ST S A) s Q : leaves m s Q → returns m s (λ _, Q).
Proof. unfold returns, leaves. by destruct (m s) as [[a|e|] s']. Qed.

Lemma returns_deref {S A} (o : option A) (s : S) : returns (deref o) s (λ a s', o = Some a ∧ s' = s).
Proof. by destruct o. Qed.

Lemma returns_weaken {S A} (m : ST S A) s (P Q : A → S → Prop) :
  returns m s P → (∀ a s', P a s' → Q a s') → returns m s Q.
Proof. unfold returns. destruct (m s) as [[a|e|] s']; auto. Qed.

Lemma returns_and {S A} (m : ST S A) s (P Q : A → S → Prop) :
  returns m s P → returns m s Q → returns m s (λ a s', P a s' ∧ Q a s').
Proof. unfold returns. by destruct (m s) as [[a|e|] s']. Qed.

(** A loop invariant, indexed by what is left of the list. *)
Lemma returns_for_each {S A} (I : list A → S → Prop) (l : list A) (f : A → ST S unit) s :
  (∀ x l s, I (x :: l) s → returns (f x) s (λ _, I l)) → I l s → returns (for_each l f) s (λ _, I []).
Proof.
  intros Hf. revert s. induction l as [|x l IH]; intros s Hs; [done|]. cbn [for_each].
  eapply returns_bind; [by apply Hf|]. intros [] s'. apply IH.
Qed.

#[export] Hint Extern 0 (PreOrder _) => typeclasses eauto : frame.

Ltac always_structure :=
  match goal with
  | |- PreOrder _ => typeclasses eauto
  | |- always _ (mbind _ _) => apply always_bind; [| |intros ?]
  | |- always _ (let _ := _ in _) => cbv zeta
  | |- always _ (match ?x with _ => _ end) => destruct x
  | |- always _ (for_each _ _) => apply always_for_each; [|intros ?]
  | |- always _ (fold_each _ _ _) => apply always_fold_each; [|intros ? ?]
  | |- always _ (for_while _ _) => apply always_for_while; [|intros ?]
  | |- always _ (try_catch _ _) => apply always_try_catch; [| |intros ?]
  | |- always _ (when ?b _) => destruct b; simpl
  | |- always _ (mret _) => apply always_ret
  | |- always _ (throw _) => apply always_throw
  | |- always _ undefined => apply always_undefined
  | |- always _ get => apply always_get
  | |- always _ (gets _) => apply always_gets
  | |- always _ (deref _) => apply always_deref
  end.

(** The structural rules, and what the database says of the calls. *)
Ltac frame := intros; repeat (first [assumption | always_structure | solve [eauto 4 with frame]]).

(** ** 5. Ordered iteration

    [std::map] and [std::set] are iterated in ascending key order; a [gmap]
    is iterated by sorting its association list. *)

Class KeyOrd (K : Type) := {
  key_le : relation K;
  key_le_dec :: RelDecision key_le;
  key_le_total :: Total key_le;
  key_le_trans :: Transitive key_le;
  key_le_antisymm :: AntiSymm (=) key_le;
}.
#[global] Hint Mode KeyOrd ! : typeclass_instances.

#[global] Instance Z_ord : KeyOrd Z := {| key_le := Z.le |}.

Definition pair_le {K1 K2} `{KeyOrd K1, KeyOrd K2} (a b : K1 * K2) : Prop :=
  (key_le a.1 b.1 ∧ a.1 ≠ b.1) ∨ (a.1 = b.1 ∧ key_le a.2 b.2).

#[global] Program Instance pair_ord {K1 K2} `{EqDecision K1, KeyOrd K1, KeyOrd K2} :
  KeyOrd (K1 * K2) := {| key_le := pair_le |}.
Next Obligation. intros. intros a b. unfold pair_le. apply _. Defined.
Next Obligation.
  intros. intros [a1 a2] [b1 b2]. unfold pair_le; simpl.
  destruct (decide (a1 = b1)) as [->|Hne].
  - destruct (total key_le a2 b2); auto.
  - destruct (total key_le a1 b1); auto.
Qed.
Next Obligation.
  intros. intros [a1 a2] [b1 b2] [c1 c2]. unfold pair_le; simpl.
  intros [[H1 N1]|[-> H1]] [[H2 N2]|[-> H2]].
  - left. split; [by etrans|]. intros ->. apply N1. by apply (anti_symm key_le).
  - by left.
  - by left.
  - right. split; [done|by etrans].
Qed.
Next Obligation.
  intros. intros [a1 a2] [b1 b2]. unfold pair_le; simpl.
  intros [[H1 N1]|[-> H1]] [[H2 N2]|[? H2]]; simplify_eq.
  - destruct N1. by apply (anti_symm key_le).
  - f_equal. by apply (anti_symm key_le).
Qed.

Section sorted_iteration.
Context {K : Type} `{Countable K, KeyOrd K} {V : Type}.

Definition entry_le (a b : K * V) : Prop := key_le a.1 b.1.
#[global] Instance entry_le_dec a b : Decision (entry_le a b).
Proof. unfold entry_le. apply _. Defined.
#[global] Instance entry_le_total : Total entry_le.
Proof. intros a b. apply (total key_le). Qed.
#[global] Instance entry_le_trans : Transitive entry_le.
Proof. intros a b c. unfold entry_le. apply transitivity. Qed.

(** The entries in the order a range-for over the map visits them. *)
Definition entries (m : gmap K V) : list (K * V) :=
  merge_sort entry_le (map_to_list m).

(** [for (it = m.lower_bound(k); it != m.end(); ++it)]. *)
Definition lower_bound (k : K) (m : gmap K V) : list (K * V) :=
  filter (λ e, key_le k e.1) (entries m).

Lemma entries_perm m : entries m ≡ₚ map_to_list m.
Proof. apply merge_sort_Permutation. Qed.

Lemma elem_of_entries m k v : (k, v) ∈ entries m ↔ m !! k = Some v.
Proof. rewrite entries_perm. apply elem_of_map_to_list. Qed.

Lemma NoDup_entries m : NoDup (entries m).*1.
Proof. rewrite entries_perm. apply NoDup_fst_map_to_list. Qed.

Lemma entries_sorted m : StronglySorted entry_le (entries m).
Proof. apply StronglySorted_merge_sort; apply _. Qed.

Lemma elem_of_lower_bound k m k' v :
  (k', v) ∈ lower_bound k m ↔ m !! k' = Some v ∧ key_le k k'.
Proof. unfold lower_bound. rewrite list_elem_of_filter, elem_of_entries. simpl. tauto. Qed.

Lemma entries_empty : entries ∅ = [].
Proof. done. Qed.
Lemma entries_singleton k v : entries {[k := v]} = [(k, v)].
Proof. unfold entries. by rewrite map_to_list_singleton. Qed.
End sorted_iteration.

Lemma StronglySorted_filter {A} (R : relation A) (P : A → Prop)
    `{∀ x, Decision (P x)} l :
  StronglySorted R l → StronglySorted R (filter P l).
Proof.
  induction 1 as [|x l Hs IH Hall]; [constructor|].
  rewrite filter_cons. case_decide; [|done]. constructor; [done|].
  rewrite Forall_forall in *. intros y [_ Hy]%list_elem_of_filter. auto.
Qed.

Lemma StronglySorted_reverse {A} (R : relation A) l :
  StronglySorted R l → StronglySorted (flip R) (reverse l).
Proof.
  induction 1 as [|x l Hs IH Hall]; [constructor|]. rewrite reverse_cons.
  apply StronglySorted_app_2; [|done|by repeat constructor].
  rewrite Forall_forall in Hall. intros a b Ha Hb%list_elem_of_singleton.
  rewrite elem_of_reverse in Ha. subst b. exact (Hall a Ha).
Qed.

(** Sorted pieces in sorted order. *)
Lemma StronglySorted_concat {A} (R : relation A) (ls : list (list A)) :
  Forall (StronglySorted R) ls →
  StronglySorted (λ l1 l2, ∀ a b, a ∈ l1 → b ∈ l2 → R a b) ls →
  StronglySorted R (concat ls).
Proof.
  intros Hf Hs. induction Hs as [|l ls Hs IH Hall]; [constructor|].
  inversion Hf; subst. cbn [concat]. apply StronglySorted_app_2; [|done|auto].
  intros a b Ha Hb. rewrite Forall_forall in Hall.
  apply list_elem_of_In, in_concat in Hb as (l' & Hl'%list_elem_of_In & Hb%list_elem_of_In).
  by eapply Hall.
Qed.

Lemma StronglySorted_weaken {A} (R R' : relation A) l :
  (∀ a b, a ∈ l → b ∈ l → R a b → R' a b) → StronglySorted R l → StronglySorted R' l.
Proof.
  intros HR Hs. induction Hs as [|x l Hs IH Hall]; [constructor|].
  rewrite Forall_forall in Hall. constructor.
  - apply IH. intros a b ??. apply HR; by right.
  - apply Forall_forall. intros y Hy. apply HR; [left|by right|by apply Hall].
Qed.

Section take_while.
Context {A : Type} (P : A → Prop) `{∀ x, Decision (P x)}.

(** The prefix of a loop that breaks at the first element outside [P]. *)
Fixpoint take_while (l : list A) : list A :=
  match l with
  | [] => []
  | x :: l => if decide (P x) then x :: take_while l else []
  end.

Lemma take_while_sound x l : x ∈ take_while l → x ∈ l ∧ P x.
Proof.
  induction l as [|y l IH]; simpl; [by intros ?%not_elem_of_nil|].
  case_decide as HP; [|by intros ?%not_elem_of_nil].
  rewrite !elem_of_cons. intros [->|Hx]; [auto|]. destruct (IH Hx). auto.
Qed.

Lemma take_while_complete R l x :
  StronglySorted R l → (∀ a b, R a b → P b → a ∈ l → P a) →
  x ∈ l → P x → x ∈ take_while l.
Proof.
  intros Hs HR. induction Hs as [|y l Hs IH Hall]; simpl; [set_solver|].
  rewrite Forall_forall in Hall. intros Hx HP. case_decide as Hy.
  - apply elem_of_cons in Hx as [->|Hx]; [set_solver|].
    apply elem_of_cons. right. apply IH; [|done..].
    intros a b Hab Hb Ha. apply (HR a b); set_solver.
  - destruct Hy. apply elem_of_cons in Hx as [->|Hx]; [done|].
    apply (HR y x); [by apply Hall|done|set_solver].
Qed.
End take_while.

Section same_first.
Context {K : Type} `{Countable K, KeyOrd K} {V : Type}.

(** The loop
    [for (it = m.lower_bound({h, 0}); it != m.end(); ++it)
       { if (it->first.first != h) break; ... }],
    the idiom the relay uses to visit the entries whose key starts with [h]. *)
Definition same_first (h : K) (m : gmap (K * Z) V) : list ((K * Z) * V) :=
  take_while (λ e, e.1.1 = h) (lower_bound (h, 0) m).

Lemma elem_of_same_first h m k v :
  (k, v) ∈ same_first h m ↔ m !! k = Some v ∧ k.1 = h ∧ 0 ≤ k.2.
Proof.
  unfold same_first. split.
  - intros [Hl Hk]%take_while_sound. simpl in Hk.
    apply elem_of_lower_bound in Hl as [Hm Hle]. split_and!; [done..|].
    destruct k as [k1 k2], Hle as [[_ Hne]|[_ Hle]]; simpl in *; [done|exact Hle].
  - intros (Hm & Hk & Hge). destruct k as [k1 k2]; simpl in *; subst k1.
    apply take_while_complete with (R := entry_le); [| |by apply elem_of_lower_bound; split; [|right]|done].
    + unfold lower_bound. apply StronglySorted_filter, entries_sorted.
    + intros [[a1 a2] va] [[b1 b2] vb] Hab Hb Ha. simpl in *. subst b1.
      apply elem_of_lower_bound in Ha as [_ Ha].
      unfold entry_le in Hab. simpl in *.
      destruct Hab as [[Hle Hne]|[Heq _]]; simpl in *; [|done].
      destruct Ha as [[Hle' _]|[Heq _]]; simpl in *; [|done].
      by apply (anti_symm key_le).
Qed.
End same_first.

Section same_first_order.
Context {K : Type} `{Countable K, KeyOrd K} {V : Type}.

Lemma take_while_prefix {A} (P : A → Prop) `{∀ x, Decision (P x)} l :
  ∃ k, l = take_while P l ++ k.
Proof.
  induction l as [|x l [k IH]]; simpl; [by exists []|].
  case_decide; [|by exists (x :: l)]. exists k. simpl. by f_equal.
Qed.

Lemma same_first_prefix (h : K) (m : gmap (K * Z) V) :
  ∃ k, lower_bound (h, 0) m = same_first h m ++ k.
Proof. apply take_while_prefix. Qed.

Lemma same_first_sorted (h : K) (m : gmap (K * Z) V) :
  StronglySorted entry_le (same_first h m).
Proof.
  destruct (same_first_prefix h m) as [k Hk].
  apply (StronglySorted_app_1_l _ _ k). rewrite <- Hk.
  apply StronglySorted_filter, entries_sorted.
Qed.

Lemma NoDup_keys_filter {A B} (P : A * B → Prop) `{∀ x, Decision (P x)} (l : list (A * B)) :
  NoDup l.*1 → NoDup (filter P l).*1.
Proof.
  induction l as [|e l IH]; cbn [fmap list_fmap]; [done|]. intros [Hnot Hnd]%NoDup_cons. rewrite filter_cons.
  case_decide; [|by apply IH]. apply NoDup_cons. split; [|by apply IH].
  intros (e' & He & [_ Hin]%list_elem_of_filter)%list_elem_of_fmap. apply Hnot. rewrite He. by apply list_elem_of_fmap_2.
Qed.

Lemma same_first_NoDup_keys (h : K) (m : gmap (K * Z) V) : NoDup (same_first h m).*1.
Proof.
  destruct (same_first_prefix h m) as [k Hk].
  assert (NoDup ((same_first h m).*1 ++ k.*1)) as [? _]%NoDup_app; [|done].
  rewrite <- fmap_app, <- Hk. apply NoDup_keys_filter, NoDup_entries.
Qed.

Lemma same_first_NoDup (h : K) (m : gmap (K * Z) V) : NoDup (same_first h m).
Proof. apply (NoDup_fmap_1 fst), same_first_NoDup_keys. Qed.

(** The entry with the greatest second key is visited last. *)
Lemma same_first_last (h : K) (m : gmap (K * Z) V) s v :
  m !! (h, s) = Some v → 0 ≤ s →
  (∀ s' v', m !! (h, s') = Some v' → s' ≠ s → s' < s) →
  ∃ l, same_first h m = l ++ [((h, s), v)] ∧
       ∀ k i, (k, i) ∈ l → m !! k = Some i ∧ k.1 = h ∧ k.2 ≠ s.
Proof.
  intros Hm Hs Hmax.
  assert (((h, s), v) ∈ same_first h m) as Hin by by apply elem_of_same_first.
  apply list_elem_of_split in Hin as (l & l2 & Hl).
  pose proof (same_first_sorted h m) as Hso. pose proof (same_first_NoDup h m) as Hnd.
  rewrite Hl in Hso, Hnd.
  assert (∀ k i, (k, i) ∈ l ++ ((h, s), v) :: l2 → m !! k = Some i ∧ k.1 = h) as Hall.
  { intros k i Hk. rewrite <- Hl in Hk. apply elem_of_same_first in Hk. tauto. }
  assert (∀ k i, (k, i) ∈ l ++ ((h, s), v) :: l2 → k.2 = s → (k, i) = ((h, s), v)) as Huniq.
  { intros [k1 k2] i Hk Hks. destruct (Hall _ _ Hk) as [Hki Hkh]; simpl in *; subst. by simplify_eq. }
  apply NoDup_app in Hnd as (_ & Hdis & Hnd2). apply NoDup_cons in Hnd2 as [Hnot _].
  destruct l2 as [|[[k1 k2] i] l2].
  - exists l. split; [done|]. intros k i Hk.
    destruct (Hall k i) as [? ?]; [set_solver|]. split_and!; [done..|].
    intros Hks. apply (Hdis (k, i)); [done|]. rewrite (Huniq k i); [left|set_solver|done].
  - exfalso. destruct (Hall (k1, k2) i) as [Hki Hkh]; [set_solver|]. simpl in Hkh; subst k1.
    apply StronglySorted_app_1_r, StronglySorted_inv in Hso as [_ Hf].
    rewrite Forall_forall in Hf. specialize (Hf ((h, k2), i) ltac:(set_solver)).
    destruct (decide (k2 = s)) as [->|Hne].
    + apply Hnot. rewrite <- (Huniq (h, s) i); [left|set_solver|done].
    + specialize (Hmax _ _ Hki Hne). destruct Hf as [[_ Hx]|[_ Hx]]; simpl in Hx; [done|].
      unfold key_le in Hx; simpl in Hx. lia.
Qed.
End same_first_order.

(** Iteration of a [std::set]. *)
Definition set_elements {K} `{Countable K, KeyOrd K} (s : gset K) : list K :=
  merge_sort key_le (elements s).

Lemma elem_of_set_elements {K} `{Countable K, KeyOrd K} (s : gset K) x :
  x ∈ set_elements s ↔ x ∈ s.
Proof. unfold set_elements. rewrite merge_sort_Permutation. apply elem_of_elements. Qed.

Lemma length_set_elements {K} `{Countable K, KeyOrd K} (s : gset K) :
  length (set_elements s) = size s.
Proof. unfold set_elements. by rewrite merge_sort_Permutation. Qed.

Lemma list_to_set_elements_sorted {K} `{Countable K, KeyOrd K} (s : gset K) :
  list_to_set (set_elements s) = s.
Proof. apply set_eq. intros x. by rewrite elem_of_list_to_set, elem_of_set_elements. Qed.

Create Rewrite HintDb laps_iter.
#[export] Hint Rewrite @elem_of_entries @elem_of_lower_bound @elem_of_same_first
  @elem_of_set_elements using typeclasses eauto : laps_iter.

(** ** 6. Sizes *)

Lemma size_list_to_set_le {K} `{Countable K} (l : list K) :
  (size (list_to_set l : gset K) ≤ length l)%nat.
Proof.
  induction l as [|x l IH]; [done|]. rewrite list_to_set_cons. cbn [length].
  rewrite size_union_alt, size_singleton.
  assert (size (list_to_set l ∖ {[x]} : gset K) ≤ size (list_to_set l : gset K))%nat by (apply subseteq_size; set_solver).
  lia.
Qed.

Lemma map_filter_size_le {K} `{Countable K} {A} (P : K * A → Prop) `{∀ x, Decision (P x)} (m : gmap K A) :
  (size (filter P m) ≤ size m)%nat.
Proof.
  rewrite <- !(size_dom (D := gset K)). apply subseteq_size. intros k [a [Hk _]%map_lookup_filter_Some]%elem_of_dom.
  by apply elem_of_dom; exists a.
Qed.
