(* ===== verification/Common.v ===== *)
(** * Byte order and framing constants (src/peering/common.h, errors.h)

    [BytesOf] and [ValueOf] with the host byte order as an argument, the
    big-endian fields the messages are made of, and the reader that models the
    iterator arithmetic of the deserialising constructors: reading past the end
    of the span is undefined behaviour. *)

From S2P Require Import Prelude.

(** ** Constants *)

Definition kViaRelayMax : Z := 5.
Definition kProtocolVersion : Z := 1.
Definition kCommonHeadersSize : Z := 7.

Module PeerMode.
Definition kIbp : Z := 0.
Definition kData : Z := 1.
Definition kBoth : Z := 2.
End PeerMode.

(** An [enum class] with a fixed underlying type holds any value of that type
    ([static_cast] from a received integer does not check), so the enumerations
    that travel on the wire are integers with named values. *)
Module MsgType.
Definition kConnect : Z := 1.
Definition kConnectResponse : Z := 2.
Definition kDataObject : Z := 3.
Definition kNodeInfoAdvertise : Z := 4.
Definition kNodeInfoWithdrawn : Z := 5.
Definition kSubscribeInfoAdvertised : Z := 6.
Definition kSubscribeInfoWithdrawn : Z := 7.
Definition kAnnounceInfoAdvertised : Z := 8.
Definition kAnnounceInfoWithdrawn : Z := 9.
Definition kSubscribeNodeSetAdvertised : Z := 10.
Definition kSubscribeNodeSetWithdrawn : Z := 11.
End MsgType.

Module ProtocolError.
Definition kNoError : Z := 0.
Definition kConnectError : Z := 1.
Definition kConnectNotAuthorized : Z := 2.
End ProtocolError.

(** ** Object representation of an unsigned integer *)

Fixpoint le_bytes (n : nat) (v : Z) : list Z :=
  match n with
  | O => []
  | S n => v mod 256 :: le_bytes n (v / 256)
  end.

Fixpoint le_value (l : list Z) : Z :=
  match l with
  | [] => 0
  | b :: l => b + 256 * le_value l
  end.

Definition byte_list (l : list Z) : Prop := Forall (in_range 8) l.
#[global] Instance byte_list_dec l : Decision (byte_list l).
Proof. unfold byte_list. apply _. Defined.

(** [BytesOf]: the bytes of the object in memory order. *)
Definition BytesOf (big : bool) (n : nat) (v : Z) : list Z :=
  if big then reverse (le_bytes n v) else le_bytes n v.

Definition of_memory (big : bool) (l : list Z) : Z :=
  le_value (if big then reverse l else l).

(** [ValueOf]: [rval_ptr[i]] is [value[i]] on a big-endian host or when
    [host_order] is false, [value[last - i]] otherwise.  The source reads
    [value[0 .. sizeof(T))], so a shorter span is undefined behaviour. *)
Definition ValueOf (big host_order : bool) (n : nat) (value : list Z) : option Z :=
  if decide (length value < n)%nat then None
  else let bytes := take n value in
       Some (of_memory big (if big || negb host_order then bytes else reverse bytes)).

Lemma length_le_bytes n v : length (le_bytes n v) = n.
Proof. revert v. induction n; intros; simpl; auto. Qed.

Lemma le_bytes_range n v : byte_list (le_bytes n v).
Proof.
  revert v. induction n as [|n IH]; intros v; simpl; constructor; [|apply IH].
  apply Z.mod_pos_bound. lia.
Qed.

Lemma le_value_bytes n v : le_value (le_bytes n v) = v mod 256 ^ Z.of_nat n.
Proof.
  revert v. induction n as [|n IH]; intros v; simpl le_bytes; simpl le_value.
  - by rewrite Z.mod_1_r.
  - rewrite IH, Nat2Z.inj_succ, Z.pow_succ_r by lia.
    rewrite Z.rem_mul_r by lia. done.
Qed.

Lemma le_bytes_value l : byte_list l → le_bytes (length l) (le_value l) = l.
Proof.
  induction 1 as [|b l Hb Hl IH]; simpl; [done|].
  unfold in_range in Hb. rewrite (Z.mul_comm 256), Z.mod_add, Z.div_add by lia.
  rewrite Z.mod_small, Z.div_small by lia. by rewrite Z.add_0_l, IH.
Qed.

Lemma le_value_range l : byte_list l → 0 ≤ le_value l < 256 ^ Z.of_nat (length l).
Proof.
  induction 1 as [|b l Hb Hl IH]; simpl; [lia|].
  unfold in_range in Hb. rewrite Nat2Z.inj_succ, Z.pow_succ_r by lia. lia.
Qed.

Lemma pow256 n : 256 ^ Z.of_nat n = 2 ^ (8 * Z.of_nat n).
Proof. change 256 with (2 ^ 8). rewrite <- Z.pow_mul_r by lia. done. Qed.

(** The relay's targets (x86-64 and arm64) are little-endian. *)
Definition kIsBigEndian : bool := false.

(** A field as every [operator<<] writes it: [BytesOf] from back to front. *)
Definition put (n : nat) (v : Z) : list Z := reverse (BytesOf kIsBigEndian n v).

Lemma length_put n v : length (put n v) = n.
Proof. unfold put. by rewrite length_reverse, length_le_bytes. Qed.

Lemma put_range n v : byte_list (put n v).
Proof. unfold put, byte_list. rewrite Forall_reverse. apply le_bytes_range. Qed.

(** ** Deserialisation: a cursor over the span *)

Abbreviation Dec := (ST (list Z)).

(** The bytes of [{it, it + n}], the cursor moved past them. *)
Definition read (n : nat) : Dec (list Z) := λ s,
  if decide (length s < n)%nat then (UB, s) else (Ok (take n s), drop n s).

Definition read_u8 : Dec Z := λ s,
  match s with [] => (UB, s) | b :: s => (Ok b, s) end.

(** [*it], the cursor left where it is. *)
Definition peek : Dec Z := λ s,
  match s with [] => (UB, s) | b :: _ => (Ok b, s) end.

(** [ValueOf<T>({ it, it + sizeof(T) }); it += sizeof(T);] *)
Definition read_uint (n : nat) : Dec Z :=
  bytes ← read n; deref (ValueOf kIsBigEndian true n bytes).

(** Memory copied back by [memcpy], in host order. *)
Definition read_native (n : nat) : Dec Z :=
  bytes ← read n; mret (of_memory kIsBigEndian bytes).

Lemma read_app n l rest : length l = n → read n (l ++ rest) = (Ok l, rest).
Proof.
  intros <-. unfold read. rewrite decide_False by (rewrite length_app; lia).
  by rewrite take_app_length, drop_app_length.
Qed.

Lemma read_uint_put n v rest :
  in_range (8 * Z.of_nat n) v → read_uint n (put n v ++ rest) = (Ok v, rest).
Proof.
  intros Hv. unfold read_uint.
  rewrite (bind_ok _ _ _ (put n v) rest) by (apply read_app, length_put).
  unfold ValueOf. rewrite decide_False by (rewrite length_put; lia).
  rewrite take_ge by (rewrite length_put; lia).
  unfold put, of_memory, BytesOf, kIsBigEndian; simpl.
  rewrite reverse_involutive, le_value_bytes, pow256.
  by rewrite Z.mod_small by done.
Qed.

Lemma read_native_bytes n v rest :
  in_range (8 * Z.of_nat n) v →
  read_native n (BytesOf kIsBigEndian n v ++ rest) = (Ok v, rest).
Proof.
  intros Hv. unfold read_native.
  rewrite (bind_ok _ _ _ (BytesOf kIsBigEndian n v) rest)
    by (apply read_app, length_le_bytes).
  unfold of_memory, BytesOf, kIsBigEndian, mret, st_ret.
  rewrite le_value_bytes, pow256. by rewrite Z.mod_small by done.
Qed.

Lemma read_u8_cons b rest : read_u8 (b :: rest) = (Ok b, rest).
Proof. done. Qed.

(** Short reads are undefined behaviour, never a wrong value. *)
Lemma read_short n s : (length s < n)%nat → read n s = (UB, s).
Proof. intros. unfold read. by rewrite decide_True. Qed.

Lemma read_uint_short n s : (length s < n)%nat → read_uint n s = (UB, s).
Proof. intros. unfold read_uint. by rewrite (bind_ub _ _ _ s) by by apply read_short. Qed.

Lemma read_uint_long n s :
  (n ≤ length s)%nat → ∃ v, read_uint n s = (Ok v, drop n s).
Proof.
  intros Hn. unfold read_uint, mbind, st_bind, read. rewrite decide_False by lia.
  unfold ValueOf. rewrite decide_False by (rewrite length_take; lia). by eexists.
Qed.

(** One step of a decoder whose length is being analysed: a field either is
    there or the decoder stops. *)
Ltac read_field n s :=
  let v := fresh "v" in let Hv := fresh "Hv" in
  destruct (decide (length s < n)%nat) as [Hv|Hv];
    [rewrite (bind_ub _ _ s s) by by apply read_uint_short
    |destruct (read_uint_long n s) as [v Hv']; [lia|];
     rewrite (bind_ok _ _ _ _ _ Hv'); clear Hv'].

Lemma le_value_app l1 l2 :
  le_value (l1 ++ l2) = le_value l1 + 256 ^ Z.of_nat (length l1) * le_value l2.
Proof.
  induction l1 as [|b l1 IH]; simpl le_value; [simpl; lia|].
  simpl length. rewrite IH, Nat2Z.inj_succ, Z.pow_succ_r by lia. lia.
Qed.

Lemma put_be_one n :
  (2 ≤ n)%nat → of_memory true (reverse (BytesOf true n 1)) ≠ 1.
Proof.
  intros Hn. destruct n as [|[|n]]; [lia..|].
  unfold of_memory, BytesOf. rewrite reverse_involutive.
  cbn [le_bytes]. rewrite (reverse_cons _ (1 mod 256)), le_value_app.
  rewrite length_reverse. simpl length. rewrite length_le_bytes.
  pose proof (le_value_range (reverse ((1 / 256) mod 256 :: le_bytes n (1 / 256 / 256)))) as Hr.
  rewrite Nat2Z.inj_succ, Z.pow_succ_r by lia.
  assert (0 < 256 ^ Z.of_nat n) by (apply Z.pow_pos_nonneg; lia).
  assert (byte_list (reverse ((1 / 256) mod 256 :: le_bytes n (1 / 256 / 256)))) as Hb
    by (unfold byte_list; rewrite Forall_reverse; apply (le_bytes_range (S n))).
  specialize (Hr Hb). change (le_value [1 mod 256]) with 1. nia.
Qed.

Lemma length_BytesOf_rev big n v : length (reverse (BytesOf big n v)) = n.
Proof. unfold BytesOf. destruct big; by rewrite !length_reverse, length_le_bytes. Qed.

Lemma ValueOf_exact big ho n l :
  length l = n →
  ValueOf big ho n l = Some (of_memory big (if big || negb ho then l else reverse l)).
Proof.
  intros <-. unfold ValueOf. rewrite decide_False by lia.
  by rewrite take_ge by lia.
Qed.

Lemma ValueOf_put n v : in_range (8 * Z.of_nat n) v → ValueOf kIsBigEndian true n (put n v) = Some v.
Proof.
  intros Hv. rewrite (ValueOf_exact _ _ n) by apply length_put. simpl. f_equal.
  unfold of_memory, put, BytesOf, kIsBigEndian. rewrite reverse_involutive, le_value_bytes, pow256.
  by apply Z.mod_small.
Qed.

(** The fields the messages are made of survive the wire on a little-endian
    host at every width, and on a big-endian host at width one only: the
    writers reverse [BytesOf] unconditionally (so a big-endian host writes
    little-endian fields) while [ValueOf] reads the host order back unreversed. *)
Theorem wire_field_roundtrip_host_order big n :
  (1 ≤ n)%nat →
  (∀ v, in_range (8 * Z.of_nat n) v →
     ValueOf big true n (reverse (BytesOf big n v)) = Some v)
  ↔ (big = false ∨ n = 1%nat).
Proof.
  intros Hn. setoid_rewrite (ValueOf_exact big true n); [|apply length_BytesOf_rev].
  split.
  - intros H. destruct big; [|auto]. right.
    destruct (decide (n = 1%nat)) as [|Hne]; [done|].
    exfalso. apply (put_be_one n); [lia|].
    assert (in_range (8 * Z.of_nat n) 1) as H1.
    { split; [lia|]. apply Z.lt_le_trans with (2 ^ 8); [lia|]. apply Z.pow_le_mono_r; lia. }
    specialize (H 1 H1). by injection H.
  - intros [->| ->] v Hv; f_equal; unfold of_memory, BytesOf; simpl orb; cbv iota.
    + rewrite reverse_involutive, le_value_bytes, pow256. by apply Z.mod_small.
    + unfold in_range in Hv. change (2 ^ (8 * Z.of_nat 1)) with 256 in Hv.
      change (le_bytes 1 v) with [v mod 256]. rewrite Z.mod_small by lia.
      destruct big; cbn; lia.
Qed.

Lemma wire_field_roundtrip_host_order_witness :
  (1 ≤ 4)%nat ∧ ((∀ v, in_range 32 v →
     ValueOf true true 4 (reverse (BytesOf true 4 v)) = Some v) ↔ (true = false ∨ 4%nat = 1%nat)).
Proof. split; [lia|]. apply (wire_field_roundtrip_host_order true 4). lia. Defined.

(** ** The control message header *)

(** What every [Serialize(include_common_header = true)] writes first. *)
Definition common_headers (type size : Z) : list Z :=
  [kProtocolVersion] ++ put 2 type ++ put 4 size.

Lemma length_common_headers ty sz :
  Z.of_nat (length (common_headers ty sz)) = kCommonHeadersSize.
Proof. unfold common_headers. rewrite !length_app, !length_put. done. Qed.

(** Its fields, read back from a buffer that starts with it. *)
Lemma common_headers_type ty sz body :
  in_range 16 ty → ValueOf kIsBigEndian true 2 (take 2 (drop 1 (common_headers ty sz ++ body))) = Some ty.
Proof.
  intros Hty. unfold common_headers. rewrite <- !app_assoc.
  change (drop 1 ([kProtocolVersion] ++ put 2 ty ++ put 4 sz ++ body)) with (put 2 ty ++ put 4 sz ++ body).
  rewrite take_app_length' by (by rewrite length_put). by apply ValueOf_put.
Qed.

Lemma common_headers_size ty sz body :
  in_range 32 sz → ValueOf kIsBigEndian true 4 (take 4 (drop 3 (common_headers ty sz ++ body))) = Some sz.
Proof.
  intros Hsz. unfold common_headers. rewrite (assoc_L (++)), <- app_assoc.
  rewrite drop_app_length' by (by rewrite length_app, length_put).
  rewrite take_app_length' by (by rewrite length_put). by apply ValueOf_put.
Qed.

(** Evaluating a decoder on bytes written by the matching encoder. *)
Ltac decode_field :=
  match goal with
  | |- context [mbind _ (read_uint ?n) (put ?n ?v ++ ?r)] =>
      rewrite (bind_ok _ _ _ v r) by (apply read_uint_put; eauto with laps)
  | |- context [mbind _ (read_native ?n) (BytesOf kIsBigEndian ?n ?v ++ ?r)] =>
      rewrite (bind_ok _ _ _ v r) by (apply read_native_bytes; eauto with laps)
  | |- context [mbind _ read_u8 (?b :: ?r)] =>
      rewrite (bind_ok _ _ _ b r) by reflexivity
  | |- context [mbind _ peek (?b :: ?r)] =>
      rewrite (bind_ok _ _ _ b (b :: r)) by reflexivity
  | |- context [mbind _ get ?r] =>
      rewrite (bind_ok get _ r r r) by reflexivity
  | |- context [mbind _ (read ?n) (?l ++ ?r)] =>
      rewrite (bind_ok _ _ _ l r) by (apply read_app; eauto with laps)
  end; cbv beta.

Ltac decode := rewrite <- ?app_assoc; repeat (decode_field; rewrite <- ?app_assoc).

(** ** Interface of a control message

    What the peering code asks of a message type: [encode] is its [operator<<]
    on an empty vector, [decode] its constructor from a span, [SizeBytes] the
    body size that [Serialize] writes in the common header. *)

Definition run_decoder {A} (m : Dec A) (bytes : list Z) : outcome A := (m bytes).1.

Class Codec (M : Type) := {
  encode : M → list Z;
  decode_msg : list Z → outcome M;
  SizeBytes : M → Z;
  msg_valid : M → Prop;
}.
#[global] Hint Mode Codec ! : typeclass_instances.

Class CodecLaws (M : Type) `{Codec M} := {
  codec_roundtrip (m : M) : msg_valid m → decode_msg (encode m) = Ok m;
  codec_size (m : M) : msg_valid m → Z.of_nat (length (encode m)) = SizeBytes m;
  codec_size_range (m : M) : in_range 32 (SizeBytes m);
}.
#[global] Hint Mode CodecLaws ! - : typeclass_instances.

(** The bytes of [Serialize(true)]. *)
Definition framed {M} `{Codec M} (type : Z) (m : M) : list Z :=
  common_headers type (SizeBytes m) ++ encode m.

(** The header announces exactly the body that follows it, and the receiver
    rebuilds the message from those bytes. *)
Definition framed_ok {M} `{Codec M} (type : Z) (m : M) (bytes : list Z) : Prop :=
  bytes = framed type m ∧
  Z.of_nat (length bytes) = kCommonHeadersSize + SizeBytes m ∧
  decode_msg (drop (Z.to_nat kCommonHeadersSize) bytes) = Ok m.

Lemma framed_spec `{CodecLaws M} type (m : M) :
  msg_valid m → framed_ok type m (framed type m).
Proof.
  intros Hm. unfold framed_ok, framed. split_and!; [done| |].
  - rewrite length_app, Nat2Z.inj_add, length_common_headers.
    by rewrite codec_size.
  - rewrite drop_app_length' by done. by apply codec_roundtrip.
Qed.
