(* ===== verification/Quicr.v ===== *)
(** * Interface to libquicr (a git submodule, not part of the sources)

    The relay calls into libquicr for variable-length integers, track names and
    their hashes.  Each part is a class of operations; a second class states the
    documented behaviour the relay relies on.  [Demo] instantiates both, so that
    theorems about the relay can be applied at concrete inputs. *)

From S2P Require Import Prelude Common.

(** ** Variable-length integers (quicr/detail/uintvar.h) *)

Class UintVar := {
  uv_bytes : Z → list Z;   (* UintVar(v), begin() to end() *)
  uv_Size : Z → nat;       (* UintVar::Size(first byte) *)
  uv_value : list Z → Z;   (* uint64_t(UintVar(span)) *)
}.

(** RFC 9000, section 16: the first byte gives the length, and the encoding of a
    value below 2^62 decodes to it. *)
Class UintVarLaws `{UintVar} := {
  uv_first v : in_range 62 v → ∃ b bs, uv_bytes v = b :: bs ∧ uv_Size b = length (b :: bs);
  uv_decode v : in_range 62 v → uv_value (uv_bytes v) = v;
}.

(** ** Track names (quicr/track_name.h, quicr/hash.h) *)

Record TrackHash := {
  track_namespace_hash : Z;
  track_name_hash : Z;
  track_fullname_hash : Z;
}.

#[global] Instance TrackHash_eq_dec : EqDecision TrackHash.
Proof. solve_decision. Defined.

Definition TrackHash_wf (th : TrackHash) : Prop :=
  in_range 64 (track_namespace_hash th) ∧ in_range 64 (track_name_hash th) ∧
  in_range 64 (track_fullname_hash th).

Class TrackNames := {
  TrackNamespace : Type;
  ns_eq_dec :: EqDecision TrackNamespace;
  ns_countable :: Countable TrackNamespace;
  ns_ord :: KeyOrd TrackNamespace;                 (* operator<=> *)
  ns_inhabited :: Inhabited TrackNamespace;        (* the default constructor *)
  GetEntries : TrackNamespace → list (list Z);
  ns_size : TrackNamespace → Z;                    (* size(): bytes in all entries *)
  make_namespace : list (list Z) → outcome TrackNamespace;  (* from entry spans *)
  GetHashes : TrackNamespace → list Z;             (* one hash per entry *)
  HasSamePrefix : TrackNamespace → TrackNamespace → bool;
  IsPrefixOf : TrackNamespace → TrackNamespace → bool;   (* less or equivalent *)
  ns_empty : TrackNamespace → bool;                      (* empty() *)
  track_hash : TrackNamespace → list Z → TrackHash; (* TrackHash({ns, name}) *)
  hash_combine : Z → Z → Z;                        (* seed, value: the new seed *)
}.

Class TrackNamesLaws `{TrackNames} := {
  make_GetEntries ns : make_namespace (GetEntries ns) = Ok ns;
  ns_size_sum ns : ns_size ns = Z.of_nat (length (concat (GetEntries ns)));
  GetHashes_prefix ns ns' :
    GetEntries ns `prefix_of` GetEntries ns' → GetHashes ns `prefix_of` GetHashes ns';
  GetHashes_length ns : length (GetHashes ns) = length (GetEntries ns);
}.

(** A full track name: namespace and name. *)
Definition FullTrackName `{TrackNames} : Type := TrackNamespace * list Z.

(** ** An instance *)

Module Demo.
Definition be_value (l : list Z) : Z := le_value (reverse l).

Definition varint_bytes (v : Z) : list Z :=
  if decide (v < 2 ^ 6) then [v]
  else if decide (v < 2 ^ 14) then put 2 (v + 1 * 2 ^ 14)
  else if decide (v < 2 ^ 30) then put 4 (v + 2 * 2 ^ 30)
  else put 8 (v + 3 * 2 ^ 62).

#[export] Instance varint : UintVar := {|
  uv_bytes := varint_bytes;
  uv_Size := λ b, (2 ^ Z.to_nat (b / 64))%nat;
  uv_value := λ l, be_value l mod 2 ^ (8 * Z.of_nat (length l) - 2);
|}.

Lemma be_value_put n v : in_range (8 * Z.of_nat n) v → be_value (put n v) = v.
Proof.
  intros Hv. unfold be_value, put, BytesOf, kIsBigEndian.
  rewrite reverse_involutive, le_value_bytes, pow256. by apply Z.mod_small.
Qed.

(** The most significant byte of [v] is [v / 256^(n-1)]. *)
Lemma put_head n v :
  in_range (8 * Z.of_nat (S n)) v →
  ∃ bs, put (S n) v = v / 256 ^ Z.of_nat n :: bs ∧ length bs = n.
Proof.
  intros Hv. exists (reverse (le_bytes n v)).
  rewrite length_reverse, length_le_bytes. split; [|done].
  unfold put, BytesOf, kIsBigEndian. unfold in_range in Hv.
  rewrite <- pow256, Nat2Z.inj_succ, Z.pow_succ_r in Hv by lia.
  revert v Hv. induction n as [|n IH]; intros v Hv.
  - change (reverse (le_bytes 1 v)) with [v mod 256].
    rewrite Z.div_1_r. rewrite Z.mod_small by lia. done.
  - change (le_bytes (S (S n)) v) with (v mod 256 :: le_bytes (S n) (v / 256)).
    rewrite reverse_cons, IH.
    + change (le_bytes (S n) v) with (v mod 256 :: le_bytes n (v / 256)).
      rewrite reverse_cons, Nat2Z.inj_succ, Z.pow_succ_r by lia.
      rewrite Z.div_div by lia. done.
    + rewrite Nat2Z.inj_succ, Z.pow_succ_r in Hv by lia.
      split; [apply Z.div_pos; lia|]. apply Z.div_lt_upper_bound; lia.
Qed.

(** One size class: [n] bytes whose two top bits are the tag [t]. *)
Lemma varint_class n t v :
  0 ≤ t < 4 → in_range (8 * Z.of_nat (S n) - 2) v →
  Z.of_nat (S n) = 2 ^ t →
  let l := put (S n) (v + t * 2 ^ (8 * Z.of_nat (S n) - 2)) in
  (∃ b bs, l = b :: bs ∧ uv_Size b = length (b :: bs)) ∧ uv_value l = v.
Proof.
  intros Ht Hv Hn l. unfold in_range in Hv.
  assert (8 * Z.of_nat (S n) - 2 = 8 * Z.of_nat n + 6) as Hk by lia.
  assert (2 ^ (8 * Z.of_nat (S n)) = 4 * 2 ^ (8 * Z.of_nat (S n) - 2)) as H4.
  { change 4 with (2 ^ 2). rewrite <- Z.pow_add_r by lia. f_equal. lia. }
  assert (in_range (8 * Z.of_nat (S n)) (v + t * 2 ^ (8 * Z.of_nat (S n) - 2))) as Hr.
  { unfold in_range. rewrite H4. nia. }
  split.
  - destruct (put_head n _ Hr) as (bs & Hl & Hbs). eexists _, bs. split; [exact Hl|].
    unfold uv_Size; simpl. rewrite Hbs, pow256, Z.div_div by lia.
    change 64 with (2 ^ 6). rewrite <- Z.pow_add_r, <- Hk by lia.
    rewrite Z.div_add, Z.div_small by lia. rewrite Z.add_0_l.
    apply Nat2Z.inj. rewrite Nat2Z.inj_pow, Z2Nat.id by lia. lia.
  - unfold uv_value; simpl. unfold l. rewrite length_put, be_value_put by done.
    rewrite Z.mod_add by lia. by apply Z.mod_small.
Qed.

#[export] Instance varint_laws : UintVarLaws.
Proof.
  assert (∀ v, in_range 62 v →
    (∃ b bs, varint_bytes v = b :: bs ∧ uv_Size b = length (b :: bs)) ∧
    uv_value (varint_bytes v) = v) as H.
  { intros v Hv. unfold in_range in Hv. unfold varint_bytes.
    repeat case_decide.
    - split.
      + exists v, []. split; [done|]. simpl. rewrite Z.div_small by lia. done.
      + change ((v + 256 * 0) mod 64 = v). rewrite Z.mod_small by lia. lia.
    - apply (varint_class 1 1 v); [lia|change (0 ≤ v < 2 ^ 14); lia|done].
    - apply (varint_class 3 2 v); [lia|change (0 ≤ v < 2 ^ 30); lia|done].
    - apply (varint_class 7 3 v); [lia|change (0 ≤ v < 2 ^ 62); lia|done]. }
  split; intros v Hv; apply H, Hv.
Qed.

(** Namespaces as entry lists, with a polynomial hash. *)
Definition combine (seed v : Z) : Z := u64 (seed * 1000003 + v + 7).
Definition hash_bytes (l : list Z) : Z := fold_left combine l 0.
Definition hash_name (ns : list (list Z)) (name : list Z) : TrackHash :=
  let n := fold_left combine (hash_bytes <$> ns) 0 in
  let m := hash_bytes name in
  {| track_namespace_hash := n; track_name_hash := m; track_fullname_hash := combine n m |}.

(** A lexicographic order on lists, for the key order of the maps. *)
Fixpoint lex_le {A} `{EqDecision A, KeyOrd A} (a b : list A) : Prop :=
  match a, b with
  | [], _ => True
  | _ :: _, [] => False
  | x :: a, y :: b => (key_le x y ∧ x ≠ y) ∨ (x = y ∧ lex_le a b)
  end.

#[export] Program Instance list_ord {A} `{EqDecision A, KeyOrd A} : KeyOrd (list A) :=
  {| key_le := lex_le |}.
Next Obligation. intros A ?? a. induction a; intros [|]; simpl; apply _. Defined.
Next Obligation.
  intros A ?? a. induction a as [|x a IH]; intros [|y b]; simpl; auto.
  destruct (decide (x = y)) as [->|]; [destruct (IH b); auto|].
  destruct (total key_le x y); auto.
Qed.
Next Obligation.
  intros A ?? a. induction a as [|x a IH]; intros [|y b] [|z c]; simpl; try tauto.
  intros [[H1 N1]|[-> H1]] [[H2 N2]|[-> H2]].
  - left. split; [by etrans|]. intros ->. apply N1. by apply (anti_symm key_le).
  - by left.
  - by left.
  - right. split; [done|]. by eapply IH.
Qed.
Next Obligation.
  intros A ?? a. induction a as [|x a IH]; intros [|y b]; simpl; try tauto.
  intros [[H1 N1]|[-> H1]] [[H2 N2]|[? H2]]; simplify_eq.
  - destruct N1. by apply (anti_symm key_le).
  - f_equal. by apply IH.
Qed.

#[export] Instance names : TrackNames := {|
  TrackNamespace := list (list Z);
  ns_inhabited := populate [];
  GetEntries := λ ns, ns;
  ns_size := λ ns, Z.of_nat (length (concat ns));
  make_namespace := Ok;
  GetHashes := λ ns, hash_bytes <$> ns;
  HasSamePrefix := λ a b, bool_decide (a `prefix_of` b ∨ b `prefix_of` a);
  IsPrefixOf := λ a b, bool_decide (a `prefix_of` b);
  ns_empty := λ ns, bool_decide (ns = []);
  track_hash := hash_name;
  hash_combine := combine;
|}.

#[export] Instance names_laws : TrackNamesLaws.
Proof.
  split; simpl; try done.
  - intros ns ns' [k ->]. rewrite fmap_app. by apply prefix_app_r.
  - intros ns. apply length_fmap.
Qed.
End Demo.
