(* ===== verification/NodeId.v ===== *)
(** * Node identifiers (class NodeId, src/peering/messages/node_info.h)

    Parsing and printing of [<high>:<low>] node ids.  A [std::string] is the
    list of its character codes.  [stoul] is the standard library's
    [std::stoul] in base 10. *)

From Stdlib Require Import Strings.String Strings.Ascii.
From S2P Require Import Prelude.

Definition str (s : String.string) : list Z :=
  (λ c, Z.of_nat (nat_of_ascii c)) <$> list_ascii_of_string s.

Definition ch_colon : Z := 58.
Definition ch_dot : Z := 46.
Definition isdigit (c : Z) : bool := bool_decide (48 ≤ c ≤ 57).
Definition isspace (c : Z) : bool := bool_decide (c = 32 ∨ 9 ≤ c ≤ 13).

(** ** std::string and std::stoul *)

(** [s.find(c, pos)]; [None] is [npos]. *)
Definition find_from (c : Z) (pos : nat) (s : list Z) : option nat :=
  match list_find (λ x, x = c) (drop pos s) with
  | Some (i, _) => Some (pos + i)%nat
  | None => None
  end.

(** [s.substr(pos, count)]: throws when [pos] is past the end. *)
Definition substr (s : list Z) (pos : nat) (count : option nat) : outcome (list Z) :=
  if decide (length s < pos)%nat then Throw out_of_range
  else Ok (match count with Some n => take n (drop pos s) | None => drop pos s end).

Definition dec_value (ds : list Z) : Z := fold_left (λ n d, 10 * n + (d - 48)) ds 0.

Fixpoint skip_space (s : list Z) : list Z :=
  match s with
  | c :: s' => if isspace c then skip_space s' else s
  | [] => []
  end.

(** The sign and the digits that [strtol] and its relatives read. *)
Definition signed_digits (s : list Z) : bool * list Z :=
  let s := skip_space s in
  let '(neg, s) := match s with
                   | 45 :: s' => (true, s')
                   | 43 :: s' => (false, s')
                   | _ => (false, s)
                   end in
  (neg, take_while (λ c, isdigit c = true) s).

Definition stoul (s : list Z) : outcome Z :=
  let '(neg, ds) := signed_digits s in
  match ds with
  | [] => Throw invalid_argument
  | _ => let v := dec_value ds in
         if decide (2 ^ 64 ≤ v) then Throw out_of_range
         else Ok (if neg : bool then u64 (- v) else v)
  end.

(** ** NodeId *)

Notation "'let?' x ':=' m 'in' k" :=
  (match m with Ok x => k | Throw e => Throw e | UB => UB end)
  (at level 10, x name, m at level 100, k at level 200).

(** The loop of [NumericVaue]: [i] iterations left, with [n_value], [pos] and
    [end_pos] as the source updates them. *)
Fixpoint NumericVaue_loop (i : nat) (value : list Z) (n_value : Z)
    (pos : nat) (end_pos : option nat) : outcome Z :=
  match i with
  | O => Ok n_value
  | S i =>
      let n_value := u32 (Z.shiftl n_value 16) in
      let? part := substr value pos end_pos in
      let? dot_value := stoul part in
      if decide (65535 < dot_value) then Throw runtime_error
      else
        let n_value := Z.lor n_value (Z.land 65535 dot_value) in
        match end_pos with
        | None => Ok n_value
        | Some e =>
            let pos := S e in
            NumericVaue_loop i value n_value pos (find_from ch_dot pos value)
        end
  end.

Definition NumericVaue (value : list Z) : outcome Z :=
  match find_from ch_dot 0 value with
  | None => let? n := stoul value in Ok (u32 n)
  | Some end_pos => NumericVaue_loop 2 value 0 0 (Some end_pos)
  end.

(** [uint64_t Value(const std::string&)] *)
Definition Value_of_string (id : list Z) : outcome Z :=
  match find_from ch_colon 0 id with
  | None => Throw runtime_error
  | Some mid_pos =>
      let? hi_s := substr id 0 (Some mid_pos) in
      let? hi := NumericVaue hi_s in
      let? low_s := substr id (S mid_pos) None in
      let? low := NumericVaue low_s in
      Ok (Z.lor (u64 (Z.shiftl hi 32)) low)
  end.

(** Decimal output of a [uint16_t]; [fuel] digits suffice below 10^fuel. *)
Fixpoint dec (fuel : nat) (n : Z) : list Z :=
  match fuel with
  | O => []
  | S fuel => if decide (n < 10) then [48 + n] else dec fuel (n / 10) ++ [48 + n mod 10]
  end.

Definition shl64 (v k : Z) : Z := u64 (Z.shiftl v k).

(** [std::string Value(uint64_t)] *)
Definition Value_to_string (id : Z) : list Z :=
  dec 5 (u16 (Z.shiftr id 48)) ++ [ch_dot] ++
  dec 5 (u16 (Z.shiftr (shl64 id 16) 48)) ++ [ch_colon] ++
  dec 5 (u16 (Z.shiftr (shl64 id 32) 48)) ++ [ch_dot] ++
  dec 5 (u16 (Z.shiftr (shl64 id 48) 48)).

Example node_id_12_34 : Value_of_string (str "12:34") = Ok 51539607586.
Proof. reflexivity. Qed.
Example node_id_dotted : Value_of_string (str "1.2:34") = Ok 281483566645282.
Proof. reflexivity. Qed.
Example node_id_printed : Value_to_string 347364508091815901 = str "1234.5678:100.6109".
Proof. reflexivity. Qed.
Example node_id_no_colon : Value_of_string (str "1234") = Throw runtime_error.
Proof. reflexivity. Qed.
Example node_id_dot_range : Value_of_string (str "1.70000:1.2") = Throw runtime_error.
Proof. reflexivity. Qed.

(** ** Lemmas on decimal text *)

Definition digits (l : list Z) : Prop := Forall (λ c, isdigit c = true) l.

Lemma isdigit_spec c : isdigit c = true ↔ 48 ≤ c ≤ 57.
Proof. unfold isdigit. by rewrite bool_decide_eq_true. Qed.

Lemma dec_value_app l d : dec_value (l ++ [d]) = 10 * dec_value l + (d - 48).
Proof. unfold dec_value. by rewrite fold_left_app. Qed.

Lemma dec_spec fuel n :
  (0 < fuel)%nat → 0 ≤ n < 10 ^ Z.of_nat fuel →
  digits (dec fuel n) ∧ dec fuel n ≠ [] ∧ dec_value (dec fuel n) = n.
Proof.
  revert n. induction fuel as [|fuel IH]; intros n Hf Hn; [lia|]. cbn [dec].
  rewrite Nat2Z.inj_succ, Z.pow_succ_r in Hn by lia.
  case_decide as Hlt.
  - split_and!; [|done|unfold dec_value; simpl; lia].
    constructor; [|constructor]. apply isdigit_spec. lia.
  - destruct fuel as [|fuel]; [simpl in Hn; lia|].
    assert (0 ≤ n / 10 < 10 ^ Z.of_nat (S fuel)) as Hq.
    { split; [apply Z.div_pos; lia|]. apply Z.div_lt_upper_bound; lia. }
    destruct (IH (n / 10) ltac:(lia) Hq) as (Hd & Hne & Hv).
    pose proof (Z.mod_pos_bound n 10).
    split_and!.
    + unfold digits. rewrite Forall_app. split; [done|].
      constructor; [|constructor]. apply isdigit_spec. lia.
    + by destruct (dec (S fuel) (n / 10)).
    + rewrite dec_value_app, Hv. pose proof (Z.div_mod n 10). lia.
Qed.

Lemma digits_not_in c l : digits l → isdigit c = false → c ∉ l.
Proof. unfold digits. rewrite Forall_forall. intros Hl Hc Hin. specialize (Hl _ Hin). congruence. Qed.

Lemma find_from_first c l r : c ∉ l → find_from c 0 (l ++ c :: r) = Some (length l).
Proof.
  intros Hc. unfold find_from. rewrite drop_0.
  erewrite (proj2 (list_find_Some _ _ (length l) c)); [done|].
  split_and!; [by rewrite list_lookup_middle|done|].
  intros j y Hj ?. rewrite lookup_app_l in Hj by done.
  intros ->. by apply Hc, list_elem_of_lookup_2 with j.
Qed.

Lemma find_from_none c pos l : c ∉ drop pos l → find_from c pos l = None.
Proof.
  intros Hc. unfold find_from.
  by rewrite (proj2 (list_find_None _ _))
    by (apply Forall_forall; intros x Hx ->; done).
Qed.

Lemma take_while_digits l : digits l → take_while (λ c, isdigit c = true) l = l.
Proof. induction 1 as [|c l Hc Hl IH]; simpl; [done|]. by rewrite decide_True, IH. Qed.

Lemma signed_digits_digits l : digits l → l ≠ [] → signed_digits l = (false, l).
Proof.
  intros Hl Hne. unfold signed_digits.
  destruct l as [|c l]; [done|]. pose proof Hl as Hl'.
  inversion Hl' as [|? ? Hc _]; subst. apply isdigit_spec in Hc.
  assert (skip_space (c :: l) = c :: l) as ->.
  { simpl. unfold isspace. by rewrite bool_decide_eq_false_2 by lia. }
  replace (match c :: l with 45 :: s' => (true, s') | 43 :: s' => (false, s')
           | _ => (false, c :: l) end) with (false, c :: l)
    by (destruct c as [|p|p]; [lia| |lia]; repeat (destruct p as [p|p|]; try done; try lia)).
  by rewrite take_while_digits by done.
Qed.

Lemma stoul_digits l :
  digits l → l ≠ [] → dec_value l < 2 ^ 64 → stoul l = Ok (dec_value l).
Proof.
  intros Hl Hne Hv. unfold stoul. rewrite signed_digits_digits by done.
  destruct l as [|c l]; [done|]. by rewrite decide_False by lia.
Qed.

(** ** Round trip and truncation *)

Lemma digits_no_dot l : digits l → ch_dot ∉ l.
Proof. intros. by apply digits_not_in. Qed.
Lemma digits_no_colon l : digits l → ch_colon ∉ l.
Proof. intros. by apply digits_not_in. Qed.

Lemma substr_first l c r : substr (l ++ c :: r) 0 (Some (length l)) = Ok l.
Proof.
  unfold substr. rewrite decide_False by lia. by rewrite drop_0, take_app_length.
Qed.

Lemma substr_rest l c r : substr (l ++ c :: r) (S (length l)) None = Ok r.
Proof.
  unfold substr. rewrite decide_False by (rewrite length_app; simpl; lia).
  by rewrite drop_app_ge, Nat.sub_succ_l, Nat.sub_diag by lia.
Qed.

Lemma NumericVaue_dotted a b :
  in_range 16 a → in_range 16 b →
  NumericVaue (dec 5 a ++ ch_dot :: dec 5 b) = Ok (a * 2 ^ 16 + b).
Proof.
  unfold in_range. intros Ha Hb.
  destruct (dec_spec 5 a) as (Hda & Hna & Hva); [lia..|].
  destruct (dec_spec 5 b) as (Hdb & Hnb & Hvb); [lia..|].
  unfold NumericVaue. rewrite find_from_first by by apply digits_no_dot.
  cbn [NumericVaue_loop]. rewrite substr_first, stoul_digits, Hva by (done || lia).
  rewrite decide_False by lia.
  rewrite find_from_none, substr_rest, stoul_digits, Hvb;
    [|done|done|lia|rewrite drop_app_ge, Nat.sub_succ_l, Nat.sub_diag by lia; by apply digits_no_dot].
  rewrite decide_False by lia. change 65535 with (Z.ones 16).
  rewrite !land_ones_small by (done || lia).
  change (u32 (Z.shiftl 0 16)) with 0. rewrite Z.lor_0_l.
  rewrite wrap_small, lor_shiftl; [done|lia|done|].
  rewrite Z.shiftl_mul_pow2 by lia. unfold in_range. lia.
Qed.

Lemma NumericVaue_plain n : in_range 64 n → NumericVaue (dec 20 n) = Ok (u32 n).
Proof.
  unfold in_range. intros Hn. destruct (dec_spec 20 n) as (Hd & Hne & Hv); [lia..|].
  unfold NumericVaue. rewrite find_from_none by (rewrite drop_0; by apply digits_no_dot).
  by rewrite stoul_digits, Hv by (done || lia).
Qed.

(** Both halves of an id, once each side of the colon is known. *)
Lemma Value_of_string_halves hi_s low_s hi low :
  ch_colon ∉ hi_s → NumericVaue hi_s = Ok hi → NumericVaue low_s = Ok low →
  in_range 32 hi → in_range 32 low →
  Value_of_string (hi_s ++ ch_colon :: low_s) = Ok (hi * 2 ^ 32 + low).
Proof.
  unfold in_range. intros Hc Hhi Hlow Hh Hl. unfold Value_of_string.
  rewrite find_from_first, substr_first, Hhi, substr_rest, Hlow by done.
  rewrite wrap_small, lor_shiftl; [done|lia|done|].
  rewrite Z.shiftl_mul_pow2 by lia. unfold in_range. lia.
Qed.

(** The [k]-th 16-bit field of an id, as the shifts of [Value] extract it. *)
Lemma field16 id k :
  in_range 64 id → 0 ≤ k ≤ 48 →
  u16 (Z.shiftr (shl64 id k) 48) = (id / 2 ^ (48 - k)) mod 2 ^ 16.
Proof.
  intros Hid Hk. unfold shl64, wrap.
  apply Z.bits_inj'. intros n Hn.
  rewrite <- Z.shiftr_div_pow2 by lia.
  destruct (decide (n < 16)).
  - rewrite !Z.mod_pow2_bits_low by lia. rewrite !Z.shiftr_spec by lia.
    rewrite Z.mod_pow2_bits_low, Z.shiftl_spec by lia. f_equal. lia.
  - by rewrite !Z.mod_pow2_bits_high by lia.
Qed.

(** C30: printing a node id and parsing the text gives the id back, for every
    64-bit id; so the parser accepts every string the relay prints. *)
Theorem node_id_print_parse id :
  in_range 64 id → Value_of_string (Value_to_string id) = Ok id.
Proof.
  intros Hid. unfold Value_to_string.
  rewrite <- (wrap_small 64 id Hid) at 1. change (u64 id) with (shl64 id 0).
  rewrite !field16 by (done || lia).
  set (f k := (id / 2 ^ (48 - k)) mod 2 ^ 16).
  assert (∀ k, in_range 16 (f k)) as Hf by (intros; by apply Z.mod_pos_bound).
  change (Value_of_string (dec 5 (f 0) ++ ch_dot :: (dec 5 (f 16) ++ ch_colon ::
    (dec 5 (f 32) ++ ch_dot :: dec 5 (f 48)))) = Ok id).
  replace (dec 5 (f 0) ++ ch_dot :: _) with ((dec 5 (f 0) ++ ch_dot :: dec 5 (f 16)) ++
    ch_colon :: (dec 5 (f 32) ++ ch_dot :: dec 5 (f 48))) by by rewrite <- app_assoc.
  pose proof (Hf 0) as H0. pose proof (Hf 16) as H1.
  pose proof (Hf 32) as H2. pose proof (Hf 48) as H3. unfold in_range in *.
  rewrite (Value_of_string_halves _ _ (f 0 * 2 ^ 16 + f 16) (f 32 * 2 ^ 16 + f 48)).
  - f_equal. unfold f. change (48 - 0) with 48. change (48 - 16) with 32.
    change (48 - 32) with 16. change (48 - 48) with 0. rewrite Z.div_1_r.
    pose proof (Z.div_mod id (2 ^ 16)). pose proof (Z.div_mod (id / 2 ^ 16) (2 ^ 16)).
    pose proof (Z.div_mod (id / 2 ^ 32) (2 ^ 16)).
    rewrite Z.div_div in * by lia. change (2 ^ 16 * 2 ^ 16) with (2 ^ 32) in *.
    change (2 ^ 32 * 2 ^ 16) with (2 ^ 48) in *.
    assert (0 ≤ id / 2 ^ 48 < 2 ^ 16) by
      (split; [apply Z.div_pos; lia|apply Z.div_lt_upper_bound; lia]).
    rewrite (Z.mod_small (id / 2 ^ 48)) by lia. lia.
  - rewrite not_elem_of_app, not_elem_of_cons.
    split_and!; [|done|]; apply digits_no_colon; apply dec_spec; lia.
  - by apply NumericVaue_dotted.
  - by apply NumericVaue_dotted.
  - unfold in_range. lia.
  - unfold in_range. lia.
Qed.

Lemma node_id_print_parse_witness :
  Value_of_string (Value_to_string 347364508091815901) = Ok 347364508091815901.
Proof. apply node_id_print_parse. vm_compute. split; congruence. Defined.

(** An undotted id is accepted for any two 64-bit numbers, and each is
    reduced modulo 2^32 without an error. *)
Theorem node_id_plain_truncates a b :
  in_range 64 a → in_range 64 b →
  Value_of_string (dec 20 a ++ ch_colon :: dec 20 b) =
    Ok ((a mod 2 ^ 32) * 2 ^ 32 + b mod 2 ^ 32).
Proof.
  intros Ha Hb. apply Value_of_string_halves.
  - unfold in_range in *. apply digits_no_colon, dec_spec; lia.
  - by apply NumericVaue_plain.
  - by apply NumericVaue_plain.
  - by apply wrap_range.
  - by apply wrap_range.
Qed.

Lemma node_id_plain_truncates_witness :
  Value_of_string (dec 20 (2 ^ 32 + 5) ++ ch_colon :: dec 20 7) = Ok (5 * 2 ^ 32 + 7).
Proof. apply (node_id_plain_truncates (2 ^ 32 + 5) 7); vm_compute; split; congruence. Defined.
