(* ===== verification/NodeInfo.v ===== *)
(** * Node information (class NodeInfo, src/peering/messages/node_info.{h,cc})

    A node's identity and the path its advertisement has travelled.  The two
    coordinates are doubles; the messages only move their 64-bit patterns. *)

From S2P Require Import Prelude Common Quicr.

Module NodeType.
Definition kVia : Z := 0.
Definition kEdge : Z := 1.
Definition kStub : Z := 2.
End NodeType.

Record NodePathItem := mkNodePathItem { item_id : Z; srtt_us : Z }.

Record NodeInfo := mkNodeInfo {
  ni_id : Z;
  ni_type : Z;
  ni_contact : list Z;
  ni_longitude : Z;
  ni_latitude : Z;
  ni_path : list NodePathItem;
}.

#[global] Instance NodePathItem_eq_dec : EqDecision NodePathItem.
Proof. solve_decision. Defined.
#[global] Instance NodeInfo_eq_dec : EqDecision NodeInfo.
Proof. solve_decision. Defined.

(** [uint64_t NodeInfo::SumSrtt() const] *)
Definition SumSrtt (ni : NodeInfo) : Z :=
  fold_left (λ sum item, u64 (sum + srtt_us item)) (ni_path ni) 0.

Lemma SumSrtt_range ni : in_range 64 (SumSrtt ni).
Proof.
  unfold SumSrtt. assert (in_range 64 0) as H0 by (unfold in_range; lia).
  revert H0. generalize 0. induction (ni_path ni); intros; simpl; eauto with laps.
Qed.

(** ** Wire format *)

Section serialization.
Context `{UintVar}.

Definition contact_uv_len (ni : NodeInfo) : list Z :=
  uv_bytes (Z.of_nat (length (ni_contact ni))).

Definition NodeInfo_SizeBytes (ni : NodeInfo) : Z :=
  u32 (8 + 1 + Z.of_nat (length (contact_uv_len ni))
       + Z.of_nat (length (ni_contact ni)) + 8 + 8
       + Z.of_nat (length (ni_path ni)) * 16).

(** The packed struct, copied in host order. *)
Definition path_item_bytes (item : NodePathItem) : list Z :=
  BytesOf kIsBigEndian 8 (item_id item) ++ BytesOf kIsBigEndian 8 (srtt_us item).

(** [operator<<(data, node_info)], what it appends to [data]. *)
Definition NodeInfo_put (ni : NodeInfo) : list Z :=
  put 8 (ni_id ni) ++ [ni_type ni] ++
  contact_uv_len ni ++ ni_contact ni ++
  put 8 (ni_longitude ni) ++ put 8 (ni_latitude ni) ++
  concat (path_item_bytes <$> ni_path ni).

(** [NodeInfo::Serialize(include_common_header, withdraw)] *)
Definition NodeInfo_Serialize (include_common_header withdraw : bool) (ni : NodeInfo) : list Z :=
  (if include_common_header
   then common_headers
          (if withdraw then MsgType.kNodeInfoWithdrawn else MsgType.kNodeInfoAdvertise)
          (NodeInfo_SizeBytes ni)
   else []) ++ NodeInfo_put ni.

(** [for (; it < end; it += sizeof(NodePathItem))]; each round consumes
    bytes, so as many rounds as bytes are enough. *)
Fixpoint read_path (fuel : nat) (path : list NodePathItem) : Dec (list NodePathItem) := λ s,
  match fuel, s with
  | S fuel, _ :: _ =>
      (id ← read_native 8; srtt ← read_native 8;
       read_path fuel (path ++ [mkNodePathItem id srtt])) s
  | _, _ => (Ok path, s)
  end.

(** [NodeInfo(std::span<uint8_t const>)] *)
Definition NodeInfo_read : Dec NodeInfo :=
  id ← read_uint 8;
  type ← read_u8;
  first ← peek;
  uv ← read (uv_Size first);
  contact ← read (Z.to_nat (uv_value uv));
  longitude ← read_uint 8;
  latitude ← read_uint 8;
  rest ← get;
  path ← read_path (length rest) [];
  mret (mkNodeInfo id type contact longitude latitude path).

Definition path_item_wf (i : NodePathItem) : Prop :=
  in_range 64 (item_id i) ∧ in_range 64 (srtt_us i).

(** The values a C++ object of the class can hold, small enough for the
    32-bit size not to wrap. *)
Definition NodeInfo_wf (ni : NodeInfo) : Prop :=
  in_range 64 (ni_id ni) ∧ in_range 8 (ni_type ni) ∧
  in_range 64 (ni_longitude ni) ∧ in_range 64 (ni_latitude ni) ∧
  Forall path_item_wf (ni_path ni) ∧
  in_range 32 (Z.of_nat (length (NodeInfo_put ni))).

#[export] Instance NodeInfo_wf_dec ni : Decision (NodeInfo_wf ni).
Proof. unfold NodeInfo_wf, path_item_wf. apply _. Defined.

#[export] Instance NodeInfo_codec : Codec NodeInfo := {|
  encode := NodeInfo_put;
  decode_msg := run_decoder NodeInfo_read;
  SizeBytes := NodeInfo_SizeBytes;
  msg_valid := NodeInfo_wf;
|}.

Lemma length_path_item_bytes l :
  length (concat (path_item_bytes <$> l)) = (16 * length l)%nat.
Proof.
  induction l as [|i l IH]; [done|]. rewrite fmap_cons. cbn [concat].
  rewrite length_app, IH. unfold path_item_bytes.
  rewrite length_app. unfold BytesOf, kIsBigEndian. rewrite !length_le_bytes.
  simpl length. lia.
Qed.

Lemma read_path_bytes l : ∀ fuel acc,
  Forall path_item_wf l → (16 * length l ≤ fuel)%nat →
  read_path fuel acc (concat (path_item_bytes <$> l)) = (Ok (acc ++ l), []).
Proof.
  induction l as [|i l IH]; intros fuel acc Hl Hf.
  { destruct fuel; simpl; by rewrite app_nil_r. }
  inversion Hl as [|? ? [Hid Hs] Hl']; subst. simpl length in Hf.
  rewrite fmap_cons. cbn [concat]. unfold path_item_bytes at 1.
  destruct fuel as [|fuel]; [lia|]. cbn [read_path].
  destruct (BytesOf kIsBigEndian 8 (item_id i)) as [|b bs] eqn:Hb; [done|].
  cbn [app]. change (b :: (bs ++ ?x) ++ ?y) with (((b :: bs) ++ x) ++ y).
  rewrite <- Hb. decode. rewrite IH by (done || lia).
  rewrite <- app_assoc. by destruct i.
Qed.

Lemma NodeInfo_put_length ni :
  Z.of_nat (length (NodeInfo_put ni)) =
  8 + 1 + Z.of_nat (length (contact_uv_len ni)) + Z.of_nat (length (ni_contact ni))
  + 8 + 8 + Z.of_nat (length (ni_path ni)) * 16.
Proof.
  unfold NodeInfo_put. rewrite !length_app, !length_put, length_path_item_bytes.
  simpl length. lia.
Qed.

Context `{!UintVarLaws}.

Lemma NodeInfo_read_put ni :
  NodeInfo_wf ni → run_decoder NodeInfo_read (NodeInfo_put ni) = Ok ni.
Proof.
  intros (Hid & Hty & Hlo & Hla & Hp & Hlen).
  assert (in_range 62 (Z.of_nat (length (ni_contact ni)))) as Hc.
  { rewrite NodeInfo_put_length in Hlen. unfold in_range in *. lia. }
  destruct (uv_first _ Hc) as (b & bs & Huv & Hsz).
  unfold run_decoder, NodeInfo_read, NodeInfo_put.
  decode. cbn [app]. decode_field. unfold contact_uv_len. rewrite Huv. cbn [app].
  decode_field. change (b :: bs ++ ?r) with ((b :: bs) ++ r).
  rewrite Hsz. decode_field. rewrite <- Huv, uv_decode, Nat2Z.id by done.
  decode.
  erewrite bind_ok
    by (apply (read_path_bytes _ _ []); [done|by rewrite length_path_item_bytes]).
  by destruct ni.
Qed.

#[export] Instance NodeInfo_laws : CodecLaws NodeInfo.
Proof.
  split; [exact NodeInfo_read_put| |]; cbn [SizeBytes encode msg_valid NodeInfo_codec].
  2: { intros m. unfold NodeInfo_SizeBytes. apply wrap_range. lia. }
  intros ni (_ & _ & _ & _ & _ & Hlen). unfold NodeInfo_SizeBytes.
  rewrite <- NodeInfo_put_length. symmetry. by apply wrap_small.
Qed.

(** C24: a node advertisement or withdrawal carries the header its body needs,
    and decoding the body gives the advertised node back, path included. *)
Theorem node_info_wire (withdraw : bool) ni :
  NodeInfo_wf ni →
  framed_ok (if withdraw then MsgType.kNodeInfoWithdrawn else MsgType.kNodeInfoAdvertise)
    ni (NodeInfo_Serialize true withdraw ni).
Proof.
  intros Hni. change (NodeInfo_Serialize true withdraw ni) with
    (framed (if withdraw then MsgType.kNodeInfoWithdrawn else MsgType.kNodeInfoAdvertise) ni).
  exact (framed_spec _ ni Hni).
Qed.
End serialization.

Import Quicr.Demo.

Definition demo_node : NodeInfo :=
  mkNodeInfo 281483566645282 NodeType.kEdge [114; 49] 4630000000000000000 12
    [mkNodePathItem 7 1500; mkNodePathItem 8 2500].

Lemma node_info_wire_witness :
  framed_ok MsgType.kNodeInfoWithdrawn demo_node (NodeInfo_Serialize true true demo_node).
Proof.
  apply (node_info_wire true demo_node). decide_now.
Defined.
