(* ===== verification/Connect.v ===== *)
(** * Connection set-up messages (src/peering/messages/connect.{h,cc},
    connect_response.{h,cc})

    The client side of a peering session opens with [Connect]; the server
    answers with [ConnectResponse], which carries its node info unless it
    reports an error. *)

From S2P Require Import Prelude Common Quicr NodeInfo.

Record Connect := mkConnect { c_mode : Z; c_node_info : NodeInfo }.

Record ConnectResponse := mkConnectResponse {
  cr_error : Z;
  cr_node_info : option NodeInfo;
}.

Section connect.
Context `{UintVar}.

(** ** Connect *)

Definition Connect_SizeBytes (c : Connect) : Z :=
  u32 (1 + NodeInfo_SizeBytes (c_node_info c)).

Definition Connect_body (c : Connect) : list Z :=
  [c_mode c] ++ NodeInfo_Serialize false false (c_node_info c).

(** [operator<<(data, connect)] on an empty vector, which is [Serialize()]. *)
Definition Connect_Serialize (c : Connect) : list Z :=
  common_headers MsgType.kConnect (Connect_SizeBytes c) ++ Connect_body c.

Definition Connect_read : Dec Connect :=
  mode ← read_u8;
  node_info ← NodeInfo_read;
  mret (mkConnect mode node_info).

Definition Connect_wf (c : Connect) : Prop :=
  in_range 8 (c_mode c) ∧ NodeInfo_wf (c_node_info c) ∧
  in_range 32 (1 + Z.of_nat (length (NodeInfo_put (c_node_info c)))).

#[export] Instance Connect_wf_dec c : Decision (Connect_wf c).
Proof. unfold Connect_wf. apply _. Defined.

#[export] Instance Connect_codec : Codec Connect := {|
  encode := Connect_body;
  decode_msg := run_decoder Connect_read;
  SizeBytes := Connect_SizeBytes;
  msg_valid := Connect_wf;
|}.

(** ** ConnectResponse *)

(** [SizeBytes() const] reads [node_info->SizeBytes()] when there is no error,
    whether or not the optional holds a value. *)
Definition ConnectResponse_SizeBytes (r : ConnectResponse) : outcome Z :=
  if decide (cr_error r = ProtocolError.kNoError)
  then match cr_node_info r with
       | Some ni => Ok (u32 (2 + NodeInfo_SizeBytes ni))
       | None => UB
       end
  else Ok 2.

(** [operator<<(data, connect_resp)] on an empty vector. *)
Definition ConnectResponse_put (r : ConnectResponse) : outcome (list Z) :=
  match ConnectResponse_SizeBytes r with
  | Ok size =>
      let data := common_headers MsgType.kConnectResponse size ++ put 2 (cr_error r) in
      if decide (cr_error r = ProtocolError.kNoError)
      then match cr_node_info r with
           | None => Throw runtime_error
           | Some ni => Ok (data ++ NodeInfo_Serialize false false ni)
           end
      else Ok data
  | Throw e => Throw e
  | UB => UB
  end.

(** [Serialize() const]: the size is also computed for [reserve]. *)
Definition ConnectResponse_Serialize (r : ConnectResponse) : outcome (list Z) :=
  match ConnectResponse_SizeBytes r with
  | Ok _ => ConnectResponse_put r
  | Throw e => Throw e
  | UB => UB
  end.

Definition ConnectResponse_read : Dec ConnectResponse :=
  error ← read_uint 2;
  if decide (error = ProtocolError.kNoError)
  then node_info ← NodeInfo_read; mret (mkConnectResponse error (Some node_info))
  else mret (mkConnectResponse error None).

(** The comment on [error]: "If error, node_info is not set". *)
Definition ConnectResponse_wf (r : ConnectResponse) : Prop :=
  in_range 16 (cr_error r) ∧
  match cr_node_info r with
  | Some ni => cr_error r = ProtocolError.kNoError ∧ NodeInfo_wf ni ∧
               in_range 32 (2 + Z.of_nat (length (NodeInfo_put ni)))
  | None => cr_error r ≠ ProtocolError.kNoError
  end.

#[export] Instance ConnectResponse_wf_dec r : Decision (ConnectResponse_wf r).
Proof. unfold ConnectResponse_wf. destruct (cr_node_info r); apply _. Defined.

Definition ConnectResponse_body (r : ConnectResponse) : list Z :=
  put 2 (cr_error r) ++
  match cr_node_info r with Some ni => NodeInfo_put ni | None => [] end.

#[export] Instance ConnectResponse_codec : Codec ConnectResponse := {|
  encode := ConnectResponse_body;
  decode_msg := run_decoder ConnectResponse_read;
  SizeBytes := λ r, match ConnectResponse_SizeBytes r with Ok n => n | _ => 0 end;
  msg_valid := ConnectResponse_wf;
|}.

(** ** Laws *)

Context `{!UintVarLaws}.

(** A decoder that ends with the node info, whose constructor takes the rest
    of the span. *)
Lemma then_node_info {A} (k : NodeInfo → A) ni :
  NodeInfo_wf ni →
  run_decoder (node_info ← NodeInfo_read; mret (k node_info)) (NodeInfo_put ni) = Ok (k ni).
Proof.
  intros Hni. pose proof (NodeInfo_read_put ni Hni) as Hr. unfold run_decoder in *.
  destruct (NodeInfo_read (NodeInfo_put ni)) as [o s] eqn:Hs. simpl in Hr. subst o.
  by rewrite (bind_ok _ _ _ ni s).
Qed.

Lemma NodeInfo_size_small ni n :
  NodeInfo_wf ni → in_range 32 (n + Z.of_nat (length (NodeInfo_put ni))) →
  u32 (n + NodeInfo_SizeBytes ni) = n + Z.of_nat (length (NodeInfo_put ni)).
Proof.
  intros Hni Hr. pose proof (codec_size ni Hni) as Hs. cbn in Hs. rewrite <- Hs.
  by apply wrap_small.
Qed.

#[export] Instance Connect_laws : CodecLaws Connect.
Proof.
  split; cbn [SizeBytes encode decode_msg msg_valid Connect_codec].
  - intros [m ni] (Hm & Hni & _). unfold Connect_body, Connect_read. cbn [c_mode c_node_info app].
    unfold run_decoder. decode_field. by apply (then_node_info (mkConnect m)).
  - intros [m ni] (Hm & Hni & Hsz). unfold Connect_SizeBytes. cbn [c_node_info] in *.
    rewrite NodeInfo_size_small by done. unfold Connect_body, NodeInfo_Serialize.
    cbn [c_node_info app length]. lia.
  - intros m. unfold Connect_SizeBytes. apply wrap_range. lia.
Qed.

#[export] Instance ConnectResponse_laws : CodecLaws ConnectResponse.
Proof.
  split; cbn [SizeBytes encode decode_msg msg_valid ConnectResponse_codec].
  - intros [e [ni|]] (He & Hr); unfold ConnectResponse_body, ConnectResponse_read, run_decoder;
      cbn [cr_error cr_node_info] in *.
    + destruct Hr as (-> & Hni & _). decode. rewrite decide_True by done.
      by apply (then_node_info (λ ni, mkConnectResponse _ (Some ni))).
    + decode. by rewrite decide_False.
  - intros [e [ni|]] (He & Hr); unfold ConnectResponse_body, ConnectResponse_SizeBytes;
      cbn [cr_error cr_node_info] in *; rewrite length_app, length_put.
    + destruct Hr as (-> & Hni & Hsz). rewrite decide_True, NodeInfo_size_small by done. lia.
    + by rewrite decide_False.
  - intros r. unfold ConnectResponse_SizeBytes.
    repeat case_match; try (apply wrap_range; lia); unfold in_range; simplify_eq; try lia.
    apply wrap_range. lia.
Qed.

Lemma ConnectResponse_Serialize_framed r :
  ConnectResponse_wf r → ConnectResponse_Serialize r = Ok (framed MsgType.kConnectResponse r).
Proof.
  intros Hr. unfold framed. cbn [SizeBytes encode ConnectResponse_codec].
  destruct r as [e [ni|]], Hr as [_ Hr]; cbn [cr_error cr_node_info] in Hr;
    unfold ConnectResponse_Serialize, ConnectResponse_put, ConnectResponse_SizeBytes, ConnectResponse_body;
    cbn [cr_error cr_node_info].
  - destruct Hr as (-> & _). rewrite !decide_True by done. by rewrite <- app_assoc.
  - rewrite !decide_False by done. by rewrite app_nil_r.
Qed.

(** A connect message is framed and decoded back. *)
Theorem connect_wire c :
  Connect_wf c → framed_ok MsgType.kConnect c (Connect_Serialize c).
Proof. intros Hc. exact (framed_spec MsgType.kConnect c Hc). Qed.

End connect.

Import Quicr.Demo.

Lemma connect_wire_witness :
  framed_ok MsgType.kConnect (mkConnect PeerMode.kBoth demo_node)
    (Connect_Serialize (mkConnect PeerMode.kBoth demo_node)).
Proof. apply (connect_wire (mkConnect PeerMode.kBoth demo_node)). decide_now. Defined.

