(* ===== verification/DataHeader.v ===== *)
(** * Data object header (src/peering/messages/data_header.{h,cc})

    The header in front of a stream or datagram sent to a peer.  It has no
    common header; its first byte is its own length. *)

From S2P Require Import Prelude Common.

Module DataType.
Definition kDatagram : Z := 0.
Definition kExistingStream : Z := 1.
Definition kNewStream : Z := 2.
Definition kControlSignaling : Z := 3.
Definition kFetchNewStream : Z := 4.
Definition kFetchExistingStream : Z := 5.
End DataType.

Record DataHeader := mkDataHeader {
  dh_header_len : Z;
  dh_type : Z;
  dh_sns_id : Z;
  dh_track_full_name_hash : Z;
  dh_priority : Z;
  dh_ttl : Z;
}.

#[global] Instance DataHeader_eq_dec : EqDecision DataHeader.
Proof. solve_decision. Defined.

(** [DataHeader() = default] *)
Definition DataHeader_default : DataHeader :=
  mkDataHeader 0 DataType.kNewStream 0 0 1 2000.

(** [DataHeader(sns_id, full_name, type)] *)
Definition DataHeader_make (sns_id full_name type : Z) : DataHeader :=
  mkDataHeader 0 type sns_id full_name 1 2000.

Definition DataHeader_SizeBytes (d : DataHeader) : Z :=
  if decide (dh_header_len d ≠ 0) then dh_header_len d
  else if decide (dh_type d = DataType.kDatagram) then 2 + 4 + 8
  else if decide (dh_type d = DataType.kNewStream) then 2 + 4 + 8 + 1 + 4
  else 2.

(** ** Deserialize *)

(** The [switch] on the type, on the bytes after the first two. *)
Definition DataHeader_fields (d : DataHeader) : Dec DataHeader :=
  if decide (dh_type d = DataType.kDatagram) then
    sns_id ← read_uint 4;
    hash ← read_uint 8;
    mret (mkDataHeader (dh_header_len d) (dh_type d) sns_id hash (dh_priority d) (dh_ttl d))
  else if decide (dh_type d = DataType.kNewStream) then
    sns_id ← read_uint 4;
    hash ← read_uint 8;
    priority ← read_u8;
    ttl ← read_uint 4;
    mret (mkDataHeader (dh_header_len d) (dh_type d) sns_id hash priority ttl)
  else mret d.

(** [bool Deserialize(serialized_data)], on the object it is called on: the
    header length is already assigned when the length check throws. *)
Definition Deserialize (serialized_data : list Z) : ST DataHeader bool := λ d,
  match serialized_data with
  | [] => (Ok false, d)
  | len :: rest =>
      let d := mkDataHeader len (dh_type d) (dh_sns_id d)
                 (dh_track_full_name_hash d) (dh_priority d) (dh_ttl d) in
      if decide (Z.of_nat (length serialized_data) < len) then (Throw invalid_argument, d)
      else match rest with
           | [] => (UB, d)
           | type :: rest =>
               let d := mkDataHeader len type (dh_sns_id d)
                          (dh_track_full_name_hash d) (dh_priority d) (dh_ttl d) in
               match run_decoder (DataHeader_fields d) rest with
               | Ok d => (Ok true, d)
               | Throw e => (Throw e, d)
               | UB => (UB, d)
               end
           end
  end.

(** [DataHeader(std::span<uint8_t const>)], which ignores the returned flag. *)
Definition DataHeader_of_span (serialized_data : list Z) : outcome DataHeader :=
  match Deserialize serialized_data DataHeader_default with
  | (Ok _, d) => Ok d
  | (Throw e, _) => Throw e
  | (UB, _) => UB
  end.

(** ** Serialize *)

(** What the [switch] of [operator<<] appends after the first two bytes. *)
Definition DataHeader_field_bytes (d : DataHeader) : list Z :=
  if decide (dh_type d = DataType.kDatagram) then
    put 4 (dh_sns_id d) ++ put 8 (dh_track_full_name_hash d)
  else if decide (dh_type d = DataType.kNewStream) then
    put 4 (dh_sns_id d) ++ put 8 (dh_track_full_name_hash d) ++
    [dh_priority d] ++ put 4 (dh_ttl d)
  else [].

(** [operator<<(data, data_object)] on an empty vector of capacity [cap].
    [header_len] is a pointer to the first element, taken after the first
    [push_back]: the write [*header_len += ...] is undefined once a later
    insertion has exceeded the capacity. *)
Definition DataHeader_put (cap : nat) (d : DataHeader) : outcome (list Z) :=
  if decide (dh_type d = DataType.kExistingStream) then Ok []
  else
    let fields := DataHeader_field_bytes d in
    let cap := Nat.max cap 1 in
    if decide (fields ≠ [] ∧ cap < 2 + length fields)%nat then UB
    else Ok ([u8 (2 + Z.of_nat (length fields)); dh_type d] ++ fields).

(** [Serialize()] reserves [SizeBytes()] first. *)
Definition DataHeader_Serialize (d : DataHeader) : outcome (list Z) :=
  DataHeader_put (Z.to_nat (DataHeader_SizeBytes d)) d.

Definition DataHeader_wf (d : DataHeader) : Prop :=
  in_range 8 (dh_header_len d) ∧ in_range 8 (dh_type d) ∧ in_range 32 (dh_sns_id d) ∧
  in_range 64 (dh_track_full_name_hash d) ∧ in_range 8 (dh_priority d) ∧ in_range 32 (dh_ttl d).

#[global] Instance DataHeader_wf_dec d : Decision (DataHeader_wf d).
Proof. unfold DataHeader_wf. apply _. Defined.

(** The bytes the deserialiser touches, by type. *)
Definition DataHeader_needs (type : Z) : nat :=
  if decide (type = DataType.kDatagram) then 14
  else if decide (type = DataType.kNewStream) then 19 else 2.

Lemma DataHeader_fields_ub d s :
  run_decoder (DataHeader_fields d) s = UB ↔
  (2 + length s < DataHeader_needs (dh_type d))%nat.
Proof.
  unfold DataHeader_needs, run_decoder, DataHeader_fields.
  case_decide; [|case_decide; [|split; [done|lia]]].
  - read_field 4%nat s; [split; [lia|done]|].
    read_field 8%nat (drop 4 s); rewrite length_drop in *; (split; [|done || lia]); [lia|done].
  - read_field 4%nat s; [split; [lia|done]|].
    read_field 8%nat (drop 4 s); rewrite length_drop in *; [split; [lia|done]|].
    rewrite drop_drop. change (4 + 8)%nat with 12%nat.
    pose proof (length_drop s 12) as Hl. destruct (drop 12 s) as [|p s']; simpl length in Hl.
    + split; [lia|done].
    + rewrite (bind_ok _ _ _ p s') by done.
      read_field 4%nat s'; (split; [|done || lia]); [lia|done].
Qed.

Lemma DataHeader_fields_no_throw d s e : run_decoder (DataHeader_fields d) s ≠ Throw e.
Proof.
  unfold run_decoder, DataHeader_fields.
  case_decide; [|case_decide; [|done]].
  - read_field 4%nat s; [done|]. by read_field 8%nat (drop 4 s).
  - read_field 4%nat s; [done|]. read_field 8%nat (drop 4 s); [done|].
    destruct (drop 8 (drop 4 s)) as [|p s']; [done|].
    rewrite (bind_ok _ _ _ p s') by done. by read_field 4%nat s'.
Qed.

(** ** Properties *)

Lemma data_header_roundtrip d rest :
  DataHeader_wf d → dh_header_len d = 0 →
  dh_type d = DataType.kDatagram ∨ dh_type d = DataType.kNewStream →
  let size := DataHeader_SizeBytes d in
  ∃ bytes, DataHeader_Serialize d = Ok bytes ∧
    Z.of_nat (length bytes) = size ∧
    Deserialize (bytes ++ rest) DataHeader_default =
      (Ok true,
       if decide (dh_type d = DataType.kDatagram)
       then mkDataHeader size (dh_type d) (dh_sns_id d) (dh_track_full_name_hash d) 1 2000
       else mkDataHeader size (dh_type d) (dh_sns_id d) (dh_track_full_name_hash d)
              (dh_priority d) (dh_ttl d)).
Proof.
  destruct d as [hl ty sns h p ttl].
  intros (Hhl & Hty & Hs & Hh & Hp & Ht) Hl [Hd|Hd] size;
    cbn [dh_header_len dh_type dh_sns_id dh_track_full_name_hash dh_priority dh_ttl] in *;
    subst hl ty; subst size;
    [exists ([14; 0] ++ put 4 sns ++ put 8 h)
    |exists ([19; 2] ++ put 4 sns ++ put 8 h ++ [p] ++ put 4 ttl)];
    (split; [reflexivity|]); (split; [reflexivity|]);
    unfold Deserialize; cbn [app];
    (rewrite decide_False by (cbn [length]; rewrite ?length_cons, !length_app, ?length_cons, ?length_app, !length_put; lia));
    unfold DataHeader_fields, run_decoder; cbn [dh_type].
  - rewrite !decide_True by done. decode. done.
  - rewrite !(decide_False (P := _ = DataType.kDatagram)) by done. rewrite !decide_True by done.
    decode. cbn [app]. decode. done.
Qed.

(** The fields leave the header length alone. *)
Lemma DataHeader_fields_len d bytes d' :
  run_decoder (DataHeader_fields d) bytes = Ok d' → dh_header_len d' = dh_header_len d.
Proof.
  unfold run_decoder, DataHeader_fields. repeat case_decide.
  - read_field 4%nat bytes; [done|]. read_field 8%nat (drop 4 bytes); [done|]. by intros [= <-].
  - read_field 4%nat bytes; [done|]. read_field 8%nat (drop 4 bytes); [done|].
    destruct (drop 8 (drop 4 bytes)) as [|p s']; [done|]. rewrite (bind_ok _ _ _ p s') by done.
    read_field 4%nat s'; [done|]. by intros [= <-].
  - by intros [= <-].
Qed.

(** After a successful call the header length is the first byte, and the data
    is at least that long. *)
Lemma Deserialize_head data d0 d :
  Deserialize data d0 = (Ok true, d) →
  head data = Some (dh_header_len d) ∧ dh_header_len d ≤ Z.of_nat (length data).
Proof.
  destruct data as [|len [|type rest]]; [done| |]; unfold Deserialize; case_decide as Hl; try done.
  set (d' := mkDataHeader len type _ _ _ _). pose proof (DataHeader_fields_len d' rest) as Hf.
  destruct (run_decoder (DataHeader_fields d') rest) as [d''|e|]; try done.
  intros [= <-]. rewrite (Hf d'') by done. split; [done|]. simpl dh_header_len. lia.
Qed.


(** Deserialising arbitrary bytes: it fails softly on nothing, throws
    exactly when the announced length exceeds the data, and otherwise is
    undefined exactly when the data is shorter than the fields of its type,
    which the announced length does not bound. *)
Theorem data_header_deserialize_outcome data d :
  match data with
  | [] => Deserialize data d = (Ok false, d)
  | len :: rest =>
      let size := length data in
      let needs := match rest with [] => 2%nat | type :: _ => DataHeader_needs type end in
      match (Deserialize data d).1 with
      | Throw e => e = invalid_argument ∧ Z.of_nat size < len
      | UB => len ≤ Z.of_nat size ∧ (size < needs)%nat
      | Ok b => b = true ∧ len ≤ Z.of_nat size ∧ (needs ≤ size)%nat
      end
  end.
Proof.
  destruct data as [|len [|type rest]]; [done| |]; unfold Deserialize; cbn [length].
  - case_decide; cbn [fst]; split; (done || lia).
  - case_decide as Hlen; [by split|].
    set (d' := mkDataHeader _ _ _ _ _ _).
    pose proof (DataHeader_fields_ub d' rest) as Hub. cbn [dh_type] in Hub.
    pose proof (DataHeader_fields_no_throw d' rest) as Hnt.
    destruct (run_decoder (DataHeader_fields d') rest) as [d''|e|]; cbn [fst].
    + split_and!; [done|lia|]. assert (¬ (2 + length rest < DataHeader_needs type)%nat) by
        by intros H%Hub. lia.
    + by destruct (Hnt e).
    + split; [lia|]. assert (2 + length rest < DataHeader_needs type)%nat by by apply Hub. lia.
Qed.

Definition demo_data_header : DataHeader :=
  mkDataHeader 0 DataType.kNewStream 77 123456789012 3 5000.


(** A header cut after its type, with its length byte saying so. *)
Example data_header_short : (Deserialize [2; 2] DataHeader_default).1 = UB.
Proof. reflexivity. Qed.
