(* ===== verification/SubscribeInfo.v ===== *)
(** * Subscribe information (src/peering/messages/subscribe_info.{h,cc})

    A subscription of some node, flooded through the mesh.  The original
    subscribe message travels with it as opaque bytes. *)

From S2P Require Import Prelude Common Quicr.

Record SubscribeInfo := mkSubscribeInfo {
  si_seq : Z;
  si_source_node_id : Z;
  si_track_hash : TrackHash;
  si_subscribe_data : list Z;
}.

#[global] Instance SubscribeInfo_eq_dec : EqDecision SubscribeInfo.
Proof. solve_decision. Defined.

Abbreviation si_hash si := (track_fullname_hash (si_track_hash si)).

(** [SubscribeInfo(id, source_node_id, track_hash)]; the first argument is
    unused. *)
Definition SubscribeInfo_make (id source_node_id : Z) (th : TrackHash) : SubscribeInfo :=
  mkSubscribeInfo 0 source_node_id th [].

Definition SubscribeInfo_SizeBytes (si : SubscribeInfo) : Z :=
  u32 (2 + 8 + 24 + 4 + Z.of_nat (length (si_subscribe_data si))).

(** [SubscribeInfo(std::span<uint8_t const>)] *)
Definition SubscribeInfo_read : Dec SubscribeInfo :=
  seq ← read_uint 2;
  source_node_id ← read_uint 8;
  namespace_hash ← read_uint 8;
  name_hash ← read_uint 8;
  fullname_hash ← read_uint 8;
  let th := Build_TrackHash namespace_hash name_hash fullname_hash in
  sub_size ← read_uint 4;
  if decide (sub_size = 0) then mret (mkSubscribeInfo seq source_node_id th [])
  else
    left ← get;
    if decide (Z.of_nat (length left) < sub_size) then throw out_of_range
    else data ← read (Z.to_nat sub_size);
         mret (mkSubscribeInfo seq source_node_id th data).

(** [operator<<(data, subscribe_info)] *)
Definition SubscribeInfo_put (si : SubscribeInfo) : list Z :=
  put 2 (si_seq si) ++ put 8 (si_source_node_id si) ++
  put 8 (track_namespace_hash (si_track_hash si)) ++
  put 8 (track_name_hash (si_track_hash si)) ++
  put 8 (track_fullname_hash (si_track_hash si)) ++
  put 4 (u32 (Z.of_nat (length (si_subscribe_data si)))) ++ si_subscribe_data si.

(** The bump at the origin of the message. *)
Definition bump_seq (si : SubscribeInfo) : SubscribeInfo :=
  mkSubscribeInfo (if decide (si_seq si < 65535) then si_seq si + 1 else 0)
    (si_source_node_id si) (si_track_hash si) (si_subscribe_data si).

(** [Serialize(include_common_header, withdraw, is_origin)], which updates the
    object: the bytes and the object afterwards. *)
Definition SubscribeInfo_Serialize (include_common_header withdraw is_origin : bool)
    (si : SubscribeInfo) : list Z * SubscribeInfo :=
  let si := if is_origin then bump_seq si else si in
  ((if include_common_header
    then common_headers
           (if withdraw then MsgType.kSubscribeInfoWithdrawn else MsgType.kSubscribeInfoAdvertised)
           (SubscribeInfo_SizeBytes si)
    else []) ++ SubscribeInfo_put si, si).

Definition SubscribeInfo_wf (si : SubscribeInfo) : Prop :=
  in_range 16 (si_seq si) ∧ in_range 64 (si_source_node_id si) ∧
  TrackHash_wf (si_track_hash si) ∧
  in_range 32 (38 + Z.of_nat (length (si_subscribe_data si))).

#[global] Instance SubscribeInfo_wf_dec si : Decision (SubscribeInfo_wf si).
Proof. unfold SubscribeInfo_wf, TrackHash_wf. apply _. Defined.

#[global] Instance SubscribeInfo_codec : Codec SubscribeInfo := {|
  encode := SubscribeInfo_put;
  decode_msg := run_decoder SubscribeInfo_read;
  SizeBytes := SubscribeInfo_SizeBytes;
  msg_valid := SubscribeInfo_wf;
|}.

(** Decoding the fields before the subscribe data, which may be cut short. *)
Lemma SubscribeInfo_read_fields si data :
  SubscribeInfo_wf si →
  run_decoder SubscribeInfo_read
    (put 2 (si_seq si) ++ put 8 (si_source_node_id si) ++
     put 8 (track_namespace_hash (si_track_hash si)) ++
     put 8 (track_name_hash (si_track_hash si)) ++
     put 8 (track_fullname_hash (si_track_hash si)) ++
     put 4 (u32 (Z.of_nat (length (si_subscribe_data si)))) ++ data) =
  let n := length (si_subscribe_data si) in
  if decide (n = 0%nat) then Ok si
  else if decide (length data < n)%nat then Throw out_of_range
  else Ok (mkSubscribeInfo (si_seq si) (si_source_node_id si) (si_track_hash si) (take n data)).
Proof.
  destruct si as [seq src [h1 h2 h3] sub]. unfold SubscribeInfo_wf, TrackHash_wf.
  cbn [si_seq si_source_node_id si_track_hash si_subscribe_data
       track_namespace_hash track_name_hash track_fullname_hash].
  intros (Hseq & Hsrc & (H1 & H2 & H3) & Hn).
  unfold run_decoder, SubscribeInfo_read. decode.
  rewrite wrap_small by (unfold in_range in *; lia). cbv zeta.
  destruct (decide (length sub = 0%nat)) as [Hz|Hz].
  - rewrite decide_True by lia. destruct sub; [done|discriminate].
  - rewrite decide_False by lia. decode.
    destruct (decide (length data < length sub)%nat).
    + by rewrite decide_True by lia.
    + rewrite decide_False by lia. unfold read. rewrite Nat2Z.id.
      unfold mbind, st_bind. by rewrite decide_False by lia.
Qed.

#[global] Instance SubscribeInfo_laws : CodecLaws SubscribeInfo.
Proof.
  split; cbn [SizeBytes encode decode_msg msg_valid SubscribeInfo_codec].
  - intros si Hsi. unfold SubscribeInfo_put. rewrite SubscribeInfo_read_fields by done.
    cbv zeta. case_decide; [done|]. rewrite decide_False by lia.
    rewrite take_ge by lia. by destruct si.
  - intros si (_ & _ & _ & Hn). unfold SubscribeInfo_SizeBytes, SubscribeInfo_put.
    rewrite !wrap_small by (unfold in_range in *; lia).
    rewrite !length_app, !length_put. lia.
  - intros si. apply wrap_range. lia.
Qed.

Lemma bump_seq_wf si : SubscribeInfo_wf si → SubscribeInfo_wf (bump_seq si).
Proof.
  unfold SubscribeInfo_wf. intros (Hs & ? & ? & ?). split_and!; [|done..].
  cbn [bump_seq si_seq]. unfold in_range in *. case_decide; lia.
Qed.

(** C26: serialising a subscribe info frames the object as it is afterwards;
    only the origin changes it, and only its sequence number, which becomes the
    next one modulo 2^16; and a body whose subscribe data has been cut by at
    least one byte is rejected with an exception instead of being over-read. *)
Theorem subscribe_info_wire (withdraw is_origin : bool) si :
  SubscribeInfo_wf si →
  let '(bytes, si') := SubscribeInfo_Serialize true withdraw is_origin si in
  framed_ok (if withdraw then MsgType.kSubscribeInfoWithdrawn else MsgType.kSubscribeInfoAdvertised)
    si' bytes ∧
  si' = mkSubscribeInfo (if is_origin then u16 (si_seq si + 1) else si_seq si)
          (si_source_node_id si) (si_track_hash si) (si_subscribe_data si) ∧
  ∀ cut, (0 < cut ≤ length (si_subscribe_data si))%nat →
    decode_msg (M := SubscribeInfo) (take (length bytes - 7 - cut) (drop 7 bytes)) = Throw out_of_range.
Proof.
  intros Hsi. unfold SubscribeInfo_Serialize.
  set (si' := if is_origin then bump_seq si else si).
  assert (SubscribeInfo_wf si') as Hsi' by (subst si'; destruct is_origin; auto using bump_seq_wf).
  pose proof (framed_spec (if withdraw then MsgType.kSubscribeInfoWithdrawn
    else MsgType.kSubscribeInfoAdvertised) si' Hsi') as Hf.
  split_and!; [exact Hf| |].
  - subst si'. destruct is_origin; [|by destruct si].
    unfold bump_seq. f_equal. destruct Hsi as (Hseq & _). unfold in_range in Hseq.
    case_decide.
    + symmetry. apply wrap_small. unfold in_range. lia.
    + replace (si_seq si) with 65535 by lia. done.
  - intros cut Hcut.
    assert (length (si_subscribe_data si') = length (si_subscribe_data si)) as Hl
      by (subst si'; by destruct is_origin).
    rewrite length_app, drop_app_length'; [|done].
    change (length (common_headers _ _)) with 7%nat.
    replace (7 + length (SubscribeInfo_put si') - 7 - cut)%nat
      with (length (SubscribeInfo_put si') - cut)%nat by lia.
    unfold SubscribeInfo_put. rewrite !length_app, !length_put.
    cbn [decode_msg SubscribeInfo_codec].
    rewrite !take_app, !length_put.
    rewrite !(take_ge (put _ _)) by (rewrite length_put; lia).
    rewrite SubscribeInfo_read_fields by done. cbv zeta.
    rewrite decide_False by lia. rewrite decide_True; [done|].
    rewrite length_take. lia.
Qed.

Definition demo_subscribe : SubscribeInfo :=
  mkSubscribeInfo 65535 9001 (Build_TrackHash 11 12 13) [1; 2; 3].

Lemma subscribe_info_wire_witness :
  let '(bytes, si') := SubscribeInfo_Serialize true false true demo_subscribe in
  framed_ok MsgType.kSubscribeInfoAdvertised si' bytes ∧
  si' = mkSubscribeInfo 0 9001 (Build_TrackHash 11 12 13) [1; 2; 3] ∧
  ∀ cut, (0 < cut ≤ 3)%nat →
    decode_msg (M := SubscribeInfo) (take (length bytes - 7 - cut) (drop 7 bytes)) = Throw out_of_range.
Proof. apply (subscribe_info_wire false true demo_subscribe). decide_now. Defined.
