(* ===== verification/SubscribeNodeSet.v ===== *)
(** * Subscribe node sets (src/peering/messages/subscribe_node_set.{h,cc})

    The set of nodes a data object has to reach through a peer, identified on
    the wire by the SNS id (the data context of the session that sends it). *)

From S2P Require Import Prelude Common.

Definition kMaxSnsId : Z := 4294967294.
Definition kSnsAdvHeaderSize : Z := 4 + 1 + 2.

Record SubscribeNodeSet := mkSNS {
  sns_id : Z;
  sns_priority : Z;
  sns_nodes : gset Z;
}.

#[global] Instance SubscribeNodeSet_eq_dec : EqDecision SubscribeNodeSet.
Proof. solve_decision. Defined.

(** [SubscribeNodeSet() = default] *)
Definition SNS_default : SubscribeNodeSet := mkSNS 0 2 ∅.

Definition SNS_SizeBytes (withdraw : bool) (sns : SubscribeNodeSet) : Z :=
  if withdraw then 4
  else u32 (kSnsAdvHeaderSize + Z.of_nat (size (sns_nodes sns)) * 8).

(** [for (uint16_t i = 0; i < num_nodes; i++)] *)
Fixpoint read_nodes (num_nodes : nat) (nodes : gset Z) : Dec (gset Z) :=
  match num_nodes with
  | O => mret nodes
  | S num_nodes => node ← read_uint 8; read_nodes num_nodes ({[node]} ∪ nodes)
  end.

(** [SubscribeNodeSet(serialized_data, withdraw)] *)
Definition SNS_read (withdraw : bool) : Dec SubscribeNodeSet :=
  id ← read_uint 4;
  if withdraw then mret (mkSNS id 2 ∅)
  else
    priority ← read_u8;
    num_nodes ← read_uint 2;
    nodes ← read_nodes (Z.to_nat num_nodes) ∅;
    mret (mkSNS id priority nodes).

(** [operator<<(data, sns)] *)
Definition SNS_put (sns : SubscribeNodeSet) : list Z :=
  put 4 (sns_id sns) ++ [sns_priority sns] ++
  put 2 (u16 (Z.of_nat (size (sns_nodes sns)))) ++
  concat (put 8 <$> set_elements (sns_nodes sns)).

(** [Serialize(include_common_header, withdraw)] *)
Definition SNS_Serialize (include_common_header withdraw : bool) (sns : SubscribeNodeSet) : list Z :=
  (if include_common_header
   then common_headers
          (if withdraw then MsgType.kSubscribeNodeSetWithdrawn
           else MsgType.kSubscribeNodeSetAdvertised) (SNS_SizeBytes withdraw sns)
   else []) ++
  (if withdraw then put 4 (sns_id sns) else SNS_put sns).

(** The node count is sent in 16 bits. *)
Definition SNS_wf (sns : SubscribeNodeSet) : Prop :=
  in_range 32 (sns_id sns) ∧ in_range 8 (sns_priority sns) ∧
  set_Forall (in_range 64) (sns_nodes sns) ∧ in_range 16 (Z.of_nat (size (sns_nodes sns))).

#[global] Instance SNS_wf_dec sns : Decision (SNS_wf sns).
Proof. unfold SNS_wf. apply _. Defined.

#[global] Instance SNS_codec : Codec SubscribeNodeSet := {|
  encode := SNS_put;
  decode_msg := run_decoder (SNS_read false);
  SizeBytes := SNS_SizeBytes false;
  msg_valid := SNS_wf;
|}.

Lemma read_nodes_put l : ∀ acc rest,
  Forall (in_range 64) l →
  read_nodes (length l) acc (concat (put 8 <$> l) ++ rest) = (Ok (list_to_set l ∪ acc), rest).
Proof.
  induction l as [|n l IH]; intros acc rest Hl; cbn [length read_nodes].
  - simpl. by rewrite union_empty_l_L.
  - inversion Hl as [|? ? Hn Hl']; subst. rewrite fmap_cons. cbn [concat].
    decode. rewrite IH by done. f_equal. f_equal. cbn [list_to_set].
    by rewrite (assoc_L (∪)), (comm_L (∪) (list_to_set l)).
Qed.

Lemma length_concat_put n l : length (concat (put n <$> l)) = (n * length l)%nat.
Proof.
  induction l as [|x l IH]; [simpl; lia|]. rewrite fmap_cons. cbn [concat length].
  rewrite length_app, length_put, IH. lia.
Qed.

Lemma SNS_read_put sns : SNS_wf sns → run_decoder (SNS_read false) (SNS_put sns) = Ok sns.
Proof.
  destruct sns as [i p ns]. intros (Hi & Hp & Hns & Hn). unfold run_decoder, SNS_read, SNS_put.
  cbn [sns_id sns_priority sns_nodes] in *.
  decode. cbn [app]. decode. rewrite wrap_small by done.
  rewrite Nat2Z.id, <- length_set_elements.
  rewrite <- (app_nil_r (concat _)). erewrite bind_ok.
  2: { apply read_nodes_put. apply Forall_forall. intros n Hin%elem_of_set_elements. by apply Hns. }
  cbv beta. by rewrite list_to_set_elements_sorted, union_empty_r_L.
Qed.

Lemma length_SNS_put sns : SNS_wf sns →
  Z.of_nat (length (SNS_put sns)) = SNS_SizeBytes false sns.
Proof.
  intros (_ & _ & _ & Hn). unfold in_range in Hn. unfold SNS_SizeBytes, kSnsAdvHeaderSize, SNS_put.
  rewrite !wrap_small by (unfold in_range; lia).
  rewrite !length_app, !length_put, length_concat_put, length_set_elements. simpl length. lia.
Qed.

#[global] Instance SNS_laws : CodecLaws SubscribeNodeSet.
Proof.
  split; [exact SNS_read_put|exact length_SNS_put|].
  intros sns. cbn [SizeBytes SNS_codec]. unfold SNS_SizeBytes. apply wrap_range. lia.
Qed.

(** C27: an advertised node set is framed with the size of its nodes and
    decodes to the same set; a withdrawal carries the id alone, and decodes to
    it with no nodes and the default priority. *)
Theorem subscribe_node_set_wire sns :
  SNS_wf sns →
  framed_ok MsgType.kSubscribeNodeSetAdvertised sns (SNS_Serialize true false sns) ∧
  SNS_Serialize true true sns =
    common_headers MsgType.kSubscribeNodeSetWithdrawn 4 ++ SNS_Serialize false true sns ∧
  Z.of_nat (length (SNS_Serialize false true sns)) = SNS_SizeBytes true sns ∧
  run_decoder (SNS_read true) (SNS_Serialize false true sns) = Ok (mkSNS (sns_id sns) 2 ∅).
Proof.
  intros Hsns. split_and!; [|done| |].
  - exact (framed_spec MsgType.kSubscribeNodeSetAdvertised sns Hsns).
  - done.
  - destruct Hsns as (Hi & _). unfold SNS_Serialize, SNS_read, run_decoder.
    rewrite app_nil_l, <- (app_nil_r (put _ _)). by decode.
Qed.

Definition demo_sns : SubscribeNodeSet := mkSNS 5 3 {[ 70; 9; 4000000000 ]}.

Lemma subscribe_node_set_wire_witness :
  framed_ok MsgType.kSubscribeNodeSetAdvertised demo_sns (SNS_Serialize true false demo_sns).
Proof. apply (subscribe_node_set_wire demo_sns). decide_now. Defined.
