(* ===== verification/AnnounceInfo.v ===== *)
(** * Announce information (src/peering/messages/announce_info.{h,cc})

    A publisher ([flags] bit 0 clear) or a publish-namespace (bit 0 set) of some
    node, flooded through the mesh. *)

From S2P Require Import Prelude Common Quicr.

Section announce_info.
Context `{TrackNames}.

Record AnnounceInfo := mkAnnounceInfo {
  ai_source_node_id : Z;
  ai_name_space : TrackNamespace;
  ai_name : list Z;
  ai_fullname_hash : Z;
  ai_flags : Z;
}.

#[export] Instance AnnounceInfo_eq_dec : EqDecision AnnounceInfo.
Proof. solve_decision. Defined.

(** [AnnounceInfo(source_node_id, full_name, publish)] *)
Definition AnnounceInfo_make (source_node_id : Z) (full_name : FullTrackName)
    (publish : bool) : AnnounceInfo :=
  mkAnnounceInfo source_node_id full_name.1 full_name.2 0 (if publish then 0 else 1).

Definition AnnounceInfo_SizeBytes (ai : AnnounceInfo) : Z :=
  u32 (8 + 8 + 1 + 2 * Z.of_nat (length (GetEntries (ai_name_space ai)))
       + ns_size (ai_name_space ai) + 2 + Z.of_nat (length (ai_name ai)) + 1).

(** A field with a 16-bit length in front. *)
Definition put_sized (l : list Z) : list Z := put 2 (u16 (Z.of_nat (length l))) ++ l.

Definition read_sized : Dec (list Z) :=
  len ← read_uint 2; read (Z.to_nat len).

Fixpoint read_entries (num_entries : nat) (entries : list (list Z)) : Dec (list (list Z)) :=
  match num_entries with
  | O => mret entries
  | S n => e ← read_sized; read_entries n (entries ++ [e])
  end.

(** The [TrackNamespace(entries)] constructor, which may throw. *)
Definition of_outcome {A} (o : outcome A) : Dec A := λ s, (o, s).

(** [AnnounceInfo(std::span<uint8_t const>)] *)
Definition AnnounceInfo_read : Dec AnnounceInfo :=
  source_node_id ← read_uint 8;
  fullname_hash ← read_uint 8;
  num_entries ← read_u8;
  entries ← read_entries (Z.to_nat num_entries) [];
  name_space ← of_outcome (make_namespace entries);
  name ← read_sized;
  flags ← read_u8;
  mret (mkAnnounceInfo source_node_id name_space name fullname_hash flags).

(** [operator<<(data, announce_info)] *)
Definition AnnounceInfo_put (ai : AnnounceInfo) : list Z :=
  put 8 (ai_source_node_id ai) ++ put 8 (ai_fullname_hash ai) ++
  [u8 (Z.of_nat (length (GetEntries (ai_name_space ai))))] ++
  concat (put_sized <$> GetEntries (ai_name_space ai)) ++
  put_sized (ai_name ai) ++ [ai_flags ai].

(** [Serialize(include_common_header, withdraw)] *)
Definition AnnounceInfo_Serialize (include_common_header withdraw : bool)
    (ai : AnnounceInfo) : list Z :=
  (if include_common_header
   then common_headers
          (if withdraw then MsgType.kAnnounceInfoWithdrawn else MsgType.kAnnounceInfoAdvertised)
          (AnnounceInfo_SizeBytes ai)
   else []) ++ AnnounceInfo_put ai.

(** The counts are sent in one byte, the lengths in two. *)
Definition sized (l : list Z) : Prop := in_range 16 (Z.of_nat (length l)).

Definition AnnounceInfo_wf (ai : AnnounceInfo) : Prop :=
  in_range 64 (ai_source_node_id ai) ∧ in_range 64 (ai_fullname_hash ai) ∧
  in_range 8 (ai_flags ai) ∧ sized (ai_name ai) ∧
  Forall sized (GetEntries (ai_name_space ai)) ∧
  in_range 8 (Z.of_nat (length (GetEntries (ai_name_space ai)))).

#[export] Instance AnnounceInfo_wf_dec ai : Decision (AnnounceInfo_wf ai).
Proof. unfold AnnounceInfo_wf, sized. apply _. Defined.

#[export] Instance AnnounceInfo_codec : Codec AnnounceInfo := {|
  encode := AnnounceInfo_put;
  decode_msg := run_decoder AnnounceInfo_read;
  SizeBytes := AnnounceInfo_SizeBytes;
  msg_valid := AnnounceInfo_wf;
|}.

Lemma read_sized_put l rest : sized l → read_sized (put_sized l ++ rest) = (Ok l, rest).
Proof.
  intros Hl. unfold read_sized, put_sized. rewrite wrap_small by done.
  decode. rewrite Nat2Z.id. by apply read_app.
Qed.

Lemma read_entries_put l : ∀ acc rest,
  Forall sized l →
  read_entries (length l) acc (concat (put_sized <$> l) ++ rest) = (Ok (acc ++ l), rest).
Proof.
  induction l as [|e l IH]; intros acc rest Hl; cbn [length read_entries].
  - simpl. by rewrite app_nil_r.
  - inversion Hl; subst. rewrite fmap_cons. cbn [concat]. rewrite <- app_assoc.
    rewrite (bind_ok _ _ _ _ _ (read_sized_put e _ ltac:(done))), IH by done.
    by rewrite <- app_assoc.
Qed.

Lemma length_put_sized l :
  length (concat (put_sized <$> l)) = (2 * length l + length (concat l))%nat.
Proof.
  induction l as [|e l IH]; [done|]. rewrite fmap_cons. cbn [concat length].
  unfold put_sized at 1. rewrite !length_app, length_put, IH. lia.
Qed.

Lemma length_concat_sized l :
  Forall sized l → Z.of_nat (length (concat l)) ≤ 65535 * Z.of_nat (length l).
Proof.
  induction 1 as [|e l He Hl IH]; [done|]. cbn [concat length].
  unfold sized, in_range in He. rewrite length_app. lia.
Qed.

Context `{!TrackNamesLaws}.

Lemma AnnounceInfo_read_put ai :
  AnnounceInfo_wf ai → run_decoder AnnounceInfo_read (AnnounceInfo_put ai) = Ok ai.
Proof.
  intros (Hs & Hh & Hf & Hn & He & Hc). unfold run_decoder, AnnounceInfo_read, AnnounceInfo_put.
  rewrite wrap_small by done. decode. cbn [app]. decode.
  rewrite Nat2Z.id. rewrite (bind_ok _ _ _ _ _ (read_entries_put _ [] _ He)). cbn [app].
  unfold of_outcome at 1. rewrite make_GetEntries.
  rewrite (bind_ok (λ s, (Ok (ai_name_space ai), s)) _ _ _ _ eq_refl).
  rewrite (bind_ok _ _ _ _ _ (read_sized_put _ _ Hn)). decode. by destruct ai.
Qed.

Lemma length_AnnounceInfo_put ai :
  AnnounceInfo_wf ai → Z.of_nat (length (AnnounceInfo_put ai)) = AnnounceInfo_SizeBytes ai.
Proof.
  intros (_ & _ & _ & Hn & He & Hc). unfold AnnounceInfo_SizeBytes, AnnounceInfo_put.
  pose proof (length_concat_sized _ He). unfold sized, in_range in Hn, Hc.
  rewrite ns_size_sum. rewrite (wrap_small 32) by (unfold in_range; lia).
  unfold put_sized at 2. rewrite !length_app, !length_put, length_put_sized.
  simpl length. lia.
Qed.

#[export] Instance AnnounceInfo_laws : CodecLaws AnnounceInfo.
Proof.
  split; [exact AnnounceInfo_read_put|exact length_AnnounceInfo_put|].
  intros ai. cbn [SizeBytes AnnounceInfo_codec]. apply wrap_range. lia.
Qed.

(** C25: an announcement or its withdrawal is framed with its size and decodes
    to the same publisher, namespace tuple by tuple. *)
Theorem announce_info_wire (withdraw : bool) ai :
  AnnounceInfo_wf ai →
  framed_ok (if withdraw then MsgType.kAnnounceInfoWithdrawn
             else MsgType.kAnnounceInfoAdvertised)
    ai (AnnounceInfo_Serialize true withdraw ai).
Proof.
  intros Hai.
  exact (framed_spec (if withdraw then MsgType.kAnnounceInfoWithdrawn
                      else MsgType.kAnnounceInfoAdvertised) ai Hai).
Qed.
End announce_info.

Import Quicr.Demo.

Definition demo_announce : AnnounceInfo :=
  mkAnnounceInfo 42 [[109; 111; 113]; [49]; []] [116; 114] 77 1.

Lemma announce_info_wire_witness :
  framed_ok MsgType.kAnnounceInfoWithdrawn demo_announce
    (AnnounceInfo_Serialize true true demo_announce).
Proof. apply (announce_info_wire true demo_announce). decide_now. Defined.
