(* ===== verification/InfoBase.v ===== *)
(** * Information base (class InfoBase, src/peering/info_base.{h,cc})

    The tables a relay keeps about the mesh: nodes and the best session to reach
    each, subscriptions, announcements with their prefix index, and the two
    forwarding tables.  Every operation locks [mutex_] except [HasSubscribers].

    A [PeerSession] object is referred to by its address ([SessRef]); a
    [weak_ptr] is an optional address.  [lock] tells which objects are alive and
    what [GetSessionId()] returns for each. *)

From S2P Require Import Prelude Common Quicr NodeInfo SubscribeInfo SubscribeNodeSet AnnounceInfo.

Abbreviation SessRef := Z.
Abbreviation weak_ptr := (option SessRef).

Record NodeItem := mkNodeItem { it_peer_session : weak_ptr; it_node_info : NodeInfo }.

Record FibEntry := mkFibEntry {
  update_ref : Z;
  streams : gmap Z Z;
  out_sns_id : Z;
  fe_peer_session : weak_ptr;
  fe_track_fullname_hash : Z;
}.

#[global] Instance NodeItem_eq_dec : EqDecision NodeItem.
Proof. solve_decision. Defined.
#[global] Instance FibEntry_eq_dec : EqDecision FibEntry.
Proof. solve_decision. Defined.

(** [NodeInfo info;], whose scalar members are not read before assignment. *)
Definition NodeInfo_default : NodeInfo := mkNodeInfo 0 0 [] 0 0 [].

Section info_base.
Context `{TrackNames}.

Record InfoBase := mkInfoBase {
  nodes_ : gmap (Z * Z) NodeItem;             (* node id, peer session id *)
  nodes_best_ : gmap Z weak_ptr;
  subscribes_ : gmap Z (gmap Z SubscribeInfo);
  client_fib_ : gmap (Z * Z) FibEntry;        (* full name hash, session id *)
  peer_fib_ : gmap (Z * Z) (gmap Z FibEntry); (* ingress session id, SNS id *)
  announces_ : gmap Z (gmap Z AnnounceInfo);
  prefix_lookup_announces_ : gmap Z (gset Z);
  nodes_by_peer_session_ : gmap Z (gset Z);
  mutex_ : bool;                              (* held *)
}.

Definition InfoBase_empty : InfoBase := mkInfoBase ∅ ∅ ∅ ∅ ∅ ∅ ∅ ∅ false.

Definition set_nodes f ib := mkInfoBase (f (nodes_ ib)) (nodes_best_ ib) (subscribes_ ib)
  (client_fib_ ib) (peer_fib_ ib) (announces_ ib) (prefix_lookup_announces_ ib)
  (nodes_by_peer_session_ ib) (mutex_ ib).
Definition set_best f ib := mkInfoBase (nodes_ ib) (f (nodes_best_ ib)) (subscribes_ ib)
  (client_fib_ ib) (peer_fib_ ib) (announces_ ib) (prefix_lookup_announces_ ib)
  (nodes_by_peer_session_ ib) (mutex_ ib).
Definition set_subscribes f ib := mkInfoBase (nodes_ ib) (nodes_best_ ib) (f (subscribes_ ib))
  (client_fib_ ib) (peer_fib_ ib) (announces_ ib) (prefix_lookup_announces_ ib)
  (nodes_by_peer_session_ ib) (mutex_ ib).
Definition set_client_fib f ib := mkInfoBase (nodes_ ib) (nodes_best_ ib) (subscribes_ ib)
  (f (client_fib_ ib)) (peer_fib_ ib) (announces_ ib) (prefix_lookup_announces_ ib)
  (nodes_by_peer_session_ ib) (mutex_ ib).
Definition set_peer_fib f ib := mkInfoBase (nodes_ ib) (nodes_best_ ib) (subscribes_ ib)
  (client_fib_ ib) (f (peer_fib_ ib)) (announces_ ib) (prefix_lookup_announces_ ib)
  (nodes_by_peer_session_ ib) (mutex_ ib).
Definition set_announces f ib := mkInfoBase (nodes_ ib) (nodes_best_ ib) (subscribes_ ib)
  (client_fib_ ib) (peer_fib_ ib) (f (announces_ ib)) (prefix_lookup_announces_ ib)
  (nodes_by_peer_session_ ib) (mutex_ ib).
Definition set_prefix f ib := mkInfoBase (nodes_ ib) (nodes_best_ ib) (subscribes_ ib)
  (client_fib_ ib) (peer_fib_ ib) (announces_ ib) (f (prefix_lookup_announces_ ib))
  (nodes_by_peer_session_ ib) (mutex_ ib).
Definition set_by_session f ib := mkInfoBase (nodes_ ib) (nodes_best_ ib) (subscribes_ ib)
  (client_fib_ ib) (peer_fib_ ib) (announces_ ib) (prefix_lookup_announces_ ib)
  (f (nodes_by_peer_session_ ib)) (mutex_ ib).
Definition set_mutex b ib := mkInfoBase (nodes_ ib) (nodes_best_ ib) (subscribes_ ib)
  (client_fib_ ib) (peer_fib_ ib) (announces_ ib) (prefix_lookup_announces_ ib)
  (nodes_by_peer_session_ ib) b.

(** [std::lock_guard _(mutex_)] around [m]: locking a mutex its thread holds is
    undefined; the guard unlocks on exceptions too. *)
Definition with_lock {A} (m : ST InfoBase A) : ST InfoBase A := λ ib,
  if mutex_ ib then (UB, ib)
  else match m (set_mutex true ib) with (o, ib') => (o, set_mutex false ib') end.

(** ** Nodes *)

Section nodes.
Variable lock : SessRef → option Z.

(** [w.lock()], then [GetSessionId()] of the object. *)
Definition lock_weak (w : weak_ptr) : option Z := w ≫= lock.

(** [nodes_.at(key)] *)
Definition nodes_at (key : Z * Z) : ST InfoBase NodeItem := λ ib,
  match nodes_ ib !! key with
  | Some item => (Ok item, ib)
  | None => (Throw out_of_range, ib)
  end.

(** Assigning [best_peer_session] from [w] and re-reading its node info. *)
Definition best_node_info (node_id : Z) (w : weak_ptr) : ST InfoBase NodeInfo :=
  session_id ← deref (lock_weak w);
  item ← nodes_at (node_id, session_id);
  mret (it_node_info item).

(** The test of step 1 and 2 of the selection. *)
Definition is_better (best candidate : NodeInfo) : bool :=
  bool_decide (length (ni_path candidate) < length (ni_path best))%nat ||
  bool_decide (SumSrtt candidate < SumSrtt best).

(** The body of the selection loop: [is_updated], [best_peer_session] and
    [best_node_info] are its variables. *)
Definition select_step (node_id : Z) (best : bool * weak_ptr * NodeInfo)
    (entry : (Z * Z) * NodeItem) : ST InfoBase (bool * weak_ptr * NodeInfo) :=
  let '(is_updated, w, info) := best in
  let item := entry.2 in
  if bool_decide (lock_weak w = None) || is_better info (it_node_info item)
  then
    info ← best_node_info node_id (it_peer_session item);
    mret (true, it_peer_session item, info)
  else mret (is_updated, w, info).

(** The dump of the forwarding table, whose lookups are not part of the
    logging macro. *)
Definition dump_step (node : Z * weak_ptr) : ST InfoBase unit :=
  _ ← best_node_info node.1 node.2; mret tt.

Definition SelectBestNode (node_id : Z) : ST InfoBase bool :=
  ib ← get;
  init ← match nodes_best_ ib !! node_id with
         | Some w => info ← best_node_info node_id w; mret (false, w, info)
         | None => mret (false, None, NodeInfo_default)
         end;
  r ← fold_each (same_first node_id (nodes_ ib)) init (select_step node_id);
  let '(is_updated, best_peer_session, _) := r in
  if (is_updated : bool) then
    modify (set_best <[node_id := best_peer_session]>) ;;
    ib ← gets nodes_best_;
    for_each (entries ib) dump_step ;;
    mret true
  else mret false.

(** [bool AddNode(peer_session, node_info)]; a new entry and an update store
    the same item. *)
Definition AddNode (peer_session : SessRef) (node_info : NodeInfo) : ST InfoBase bool :=
  with_lock (
    session_id ← deref (lock peer_session);
    modify (set_nodes <[(ni_id node_info, session_id) :=
                         mkNodeItem (Some peer_session) node_info]>) ;;
    modify (set_by_session (λ m,
      <[session_id := {[ni_id node_info]} ∪ default ∅ (m !! session_id)]> m)) ;;
    SelectBestNode (ni_id node_info)).

(** [nodes_.erase({node_id, session})], then the reselection if the node had
    a best session. *)
Definition erase_node (node_id peer_session_id : Z) : ST InfoBase unit :=
  modify (set_nodes (delete (node_id, peer_session_id))) ;;
  best ← gets nodes_best_;
  if decide (is_Some (best !! node_id)) then
    modify (set_best (delete node_id)) ;;
    _ ← SelectBestNode node_id; mret tt
  else mret tt.

Definition RemoveNode (peer_session_id node_id : Z) : ST InfoBase unit :=
  with_lock (
    by_session ← gets nodes_by_peer_session_;
    match by_session !! peer_session_id with
    | Some ids =>
        let ids := ids ∖ {[node_id]} in
        modify (set_by_session
          (if decide (ids = ∅) then delete peer_session_id
           else <[peer_session_id := ids]>))
    | None => mret tt
    end ;;
    erase_node node_id peer_session_id).

Definition PurgePeerSessionInfo (peer_session_id : Z) : ST InfoBase unit :=
  with_lock (
    by_session ← gets nodes_by_peer_session_;
    match by_session !! peer_session_id with
    | Some ids =>
        for_each (set_elements ids) (λ node_id, erase_node node_id peer_session_id) ;;
        modify (set_by_session (delete peer_session_id))
    | None => mret tt
    end ;;
    fib ← gets peer_fib_;
    let fib_entries := (same_first peer_session_id fib).*1 in
    for_each fib_entries (λ key, modify (set_peer_fib (delete key)))).

Definition GetBestPeerSession (node_id : Z) : ST InfoBase weak_ptr :=
  with_lock (best ← gets nodes_best_; mret (default None (best !! node_id))).
End nodes.

(** ** Subscribes *)

Definition HasSubscribers (si : SubscribeInfo) (ib : InfoBase) : bool :=
  match subscribes_ ib !! si_hash si with
  | Some m => existsb (λ e, bool_decide (si_source_node_id e.2 ≠ si_source_node_id si)) (entries m)
  | None => false
  end.

(** [subscribes_[h]]: creates an empty inner map when there is none. *)
Definition subscribes_at (h : Z) : ST InfoBase (gmap Z SubscribeInfo) :=
  modify (set_subscribes (λ m, <[h := default ∅ (m !! h)]> m)) ;;
  m ← gets subscribes_;
  mret (default ∅ (m !! h)).

Definition AddSubscribe (si : SubscribeInfo) : ST InfoBase bool :=
  with_lock (
    inner ← subscribes_at (si_hash si);
    match inner !! si_source_node_id si with
    | Some old =>
        let seq_diff := si_seq old - si_seq si in
        if decide (seq_diff = 0) then mret false
        else modify (set_subscribes <[si_hash si := <[si_source_node_id si := si]> inner]>) ;;
             mret true
    | None =>
        modify (set_subscribes <[si_hash si := <[si_source_node_id si := si]> inner]>) ;;
        mret true
    end).

Definition RemoveSubscribe (si : SubscribeInfo) : ST InfoBase bool :=
  with_lock (
    subs ← gets subscribes_;
    match subs !! si_hash si with
    | Some inner =>
        match inner !! si_source_node_id si with
        | Some _ =>
            let inner := delete (si_source_node_id si) inner in
            modify (set_subscribes
              (if decide (inner = ∅) then delete (si_hash si) else <[si_hash si := inner]>)) ;;
            mret true
        | None => mret false
        end
    | None => mret false
    end).

Definition GetSubscribe (track_fullname_hash src_node_id : Z) : ST InfoBase (option SubscribeInfo) :=
  with_lock (inner ← subscribes_at track_fullname_hash; mret (inner !! src_node_id)).

(** ** Announces *)

Fixpoint prefix_hashes (hash : Z) (hs : list Z) : list Z :=
  match hs with
  | [] => []
  | h :: hs => let hash := hash_combine hash h in hash :: prefix_hashes hash hs
  end.

Definition PrefixHashNamespaceTuples (name_space : TrackNamespace) : list Z :=
  prefix_hashes 0 (GetHashes name_space).

Definition AddAnnounce (ai : AnnounceInfo) : ST InfoBase bool :=
  with_lock (
    tbl ← gets announces_;
    let inner := default ∅ (tbl !! ai_fullname_hash ai) in
    let is_new := bool_decide (inner !! ai_source_node_id ai = None) in
    modify (set_announces <[ai_fullname_hash ai :=
      if is_new then <[ai_source_node_id ai := ai]> inner else inner]>) ;;
    when is_new (for_each (PrefixHashNamespaceTuples (ai_name_space ai)) (λ prefix_hash,
      modify (set_prefix (λ m,
        <[prefix_hash := {[ai_fullname_hash ai]} ∪ default ∅ (m !! prefix_hash)]> m)))) ;;
    mret is_new).

(** One prefix of [RemoveAnnounce]; the loop carries [removed] and
    [remove_prefix_hashes]. *)
Definition remove_prefix_step (fullname_hash : Z) (acc : bool * list Z) (prefix_hash : Z) :
    ST InfoBase (bool * list Z) :=
  let '(removed, remove_prefix_hashes) := acc in
  tbl ← gets prefix_lookup_announces_;
  match tbl !! prefix_hash with
  | None => mret (removed, remove_prefix_hashes)
  | Some hashes =>
      if decide (fullname_hash ∈ hashes) then
        let hashes := hashes ∖ {[fullname_hash]} in
        modify (set_prefix <[prefix_hash := hashes]>) ;;
        mret (true, if decide (hashes = ∅)
                    then remove_prefix_hashes ++ [prefix_hash] else remove_prefix_hashes)
      else mret (removed, remove_prefix_hashes)
  end.

Definition RemoveAnnounce (ai : AnnounceInfo) : ST InfoBase bool :=
  with_lock (
    tbl ← gets announces_;
    match tbl !! ai_fullname_hash ai with
    | None => mret false
    | Some inner =>
        r ← fold_each (PrefixHashNamespaceTuples (ai_name_space ai)) (false, [])
              (remove_prefix_step (ai_fullname_hash ai));
        let '(removed, remove_prefix_hashes) := r in
        for_each remove_prefix_hashes (λ prefix_hash, modify (set_prefix (delete prefix_hash))) ;;
        let inner := delete (ai_source_node_id ai) inner in
        modify (set_announces
          (if decide (inner = ∅) then delete (ai_fullname_hash ai)
           else <[ai_fullname_hash ai := inner]>)) ;;
        mret removed
    end).

(** The node ids of one entry of [announces_]. *)
Definition announce_ids (ib : InfoBase) (f_hash : Z) : gset Z :=
  dom (default ∅ (announces_ ib !! f_hash)).

Definition GetAnnounceIds (name_space : TrackNamespace) (name : list Z) (exact : bool) :
    ST InfoBase (gset Z) :=
  with_lock (
    ib ← get;
    let th := track_hash name_space name in
    let ids := announce_ids ib (track_fullname_hash th) in
    if bool_decide (ids ≠ ∅) || exact then mret ids
    else
      back ← deref (last (PrefixHashNamespaceTuples name_space));
      match prefix_lookup_announces_ ib !! back with
      | Some hashes => mret (ids ∪ ⋃ (announce_ids ib <$> set_elements hashes))
      | None => mret ids
      end).
End info_base.

#[global] Arguments set_nodes {_} _ _ /.
#[global] Arguments set_best {_} _ _ /.
#[global] Arguments set_subscribes {_} _ _ /.
#[global] Arguments set_announces {_} _ _ /.
#[global] Arguments set_prefix {_} _ _ /.
#[global] Arguments set_peer_fib {_} _ _ /.
#[global] Arguments set_by_session {_} _ _ /.
#[global] Arguments set_mutex {_} _ _ /.
