(* ===== verification/InfoBaseNodes.v ===== *)
(** * Node tables of the information base

    The invariant that ties [nodes_], [nodes_best_] and
    [nodes_by_peer_session_] together, a pure description of
    [SelectBestNode], and what the operations on nodes guarantee. *)

From S2P Require Import Prelude Common Quicr NodeInfo SubscribeInfo SubscribeNodeSet AnnounceInfo InfoBase.

Section nodes.
Context `{TrackNames} (lock : SessRef → option Z).
Implicit Types ib : InfoBase.

(** ** The invariant *)

(** Every item is keyed by its node and by the id of its session, which is
    alive. *)
Definition items_wf ib : Prop := ∀ n s item,
  nodes_ ib !! (n, s) = Some item →
  lock_weak lock (it_peer_session item) = Some s ∧ ni_id (it_node_info item) = n ∧ 0 ≤ s.

(** Every best session is alive and has an entry for the node. *)
Definition best_wf ib : Prop := ∀ n w,
  nodes_best_ ib !! n = Some w →
  ∃ s, lock_weak lock w = Some s ∧ is_Some (nodes_ ib !! (n, s)).

(** Every known node has a best session. *)
Definition reach ib : Prop := ∀ n s,
  is_Some (nodes_ ib !! (n, s)) → is_Some (nodes_best_ ib !! n).

Definition by_session_wf ib : Prop :=
  (∀ n s, is_Some (nodes_ ib !! (n, s)) ↔
          ∃ ids, nodes_by_peer_session_ ib !! s = Some ids ∧ n ∈ ids) ∧
  (∀ s, nodes_by_peer_session_ ib !! s ≠ Some ∅).

Definition core_wf ib : Prop := items_wf ib ∧ best_wf ib ∧ reach ib.
Definition nodes_wf ib : Prop := core_wf ib ∧ by_session_wf ib.

(** ** SelectBestNode as a fold *)

Definition candidates ib (n : Z) : list NodeItem := (same_first n (nodes_ ib)).*2.

Definition initial_best ib (n : Z) : option NodeItem :=
  w ← nodes_best_ ib !! n;
  s ← lock_weak lock w;
  item ← nodes_ ib !! (n, s);
  mret (mkNodeItem w (it_node_info item)).

Definition pick (acc : bool * option NodeItem) (item : NodeItem) : bool * option NodeItem :=
  match acc.2 with
  | None => (true, Some item)
  | Some b => if is_better (it_node_info b) (it_node_info item) then (true, Some item) else acc
  end.

Definition selection ib (n : Z) : bool * option NodeItem :=
  foldl pick (false, initial_best ib n) (candidates ib n).

(** The loop variables of the source against the accumulator of [pick]. *)
Definition loop_rel (v : bool * weak_ptr * NodeInfo) (acc : bool * option NodeItem) : Prop :=
  v.1.1 = acc.1 ∧
  match acc.2 with
  | None => lock_weak lock v.1.2 = None
  | Some b => v.1.2 = it_peer_session b ∧ v.2 = it_node_info b ∧
              is_Some (lock_weak lock (it_peer_session b))
  end.

Lemma best_node_info_ok ib n s w item :
  lock_weak lock w = Some s → nodes_ ib !! (n, s) = Some item →
  best_node_info lock n w ib = (Ok (it_node_info item), ib).
Proof.
  intros Hw Hn. unfold best_node_info. rewrite Hw.
  rewrite (bind_ok (deref (Some s)) _ ib s ib) by done.
  by rewrite (bind_ok (nodes_at (n, s)) _ ib item ib) by (unfold nodes_at; by rewrite Hn).
Qed.

Lemma select_step_ok ib n s item v acc :
  items_wf ib → nodes_ ib !! (n, s) = Some item → loop_rel v acc →
  ∃ v', select_step lock n v ((n, s), item) ib = (Ok v', ib) ∧ loop_rel v' (pick acc item).
Proof.
  destruct v as [[u w] info], acc as [u' o]. intros Hwf Hn [Hu Ho]; simpl in Hu, Ho; subst u'.
  destruct (Hwf _ _ _ Hn) as (Hl & _ & _).
  unfold select_step, pick; simpl.
  destruct o as [b|].
  - destruct Ho as (-> & -> & [s' Hs']). rewrite Hs', bool_decide_eq_false_2, orb_false_l by done.
    destruct (is_better _ _).
    + rewrite (bind_ok _ _ _ _ _ (best_node_info_ok _ _ _ _ _ Hl Hn)).
      eexists. split; [done|]. split; simpl; [done|]. eauto.
    + eexists. split; [done|]. split; simpl; [done|]. eauto.
  - rewrite Ho, bool_decide_eq_true_2, orb_true_l by done.
    rewrite (bind_ok _ _ _ _ _ (best_node_info_ok _ _ _ _ _ Hl Hn)).
    eexists. split; [done|]. split; simpl; [done|]. eauto.
Qed.

Lemma select_loop_ok ib n l : ∀ v acc,
  items_wf ib → (∀ k i, (k, i) ∈ l → nodes_ ib !! k = Some i ∧ k.1 = n) → loop_rel v acc →
  ∃ v', fold_each l v (select_step lock n) ib = (Ok v', ib) ∧ loop_rel v' (foldl pick acc l.*2).
Proof.
  induction l as [|[[n' s] item] l IH]; intros v acc Hwf Hl Hrel; simpl; [eauto|].
  destruct (Hl (n', s) item) as [Hn Heq]; [set_solver|]. simpl in Heq; subst n'.
  destruct (select_step_ok ib n s item v acc Hwf Hn Hrel) as (v' & Hstep & Hrel').
  rewrite (bind_ok _ _ _ _ _ Hstep). apply IH; [done| |done]. set_solver.
Qed.

Lemma same_first_nodes ib n k i :
  (k, i) ∈ same_first n (nodes_ ib) → nodes_ ib !! k = Some i ∧ k.1 = n.
Proof. rewrite elem_of_same_first. tauto. Qed.

Lemma initial_loop_rel ib n :
  best_wf ib →
  ∃ v, (match nodes_best_ ib !! n with
        | Some w => info ← best_node_info lock n w; mret (false, w, info)
        | None => mret (false, None, NodeInfo_default)
        end : ST InfoBase (bool * weak_ptr * NodeInfo)) ib = (Ok v, ib) ∧
       loop_rel v (false, initial_best ib n).
Proof.
  intros Hb. unfold initial_best. destruct (nodes_best_ ib !! n) as [w|] eqn:Hw; simpl.
  - destruct (Hb _ _ Hw) as (s & Hl & item & Hn). rewrite Hl; simpl. rewrite Hn; simpl.
    rewrite (bind_ok _ _ _ _ _ (best_node_info_ok _ _ _ _ _ Hl Hn)).
    eexists. split; [done|]. split; simpl; eauto.
  - eexists. by split.
Qed.

(** A selected item stands for an entry of the node. *)
Definition item_for ib n (b : NodeItem) : Prop :=
  ∃ s item, lock_weak lock (it_peer_session b) = Some s ∧
            nodes_ ib !! (n, s) = Some item ∧ it_node_info item = it_node_info b.

Lemma elem_of_candidates ib n c :
  c ∈ candidates ib n ↔ ∃ s, nodes_ ib !! (n, s) = Some c ∧ 0 ≤ s.
Proof.
  unfold candidates. rewrite list_elem_of_fmap. split.
  - intros ([[n' s] i] & -> & Hin%elem_of_same_first); simpl in *.
    destruct Hin as (? & -> & ?). eauto.
  - intros (s & Hn & Hs). exists ((n, s), c). split; [done|].
    by apply elem_of_same_first.
Qed.

Lemma foldl_pick_in l acc b :
  (foldl pick acc l).2 = Some b → b ∈ l ∨ acc.2 = Some b.
Proof.
  revert acc. induction l as [|i l IH]; intros acc; simpl; [auto|].
  intros [Hin|Hacc]%IH; [set_solver|]. unfold pick in Hacc.
  destruct acc as [u [b'|]]; simpl in *; [destruct (is_better _ _)|]; simplify_eq/=; set_solver.
Qed.

Lemma foldl_pick_some l acc :
  is_Some acc.2 ∨ l ≠ [] → is_Some (foldl pick acc l).2.
Proof.
  revert acc. induction l as [|i l IH]; intros acc; simpl; [tauto|].
  intros _. apply IH. left. unfold pick.
  destruct acc as [u [b'|]]; simpl; [destruct (is_better _ _)|]; simpl; eauto.
Qed.

Lemma foldl_pick_unchanged l acc :
  (foldl pick acc l).1 = false → foldl pick acc l = acc.
Proof.
  revert acc. induction l as [|i l IH]; intros acc; simpl; [done|].
  intros Hf. pose proof (IH _ Hf) as Heq. rewrite Heq in Hf |- *. unfold pick in *.
  destruct acc as [u [b'|]]; simpl in *; [|done]. by destruct (is_better _ _).
Qed.

Lemma foldl_pick_true l acc :
  (acc.1 = true → is_Some acc.2) → (foldl pick acc l).1 = true → is_Some (foldl pick acc l).2.
Proof.
  revert acc. induction l as [|i l IH]; intros acc Hacc; simpl; [done|].
  apply IH. unfold pick. destruct acc as [u [b'|]]; simpl; [destruct (is_better _ _)|]; simpl; eauto.
Qed.

Lemma fold_item_for ib n l b :
  items_wf ib → (∀ i, i ∈ l → i ∈ candidates ib n) →
  (foldl pick (false, initial_best ib n) l).2 = Some b → item_for ib n b.
Proof.
  intros Hwf Hsub [Hin|Hinit]%foldl_pick_in.
  - apply Hsub, elem_of_candidates in Hin as (s & Hn & _).
    exists s, b. destruct (Hwf _ _ _ Hn) as (? & _). done.
  - simpl in Hinit. unfold initial_best in Hinit.
    destruct (nodes_best_ ib !! n) as [w|]; [|done]; simpl in Hinit.
    destruct (lock_weak lock w) as [s|] eqn:Hl; [|done]; simpl in Hinit.
    destruct (nodes_ ib !! (n, s)) as [item|] eqn:Hn; [|done]; simpl in Hinit.
    injection Hinit as <-. exists s, item. done.
Qed.

Lemma selection_item_for ib n b :
  items_wf ib → (selection ib n).2 = Some b → item_for ib n b.
Proof. intros. by eapply fold_item_for. Qed.

Lemma selection_some ib n :
  (∃ s, is_Some (nodes_ ib !! (n, s)) ∧ 0 ≤ s) → is_Some (selection ib n).2.
Proof.
  intros (s & [item Hn] & Hs). apply foldl_pick_some. right.
  assert (item ∈ candidates ib n) as Hin by (apply elem_of_candidates; eauto).
  intros Heq. rewrite Heq in Hin. by apply not_elem_of_nil in Hin.
Qed.

Definition select_result ib (n : Z) : bool * InfoBase :=
  match selection ib n with
  | (true, Some b) => (true, set_best <[n := it_peer_session b]> ib)
  | _ => (false, ib)
  end.

Lemma best_wf_insert ib n b :
  best_wf ib → item_for ib n b → best_wf (set_best <[n := it_peer_session b]> ib).
Proof.
  intros Hb (s & item & Hl & Hn & _) n' w; simpl.
  rewrite lookup_insert_Some. intros [[<- <-]|[_ Hw]]; [eauto|by apply Hb].
Qed.

(** SelectBestNode is defined whenever the tables are consistent. *)
Lemma SelectBestNode_ok ib n :
  items_wf ib → best_wf ib →
  SelectBestNode lock n ib = (Ok (select_result ib n).1, (select_result ib n).2).
Proof.
  intros Hi Hb. unfold SelectBestNode, select_result.
  rewrite (bind_ok get _ ib ib ib) by done.
  destruct (initial_loop_rel ib n Hb) as (v & Hv & Hrel).
  rewrite (bind_ok _ _ _ _ _ Hv).
  destruct (select_loop_ok ib n (same_first n (nodes_ ib)) v _ Hi
    (same_first_nodes ib n) Hrel) as (v' & Hl & Hrel').
  rewrite (bind_ok _ _ _ _ _ Hl).
  change (foldl pick _ _) with (selection ib n) in Hrel'.
  pose proof (selection_item_for ib n) as Hfor.
  pose proof (foldl_pick_true (candidates ib n) (false, initial_best ib n)) as Htrue.
  change (foldl pick _ _) with (selection ib n) in Htrue.
  destruct (selection ib n) as [u o], v' as [[u' w] info], Hrel' as [Hu Ho];
    simpl in Hu, Ho, Hfor, Htrue; subst u'.
  destruct u; [|by destruct o].
  destruct o as [b|].
  2: { exfalso. by eapply is_Some_None, Htrue. }
  destruct Ho as (-> & -> & _).
  pose proof (best_wf_insert ib n b Hb (Hfor b Hi eq_refl)) as Hb'.
  set (ib' := set_best _ ib) in *.
  rewrite (bind_ok (modify _) _ ib tt ib') by done.
  rewrite (bind_ok (gets nodes_best_) _ ib' (nodes_best_ ib') ib') by done.
  rewrite (bind_ok (for_each _ _) _ ib' tt ib'); [done|].
  apply for_each_skip. intros [n' w'] Hin%elem_of_entries.
  destruct (Hb' _ _ Hin) as (s & Hl' & item & Hn). unfold dump_step. simpl.
  by rewrite (bind_ok _ _ _ _ _ (best_node_info_ok _ _ _ _ _ Hl' Hn)).
Qed.

(** ** Preservation *)

(** What one selection does: only the best session of its node changes. *)
Lemma SelectBestNode_core ib n :
  items_wf ib → best_wf ib →
  (∀ n' s, n' ≠ n → is_Some (nodes_ ib !! (n', s)) → is_Some (nodes_best_ ib !! n')) →
  ∃ u best, SelectBestNode lock n ib = (Ok u, set_best (λ _, best) ib) ∧
            core_wf (set_best (λ _, best) ib).
Proof.
  intros Hi Hb Hr. rewrite SelectBestNode_ok by done. unfold select_result.
  pose proof (selection_item_for ib n) as Hfor. pose proof (selection_some ib n) as Hsome.
  destruct (selection ib n) as [u o] eqn:Hsel. simpl in Hfor, Hsome.
  assert (is_Some o → u = true ∨ initial_best ib n = o) as Hsame.
  { intros _. destruct u; [by left|right].
    assert (selection ib n = (false, initial_best ib n)) as Heq
      by (apply foldl_pick_unchanged; unfold selection in Hsel; by rewrite Hsel).
    congruence. }
  destruct u, o as [b|]; simpl.
  - exists true, (<[n := it_peer_session b]> (nodes_best_ ib)). split; [done|].
    pose proof (best_wf_insert ib n b Hb (Hfor b Hi eq_refl)) as Hb'.
    split_and!; [exact Hi|exact Hb'|].
    intros n' s Hs; simpl in *. destruct (decide (n' = n)) as [->|Hne].
    + rewrite lookup_insert_eq. eauto.
    + rewrite lookup_insert_ne by done. eauto.
  - exists false, (nodes_best_ ib). split; [by destruct ib|].
    split_and!; [done|done|]. intros n' s Hs; simpl in *.
    destruct (decide (n' = n)) as [->|Hne]; [|eauto].
    destruct Hsome as [??]; [|done]. destruct Hs as [item Hs].
    destruct (Hi _ _ _ Hs) as (_ & _ & ?). eauto.
  - exists false, (nodes_best_ ib). split; [by destruct ib|].
    split_and!; [done|done|]. intros n' s Hs; simpl in *.
    destruct (decide (n' = n)) as [->|Hne]; [|eauto].
    destruct Hsame as [?|Hin]; [done..|]. unfold initial_best in Hin.
    destruct (nodes_best_ ib !! n); [eauto|done].
  - exists false, (nodes_best_ ib). split; [by destruct ib|].
    split_and!; [done|done|]. intros n' s Hs; simpl in *.
    destruct (decide (n' = n)) as [->|Hne]; [|eauto].
    destruct Hsome as [??]; [|done]. destruct Hs as [item Hs].
    destruct (Hi _ _ _ Hs) as (_ & _ & ?). eauto.
Qed.

Lemma erase_node_core ib n s :
  core_wf ib →
  ∃ best, let ib' := set_best (λ _, best) (set_nodes (delete (n, s)) ib) in
    erase_node lock n s ib = (Ok tt, ib') ∧ core_wf ib'.
Proof.
  intros (Hi & Hb & Hr). unfold erase_node.
  set (ib1 := set_nodes (delete (n, s)) ib).
  rewrite (bind_ok (modify _) _ ib tt ib1) by done.
  rewrite (bind_ok (gets nodes_best_) _ ib1 (nodes_best_ ib1) ib1) by done.
  assert (∀ n' s' item, nodes_ ib1 !! (n', s') = Some item → nodes_ ib !! (n', s') = Some item)
    as Hsub by (intros n' s' item Hx; by apply (lookup_delete_Some (nodes_ ib)) in Hx as [_ ?]).
  assert (items_wf ib1) as Hi1 by (intros n' s' item Hn'; eauto).
  destruct (decide (is_Some (nodes_best_ ib1 !! n))) as [Hbest|Hbest]; simpl in Hbest.
  - set (ib2 := set_best (delete n) ib1).
    rewrite (bind_ok (modify _) _ ib1 tt ib2) by done.
    assert (items_wf ib2) as Hi2 by exact Hi1.
    assert (best_wf ib2) as Hb2.
    { intros n' w Hx. apply (lookup_delete_Some (nodes_best_ ib)) in Hx as [Hne Hw]. destruct (Hb _ _ Hw) as (s' & Hl & Hn').
      exists s'. split; [done|]. simpl. rewrite lookup_delete_ne; [done|congruence]. }
    destruct (SelectBestNode_core ib2 n Hi2 Hb2) as (u & best & Hsel & Hcore).
    { intros n' s' Hne [item Hn']. simpl. rewrite lookup_delete_ne by done.
      apply (Hr n' s'). exists item. by apply Hsub. }
    exists best. cbv zeta. rewrite (bind_ok _ _ _ _ _ Hsel). by split.
  - exists (nodes_best_ ib). cbv zeta.
    assert (set_best (λ _, nodes_best_ ib) ib1 = ib1) as -> by (by destruct ib).
    split; [done|]. split_and!; [done| |].
    + intros n' w Hw; simpl in *. destruct (Hb _ _ Hw) as (s' & Hl & Hn'). exists s'.
      split; [done|]. rewrite lookup_delete_ne; [done|]. intros [= <- <-]. eauto.
    + intros n' s' [item Hn']. simpl. apply (Hr n' s'). exists item. by apply Hsub.
Qed.

(** Erasing several nodes of one session. *)
Lemma erase_nodes_core s ns : ∀ ib,
  core_wf ib →
  ∃ best, let ib' := set_best (λ _, best)
            (set_nodes (filter (λ e, ¬ (e.1.1 ∈ ns ∧ e.1.2 = s))) ib) in
    for_each ns (λ n, erase_node lock n s) ib = (Ok tt, ib') ∧ core_wf ib'.
Proof.
  induction ns as [|n ns IH]; intros ib Hwf; simpl.
  - exists (nodes_best_ ib). cbv zeta.
    rewrite map_filter_id by (intros ? ? _; set_solver).
    by destruct ib.
  - destruct (erase_node_core ib n s Hwf) as (best1 & Hstep & Hwf1).
    rewrite (bind_ok _ _ _ _ _ Hstep).
    destruct (IH _ Hwf1) as (best & Hloop & Hwf'). exists best. cbv zeta in *.
    rewrite Hloop. simpl in *.
    assert (filter (λ e, ¬ (e.1.1 ∈ ns ∧ e.1.2 = s)) (delete (n, s) (nodes_ ib)) =
            filter (λ e, ¬ (e.1.1 ∈ n :: ns ∧ e.1.2 = s)) (nodes_ ib)) as Heq.
    { apply map_eq. intros [n' s']. apply option_eq. intros item.
      rewrite !map_lookup_filter_Some, lookup_delete_Some. simpl.
      rewrite elem_of_cons.
      split; [intros [[? ?] ?]; split; [done|]; intros [[->|?] ->]; naive_solver|].
      intros [? Hn]; split_and!; [|done|naive_solver]. intros [= -> ->]. naive_solver. }
    rewrite Heq in Hwf'. rewrite Heq. done.
Qed.

(** Running a locked operation from an unlocked state: [m] runs from the
    locked one, and [r] describes what it changes. *)
Lemma with_lock_ok {A} (m : ST InfoBase A) ib a r :
  mutex_ ib = false →
  m (set_mutex true ib) = (Ok a, r (set_mutex true ib)) →
  set_mutex false (r (set_mutex true ib)) = r ib →
  with_lock m ib = (Ok a, r ib).
Proof. intros Hm Hrun Hr. unfold with_lock. by rewrite Hm, Hrun, Hr. Qed.

Definition add_node_tables (sess : SessRef) (s : Z) (ni : NodeInfo) (best : gmap Z weak_ptr) ib :=
  set_best (λ _, best)
    (set_by_session (λ m, <[s := {[ni_id ni]} ∪ default ∅ (m !! s)]> m)
      (set_nodes <[(ni_id ni, s) := mkNodeItem (Some sess) ni]> ib)).

Lemma AddNode_ok ib sess ni s :
  nodes_wf ib → mutex_ ib = false → lock sess = Some s → 0 ≤ s →
  ∃ u best, AddNode lock sess ni ib = (Ok u, add_node_tables sess s ni best ib) ∧
            nodes_wf (add_node_tables sess s ni best ib).
Proof.
  intros ((Hi & Hb & Hr) & Hs1 & Hs2) Hm Hl Hs0.
  set (ib1 := set_by_session (λ m, <[s := {[ni_id ni]} ∪ default ∅ (m !! s)]> m)
                (set_nodes <[(ni_id ni, s) := mkNodeItem (Some sess) ni]> (set_mutex true ib))).
  assert (items_wf ib1) as Hi1.
  { intros n' s' item Hx.
    apply (lookup_insert_Some (nodes_ ib)) in Hx as [[[= <- <-] <-]|[_ Hx]]; [done|eauto]. }
  assert (best_wf ib1) as Hb1.
  { intros n' w Hw. destruct (Hb _ _ Hw) as (s' & Hl' & Hn'). exists s'. split; [done|].
    by apply lookup_insert_is_Some'; right. }
  destruct (SelectBestNode_core ib1 (ni_id ni) Hi1 Hb1) as (u & best & Hsel & Hcore).
  { intros n' s' Hne Hx. simpl in *. rewrite lookup_insert_ne in Hx by congruence. eauto. }
  exists u, best. split; [|split; [exact Hcore|split]].
  - apply with_lock_ok; [done| |destruct ib; simpl in *; by subst].
    rewrite (bind_ok (deref (lock sess)) _ _ s (set_mutex true ib)) by by rewrite Hl.
    by rewrite (bind_ok (modify _) _ _ tt _ eq_refl), (bind_ok (modify _) _ _ tt ib1 eq_refl).
  - intros n' s'. simpl. rewrite lookup_insert_is_Some', Hs1.
    destruct (decide (s' = s)) as [->|Hne].
    + rewrite lookup_insert_eq. split.
      * intros [[= <-]|(ids & Hids & Hin)]; eexists; (split; [done|]); [set_solver|].
        rewrite Hids. set_solver.
      * intros (ids & [= <-] & Hin). destruct (nodes_by_peer_session_ ib !! s) as [ids|] eqn:Hids;
          simpl in Hin; [|set_solver].
        apply elem_of_union in Hin as [?%elem_of_singleton|?]; [left; congruence|right; eauto].
    + rewrite lookup_insert_ne by done. split; [intros [[=]|?]; [congruence|done]|auto].
  - intros s'. simpl. rewrite lookup_insert_Some. intros [[_ Heq]|[_ ?]]; [set_solver|].
    by eapply Hs2.
Qed.

Definition forget_id (s n : Z) (m : gmap Z (gset Z)) : gmap Z (gset Z) :=
  match m !! s with
  | Some ids => let ids := ids ∖ {[n]} in if decide (ids = ∅) then delete s m else <[s := ids]> m
  | None => m
  end.

Definition remove_node_tables (s n : Z) (best : gmap Z weak_ptr) ib :=
  set_best (λ _, best) (set_nodes (delete (n, s)) (set_by_session (forget_id s n) ib)).

Lemma forget_id_elem s n m n' s' :
  (∃ ids, forget_id s n m !! s' = Some ids ∧ n' ∈ ids) ↔
  (n', s') ≠ (n, s) ∧ ∃ ids, m !! s' = Some ids ∧ n' ∈ ids.
Proof.
  unfold forget_id. destruct (m !! s) as [ids|] eqn:Hs; cbv zeta.
  2: { split; [|tauto]. intros (ids & Hids & Hin). split; [congruence|eauto]. }
  destruct (decide (s' = s)) as [->|Hne].
  - case_decide as He.
    + rewrite lookup_delete_eq. split; [naive_solver|]. intros (Hne & ids' & Hids & Hin).
      rewrite Hids in Hs. injection Hs as ->.
      assert (n' = n) by set_solver. congruence.
    + rewrite lookup_insert_eq, Hs. split.
      * intros (ids' & [= <-] & Hin). split; [set_solver|]. exists ids. set_solver.
      * intros (Hne & ids' & [= <-] & Hin). eexists. split; [done|].
        apply elem_of_difference. split; [done|]. intros ?%elem_of_singleton. congruence.
  - assert ((if decide (ids ∖ {[n]} = ∅) then delete s m else <[s:=ids ∖ {[n]}]> m) !! s' = m !! s')
      as -> by (case_decide; [by rewrite lookup_delete_ne|by rewrite lookup_insert_ne]).
    split; [intros ?; split; [congruence|done]|tauto].
Qed.

Lemma forget_id_nonempty s n m s' :
  (∀ s, m !! s ≠ Some ∅) → forget_id s n m !! s' ≠ Some ∅.
Proof.
  intros Hm. unfold forget_id. destruct (m !! s) as [ids|]; [|done]. cbv zeta. case_decide.
  - intros [_ ?]%lookup_delete_Some. by eapply Hm.
  - intros [[_ ?]|[_ ?]]%lookup_insert_Some; [done|by eapply Hm].
Qed.

Lemma RemoveNode_ok ib s n :
  nodes_wf ib → mutex_ ib = false →
  ∃ best, RemoveNode lock s n ib = (Ok tt, remove_node_tables s n best ib) ∧
          nodes_wf (remove_node_tables s n best ib).
Proof.
  intros (Hcore & Hs1 & Hs2) Hm.
  destruct (erase_node_core (set_by_session (forget_id s n) (set_mutex true ib)) n s Hcore)
    as (best & Herase & Hwf).
  exists best. split; [|split; [exact Hwf|split]].
  - apply with_lock_ok; [done| |destruct ib; simpl in *; by subst].
    rewrite (bind_ok (gets nodes_by_peer_session_) _ (set_mutex true ib) _ _ eq_refl).
    rewrite (bind_ok _ _ _ tt (set_by_session (forget_id s n) (set_mutex true ib))); [exact Herase|].
    unfold forget_id, modify. simpl.
    destruct (nodes_by_peer_session_ ib !! s) as [ids|] eqn:Hids; simpl; [|by destruct ib].
    by destruct (decide (ids ∖ {[n]} = ∅)).
  - intros n' s'. simpl. rewrite forget_id_elem, <- Hs1.
    unfold is_Some. setoid_rewrite lookup_delete_Some. split; [intros (x & ? & ?); split; [congruence|eauto]|].
    intros (? & x & ?). exists x. split; [congruence|done].
  - intros s'. apply forget_id_nonempty, Hs2.
Qed.

Definition purge_tables (s : Z) (best : gmap Z weak_ptr) ib :=
  set_peer_fib (filter (λ e, ¬ (e.1.1 = s ∧ 0 ≤ e.1.2)))
    (set_by_session (delete s) (set_best (λ _, best) (set_nodes (filter (λ e, e.1.2 ≠ s)) ib))).

Lemma delete_keys_fib (ks : list (Z * Z)) : ∀ ib,
  for_each ks (λ key, modify (set_peer_fib (delete key))) ib =
    (Ok tt, set_peer_fib (filter (λ e, e.1 ∉ ks)) ib).
Proof.
  induction ks as [|k ks IH]; intros ib; simpl.
  - rewrite map_filter_id by (intros; apply not_elem_of_nil). by destruct ib.
  - rewrite (bind_ok (modify _) _ ib tt _ eq_refl), IH. simpl. do 3 f_equal.
    apply map_eq. intros k'. apply option_eq. intros x.
    rewrite !map_lookup_filter_Some, lookup_delete_Some, not_elem_of_cons. simpl.
    split; [intros ((? & ?) & ?)|intros (? & ? & ?)]; split_and!; try done; congruence.
Qed.

Lemma PurgePeerSessionInfo_ok ib s :
  nodes_wf ib → mutex_ ib = false →
  ∃ best, PurgePeerSessionInfo lock s ib = (Ok tt, purge_tables s best ib) ∧
          nodes_wf (purge_tables s best ib).
Proof.
  intros (Hcore & Hs1 & Hs2) Hm.
  set (ids := set_elements (default ∅ (nodes_by_peer_session_ ib !! s))).
  destruct (erase_nodes_core s ids (set_mutex true ib) Hcore) as (best & Hloop & Hwf).
  assert (filter (λ e, ¬ (e.1.1 ∈ ids ∧ e.1.2 = s)) (nodes_ ib) =
          filter (λ e, e.1.2 ≠ s) (nodes_ ib)) as Hf.
  { apply map_filter_ext. intros [n' s'] x Hx. simpl. split; [|tauto].
    intros Hn ->. apply Hn. split; [|done]. subst ids. rewrite elem_of_set_elements.
    destruct (proj1 (Hs1 n' s)) as (l & -> & ?); [eauto|done]. }
  assert (set_nodes (filter (λ e, ¬ (e.1.1 ∈ ids ∧ e.1.2 = s))) (set_mutex true ib) =
          set_nodes (filter (λ e, e.1.2 ≠ s)) (set_mutex true ib)) as Hf'
    by (unfold set_nodes; simpl; by rewrite Hf).
  cbv zeta in *. rewrite Hf' in Hwf. rewrite Hf' in Hloop.
  exists best. split; [|split; [exact Hwf|split]].
  - apply with_lock_ok; [done| |destruct ib; simpl in *; by subst].
    rewrite (bind_ok (gets nodes_by_peer_session_) _ (set_mutex true ib) _ _ eq_refl).
    set (ib1 := set_by_session (delete s) (set_best (λ _, best)
      (set_nodes (filter (λ e, e.1.2 ≠ s)) (set_mutex true ib)))).
    rewrite (bind_ok _ _ _ tt ib1).
    + rewrite (bind_ok (gets peer_fib_) _ ib1 _ _ eq_refl). cbv zeta.
      rewrite delete_keys_fib by done. unfold purge_tables. f_equal.
      change (set_peer_fib ?f ?x) with (set_peer_fib (λ _, f (peer_fib_ ib)) x). simpl. f_equal.
      apply map_filter_ext. intros k x Hx. rewrite list_elem_of_fmap. split.
      * intros Hn [Hk ?]. apply Hn. exists (k, x). split; [done|].
        by apply elem_of_same_first.
      * intros Hn ([k' x'] & Heq & Hin). simpl in *. subst k'.
        apply elem_of_same_first in Hin. simpl in Hin. tauto.
    + subst ids ib1.
      change (nodes_by_peer_session_ (set_mutex true ib)) with (nodes_by_peer_session_ ib).
      destruct (nodes_by_peer_session_ ib !! s) as [l|] eqn:Hl; unfold default, id in Hloop.
      * by rewrite (bind_ok _ _ _ _ _ Hloop).
      * pose proof (f_equal snd Hloop : set_mutex true ib = _) as Hx. cbn [snd] in Hx.
        rewrite <- Hx.
        unfold mret, st_ret, set_by_session. simpl. by rewrite (delete_id _ _ Hl).
  - intros n' s'. simpl. unfold is_Some. setoid_rewrite map_lookup_filter_Some.
    setoid_rewrite lookup_delete_Some. simpl. pose proof (Hs1 n' s') as Hs'. unfold is_Some in Hs'.
    split.
    + intros (x & Hx & Hne). destruct (proj1 Hs') as (l & ? & ?); [eauto|]. eauto 6.
    + intros (l & [Hne ?] & ?). destruct (proj2 Hs') as (x & ?); eauto 6.
  - intros s'. simpl. intros [_ ?]%lookup_delete_Some. by eapply Hs2.
Qed.

(** ** Operations as data *)

Inductive node_op :=
  | OpAdd (peer_session : SessRef) (node_info : NodeInfo)
  | OpRemove (peer_session_id node_id : Z)
  | OpPurge (peer_session_id : Z).

Definition run_node_op (op : node_op) : ST InfoBase unit :=
  match op with
  | OpAdd sess ni => _ ← AddNode lock sess ni; mret tt
  | OpRemove s n => RemoveNode lock s n
  | OpPurge s => PurgePeerSessionInfo lock s
  end.

(** The session passed to [AddNode] is alive; ids are unsigned. *)
Definition op_ok (op : node_op) : Prop :=
  match op with
  | OpAdd sess _ => match lock sess with Some s => 0 ≤ s | None => False end
  | _ => True
  end.

Lemma run_node_op_ok op :
  op_ok op →
  hoare (λ ib, nodes_wf ib ∧ mutex_ ib = false) (run_node_op op)
        (λ _ ib, nodes_wf ib ∧ mutex_ ib = false) no_throw.
Proof.
  intros Hop ib [Hwf Hm]. destruct op as [sess ni|s n|s]; simpl in *.
  - destruct (lock sess) as [s|] eqn:Hl; [|done].
    destruct (AddNode_ok ib sess ni s Hwf Hm Hl Hop) as (u & best & Hrun & Hwf').
    rewrite (bind_ok _ _ _ _ _ Hrun). by split.
  - destruct (RemoveNode_ok ib s n Hwf Hm) as (best & Hrun & Hwf').
    rewrite Hrun. by split.
  - destruct (PurgePeerSessionInfo_ok ib s Hwf Hm) as (best & Hrun & Hwf').
    rewrite Hrun. by split.
Qed.

Lemma nodes_wf_empty : nodes_wf InfoBase_empty.
Proof.
  split; [split; [done|split; [done|by intros n s [??]]]|].
  split; [|done]. intros n s. split; [by intros [??]|by intros (? & ? & ?)].
Qed.

(** C10: from a fresh information base, every sequence of node additions (of
    live sessions), removals and session purges runs to its end without
    undefined behaviour or an exception, releases the mutex, and keeps the
    three node tables consistent: every best session is alive and has an
    entry for its node, and every known node has a best session. *)
Theorem node_tables_invariant (ops : list node_op) :
  Forall op_ok ops →
  ∃ ib, for_each ops run_node_op InfoBase_empty = (Ok tt, ib) ∧
        nodes_wf ib ∧ mutex_ ib = false.
Proof.
  intros Hops. rewrite Forall_forall in Hops.
  pose proof (hoare_for_each (λ ib, nodes_wf ib ∧ mutex_ ib = false) ops run_node_op no_throw
    (λ op Hop, run_node_op_ok op (Hops op Hop)) InfoBase_empty (conj nodes_wf_empty eq_refl)) as Hrun.
  destruct (for_each ops run_node_op InfoBase_empty) as [[[]|e|] ib]; [eauto|done|done].
Qed.

(** C23: purging a session removes exactly its entries: no node entry, no best
    session and no ingress forwarding entry of it is left, while the entries
    of the other sessions, the subscriptions and the announcements stay. *)
Theorem purge_session_spec ib s :
  nodes_wf ib → mutex_ ib = false →
  ∃ ib', PurgePeerSessionInfo lock s ib = (Ok tt, ib') ∧
    (∀ n s' item, nodes_ ib' !! (n, s') = Some item ↔
                  s' ≠ s ∧ nodes_ ib !! (n, s') = Some item) ∧
    (∀ n w, nodes_best_ ib' !! n = Some w → lock_weak lock w ≠ Some s) ∧
    (∀ n, is_Some (nodes_best_ ib' !! n) ↔ ∃ s', s' ≠ s ∧ is_Some (nodes_ ib !! (n, s'))) ∧
    nodes_by_peer_session_ ib' = delete s (nodes_by_peer_session_ ib) ∧
    (∀ k sns x, 0 ≤ sns →
       peer_fib_ ib' !! (k, sns) = Some x ↔ k ≠ s ∧ peer_fib_ ib !! (k, sns) = Some x) ∧
    subscribes_ ib' = subscribes_ ib ∧ announces_ ib' = announces_ ib ∧
    prefix_lookup_announces_ ib' = prefix_lookup_announces_ ib ∧ client_fib_ ib' = client_fib_ ib.
Proof.
  intros Hwf Hm. destruct (PurgePeerSessionInfo_ok ib s Hwf Hm) as (best & Hrun & Hwf').
  exists (purge_tables s best ib). split; [done|].
  assert (∀ n s' item, nodes_ (purge_tables s best ib) !! (n, s') = Some item ↔
                       s' ≠ s ∧ nodes_ ib !! (n, s') = Some item) as Hnodes.
  { intros n s' item. simpl. rewrite map_lookup_filter_Some. simpl. tauto. }
  destruct Hwf' as ((_ & Hb & Hr) & _).
  split_and!; [exact Hnodes| | |done| |done|done|done|done].
  - intros n w Hw Hl. destruct (Hb _ _ Hw) as (s' & Hl' & [item Hi]).
    apply Hnodes in Hi as [? _]. congruence.
  - intros n. split.
    + intros [w Hw]. destruct (Hb _ _ Hw) as (s' & _ & [item [? ?]%Hnodes]). eauto.
    + intros (s' & Hne & [item Hi]). apply (Hr n s'). exists item. by apply Hnodes.
  - intros k sns x Hsns. simpl. rewrite map_lookup_filter_Some. simpl.
    split; intros [? ?]; split; try done; [intros ->; tauto|tauto].
Qed.

(** ** Quality of the selection *)

Definition dominates (d b : NodeInfo) : Prop :=
  (length (ni_path d) ≤ length (ni_path b))%nat ∧ SumSrtt d ≤ SumSrtt b.

Definition same_cost (d b : NodeInfo) : Prop := dominates d b ∧ dominates b d.

Lemma not_better b c : is_better b c = false ↔ dominates b c.
Proof.
  unfold is_better, dominates. rewrite orb_false_iff, !bool_decide_eq_false. lia.
Qed.

Lemma foldl_pick_optimal d l : ∀ acc,
  (∀ i, i ∈ l → dominates d (it_node_info i)) →
  (∀ b, acc.2 = Some b → dominates d (it_node_info b)) →
  (∃ i, i ∈ l ∧ same_cost d (it_node_info i)) ∨
    (∃ b, acc.2 = Some b ∧ same_cost d (it_node_info b)) →
  ∃ b, (foldl pick acc l).2 = Some b ∧ same_cost d (it_node_info b).
Proof.
  induction l as [|i l IH]; intros acc Hl Hacc Hd; simpl; [set_solver|].
  apply IH; [set_solver| |].
  - unfold pick. destruct acc as [u [b|]]; simpl in *; [destruct (is_better _ _)|]; simpl; set_solver.
  - assert (same_cost d (it_node_info i) ∨ (∃ b, acc.2 = Some b ∧ same_cost d (it_node_info b)) →
            ∃ b, (pick acc i).2 = Some b ∧ same_cost d (it_node_info b)) as Hi.
    { pose proof (Hl i ltac:(set_solver)) as Hdi. unfold pick.
      destruct acc as [u [b|]]; simpl in *.
      2: { intros [?|(? & ? & ?)]; [eauto|done]. }
      pose proof (Hacc b eq_refl) as Hdb.
      destruct (is_better (it_node_info b) (it_node_info i)) eqn:Hbet; simpl.
      - intros [?|(b' & [= <-] & Hs)]; [eauto|]. exfalso.
        assert (is_better (it_node_info b) (it_node_info i) = false) as Hn; [|congruence].
        apply not_better. unfold same_cost, dominates in *. lia.
      - apply not_better in Hbet. intros [Hs|(b' & [= <-] & Hs)]; [|eauto].
        exists b. split; [done|]. unfold same_cost, dominates in *. lia. }
    destruct Hd as [(j & Hj & Hs)|?]; [|auto].
    apply elem_of_cons in Hj as [->|Hj]; [auto|left; eauto].
Qed.

(** C18: when one session offers a node both the shortest path and the lowest
    total sRTT, the session selected for the node matches it on both,
    whatever was selected before. *)
Theorem select_best_node_optimal ib n s d :
  nodes_wf ib → nodes_ ib !! (n, s) = Some d →
  (∀ s' item, nodes_ ib !! (n, s') = Some item → dominates (it_node_info d) (it_node_info item)) →
  ∃ u ib' w s' b, SelectBestNode lock n ib = (Ok u, ib') ∧
    nodes_best_ ib' !! n = Some w ∧ lock_weak lock w = Some s' ∧
    nodes_ ib' !! (n, s') = Some b ∧ same_cost (it_node_info d) (it_node_info b).
Proof.
  intros ((Hi & Hb & Hr) & _) Hd Hdom. destruct (Hi _ _ _ Hd) as (_ & _ & Hs0).
  rewrite SelectBestNode_ok by done. unfold select_result.
  pose proof (selection_item_for ib n) as Hfor. pose proof (foldl_pick_optimal (it_node_info d)
    (candidates ib n) (false, initial_best ib n)) as Hopt.
  pose proof (foldl_pick_unchanged (candidates ib n) (false, initial_best ib n)) as Hsame.
  change (foldl pick _ _) with (selection ib n) in Hopt, Hsame.
  assert (∀ b, initial_best ib n = Some b → ∃ w, nodes_best_ ib !! n = Some w ∧
            w = it_peer_session b) as Hinit.
  { unfold initial_best. destruct (nodes_best_ ib !! n) as [w|]; [|done]. simpl.
    destruct (lock_weak lock w) as [s'|]; [|done]. simpl.
    destruct (nodes_ ib !! (n, s')); [|done]. simpl. intros b [= <-]. eauto. }
  destruct Hopt as (b & Hsel & Hcost).
  { intros i (s' & Hs' & _)%elem_of_candidates. eauto. }
  { intros b Hib. simpl in Hib. unfold initial_best in Hib. simplify_option_eq. eauto. }
  { left. exists d. split; [apply elem_of_candidates; eauto|]. unfold same_cost, dominates. lia. }
  destruct (Hfor b Hi Hsel) as (s' & item & Hl & Hn & Heq).
  destruct (selection ib n) as [[|] o]; simpl in Hsel; subst o.
  - do 4 eexists. exists item. split; [done|]. simpl. rewrite lookup_insert_eq, Heq. done.
  - specialize (Hsame eq_refl). injection Hsame as Hinit'. symmetry in Hinit'.
    destruct (Hinit _ Hinit') as (w & Hw & ->).
    do 4 eexists. exists item. split; [done|]. simpl. rewrite Heq. done.
Qed.

(** One better metric is enough.  If, for a node, the session with the
    greatest id beats every other one on path length OR on total sRTT, it is
    selected, whatever was selected before: a longer path wins over a shorter
    one whenever its sRTT is lower, although the selection is documented to
    look at the sRTT second. *)
Theorem select_best_node_last_better ib n s c :
  nodes_wf ib → nodes_ ib !! (n, s) = Some c →
  (∀ s' item, nodes_ ib !! (n, s') = Some item → s' ≠ s →
     s' < s ∧ ((length (ni_path (it_node_info c)) < length (ni_path (it_node_info item)))%nat ∨
               SumSrtt (it_node_info c) < SumSrtt (it_node_info item))) →
  ∃ u ib' w, SelectBestNode lock n ib = (Ok u, ib') ∧
             nodes_best_ ib' !! n = Some w ∧ lock_weak lock w = Some s.
Proof.
  intros ((Hi & Hb & _) & _) Hc Hmax. destruct (Hi _ _ _ Hc) as (Hlc & _ & Hs).
  rewrite SelectBestNode_ok by done. unfold select_result.
  destruct (same_first_last n (nodes_ ib) s c Hc Hs) as (l & Hl & Hall).
  { intros s' v' Hs' Hne. by apply (Hmax s' v'). }
  assert (∀ i, i ∈ l.*2 → i ∈ candidates ib n) as Hsub.
  { intros i Hin. unfold candidates. rewrite Hl, fmap_app. set_solver. }
  pose proof (fold_item_for ib n l.*2) as Hfor.
  assert (selection ib n = pick (foldl pick (false, initial_best ib n) l.*2) c) as Hsel.
  { unfold selection, candidates. by rewrite Hl, fmap_app, foldl_app. }
  pose proof (foldl_pick_unchanged l.*2 (false, initial_best ib n)) as Hsame.
  assert (∀ b, initial_best ib n = Some b → nodes_best_ ib !! n = Some (it_peer_session b)) as Hinit.
  { unfold initial_best. intros b Hib. by simplify_option_eq. }
  rewrite Hsel. destruct (foldl pick _ _) as [u [b|]]; unfold pick; simpl in *.
  2: { do 3 eexists. split; [done|]. simpl. by rewrite lookup_insert_eq. }
  destruct (Hfor b Hi Hsub eq_refl) as (s' & item & Hlb & Hn & Heq).
  destruct (is_better (it_node_info b) (it_node_info c)) eqn:Hbet.
  { do 3 eexists. split; [done|]. simpl. by rewrite lookup_insert_eq. }
  assert (s' = s) as ->.
  { destruct (decide (s' = s)) as [|Hne]; [done|exfalso].
    destruct (Hmax _ _ Hn Hne) as [_ Hlt]. rewrite Heq in Hlt.
    apply not_better in Hbet. unfold dominates in Hbet. lia. }
  destruct u.
  - do 3 eexists. split; [done|]. simpl. by rewrite lookup_insert_eq.
  - do 3 eexists. split; [done|]. split; [|exact Hlb]. apply Hinit.
    by injection (Hsame eq_refl) as <-.
Qed.
End nodes.

(** ** Witnesses: two sessions, of ids 1 and 2, offering node 9 *)

Import Quicr.Demo.

Definition demo_lock (r : SessRef) : option Z := Some r.
Definition demo_node_via (path : list NodePathItem) : NodeInfo :=
  mkNodeInfo 9 NodeType.kEdge [] 0 0 path.

Definition demo_ops : list node_op := [
  OpAdd 1 (demo_node_via [mkNodePathItem 5 900]);
  OpAdd 2 (demo_node_via [mkNodePathItem 6 100; mkNodePathItem 7 200]);
  OpAdd 2 (mkNodeInfo 7 NodeType.kVia [] 0 0 [])].

Definition demo_ib : InfoBase := (for_each demo_ops (run_node_op demo_lock) InfoBase_empty).2.

(** One entry that is best on both counts: session 1's path made shorter. *)
Definition demo_ib' : InfoBase :=
  (for_each [OpAdd 1 (demo_node_via [mkNodePathItem 5 90])] (run_node_op demo_lock) demo_ib).2.

Lemma demo_ops_ok : Forall (op_ok demo_lock) demo_ops.
Proof. repeat constructor; simpl; lia. Qed.

Lemma run_ops_wf ops ib :
  Forall (op_ok demo_lock) ops → nodes_wf demo_lock ib ∧ mutex_ ib = false →
  let ib' := (for_each ops (run_node_op demo_lock) ib).2 in
  nodes_wf demo_lock ib' ∧ mutex_ ib' = false.
Proof.
  intros Hops Hib. rewrite Forall_forall in Hops.
  pose proof (hoare_for_each (λ ib, nodes_wf demo_lock ib ∧ mutex_ ib = false) ops
    (run_node_op demo_lock) no_throw (λ op Hop, run_node_op_ok _ op (Hops op Hop)) ib Hib) as Hrun.
  by destruct (for_each ops (run_node_op demo_lock) ib) as [[[]|e|] ib'].
Qed.

Lemma demo_ib_wf : nodes_wf demo_lock demo_ib ∧ mutex_ demo_ib = false.
Proof. apply (run_ops_wf demo_ops), conj; [exact demo_ops_ok|apply nodes_wf_empty|done]. Qed.

Lemma demo_ib'_wf : nodes_wf demo_lock demo_ib' ∧ mutex_ demo_ib' = false.
Proof.
  apply (run_ops_wf [OpAdd 1 (demo_node_via [mkNodePathItem 5 90])]); [|apply demo_ib_wf].
  repeat constructor; simpl; lia.
Qed.

Lemma node_tables_invariant_witness :
  ∃ ib, for_each demo_ops (run_node_op demo_lock) InfoBase_empty = (Ok tt, ib) ∧
        nodes_wf demo_lock ib ∧ mutex_ ib = false.
Proof. apply (node_tables_invariant demo_lock demo_ops). exact demo_ops_ok. Defined.

Lemma purge_session_spec_witness :
  ∃ ib', PurgePeerSessionInfo demo_lock 1 demo_ib = (Ok tt, ib') ∧
    ∀ n s' item, nodes_ ib' !! (n, s') = Some item ↔
                 s' ≠ 1 ∧ nodes_ demo_ib !! (n, s') = Some item.
Proof.
  destruct (purge_session_spec demo_lock demo_ib 1 (proj1 demo_ib_wf) (proj2 demo_ib_wf))
    as (ib' & Hrun & Hn & _).
  by exists ib'.
Defined.

Lemma select_best_node_optimal_witness :
  ∃ u ib' w s' b, SelectBestNode demo_lock 9 demo_ib' = (Ok u, ib') ∧
    nodes_best_ ib' !! 9 = Some w ∧ lock_weak demo_lock w = Some s' ∧
    nodes_ ib' !! (9, s') = Some b ∧
    same_cost (demo_node_via [mkNodePathItem 5 90]) (it_node_info b).
Proof.
  apply (select_best_node_optimal demo_lock demo_ib' 9 1
    (mkNodeItem (Some 1) (demo_node_via [mkNodePathItem 5 90])));
    [apply demo_ib'_wf|by vm_compute|].
  intros s' item Hs'.
  assert (map_Forall (λ k it, k.1 = 9 → dominates (demo_node_via [mkNodePathItem 5 90])
                                          (it_node_info it)) (nodes_ demo_ib')) as Hall
    by (unfold dominates; decide_now).
  by apply (Hall (9, s') item).
Defined.

(** Session 2, two hops away, replaces session 1, one hop away. *)
Lemma select_best_node_last_better_witness :
  ∃ u ib' w, SelectBestNode demo_lock 9 demo_ib = (Ok u, ib') ∧
             nodes_best_ ib' !! 9 = Some w ∧ lock_weak demo_lock w = Some 2.
Proof.
  apply (select_best_node_last_better demo_lock demo_ib 9 2
    (mkNodeItem (Some 2) (demo_node_via [mkNodePathItem 6 100; mkNodePathItem 7 200])));
    [apply demo_ib_wf|by vm_compute|].
  intros s' item Hs' Hne.
  assert (map_Forall (λ k it, k.1 = 9 → k.2 ≠ 2 → k.2 < 2 ∧ (2 < length (ni_path (it_node_info it)))%nat
            ∨ k.2 < 2 ∧ 300 < SumSrtt (it_node_info it)) (nodes_ demo_ib)) as Hall by decide_now.
  destruct (Hall (9, s') item Hs' eq_refl Hne) as [[??]|[??]]; auto.
Defined.
