(* ===== verification/InfoBaseTables.v ===== *)
(** * Subscription and announcement tables of the information base

    The subscription table refines a flat map keyed by track and source node;
    the announcement table and its prefix index are described by their view
    (which full-name hashes a prefix leads to), and lookups by that view. *)

From S2P Require Import Prelude Common Quicr NodeInfo SubscribeInfo SubscribeNodeSet AnnounceInfo InfoBase.

Section subscribes.
Context `{TrackNames}.
Implicit Types ib : InfoBase.

(** ** The abstract table *)

Abbreviation Subs := (gmap (Z * Z) SubscribeInfo).
Definition sub_key (si : SubscribeInfo) : Z * Z :=
  (track_fullname_hash (si_track_hash si), si_source_node_id si).

Definition subs_rel ib (m : Subs) : Prop :=
  (∀ h n, m !! (h, n) = subscribes_ ib !! h ≫= (.!! n)) ∧
  map_Forall (λ k si, sub_key si = k) m.

Inductive sub_op :=
  | SubAdd (si : SubscribeInfo)
  | SubRemove (si : SubscribeInfo)
  | SubGet (track_fullname_hash src_node_id : Z).

Definition run_sub_op (op : sub_op) : ST InfoBase (bool + option SubscribeInfo) :=
  match op with
  | SubAdd si => b ← AddSubscribe si; mret (inl b)
  | SubRemove si => b ← RemoveSubscribe si; mret (inl b)
  | SubGet h n => o ← GetSubscribe h n; mret (inr o)
  end.

(** A subscription is added or replaced unless its sequence number is the one
    already held; any removal succeeds if the subscription is there. *)
Definition abs_sub_op (op : sub_op) (m : Subs) : (bool + option SubscribeInfo) * Subs :=
  match op with
  | SubAdd si =>
      match m !! sub_key si with
      | Some old => if decide (si_seq old = si_seq si) then (inl false, m)
                    else (inl true, <[sub_key si := si]> m)
      | None => (inl true, <[sub_key si := si]> m)
      end
  | SubRemove si => (inl (bool_decide (is_Some (m !! sub_key si))), delete (sub_key si) m)
  | SubGet h n => (inr (m !! (h, n)), m)
  end.

(** Subscribers other than the given source. *)
Definition abs_has_subscribers (si : SubscribeInfo) (m : Subs) : Prop :=
  ∃ n, is_Some (m !! (track_fullname_hash (si_track_hash si), n)) ∧ n ≠ si_source_node_id si.

Abbreviation hash_of si := (track_fullname_hash (si_track_hash si)).

Lemma subs_rel_insert ib m si inner :
  subs_rel ib m → subscribes_ ib !! hash_of si = Some inner →
  subs_rel (set_subscribes <[hash_of si := <[si_source_node_id si := si]> inner]> ib)
           (<[sub_key si := si]> m).
Proof.
  intros [Hm Hk] Hinner. split; [|by apply map_Forall_insert_2].
  unfold sub_key. intros h n. simpl. destruct (decide (h = hash_of si)) as [->|Hne].
  - rewrite lookup_insert_eq. simpl.
    destruct (decide (n = si_source_node_id si)) as [->|Hne].
    + by rewrite !lookup_insert_eq.
    + rewrite !lookup_insert_ne by congruence. by rewrite Hm, Hinner.
  - by rewrite !lookup_insert_ne by congruence.
Qed.

(** Touching [subscribes_[h]] does not change the view. *)
Lemma subs_rel_touch ib m h :
  subs_rel ib m → subs_rel (set_subscribes (λ t, <[h := default ∅ (t !! h)]> t) ib) m.
Proof.
  intros [Hm Hk]. split; [|done]. intros h' n. simpl. rewrite Hm.
  destruct (decide (h' = h)) as [->|Hne]; [|by rewrite lookup_insert_ne].
  rewrite lookup_insert_eq. by destruct (subscribes_ ib !! h).
Qed.

Lemma subs_rel_remove ib m si inner :
  subs_rel ib m → subscribes_ ib !! hash_of si = Some inner →
  subs_rel (set_subscribes
    (if decide (delete (si_source_node_id si) inner = ∅) then delete (hash_of si)
     else <[hash_of si := delete (si_source_node_id si) inner]>) ib)
    (delete (sub_key si) m).
Proof.
  intros [Hm Hk] Hi. split; [|by apply map_Forall_delete].
  unfold sub_key. intros h n. simpl. destruct (decide (h = hash_of si)) as [->|Hne].
  - assert (delete (hash_of si, si_source_node_id si) m !! (hash_of si, n) =
            delete (si_source_node_id si) inner !! n) as ->.
    { destruct (decide (n = si_source_node_id si)) as [->|Hne]; [by rewrite !lookup_delete_eq|].
      rewrite !lookup_delete_ne by congruence. by rewrite Hm, Hi. }
    case_decide as He; [by rewrite lookup_delete_eq, He|by rewrite lookup_insert_eq].
  - rewrite lookup_delete_ne by congruence. rewrite Hm.
    case_decide; [by rewrite lookup_delete_ne|by rewrite lookup_insert_ne].
Qed.

(** The result of a locked operation that leaves [mutex_] alone. *)
Lemma with_lock_run {A} (m : ST InfoBase A) ib a ib' :
  mutex_ ib = false → m (set_mutex true ib) = (Ok a, ib') →
  with_lock m ib = (Ok a, set_mutex false ib').
Proof. intros Hm Hrun. unfold with_lock. by rewrite Hm, Hrun. Qed.

Lemma subscribes_at_ok ib h :
  subscribes_at h ib =
    (Ok (default ∅ (subscribes_ ib !! h)), set_subscribes (λ t, <[h := default ∅ (t !! h)]> t) ib).
Proof.
  unfold subscribes_at, modify, gets, mbind, st_bind. simpl. by rewrite lookup_insert_eq.
Qed.

(** The implementation relation of one operation. *)
Definition op_refines (op : sub_op) : Prop := ∀ ib m,
  subs_rel ib m → mutex_ ib = false →
  ∃ ib', run_sub_op op ib = (Ok (abs_sub_op op m).1, ib') ∧
         subs_rel ib' (abs_sub_op op m).2 ∧ mutex_ ib' = false.

Ltac run_locked :=
  erewrite bind_ok; [reflexivity|]; apply with_lock_run; [done|].

Lemma SubAdd_refines si : op_refines (SubAdd si).
Proof.
  intros ib m Hrel Hm. simpl. pose proof (subs_rel_touch _ _ (hash_of si) Hrel) as Ht.
  set (inner := default ∅ (subscribes_ ib !! hash_of si)).
  assert (m !! sub_key si = inner !! si_source_node_id si) as ->.
  { unfold sub_key, inner. rewrite (proj1 Hrel). by destruct (subscribes_ ib !! _). }
  pose proof (subs_rel_insert (set_mutex true _) m si inner Ht) as Hins.
  simpl in Hins. rewrite lookup_insert_eq in Hins. specialize (Hins eq_refl).
  destruct (inner !! si_source_node_id si) as [old|] eqn:Hold;
    [destruct (decide (si_seq old = si_seq si)) as [Hseq|Hseq]|].
  all: eexists; split; [run_locked; rewrite (bind_ok _ _ _ _ _ (subscribes_at_ok _ _));
    cbn [subscribes_ set_mutex]; fold inner; rewrite Hold; cbv zeta;
    first [rewrite decide_True by lia|rewrite decide_False by lia|idtac]; reflexivity|].
  all: split; [|done].
  - exact Ht.
  - exact Hins.
  - exact Hins.
Qed.

Lemma SubRemove_refines si : op_refines (SubRemove si).
Proof.
  intros ib m Hrel Hm. simpl.
  assert (m !! sub_key si = subscribes_ ib !! hash_of si ≫= (.!! si_source_node_id si)) as Hl
    by apply (proj1 Hrel).
  pose proof (subs_rel_remove ib m si) as Hrem.
  rewrite Hl. destruct (subscribes_ ib !! hash_of si) as [inner|] eqn:Hin; simpl in Hl |- *;
    [destruct (inner !! si_source_node_id si) as [old|] eqn:Hold|].
  all: eexists; split; [run_locked;
    rewrite (bind_ok (gets subscribes_) _ (set_mutex true ib) _ _ eq_refl);
    cbn [subscribes_ set_mutex]; rewrite Hin, ?Hold; reflexivity|].
  all: split; [|done].
  - exact (Hrem inner Hrel eq_refl).
  - rewrite delete_id by done. exact Hrel.
  - rewrite delete_id by done. exact Hrel.
Qed.

Lemma SubGet_refines h n : op_refines (SubGet h n).
Proof.
  intros ib m Hrel Hm. simpl. rewrite (proj1 Hrel). eexists. split.
  - rewrite (bind_ok (GetSubscribe h n) _ ib (subscribes_ ib !! h ≫= (.!! n))
      (set_mutex false (set_subscribes (λ t, <[h := default ∅ (t !! h)]> t) (set_mutex true ib))));
      [reflexivity|].
    apply with_lock_run; [done|]. rewrite (bind_ok _ _ _ _ _ (subscribes_at_ok _ _)).
    unfold mret, st_ret. cbn [subscribes_ set_mutex]. do 2 f_equal.
    by destruct (subscribes_ ib !! h).
  - split; [|done]. exact (subs_rel_touch _ _ h Hrel).
Qed.

Lemma run_sub_op_ok op : op_refines op.
Proof. destruct op; auto using SubAdd_refines, SubRemove_refines, SubGet_refines. Qed.

Lemma HasSubscribers_ok ib m si :
  subs_rel ib m → HasSubscribers si ib = true ↔ abs_has_subscribers si m.
Proof.
  intros [Hm Hk]. unfold HasSubscribers, abs_has_subscribers. setoid_rewrite Hm.
  destruct (subscribes_ ib !! _) as [inner|] eqn:Hin; simpl.
  2: { split; [done|]. by intros (n & [??] & _). }
  rewrite existsb_exists. split.
  - intros ([n e] & He%list_elem_of_In%elem_of_entries & Hne%bool_decide_eq_true).
    exists n. split; [eauto|]. simpl in Hne.
    assert (m !! (track_fullname_hash (si_track_hash si), n) = Some e) as Hl by by rewrite Hm, Hin.
    apply Hk in Hl. unfold sub_key in Hl. injection Hl as _ Hl. congruence.
  - intros (n & [e He] & Hne). exists (n, e). split.
    + by apply list_elem_of_In, elem_of_entries.
    + apply bool_decide_eq_true. simpl.
      assert (m !! (track_fullname_hash (si_track_hash si), n) = Some e) as Hl by by rewrite Hm, Hin.
      apply Hk in Hl. unfold sub_key in Hl. injection Hl as _ Hl. congruence.
Qed.

(** The abstract run of a sequence of operations. *)
Fixpoint abs_sub_ops (ops : list sub_op) (m : Subs) : list (bool + option SubscribeInfo) * Subs :=
  match ops with
  | [] => ([], m)
  | op :: ops =>
      let '(r, m) := abs_sub_op op m in
      let '(rs, m) := abs_sub_ops ops m in (r :: rs, m)
  end.

Fixpoint run_sub_ops (ops : list sub_op) : ST InfoBase (list (bool + option SubscribeInfo)) :=
  match ops with
  | [] => mret []
  | op :: ops => r ← run_sub_op op; rs ← run_sub_ops ops; mret (r :: rs)
  end.

(** C19: the nested subscription table implements a flat map from (track,
    source node) to subscriptions: any sequence of additions, removals and
    lookups returns what the map returns and ends in a table that represents
    the map, and [HasSubscribers] then tells whether another source is
    subscribed to the track.  An older sequence number is not discarded, and
    a removal does not look at it. *)
Theorem subscribes_refine_map ops ib m :
  subs_rel ib m → mutex_ ib = false →
  ∃ ib', run_sub_ops ops ib = (Ok (abs_sub_ops ops m).1, ib') ∧
    subs_rel ib' (abs_sub_ops ops m).2 ∧ mutex_ ib' = false ∧
    ∀ si, HasSubscribers si ib' = true ↔ abs_has_subscribers si (abs_sub_ops ops m).2.
Proof.
  revert ib m. induction ops as [|op ops IH]; intros ib m Hrel Hm; simpl.
  { exists ib. split_and!; [done..|]. intros si. by apply HasSubscribers_ok. }
  destruct (run_sub_op_ok op ib m Hrel Hm) as (ib1 & Hrun & Hrel1 & Hm1).
  destruct (abs_sub_op op m) as [r m1]. simpl in *.
  destruct (IH ib1 m1 Hrel1 Hm1) as (ib' & Hruns & Hrel' & Hm' & Hhas).
  destruct (abs_sub_ops ops m1) as [rs m']. simpl in *.
  exists ib'. rewrite (bind_ok _ _ _ _ _ Hrun), (bind_ok _ _ _ _ _ Hruns). done.
Qed.
End subscribes.

Section announces.
Context `{TrackNames}.
Implicit Types ib : InfoBase.

(** ** Views of the two tables *)

(** The full-name hashes a prefix leads to. *)
Definition prefix_view ib (p : Z) : gset Z := default ∅ (prefix_lookup_announces_ ib !! p).

Definition announced ib (f n : Z) (ai : AnnounceInfo) : Prop :=
  announces_ ib !! f ≫= (.!! n) = Some ai.

(** Every announcement is reachable from each of its namespace prefixes. *)
Definition prefix_complete ib : Prop := ∀ f n ai,
  announced ib f n ai → ∀ p, p ∈ PrefixHashNamespaceTuples (ai_name_space ai) →
  f ∈ prefix_view ib p.

Lemma elem_of_announce_ids ib f n : n ∈ announce_ids ib f ↔ ∃ ai, announced ib f n ai.
Proof.
  unfold announce_ids, announced. rewrite elem_of_dom.
  destruct (announces_ ib !! f); simpl; [done|]. split; [by intros [??]|by intros [??]].
Qed.

Lemma announce_ids_mutex b ib f : announce_ids (set_mutex b ib) f = announce_ids ib f.
Proof. done. Qed.

(** ** AddAnnounce *)

Lemma add_prefixes_ok f ps : ∀ ib,
  ∃ tbl, for_each ps (λ p, modify (set_prefix (λ m,
           <[p := {[f]} ∪ default ∅ (m !! p)]> m))) ib = (Ok tt, set_prefix (λ _, tbl) ib) ∧
         ∀ p, default ∅ (tbl !! p) =
              (if decide (p ∈ ps) then {[f]} else ∅) ∪ prefix_view ib p.
Proof.
  induction ps as [|q ps IH]; intros ib; cbn [for_each].
  - exists (prefix_lookup_announces_ ib). split; [by destruct ib|].
    intros p. rewrite decide_False by apply not_elem_of_nil. by rewrite union_empty_l_L.
  - rewrite (bind_ok (modify _) _ ib tt _ eq_refl).
    destruct (IH (set_prefix (λ m, <[q := {[f]} ∪ default ∅ (m !! q)]> m) ib)) as (tbl & Hl & Hv).
    exists tbl. rewrite Hl. split; [done|]. intros p. rewrite Hv. unfold prefix_view. simpl.
    destruct (decide (p = q)) as [->|Hne].
    + rewrite lookup_insert_eq, (decide_True (P := q ∈ q :: ps)) by set_solver. simpl.
      destruct (decide (q ∈ ps)); set_solver.
    + rewrite lookup_insert_ne by done.
      destruct (decide (p ∈ ps)), (decide (p ∈ q :: ps)); set_solver.
Qed.

Lemma AddAnnounce_ok ib ai :
  mutex_ ib = false →
  let is_new := bool_decide (announces_ ib !! ai_fullname_hash ai ≫= (.!! ai_source_node_id ai) = None) in
  ∃ ib', AddAnnounce ai ib = (Ok is_new, ib') ∧ mutex_ ib' = false ∧
    (∀ f n x, announced ib' f n x ↔
       if decide (is_new = true ∧ f = ai_fullname_hash ai ∧ n = ai_source_node_id ai)
       then x = ai else announced ib f n x) ∧
    (∀ p, prefix_view ib' p =
       (if decide (is_new = true ∧ p ∈ PrefixHashNamespaceTuples (ai_name_space ai))
        then {[ai_fullname_hash ai]} else ∅) ∪ prefix_view ib p).
Proof.
  intros Hm is_new. unfold AddAnnounce.
  set (f := ai_fullname_hash ai). set (inner := default ∅ (announces_ ib !! f)).
  assert (is_new = bool_decide (inner !! ai_source_node_id ai = None)) as Hnew.
  { unfold is_new, inner, f. by destruct (announces_ ib !! _). }
  set (ib1 := set_announces <[f := if is_new then <[ai_source_node_id ai := ai]> inner else inner]>
                (set_mutex true ib)).
  assert (∀ f' n x, announced ib1 f' n x ↔
            if decide (is_new = true ∧ f' = f ∧ n = ai_source_node_id ai)
            then x = ai else announced ib f' n x) as Hann.
  { intros f' n x. unfold announced. simpl. destruct (decide (f' = f)) as [->|Hne].
    - rewrite lookup_insert_eq. simpl. destruct is_new; [destruct (decide (n = ai_source_node_id ai)) as [->|Hne]|].
      + rewrite lookup_insert_eq, decide_True by done. naive_solver.
      + rewrite lookup_insert_ne, decide_False by naive_solver. unfold inner. by destruct (announces_ ib !! f).
      + rewrite decide_False by naive_solver. unfold inner. by destruct (announces_ ib !! f).
    - by rewrite lookup_insert_ne, decide_False by naive_solver. }
  destruct (add_prefixes_ok f (PrefixHashNamespaceTuples (ai_name_space ai)) ib1) as (tbl & Hl & Hv).
  exists (set_mutex false (if is_new then set_prefix (λ _, tbl) ib1 else ib1)).
  split.
  - unfold with_lock. rewrite Hm.
    rewrite (bind_ok (gets announces_) _ (set_mutex true ib) _ _ eq_refl). cbv zeta.
    change (default ∅ (announces_ (set_mutex true ib) !! f)) with inner.
    rewrite <- Hnew. rewrite (bind_ok (modify _) _ (set_mutex true ib) tt ib1 eq_refl).
    destruct is_new; simpl.
    + by rewrite (bind_ok _ _ _ _ _ Hl).
    + done.
  - split_and!; [done| |]; destruct is_new.
    + exact Hann.
    + exact Hann.
    + intros p. unfold prefix_view at 1. simpl. rewrite Hv. f_equal.
      destruct (decide (p ∈ _)); [by rewrite decide_True|by rewrite decide_False by tauto].
    + intros p. by rewrite decide_False, union_empty_l_L by naive_solver.
Qed.

(** ** RemoveAnnounce *)

Lemma remove_prefixes_ok f ps : ∀ ib removed dels,
  (∀ p, p ∈ dels → prefix_view ib p = ∅) →
  ∃ tbl dels', fold_each ps (removed, dels) (remove_prefix_step f) ib =
      (Ok (removed || existsb (λ p, bool_decide (f ∈ prefix_view ib p)) ps, dels'),
       set_prefix (λ _, tbl) ib) ∧
    (∀ p, default ∅ (tbl !! p) =
          if decide (p ∈ ps) then prefix_view ib p ∖ {[f]} else prefix_view ib p) ∧
    (∀ p, p ∈ dels' → default ∅ (tbl !! p) = ∅).
Proof.
  induction ps as [|q ps IH]; intros ib removed dels Hdels; cbn [fold_each existsb].
  { exists (prefix_lookup_announces_ ib), dels. rewrite orb_false_r.
    split; [by destruct ib|]. split; [|done].
    intros p. by rewrite decide_False by apply not_elem_of_nil. }
  destruct (decide (f ∈ prefix_view ib q)) as [Hin|Hin].
  - set (hs := prefix_view ib q ∖ {[f]}). set (ib1 := set_prefix <[q := hs]> ib).
    assert (∀ p, prefix_view ib1 p = if decide (p = q) then hs else prefix_view ib p) as Hv1.
    { intros p. unfold prefix_view, ib1; simpl. destruct (decide (p = q)) as [->|];
        [by rewrite lookup_insert_eq|by rewrite lookup_insert_ne]. }
    destruct (IH ib1 true (if decide (hs = ∅) then dels ++ [q] else dels)) as (tbl & dels' & Hf & Hv & Hd).
    { intros p Hp. rewrite Hv1. destruct (decide (p = q)) as [->|Hne].
      - destruct (decide (hs = ∅)) as [|He]; [done|]. specialize (Hdels _ Hp). set_solver.
      - apply Hdels. destruct (decide (hs = ∅)); set_solver. }
    exists tbl, dels'. split_and!; [| |done].
    + rewrite (bind_ok _ _ ib (true, if decide (hs = ∅) then dels ++ [q] else dels) ib1).
      2: { unfold remove_prefix_step. rewrite (bind_ok (gets _) _ ib _ _ eq_refl).
           unfold hs, prefix_view in *. destruct (prefix_lookup_announces_ ib !! q); simpl in *; [|set_solver].
           by rewrite decide_True. }
      rewrite Hf, bool_decide_eq_true_2 by done. by rewrite orb_true_r.
    + intros p. rewrite Hv, Hv1. unfold hs.
      repeat case_decide; set_solver.
  - destruct (IH ib removed dels Hdels) as (tbl & dels' & Hf & Hv & Hd).
    exists tbl, dels'. split_and!; [| |done].
    + rewrite (bind_ok _ _ ib (removed, dels) ib).
      2: { unfold remove_prefix_step. rewrite (bind_ok (gets _) _ ib _ _ eq_refl).
           unfold prefix_view in Hin. destruct (prefix_lookup_announces_ ib !! q); simpl in *; [|done].
           by rewrite decide_False. }
      by rewrite Hf, bool_decide_eq_false_2, orb_false_l by done.
    + intros p. rewrite Hv.
      repeat case_decide; set_solver.
Qed.

Lemma delete_prefixes_ok dels : ∀ ib,
  (∀ p, p ∈ dels → prefix_view ib p = ∅) →
  ∃ tbl, for_each dels (λ p, modify (set_prefix (delete p))) ib = (Ok tt, set_prefix (λ _, tbl) ib) ∧
         ∀ p, default ∅ (tbl !! p) = prefix_view ib p.
Proof.
  induction dels as [|q dels IH]; intros ib Hd; cbn [for_each].
  { exists (prefix_lookup_announces_ ib). split; [by destruct ib|done]. }
  rewrite (bind_ok (modify _) _ ib tt _ eq_refl).
  assert (∀ p, prefix_view (set_prefix (delete q) ib) p = prefix_view ib p) as Hv1.
  { intros p. destruct (decide (p = q)) as [->|Hne].
    - rewrite Hd by set_solver. unfold prefix_view; simpl. by rewrite lookup_delete_eq.
    - unfold prefix_view; simpl. by rewrite lookup_delete_ne. }
  destruct (IH (set_prefix (delete q) ib)) as (tbl & Hl & Hv).
  { intros p Hp. rewrite Hv1. apply Hd. set_solver. }
  exists tbl. rewrite Hl. split; [done|]. intros p. by rewrite Hv, Hv1.
Qed.

Lemma RemoveAnnounce_ok ib ai :
  mutex_ ib = false → is_Some (announces_ ib !! ai_fullname_hash ai) →
  let f := ai_fullname_hash ai in
  let ps := PrefixHashNamespaceTuples (ai_name_space ai) in
  ∃ ib', RemoveAnnounce ai ib =
      (Ok (existsb (λ p, bool_decide (f ∈ prefix_view ib p)) ps), ib') ∧ mutex_ ib' = false ∧
    (∀ f' n x, announced ib' f' n x ↔
       (f', n) ≠ (f, ai_source_node_id ai) ∧ announced ib f' n x) ∧
    (∀ p, prefix_view ib' p = if decide (p ∈ ps) then prefix_view ib p ∖ {[f]} else prefix_view ib p).
Proof.
  intros Hm [inner Hin] f ps. fold f in Hin.
  destruct (remove_prefixes_ok f ps (set_mutex true ib) false []) as (tbl & dels & Hf & Hv & Hd).
  { by intros p ?%not_elem_of_nil. }
  destruct (delete_prefixes_ok dels (set_prefix (λ _, tbl) (set_mutex true ib)) Hd) as (tbl' & Hl & Hv').
  set (inner' := delete (ai_source_node_id ai) inner).
  exists (set_announces (if decide (inner' = ∅) then delete f else <[f := inner']>)
           (set_prefix (λ _, tbl') ib)).
  split_and!; [|done| |].
  - unfold RemoveAnnounce, with_lock. rewrite Hm.
    rewrite (bind_ok (gets announces_) _ (set_mutex true ib) _ _ eq_refl). simpl.
    fold f ps. rewrite Hin, (bind_ok _ _ _ _ _ Hf), (bind_ok _ _ _ _ _ Hl).
    unfold set_announces, set_prefix; simpl. by destruct ib; simpl in *; subst.
  - intros f' n x. unfold announced; simpl.
    assert ((if decide (inner' = ∅) then delete f else <[f := inner']>) (announces_ ib) !! f' ≫= (.!! n)
            = if decide (f' = f) then inner' !! n else announces_ ib !! f' ≫= (.!! n)) as ->.
    { destruct (decide (f' = f)) as [->|Hne]; case_decide as He.
      - by rewrite lookup_delete_eq, He.
      - by rewrite lookup_insert_eq.
      - by rewrite lookup_delete_ne.
      - by rewrite lookup_insert_ne. }
    destruct (decide (f' = f)) as [->|Hne].
    + rewrite Hin. simpl. unfold inner'. rewrite lookup_delete_Some.
      split; intros [? ?]; split; congruence.
    + split; [intros ?; split; [congruence|done]|tauto].
  - intros p. unfold prefix_view at 1; simpl. rewrite Hv'. unfold prefix_view at 1; simpl. apply Hv.
Qed.

(** ** Lookup *)

(** What the lookup answers, as a set of sources. *)
Definition prefix_sources ib (p n : Z) : Prop :=
  ∃ f, f ∈ prefix_view ib p ∧ ∃ ai, announced ib f n ai.

Definition lookup_result ib (ns : TrackNamespace) (name : list Z) (exact : bool) : outcome (gset Z) :=
  let full := announce_ids ib (track_fullname_hash (track_hash ns name)) in
  if bool_decide (full ≠ ∅) || exact then Ok full
  else match last (PrefixHashNamespaceTuples ns) with
       | None => UB
       | Some p => Ok (full ∪ ⋃ (announce_ids ib <$> set_elements (prefix_view ib p)))
       end.

Lemma GetAnnounceIds_ok ib ns name exact :
  mutex_ ib = false → GetAnnounceIds ns name exact ib = (lookup_result ib ns name exact, ib).
Proof.
  intros Hm. assert (set_mutex false (set_mutex true ib) = ib) as Hib by (destruct ib; simpl in *; by subst).
  transitivity (lookup_result ib ns name exact, set_mutex false (set_mutex true ib)); [|by rewrite Hib].
  unfold GetAnnounceIds, with_lock, lookup_result. rewrite Hm.
  rewrite (bind_ok get _ _ (set_mutex true ib) (set_mutex true ib) eq_refl). cbv zeta.
  rewrite announce_ids_mutex. destruct (bool_decide _ || exact); [done|].
  destruct (last (PrefixHashNamespaceTuples ns)) as [p|]; [|done].
  rewrite (bind_ok (deref (Some p)) _ _ p (set_mutex true ib)) by done.
  unfold prefix_view. cbn [prefix_lookup_announces_ set_mutex].
  destruct (prefix_lookup_announces_ ib !! p) as [hashes|]; [done|].
  unfold mret, st_ret. do 2 f_equal. symmetry. apply union_empty_r_L.
Qed.

Lemma elem_of_prefix_sources ib p n :
  n ∈ ⋃ (announce_ids ib <$> set_elements (prefix_view ib p)) ↔ prefix_sources ib p n.
Proof.
  unfold prefix_sources. rewrite elem_of_union_list. setoid_rewrite list_elem_of_fmap. split.
  - intros (X & (f & -> & Hf%elem_of_set_elements) & Hn%elem_of_announce_ids). eauto.
  - intros (f & Hf & Hn). exists (announce_ids ib f).
    split; [exists f; split; [done|by apply elem_of_set_elements]|by apply elem_of_announce_ids].
Qed.

(** The lookup returns the sources of the full match when there are any
    or when only an exact match is wanted; otherwise the sources of every
    announcement indexed under the whole namespace, taken as a prefix.  An
    inexact lookup of the empty namespace without a full match is undefined
    behaviour. *)
Theorem get_announce_ids_spec ib name_space name exact :
  mutex_ ib = false →
  let full := announce_ids ib (track_fullname_hash (track_hash name_space name)) in
  match GetAnnounceIds name_space name exact ib with
  | (Ok ids, ib') =>
      ib' = ib ∧
      if bool_decide (full ≠ ∅) || exact then ids = full
      else ∃ p, last (PrefixHashNamespaceTuples name_space) = Some p ∧
                ∀ n, n ∈ ids ↔ prefix_sources ib p n
  | (Throw _, _) => False
  | (UB, _) => full = ∅ ∧ exact = false ∧ PrefixHashNamespaceTuples name_space = []
  end.
Proof.
  intros Hm full. rewrite GetAnnounceIds_ok by done. unfold lookup_result. fold full.
  destruct (bool_decide (full ≠ ∅) || exact) eqn:Hb; [done|].
  apply orb_false_iff in Hb as [Hfull%bool_decide_eq_false%dec_stable Hex].
  destruct (last (PrefixHashNamespaceTuples name_space)) as [p|] eqn:Hlast.
  - split; [done|]. exists p. split; [done|]. intros n.
    by rewrite Hfull, union_empty_l_L, elem_of_prefix_sources.
  - by apply last_None in Hlast.
Qed.

(** ** Announcements and their prefixes *)

Lemma prefix_hashes_app h l k :
  prefix_hashes h l `prefix_of` prefix_hashes h (l ++ k).
Proof.
  revert h. induction l as [|x l IH]; intros h; simpl; [apply prefix_nil|].
  apply prefix_cons, IH.
Qed.

Context `{!TrackNamesLaws}.

Lemma prefix_hash_of_prefix ns ns' :
  GetEntries ns `prefix_of` GetEntries ns' → GetEntries ns ≠ [] →
  ∃ p, last (PrefixHashNamespaceTuples ns) = Some p ∧ p ∈ PrefixHashNamespaceTuples ns'.
Proof.
  intros [k Hk]%GetHashes_prefix Hne.
  assert (PrefixHashNamespaceTuples ns `prefix_of` PrefixHashNamespaceTuples ns') as [k' Hp]
    by (unfold PrefixHashNamespaceTuples; rewrite Hk; apply prefix_hashes_app).
  destruct (last (PrefixHashNamespaceTuples ns)) as [p|] eqn:Hl.
  - exists p. split; [done|]. rewrite Hp. apply elem_of_app. left. by apply last_Some_elem_of.
  - exfalso. apply last_None in Hl. unfold PrefixHashNamespaceTuples in Hl.
    apply Hne, nil_length_inv. rewrite <- GetHashes_length. by destruct (GetHashes ns).
Qed.

Definition add_all (ais : list AnnounceInfo) : ST InfoBase unit :=
  for_each ais (λ ai, _ ← AddAnnounce ai; mret tt).

Lemma add_all_ok ais : ∀ ib,
  mutex_ ib = false → prefix_complete ib →
  ∃ ib', add_all ais ib = (Ok tt, ib') ∧ mutex_ ib' = false ∧ prefix_complete ib' ∧
    (∀ ai, ai ∈ ais → ∃ x, announced ib' (ai_fullname_hash ai) (ai_source_node_id ai) x) ∧
    (∀ f n x, announced ib f n x → announced ib' f n x).
Proof.
  unfold add_all. induction ais as [|ai ais IH]; intros ib Hm Hc; cbn [for_each].
  { exists ib. split_and!; try done. by intros ai ?%not_elem_of_nil. }
  destruct (AddAnnounce_ok ib ai Hm) as (ib1 & Hrun & Hm1 & Hann & Hv).
  set (is_new := bool_decide _) in *.
  assert (is_new = true → announces_ ib !! ai_fullname_hash ai ≫= (.!! ai_source_node_id ai) = None)
    as Hnew by (subst is_new; by intros ?%bool_decide_eq_true).
  assert (∀ f n x, announced ib f n x → announced ib1 f n x) as Hkeep.
  { intros f n x Hx. apply Hann. rewrite decide_False; [done|].
    intros (Hn & -> & ->). specialize (Hnew Hn). unfold announced in Hx. congruence. }
  destruct (IH ib1 Hm1) as (ib' & Hruns & Hm' & Hc' & Hall & Hkeep').
  { intros f n x Hx p Hp. rewrite Hv. apply Hann in Hx. case_decide as Hd.
    - destruct Hd as (Hd & -> & ->). subst x. rewrite decide_True by done. set_solver.
    - apply elem_of_union_r. by eapply Hc. }
  exists ib'. rewrite (bind_ok _ _ ib tt ib1) by by rewrite (bind_ok _ _ _ _ _ Hrun).
  split_and!; [done..| |eauto].
  intros ai' [->|Hin]%elem_of_cons; [|auto].
  destruct (announces_ ib !! ai_fullname_hash ai ≫= (.!! ai_source_node_id ai)) as [x|] eqn:Hx.
  - exists x. by apply Hkeep', Hkeep.
  - exists ai. apply Hkeep', Hann. by rewrite decide_True by (subst is_new; by rewrite bool_decide_eq_true).
Qed.

(** C20: after any sequence of announcements every announcing source is
    recorded, and it is found by a lookup of every non-empty prefix of the
    namespace it announced, unless that prefix is itself announced in full,
    whose sources are then the answer. *)
Theorem announce_prefix_lookup ais :
  ∃ ib, add_all ais InfoBase_empty = (Ok tt, ib) ∧
    (∀ ai, ai ∈ ais → ∃ x, announced ib (ai_fullname_hash ai) (ai_source_node_id ai) x) ∧
    ∀ f n x ns name, announced ib f n x →
      GetEntries ns ≠ [] → GetEntries ns `prefix_of` GetEntries (ai_name_space x) →
      ∃ ids, GetAnnounceIds ns name false ib = (Ok ids, ib) ∧
        let full := announce_ids ib (track_fullname_hash (track_hash ns name)) in
        (full = ∅ ∧ n ∈ ids ∨ full ≠ ∅ ∧ ids = full).
Proof.
  destruct (add_all_ok ais InfoBase_empty) as (ib & Hrun & Hm & Hc & Hall & _); [done|by intros ???|].
  exists ib. split_and!; [done..|]. intros f n x ns name Hx Hne Hpre.
  rewrite GetAnnounceIds_ok by done. unfold lookup_result.
  set (full := announce_ids ib _).
  destruct (decide (full = ∅)) as [He|He].
  2: { rewrite bool_decide_eq_true_2 by done. simpl. eauto. }
  rewrite bool_decide_eq_false_2 by naive_solver. simpl.
  destruct (prefix_hash_of_prefix ns (ai_name_space x) Hpre Hne) as (p & -> & Hp).
  eexists. split; [done|]. left. split; [done|].
  apply elem_of_union_r, elem_of_prefix_sources. exists f. split; [by eapply Hc|eauto].
Qed.

(** Withdrawing one source's announcement removes the announcement of
    every other source of the same name from the prefix index although they
    stay announced; the withdrawal of the next source is then reported as
    having removed nothing, although it removes that source. *)
Theorem remove_announce_other_sources ib a1 a2 :
  mutex_ ib = false → prefix_complete ib →
  announced ib (ai_fullname_hash a1) (ai_source_node_id a1) a1 →
  announced ib (ai_fullname_hash a2) (ai_source_node_id a2) a2 →
  ai_fullname_hash a1 = ai_fullname_hash a2 → ai_name_space a1 = ai_name_space a2 →
  ai_source_node_id a1 ≠ ai_source_node_id a2 → GetEntries (ai_name_space a1) ≠ [] →
  ∃ ib1 ib2, RemoveAnnounce a1 ib = (Ok true, ib1) ∧
    announced ib1 (ai_fullname_hash a2) (ai_source_node_id a2) a2 ∧
    (∀ p, p ∈ PrefixHashNamespaceTuples (ai_name_space a2) → ai_fullname_hash a2 ∉ prefix_view ib1 p) ∧
    RemoveAnnounce a2 ib1 = (Ok false, ib2) ∧
    ¬ ∃ x, announced ib2 (ai_fullname_hash a2) (ai_source_node_id a2) x.
Proof.
  intros Hm Hc H1 H2 Hf Hns Hsrc Hne.
  assert (∀ ib f n x, announced ib f n x → is_Some (announces_ ib !! f)) as Hsome.
  { intros ib0 f n x Hx. unfold announced in Hx.
    by destruct (announces_ ib0 !! f); [eexists|]. }
  destruct (RemoveAnnounce_ok ib a1 Hm (Hsome _ _ _ _ H1)) as (ib1 & Hrun1 & Hm1 & Hann1 & Hv1).
  assert (announced ib1 (ai_fullname_hash a2) (ai_source_node_id a2) a2) as H2'.
  { apply Hann1. split; [congruence|done]. }
  destruct (RemoveAnnounce_ok ib1 a2 Hm1 (Hsome _ _ _ _ H2')) as (ib2 & Hrun2 & _ & Hann2 & _).
  assert (∀ p, p ∈ PrefixHashNamespaceTuples (ai_name_space a2) →
               ai_fullname_hash a2 ∉ prefix_view ib1 p) as Hnone.
  { intros p Hp. rewrite Hv1, decide_True by by rewrite Hns. set_solver. }
  exists ib1, ib2. split_and!; [|done|done| |].
  - rewrite Hrun1. do 2 f_equal. apply existsb_exists.
    destruct (prefix_hash_of_prefix (ai_name_space a1) (ai_name_space a1) (reflexivity _) Hne)
      as (p & _ & Hp).
    exists p. split; [by apply list_elem_of_In|]. apply bool_decide_eq_true. by eapply Hc.
  - rewrite Hrun2. do 2 f_equal. apply not_true_iff_false.
    intros (p & Hp%list_elem_of_In & Hin%bool_decide_eq_true)%existsb_exists. by eapply Hnone.
  - intros [x [Hne' _]%Hann2]. done.
Qed.
End announces.

(** ** Witnesses *)

Import Quicr.Demo.

Definition demo_si (seq src : Z) : SubscribeInfo :=
  mkSubscribeInfo seq src (Build_TrackHash 1 2 3) [].

Lemma subs_rel_empty : subs_rel InfoBase_empty ∅.
Proof. split; [|apply map_Forall_empty]. intros h n. done. Qed.

(** An older subscription replaces a newer one, and is removed by any other. *)
Lemma subscribes_refine_map_witness :
  ∃ ib', run_sub_ops [SubAdd (demo_si 7 4); SubAdd (demo_si 7 4); SubAdd (demo_si 5 4);
                      SubGet 3 4; SubRemove (demo_si 1 4); SubGet 3 4] InfoBase_empty
         = (Ok [inl true; inl false; inl true; inr (Some (demo_si 5 4)); inl true; inr None], ib').
Proof.
  destruct (subscribes_refine_map [SubAdd (demo_si 7 4); SubAdd (demo_si 7 4); SubAdd (demo_si 5 4);
    SubGet 3 4; SubRemove (demo_si 1 4); SubGet 3 4] InfoBase_empty ∅ subs_rel_empty eq_refl)
    as (ib' & Hrun & _).
  exists ib'. exact Hrun.
Defined.

(** Two relays publishing in the namespace of the tuples [7] and [8]. *)
Definition demo_ann (src : Z) : AnnounceInfo := mkAnnounceInfo src [[7]; [8]] [9] 55 0.

Definition demo_announced : InfoBase := (add_all [demo_ann 1; demo_ann 2] InfoBase_empty).2.

Lemma demo_announced_ok :
  mutex_ demo_announced = false ∧ prefix_complete demo_announced.
Proof.
  destruct (add_all_ok [demo_ann 1; demo_ann 2] InfoBase_empty eq_refl) as (ib & Hrun & Hm & Hc & _);
    [by intros ???|].
  unfold demo_announced. by rewrite Hrun.
Qed.

Lemma get_announce_ids_spec_witness :
  ∃ p, last (PrefixHashNamespaceTuples [[7]]) = Some p ∧
       ∀ n, n ∈ ({[1; 2]} : gset Z) ↔ prefix_sources demo_announced p n.
Proof.
  pose proof (get_announce_ids_spec demo_announced [[7]] [] false (proj1 demo_announced_ok)) as Hspec.
  assert (GetAnnounceIds [[7]] [] false demo_announced = (Ok {[1; 2]}, demo_announced)) as Hget by vm_refl.
  rewrite Hget in Hspec. exact (proj2 Hspec).
Defined.

Lemma announce_prefix_lookup_witness :
  ∃ ib, add_all [demo_ann 1; demo_ann 2] InfoBase_empty = (Ok tt, ib) ∧
    ∃ ids, GetAnnounceIds [[7]] [] false ib = (Ok ids, ib) ∧ 2 ∈ ids.
Proof.
  destruct (announce_prefix_lookup [demo_ann 1; demo_ann 2]) as (ib & Hrun & _ & Hlook).
  exists ib. split; [done|].
  assert (ib = demo_announced) as -> by (unfold demo_announced; by rewrite Hrun).
  assert (announced demo_announced 55 2 (demo_ann 2)) as Hann by (unfold announced; vm_refl).
  assert (announce_ids demo_announced (track_fullname_hash (track_hash (TrackNames := names) [[7]] [])) = ∅)
    as Hfull by vm_refl.
  destruct (Hlook 55 2 (demo_ann 2) [[7]] [] Hann ltac:(discriminate) ltac:(by exists [[8]]))
    as (ids & Hget & [[_ Hin]|[Hne _]]).
  - by exists ids.
  - by destruct Hne.
Defined.

Lemma remove_announce_other_sources_witness :
  ∃ ib1 ib2, RemoveAnnounce (demo_ann 1) demo_announced = (Ok true, ib1) ∧
    announced ib1 55 2 (demo_ann 2) ∧
    (∀ p, p ∈ PrefixHashNamespaceTuples [[7]; [8]] → 55 ∉ prefix_view ib1 p) ∧
    RemoveAnnounce (demo_ann 2) ib1 = (Ok false, ib2) ∧ ¬ ∃ x, announced ib2 55 2 x.
Proof.
  apply (remove_announce_other_sources demo_announced (demo_ann 1) (demo_ann 2));
    [apply demo_announced_ok|apply demo_announced_ok|unfold announced; vm_refl|unfold announced; vm_refl|done|done|done|done].
Defined.
