(* ===== verification/TrackRanking.v ===== *)
(** * Track ranking (class TrackRanking, src/track_ranking.h)

    Ranks the tracks of a namespace by a property that publishers put in their
    objects, and passes the ranked list to the namespace handlers of the
    subscribers, which are reached through an interface. *)

From S2P Require Import Prelude Common Quicr.

(** What the ranking asks of [PublishNamespaceHandler]: whether the object
    behind a [weak_ptr] is alive, its namespace hash and connection id, and the
    notification, which works on the handlers' own state [W]. *)
Class NamespaceHandler (W : Type) := {
  h_alive : Z → W → bool;
  h_namespace_hash : Z → W → Z;
  h_connection_id : Z → W → Z;
  h_UpdateTrackRanking : Z → list (Z * Z * Z * Z) → ST W unit;
}.

Record TrackTickInfo := mkTick { insert_seq_num : Z; latest_tick : Z }.

#[global] Instance TrackTickInfo_eq_dec : EqDecision TrackTickInfo.
Proof. solve_decision. Defined.

Abbreviation TrackEntry := (gmap Z TrackTickInfo).

(** An element of [flat_track_list_]:
    alias, insert_seq_num, latest_tick, conn_id. *)
Abbreviation RankedTrack := (Z * Z * Z * Z)%type.

Record TrackRanking := mkRanking {
  max_tracks_selected_ : Z;
  inactive_age_ms_ : Z;
  update_value_seq_num_ : Z;
  ordered_tracks_ : gmap (Z * Z) TrackEntry;   (* property type, value *)
  flat_track_list_ : list RankedTrack;
  track_connections_ : gmap Z Z;
  ns_handlers_ : gmap Z (gmap Z Z);            (* namespace hash, connection id *)
}.

Definition TrackRanking_default : TrackRanking := mkRanking 32 10000 0 ∅ [] ∅ ∅.

Definition SetMaxSelected (max : Z) (r : TrackRanking) : TrackRanking :=
  mkRanking max (inactive_age_ms_ r) (update_value_seq_num_ r) (ordered_tracks_ r)
    (flat_track_list_ r) (track_connections_ r) (ns_handlers_ r).
Definition SetInactiveAge (age : Z) (r : TrackRanking) : TrackRanking :=
  mkRanking (max_tracks_selected_ r) age (update_value_seq_num_ r) (ordered_tracks_ r)
    (flat_track_list_ r) (track_connections_ r) (ns_handlers_ r).
Definition set_ns_handlers (f : gmap Z (gmap Z Z) → gmap Z (gmap Z Z)) (r : TrackRanking) : TrackRanking :=
  mkRanking (max_tracks_selected_ r) (inactive_age_ms_ r) (update_value_seq_num_ r)
    (ordered_tracks_ r) (flat_track_list_ r) (track_connections_ r) (f (ns_handlers_ r)).

(** ** The steps of UpdateValue *)

(** The loop that takes the track out of the other buckets of the property; its
    variables are the map, [needs_rebuild] and [value_decreased].  A bucket that
    becomes empty is erased and the loop goes on without [needs_rebuild]. *)
Definition leave_bucket (track_alias value : Z)
    (acc : gmap (Z * Z) TrackEntry * bool * bool) (b : (Z * Z) * TrackEntry) :
    gmap (Z * Z) TrackEntry * bool * bool :=
  let '(tracks, needs_rebuild, value_decreased) := acc in
  let '(key, entry) := b in
  if decide (key.2 ≠ value ∧ is_Some (entry !! track_alias)) then
    let value_decreased := value_decreased || bool_decide (value < key.2) in
    let entry := delete track_alias entry in
    if decide (entry = ∅) then (delete key tracks, needs_rebuild, value_decreased)
    else (<[key := entry]> tracks, true, value_decreased)
  else (tracks, needs_rebuild, value_decreased).

Definition leave_buckets (track_alias prop value : Z) (tracks : gmap (Z * Z) TrackEntry) :
    gmap (Z * Z) TrackEntry * bool * bool :=
  foldl (leave_bucket track_alias value) (tracks, false, false) (same_first prop tracks).

Definition new_seq_num (value_decreased : bool) (seq : Z) : Z :=
  if value_decreased then u64 (Z.shiftr (2 ^ 64 - 1) 1 - seq) else Z.lor (2 ^ 63) seq.

Definition is_inactive (age tick : Z) (info : TrackTickInfo) : Prop :=
  latest_tick info ≤ tick ∧ age < tick - latest_tick info.
#[global] Instance is_inactive_dec age tick info : Decision (is_inactive age tick info).
Proof. unfold is_inactive. apply _. Defined.

(** Removal of inactive tracks, then of empty buckets. *)
Definition active_entry (age tick : Z) (e : TrackEntry) : TrackEntry :=
  filter (λ t, ¬ is_inactive age tick t.2) e.

Definition drop_inactive (age tick : Z) (tracks : gmap (Z * Z) TrackEntry) : gmap (Z * Z) TrackEntry :=
  filter (λ b, b.2 ≠ ∅) (active_entry age tick <$> tracks).

Definition any_inactive (age tick : Z) (tracks : gmap (Z * Z) TrackEntry) : bool :=
  existsb (λ b, bool_decide (active_entry age tick b.2 ≠ b.2)) (entries tracks).

(** The comparison of [sort_tracks]. *)
Definition rank_le (a b : RankedTrack) : Prop :=
  let '(ta_a, seq_a, _, _) := a in
  let '(ta_b, seq_b, _, _) := b in
  seq_a < seq_b ∨ (seq_a = seq_b ∧ ta_b ≤ ta_a).
#[global] Instance rank_le_dec a b : Decision (rank_le a b).
Proof. destruct a as [[[??]?]?], b as [[[??]?]?]. simpl. apply _. Defined.

Definition sort_tracks (conns : gmap Z Z) (e : TrackEntry) : list RankedTrack :=
  merge_sort rank_le
    ((λ t : Z * TrackTickInfo,
        (t.1, insert_seq_num t.2, latest_tick t.2, default 0 (conns !! t.1))) <$> entries e).

(** The buckets of the property, from the highest value down. *)
Definition buckets_desc (prop : Z) (tracks : gmap (Z * Z) TrackEntry) : list ((Z * Z) * TrackEntry) :=
  reverse (same_first prop tracks).

Definition rebuild (prop : Z) (tracks : gmap (Z * Z) TrackEntry) (conns : gmap Z Z) : list RankedTrack :=
  concat ((λ b, sort_tracks conns b.2) <$> buckets_desc prop tracks).

(** [track_connections_[ta]] of the rebuild inserts a zero for a track without
    a connection. *)
Definition touch_connections (flat : list RankedTrack) (conns : gmap Z Z) : gmap Z Z :=
  conns ∪ list_to_map ((λ t : RankedTrack, (t.1.1.1, 0)) <$> flat).

(** The in-place update stops at the first element of the track. *)
Fixpoint update_in_place (track_alias tick conn : Z) (flat : list RankedTrack) : list RankedTrack :=
  match flat with
  | [] => []
  | t :: flat =>
      let '(alias, seq, _, _) := t in
      if decide (alias = track_alias) then (alias, seq, tick, conn) :: flat
      else t :: update_in_place track_alias tick conn flat
  end.

(** UpdateValue up to the notifications. *)
Definition update_tables (track_alias prop value tick connection_id : Z) (r : TrackRanking) : TrackRanking :=
  let seq := u64 (update_value_seq_num_ r + 1) in
  let '(tracks, needs_rebuild, value_decreased) :=
    leave_buckets track_alias prop value (ordered_tracks_ r) in
  let inserted := bool_decide (tracks !! (prop, value) = None) in
  let entry := default ∅ (tracks !! (prop, value)) in
  let info := match entry !! track_alias with
              | None => mkTick (new_seq_num value_decreased seq) tick
              | Some old => mkTick (insert_seq_num old) tick
              end in
  let tracks := <[(prop, value) := <[track_alias := info]> entry]> tracks in
  let conns := <[track_alias := connection_id]> (track_connections_ r) in
  let needs_rebuild := needs_rebuild || inserted || any_inactive (inactive_age_ms_ r) tick tracks in
  let tracks := drop_inactive (inactive_age_ms_ r) tick tracks in
  let flat := if needs_rebuild then rebuild prop tracks conns
              else update_in_place track_alias tick connection_id (flat_track_list_ r) in
  mkRanking (max_tracks_selected_ r) (inactive_age_ms_ r) seq tracks flat
    (if needs_rebuild then touch_connections flat conns else conns) (ns_handlers_ r).

Section handlers.
Context {W : Type} `{NamespaceHandler W}.

(** One connection of the notification loop. *)
Definition notify_handler (ns_hash : Z) (c : Z * Z) : ST (TrackRanking * W) unit :=
  w ← gets snd;
  if h_alive c.2 w then
    r ← gets fst;
    zoom snd (λ w s, (s.1, w)) (h_UpdateTrackRanking c.2 (flat_track_list_ r))
  else
    modify (λ s, (set_ns_handlers (alter (delete c.1) ns_hash) s.1, s.2)).

Definition notify_namespace (ns : Z * gmap Z Z) : ST (TrackRanking * W) unit :=
  for_each (entries ns.2) (notify_handler ns.1) ;;
  r ← gets fst;
  when (bool_decide (ns_handlers_ r !! ns.1 = Some ∅))
    (modify (λ s, (set_ns_handlers (delete ns.1) s.1, s.2))).

(** [void UpdateValue(track_alias, prop, value, tick, connection_id)] *)
Definition UpdateValue (track_alias prop value tick connection_id : Z) : ST (TrackRanking * W) unit :=
  modify (λ s, (update_tables track_alias prop value tick connection_id s.1, s.2)) ;;
  r ← gets fst;
  for_each (entries (ns_handlers_ r)) notify_namespace.

Definition AddNamespaceHandler (handler : Z) : ST (TrackRanking * W) unit :=
  w ← gets snd;
  when (h_alive handler w)
    (modify (λ s, (set_ns_handlers (λ m,
       let conns := default ∅ (m !! h_namespace_hash handler w) in
       <[h_namespace_hash handler w :=
           match conns !! h_connection_id handler w with
           | Some _ => conns
           | None => <[h_connection_id handler w := handler]> conns
           end]> m) s.1, s.2))).

Definition RemoveNamespaceHandler (handler : Z) : ST (TrackRanking * W) unit :=
  w ← gets snd;
  when (h_alive handler w)
    (modify (λ s, (set_ns_handlers (λ m,
       <[h_namespace_hash handler w :=
           delete (h_connection_id handler w) (default ∅ (m !! h_namespace_hash handler w))]> m) s.1, s.2))).
End handlers.

(** Two tracks of property 12, the second in the bucket of the first. *)
Example ranking_two_buckets :
  flat_track_list_ (update_tables 2 12 700 1100 20 (update_tables 1 12 500 1000 10 TrackRanking_default)) =
  [(2, 2 ^ 63 + 2, 1100, 20); (1, 2 ^ 63 + 1, 1000, 10)].
Proof. vm_refl. Qed.
Example ranking_same_bucket :
  flat_track_list_ (update_tables 2 12 500 1100 20 (update_tables 1 12 500 1000 10 TrackRanking_default)) =
  [(1, 2 ^ 63 + 1, 1000, 10)].
Proof. vm_refl. Qed.
