(* ===== verification/TrackRankingSpec.v ===== *)
(** * What the track ranking computes

    The bucket map refines a flat map from (property, track) to the track's
    value and ticks; the ranked list is sorted and complete when it is rebuilt,
    and the cases in which it is not rebuilt are characterised. *)

From S2P Require Import Prelude Common Quicr TrackRanking.

Abbreviation Buckets := (gmap (Z * Z) TrackEntry).
Abbreviation Values := (gmap (Z * Z) (Z * TrackTickInfo)).   (* property, track *)

Definition in_bucket (tracks : Buckets) (p v ta : Z) (i : TrackTickInfo) : Prop :=
  tracks !! (p, v) ≫= (.!! ta) = Some i.

Definition buckets_wf (tracks : Buckets) : Prop := ∀ p v e,
  tracks !! (p, v) = Some e → 0 ≤ v ∧ e ≠ ∅.

Definition rank_rel (tracks : Buckets) (A : Values) : Prop :=
  buckets_wf tracks ∧ ∀ p ta v i, A !! (p, ta) = Some (v, i) ↔ in_bucket tracks p v ta i.

Lemma rank_rel_unique tracks A p ta v i v' i' :
  rank_rel tracks A → in_bucket tracks p v ta i → in_bucket tracks p v' ta i' → v = v' ∧ i = i'.
Proof. intros [_ Hr] H1%Hr H2%Hr. by simplify_eq. Qed.

(** ** Leaving the old bucket *)

Definition leaves (ta value : Z) (k : Z * Z) (e : TrackEntry) : Prop :=
  k.2 ≠ value ∧ is_Some (e !! ta).
#[global] Instance leaves_dec ta value k e : Decision (leaves ta value k e).
Proof. unfold leaves. apply _. Defined.

Definition after_leave (ta value : Z) (k : Z * Z) (e : TrackEntry) : option TrackEntry :=
  if decide (leaves ta value k e)
  then if decide (delete ta e = ∅) then None else Some (delete ta e)
  else Some e.

Lemma leave_bucket_lookup ta value acc k e k' :
  acc.1.1 !! k = Some e →
  (leave_bucket ta value acc (k, e)).1.1 !! k' =
    if decide (k' = k) then after_leave ta value k e else acc.1.1 !! k'.
Proof.
  destruct acc as [[tracks nr] vd]; intros Hk; simpl in Hk |- *. unfold after_leave, leaves.
  destruct (decide (k.2 ≠ value ∧ is_Some (e !! ta))); [destruct (decide (delete ta e = ∅))|]; simpl.
  - destruct (decide (k' = k)) as [->|]; [by rewrite lookup_delete_eq|by rewrite lookup_delete_ne].
  - destruct (decide (k' = k)) as [->|]; [by rewrite lookup_insert_eq|by rewrite lookup_insert_ne].
  - by destruct (decide (k' = k)) as [->|].
Qed.

Lemma foldl_leave_lookup ta value l : ∀ acc k',
  NoDup l.*1 → (∀ k e, (k, e) ∈ l → acc.1.1 !! k = Some e) →
  (foldl (leave_bucket ta value) acc l).1.1 !! k' =
    if decide (k' ∈ l.*1) then acc.1.1 !! k' ≫= after_leave ta value k' else acc.1.1 !! k'.
Proof.
  induction l as [|[k e] l IH]; intros acc k' Hnd Hl; cbn [foldl].
  { by rewrite decide_False by apply not_elem_of_nil. }
  apply NoDup_cons in Hnd as [Hk Hnd]. fold (fmap (M := list) (@fst (Z * Z) TrackEntry)) in *.
  pose proof (Hl k e ltac:(left)) as Hke.
  rewrite IH; [|done|].
  - rewrite !(leave_bucket_lookup _ _ _ _ _ _ Hke). rewrite fmap_cons. cbn [fst].
    destruct (decide (k' = k)) as [->|Hne].
    + rewrite decide_False, decide_True by (done || left). by rewrite Hke.
    + destruct (decide (k' ∈ l.*1)) as [Hin|Hin].
      * by rewrite decide_True by by right.
      * by rewrite decide_False by (intros [?|?]%elem_of_cons; done).
  - intros k1 e1 Hin. rewrite (leave_bucket_lookup _ _ _ _ _ _ Hke).
    rewrite decide_False; [by apply Hl; right|]. intros ->. apply Hk.
    apply list_elem_of_fmap. by exists (k, e1).
Qed.

Lemma foldl_leave_flags ta value l : ∀ acc,
  (foldl (leave_bucket ta value) acc l).1.2 =
    acc.1.2 || existsb (λ b, bool_decide (leaves ta value b.1 b.2 ∧ delete ta b.2 ≠ ∅)) l ∧
  (foldl (leave_bucket ta value) acc l).2 =
    acc.2 || existsb (λ b, bool_decide (leaves ta value b.1 b.2 ∧ value < b.1.2)) l.
Proof.
  induction l as [|[k e] l IH]; intros acc; cbn [foldl existsb]; [by rewrite !orb_false_r|].
  destruct (IH (leave_bucket ta value acc (k, e))) as [-> ->].
  rewrite !orb_assoc. destruct acc as [[tracks nr] vd]. simpl.
  unfold leaves. split; f_equal.
  - destruct (decide (k.2 ≠ value ∧ is_Some (e !! ta))) as [Hl|Hl];
      [destruct (decide (delete ta e = ∅)) as [He|He]|]; simpl.
    + rewrite bool_decide_eq_false_2 by tauto. by rewrite orb_false_r.
    + rewrite bool_decide_eq_true_2 by tauto. by rewrite orb_true_r.
    + rewrite bool_decide_eq_false_2 by tauto. by rewrite orb_false_r.
  - destruct (decide (k.2 ≠ value ∧ is_Some (e !! ta))) as [Hl|Hl].
    + assert (bool_decide ((k.2 ≠ value ∧ is_Some (e !! ta)) ∧ value < k.2) = bool_decide (value < k.2))
        as -> by (apply bool_decide_ext; tauto).
      by destruct (decide (delete ta e = ∅)).
    + rewrite bool_decide_eq_false_2 by tauto. by rewrite orb_false_r.
Qed.

(** The track's value moves: what is left of the other tracks. *)
Definition abs_leave (ta prop value : Z) (A : Values) : Values :=
  match A !! (prop, ta) with
  | Some (v, _) => if decide (v = value) then A else delete (prop, ta) A
  | None => A
  end.

Lemma leave_buckets_lookup ta prop value tracks p v :
  buckets_wf tracks →
  (leave_buckets ta prop value tracks).1.1 !! (p, v) =
    if decide (p = prop) then tracks !! (p, v) ≫= after_leave ta value (p, v) else tracks !! (p, v).
Proof.
  intros Hwf. unfold leave_buckets. rewrite foldl_leave_lookup.
  - cbn [fst]. assert ((p, v) ∈ (same_first prop tracks).*1 ↔ p = prop ∧ is_Some (tracks !! (p, v))) as Hin.
    { rewrite list_elem_of_fmap. split.
      - intros ([k e] & Heq & Hin%elem_of_same_first). simpl in Heq; subst k.
        simpl in Hin. destruct Hin as (? & ? & ?). eauto.
      - intros (-> & e & He). exists ((prop, v), e). split; [done|].
        apply elem_of_same_first. destruct (Hwf _ _ _ He). done. }
    destruct (tracks !! (p, v)) as [e|] eqn:He; simpl.
    + destruct (decide (p = prop)); [by rewrite decide_True by (apply Hin; eauto)|].
      by rewrite decide_False by (rewrite Hin; tauto).
    + destruct (decide (p = prop)); by destruct (decide _).
  - destruct (same_first_prefix prop tracks) as [k Hk]. unfold lower_bound in Hk.
    assert (NoDup ((same_first prop tracks ++ k).*1)) as Hnd.
    { rewrite <- Hk. eapply sublist_NoDup; [apply (NoDup_entries tracks)|].
      apply fmap_sublist, sublist_filter. }
    rewrite fmap_app in Hnd. by apply NoDup_app in Hnd as [? _].
  - intros k e Hin%elem_of_same_first. tauto.
Qed.

Lemma after_leave_bucket ta value k e ta' i :
  after_leave ta value k e ≫= (.!! ta') = Some i ↔
  e !! ta' = Some i ∧ (k.2 ≠ value → ta' ≠ ta).
Proof.
  unfold after_leave. destruct (decide (leaves ta value k e)) as [[Hv He]|Hl].
  - assert ((if decide (delete ta e = ∅) then None else Some (delete ta e)) ≫= (.!! ta') =
            delete ta e !! ta') as ->.
    { destruct (decide (delete ta e = ∅)) as [->|]; [by rewrite lookup_empty|done]. }
    rewrite lookup_delete_Some. naive_solver.
  - simpl. split; [|naive_solver]. intros Hi. split; [done|]. intros Hv ->.
    apply Hl. split; [done|eauto].
Qed.

Lemma rank_rel_leave ta prop value tracks A :
  rank_rel tracks A → rank_rel (leave_buckets ta prop value tracks).1.1 (abs_leave ta prop value A).
Proof.
  intros [Hwf Hr]. split.
  - intros p v e. rewrite leave_buckets_lookup by done.
    destruct (decide (p = prop)) as [->|]; [|by apply Hwf].
    destruct (tracks !! (prop, v)) as [e0|] eqn:He0; [|done]. simpl. unfold after_leave.
    destruct (Hwf _ _ _ He0).
    destruct (decide _); [destruct (decide _); [done|]|]; intros [= <-]; done.
  - intros p ta' v i. unfold in_bucket. rewrite leave_buckets_lookup by done.
    assert (abs_leave ta prop value A !! (p, ta') = Some (v, i) ↔
            in_bucket tracks p v ta' i ∧ ((p, ta') = (prop, ta) → v = value)) as ->.
    { rewrite <- Hr. unfold abs_leave. destruct (A !! (prop, ta)) as [[v0 i0]|] eqn:HA.
      - destruct (decide (v0 = value)) as [->|Hne].
        + split; [|tauto]. intros H. split; [done|]. intros [= -> ->]. congruence.
        + rewrite lookup_delete_Some. split; [intros [??]; split; [done|congruence]|].
          intros [H1 H2]. split; [|done]. intros [= <- <-]. rewrite HA in H1. simplify_eq.
          by specialize (H2 eq_refl).
      - split; [|tauto]. intros H. split; [done|]. intros [= -> ->]. congruence. }
    unfold in_bucket. destruct (decide (p = prop)) as [->|Hne].
    + destruct (tracks !! (prop, v)) as [e|]; simpl; [|naive_solver].
      rewrite after_leave_bucket. simpl. split; intros [? H2]; (split; [done|]).
      * intros Hv ->. by apply Hv, H2.
      * intros [= ->]. destruct (decide (v = value)); [done|]. by destruct H2.
    + split; [tauto|]. intros ?. split; [done|]. congruence.
Qed.

Lemma leave_decreased ta prop value tracks A :
  rank_rel tracks A →
  (leave_buckets ta prop value tracks).2 = true ↔ ∃ v i, A !! (prop, ta) = Some (v, i) ∧ value < v.
Proof.
  intros [Hwf Hr]. unfold leave_buckets. rewrite (proj2 (foldl_leave_flags _ _ _ _)), orb_false_l, existsb_exists.
  split.
  - intros ([k e] & Hin%list_elem_of_In%elem_of_same_first & Hb%bool_decide_eq_true).
    destruct k as [p v], Hin as (Hk & Hp & _); simpl in *; subst p.
    destruct Hb as [[_ [i Hi]] Hlt]. exists v, i. split; [|done]. apply Hr.
    unfold in_bucket. by rewrite Hk.
  - intros (v & i & HA & Hlt). apply Hr in HA. unfold in_bucket in HA.
    destruct (tracks !! (prop, v)) as [e|] eqn:He; [|done]. simpl in HA.
    exists ((prop, v), e). split.
    + apply list_elem_of_In, elem_of_same_first. destruct (Hwf _ _ _ He). done.
    + apply bool_decide_eq_true. simpl. split; [split; [simpl; lia|eauto]|done].
Qed.

(** ** The abstract update *)

Definition abs_info (ta prop value tick seq : Z) (A : Values) : TrackTickInfo :=
  match A !! (prop, ta) with
  | Some (v, old) =>
      if decide (v = value) then mkTick (insert_seq_num old) tick
      else mkTick (new_seq_num (bool_decide (value < v)) seq) tick
  | None => mkTick (new_seq_num false seq) tick
  end.

Definition abs_set (ta prop value tick seq : Z) (A : Values) : Values :=
  <[(prop, ta) := (value, abs_info ta prop value tick seq A)]> A.

Definition abs_update (age ta prop value tick seq : Z) (A : Values) : Values :=
  filter (λ t, ¬ is_inactive age tick t.2.2) (abs_set ta prop value tick seq A).

(** The bucket map just before inactive tracks are dropped, as the source
    builds it. *)
Definition set_bucket (ta prop value tick seq : Z) (tracks : Buckets) : Buckets :=
  let l := leave_buckets ta prop value tracks in
  let entry := default ∅ (l.1.1 !! (prop, value)) in
  <[(prop, value) :=
      <[ta := match entry !! ta with
              | None => mkTick (new_seq_num l.2 seq) tick
              | Some old => mkTick (insert_seq_num old) tick
              end]> entry]> l.1.1.

Lemma update_tables_tracks ta prop value tick conn r :
  ordered_tracks_ (update_tables ta prop value tick conn r) =
    drop_inactive (inactive_age_ms_ r) tick
      (set_bucket ta prop value tick (u64 (update_value_seq_num_ r + 1)) (ordered_tracks_ r)).
Proof.
  unfold update_tables, set_bucket.
  by destruct (leave_buckets ta prop value (ordered_tracks_ r)) as [[tracks nr] vd].
Qed.

Lemma rank_rel_set ta prop value tick seq tracks A :
  0 ≤ value → rank_rel tracks A →
  rank_rel (set_bucket ta prop value tick seq tracks) (abs_set ta prop value tick seq A).
Proof.
  intros Hv0 Hrel. pose proof (rank_rel_leave ta prop value _ _ Hrel) as [Hwf1 Hr1].
  pose proof (leave_decreased ta prop value _ _ Hrel) as Hdec.
  unfold set_bucket. destruct (leave_buckets ta prop value tracks) as [[tracks1 nr] vd].
  cbn [fst snd] in *.
  set (entry := default ∅ (tracks1 !! (prop, value))).
  assert (∀ i, entry !! ta = Some i ↔ A !! (prop, ta) = Some (value, i)) as Hentry.
  { intros i. assert (entry !! ta = Some i ↔ in_bucket tracks1 prop value ta i) as ->
      by (unfold entry, in_bucket; by destruct (tracks1 !! (prop, value))).
    rewrite <- Hr1. unfold abs_leave. destruct (A !! (prop, ta)) as [[v0 i0]|] eqn:HA; [|by rewrite HA].
    destruct (decide (v0 = value)) as [->|Hne]; [by rewrite HA|].
    rewrite lookup_delete_eq. split; [done|congruence]. }
  assert (match entry !! ta with
          | Some old => mkTick (insert_seq_num old) tick
          | None => mkTick (new_seq_num vd seq) tick
          end = abs_info ta prop value tick seq A) as ->.
  { unfold abs_info. destruct (A !! (prop, ta)) as [[v0 i0]|] eqn:HA.
    - destruct (decide (v0 = value)) as [->|Hne].
      + by rewrite (proj2 (Hentry i0) eq_refl).
      + destruct (entry !! ta) as [i|] eqn:Hi; [pose proof (proj1 (Hentry i) eq_refl); congruence|].
        f_equal. f_equal. apply eq_true_iff_eq. rewrite bool_decide_eq_true, Hdec. naive_solver.
    - destruct (entry !! ta) as [i|] eqn:Hi; [pose proof (proj1 (Hentry i) eq_refl); congruence|].
      f_equal. f_equal. apply not_true_iff_false. rewrite Hdec. naive_solver. }
  set (info := abs_info ta prop value tick seq A). split.
  - intros p v e. rewrite lookup_insert_Some. intros [[[= <- <-] <-]|[_ He]].
    + split; [done|]. apply insert_non_empty.
    + by eapply Hwf1.
  - intros p ta' v i. unfold abs_set. rewrite lookup_insert_Some. fold info.
    unfold in_bucket. destruct (decide ((p, v) = (prop, value))) as [[= -> ->]|Hne].
    + rewrite lookup_insert_eq. simpl. rewrite lookup_insert_Some.
      destruct (decide (ta' = ta)) as [->|Hta]; [naive_solver|].
      assert (entry !! ta' = Some i ↔ in_bucket tracks1 prop value ta' i) as ->
        by (unfold entry, in_bucket; by destruct (tracks1 !! (prop, value))).
      rewrite <- Hr1. unfold abs_leave. destruct (A !! (prop, ta)) as [[v0 i0]|]; [|naive_solver].
      destruct (decide (v0 = value)); [naive_solver|]. rewrite lookup_delete_Some. naive_solver.
    + rewrite lookup_insert_ne by done. change (tracks1 !! (p, v) ≫= (.!! ta') = Some i) with
        (in_bucket tracks1 p v ta' i). rewrite <- Hr1. unfold abs_leave.
      destruct (decide ((p, ta') = (prop, ta))) as [[= -> ->]|Hta].
      * destruct (A !! (prop, ta)) as [[v0 i0]|] eqn:HA; [|naive_solver].
        destruct (decide (v0 = value)) as [->|]; [rewrite HA|rewrite lookup_delete_eq]; naive_solver.
      * destruct (A !! (prop, ta)) as [[v0 i0]|] eqn:HA; [|naive_solver].
        destruct (decide (v0 = value)) as [->|]; [|rewrite lookup_delete_ne by done]; naive_solver.
Qed.

Lemma rank_rel_drop age tick tracks A :
  rank_rel tracks A →
  rank_rel (drop_inactive age tick tracks) (filter (λ t, ¬ is_inactive age tick t.2.2) A).
Proof.
  intros [Hwf Hr]. unfold drop_inactive. split.
  - intros p v e. rewrite map_lookup_filter_Some, lookup_fmap_Some. simpl.
    intros [(e0 & _ & He0) Hne]. by destruct (Hwf _ _ _ He0).
  - intros p ta v i. rewrite map_lookup_filter_Some. simpl. rewrite Hr. unfold in_bucket.
    destruct (tracks !! (p, v)) as [e|] eqn:He; simpl.
    + destruct (decide (active_entry age tick e = ∅)) as [Hemp|Hne].
      * assert (filter (λ b : (Z * Z) * TrackEntry, b.2 ≠ ∅) (active_entry age tick <$> tracks) !! (p, v) = None)
          as ->. { apply map_lookup_filter_None. right. intros e' He'. rewrite lookup_fmap, He in He'.
                   simpl in *. intros Hx. apply Hx. congruence. }
        simpl. split; [|done]. intros [Hi Ha].
        assert (active_entry age tick e !! ta = Some i) as Hx by by apply map_lookup_filter_Some.
        by rewrite Hemp in Hx.
      * assert (filter (λ b : (Z * Z) * TrackEntry, b.2 ≠ ∅) (active_entry age tick <$> tracks) !! (p, v) =
          Some (active_entry age tick e)) as ->.
        { apply map_lookup_filter_Some. split; [by rewrite lookup_fmap, He|done]. }
        simpl. unfold active_entry. by rewrite map_lookup_filter_Some.
    + assert (filter (λ b : (Z * Z) * TrackEntry, b.2 ≠ ∅) (active_entry age tick <$> tracks) !! (p, v) = None)
        as ->. { apply map_lookup_filter_None. left. by rewrite lookup_fmap, He. }
      simpl. naive_solver.
Qed.

(** C15: the buckets keep one value per track and property: an update sets the
    value and the tick of its track, keeps the track's sequence number when the
    value is the one it had and gives it a new one otherwise, leaves every
    other track and property alone, and forgets exactly the tracks that have
    not been updated for longer than the age. *)
Theorem ranking_refines_values ta prop value tick conn r A :
  0 ≤ value → rank_rel (ordered_tracks_ r) A →
  rank_rel (ordered_tracks_ (update_tables ta prop value tick conn r))
    (abs_update (inactive_age_ms_ r) ta prop value tick (u64 (update_value_seq_num_ r + 1)) A).
Proof. intros. rewrite update_tables_tracks. by apply rank_rel_drop, rank_rel_set. Qed.

(** ** The ranked list *)

Abbreviation alias t := (t.1.1.1).

#[global] Instance rank_le_total : Total rank_le.
Proof. intros [[[ta sa] ?] ?] [[[tb sb] ?] ?]. simpl. lia. Qed.
#[global] Instance rank_le_trans : Transitive rank_le.
Proof. intros [[[ta sa] ?] ?] [[[tb sb] ?] ?] [[[tc sc] ?] ?]. simpl. lia. Qed.

Lemma elem_of_sort_tracks conns e ta seq tk c :
  (ta, seq, tk, c) ∈ sort_tracks conns e ↔
  e !! ta = Some (mkTick seq tk) ∧ c = default 0 (conns !! ta).
Proof.
  unfold sort_tracks. rewrite merge_sort_Permutation, list_elem_of_fmap. split.
  - intros ([ta' [s l]] & Heq & Hin%elem_of_entries). simpl in Heq. by simplify_eq.
  - intros [He ->]. exists (ta, mkTick seq tk). split; [done|by apply elem_of_entries].
Qed.

Lemma sort_tracks_alias conns e : NoDup ((λ t, alias t) <$> sort_tracks conns e).
Proof.
  unfold sort_tracks. rewrite merge_sort_Permutation, <- list_fmap_compose.
  exact (NoDup_entries e).
Qed.

(** [a] is ranked before [b]: by value, then by the order of the bucket. *)
Definition ranks_before (A : Values) (prop : Z) (a b : RankedTrack) : Prop :=
  ∃ va ia vb ib, A !! (prop, alias a) = Some (va, ia) ∧ A !! (prop, alias b) = Some (vb, ib) ∧
    alias a ≠ alias b ∧ (vb < va ∨ (va = vb ∧ rank_le a b)).

(** The list of a property: every track of it once, in rank order, with its
    ticks and connection. *)
Definition ranked_list (A : Values) (prop : Z) (conns : gmap Z Z) (flat : list RankedTrack) : Prop :=
  (∀ ta seq tk c, (ta, seq, tk, c) ∈ flat ↔
     ∃ v, A !! (prop, ta) = Some (v, mkTick seq tk) ∧ c = default 0 (conns !! ta)) ∧
  StronglySorted (ranks_before A prop) flat.

Lemma sorted_bucket tracks A prop v e conns :
  rank_rel tracks A → tracks !! (prop, v) = Some e →
  StronglySorted (ranks_before A prop) (sort_tracks conns e).
Proof.
  intros [_ Hr] He. pose proof (sort_tracks_alias conns e) as Hnd.
  assert (StronglySorted rank_le (sort_tracks conns e)) as Hs by (apply StronglySorted_merge_sort; apply _).
  assert (∀ t, t ∈ sort_tracks conns e → ∃ i, A !! (prop, alias t) = Some (v, i)) as Hin.
  { intros [[[ta seq] tk] c] [Ht _]%elem_of_sort_tracks. eexists. apply Hr.
    unfold in_bucket. by rewrite He. }
  revert Hnd Hin. induction Hs as [|t l Hs IH Hall]; intros Hnd Hin; [constructor|].
  rewrite fmap_cons in Hnd. apply NoDup_cons in Hnd as [Hnot Hnd]. constructor.
  - apply IH; [done|]. intros t' Ht'. apply Hin. by right.
  - rewrite Forall_forall in Hall |- *. intros t' Ht'.
    destruct (Hin t) as [i Hi]; [left|]. destruct (Hin t') as [i' Hi']; [by right|].
    exists v, i, v, i'. split_and!; [done|done| |right; auto].
    intros Heq. apply Hnot. rewrite Heq. by apply (list_elem_of_fmap_2 (λ t, alias t)).
Qed.

Lemma buckets_desc_sorted prop tracks :
  StronglySorted (λ b b' : (Z * Z) * TrackEntry, b'.1.2 < b.1.2) (buckets_desc prop tracks).
Proof.
  unfold buckets_desc. pose proof (same_first_NoDup prop tracks) as Hnd.
  pose proof (same_first_sorted prop tracks) as Hs. apply StronglySorted_reverse in Hs.
  rewrite <- (reverse_Permutation (same_first prop tracks)) in Hnd.
  assert (∀ b, b ∈ reverse (same_first prop tracks) → tracks !! b.1 = Some b.2 ∧ b.1.1 = prop) as Hin.
  { intros [k e] Hb. rewrite elem_of_reverse in Hb. apply elem_of_same_first in Hb. tauto. }
  revert Hnd Hin. induction Hs as [|[k e] l Hs IH Hall]; intros Hnd Hin; [constructor|].
  apply NoDup_cons in Hnd as [Hnot Hnd].
  constructor; [apply IH; [done|]; intros b Hb; apply Hin; by right|].
  rewrite Forall_forall in Hall. apply Forall_forall. intros [k' e'] Hb'.
  destruct (Hin (k, e)) as [He Hk]; [left|]. destruct (Hin (k', e')) as [He' Hk']; [by right|].
  specialize (Hall _ Hb'). destruct k as [p v], k' as [p' v']. simpl in *. subst p p'.
  assert (v' ≠ v) as Hne; [intros ->; apply Hnot; congruence|].
  destruct Hall as [[_ Hx]|[_ Hx]]; simpl in Hx; [done|]. unfold key_le in Hx; simpl in Hx. lia.
Qed.

Lemma rebuild_ranked tracks A prop conns :
  rank_rel tracks A → ranked_list A prop conns (rebuild prop tracks conns).
Proof.
  intros Hrel. pose proof Hrel as [Hwf Hr]. unfold rebuild, buckets_desc. split.
  - intros ta seq tk c. rewrite list_elem_of_In, in_concat. setoid_rewrite <- list_elem_of_In.
    split.
    + intros (l & Hl & Hin). apply list_elem_of_fmap in Hl as ([[p v] e] & -> & Hb).
      rewrite elem_of_reverse in Hb. apply elem_of_same_first in Hb as (He & Hp & _). simpl in Hp; subst p.
      apply elem_of_sort_tracks in Hin as [Ht ->]. exists v. split; [|done].
      apply Hr. unfold in_bucket. by rewrite He.
    + intros (v & HA & ->). apply Hr in HA. unfold in_bucket in HA.
      destruct (tracks !! (prop, v)) as [e|] eqn:He; [|done]. simpl in HA.
      exists (sort_tracks conns e). split; [|by apply elem_of_sort_tracks].
      apply list_elem_of_fmap. exists ((prop, v), e). split; [done|].
      rewrite elem_of_reverse. apply elem_of_same_first. by destruct (Hwf _ _ _ He).
  - apply StronglySorted_concat.
    + apply Forall_forall. intros l Hl. apply list_elem_of_fmap in Hl as ([[p v] e] & -> & Hb).
      rewrite elem_of_reverse in Hb. apply elem_of_same_first in Hb as (He & Hp & _). simpl in Hp; subst p.
      by eapply sorted_bucket.
    + pose proof (buckets_desc_sorted prop tracks) as Hs.
      assert (∀ b, b ∈ buckets_desc prop tracks → tracks !! b.1 = Some b.2 ∧ b.1.1 = prop) as Hin.
      { intros [k e] Hb. unfold buckets_desc in Hb. rewrite elem_of_reverse in Hb.
        apply elem_of_same_first in Hb. tauto. }
      unfold buckets_desc in *. revert Hin. induction Hs as [|[[p v] e] l Hs IH Hall]; intros Hin; [constructor|].
      rewrite fmap_cons. constructor; [apply IH; intros b Hb; apply Hin; by right|].
      rewrite Forall_forall in Hall. apply Forall_forall. intros l' Hl'.
      apply list_elem_of_fmap in Hl' as ([[p' v'] e'] & -> & Hb').
      destruct (Hin ((p, v), e)) as [He Hk]; [left|]. destruct (Hin ((p', v'), e')) as [He' Hk']; [by right|].
      specialize (Hall _ Hb'). simpl in *. subst p p'.
      intros [[[ta sa] la] ca] [[[tb sb] lb] cb] [Ha _]%elem_of_sort_tracks [Hb _]%elem_of_sort_tracks.
      assert (A !! (prop, ta) = Some (v, mkTick sa la)) as HA by (apply Hr; unfold in_bucket; by rewrite He).
      assert (A !! (prop, tb) = Some (v', mkTick sb lb)) as HB by (apply Hr; unfold in_bucket; by rewrite He').
      exists v, (mkTick sa la), v', (mkTick sb lb). split_and!; [done|done| |by left].
      simpl. intros ->. rewrite HA in HB. simplify_eq. lia.
Qed.

(** ** When the list is rebuilt *)

(** The value is new for the property; or the track left other tracks behind in
    its bucket; or some track has become inactive. *)
Definition rebuilds (age ta prop value tick seq : Z) (A : Values) : Prop :=
  (∀ ta' i, A !! (prop, ta') ≠ Some (value, i)) ∨
  (∃ v i ta' i', A !! (prop, ta) = Some (v, i) ∧ v ≠ value ∧ ta' ≠ ta ∧ A !! (prop, ta') = Some (v, i')) ∨
  (∃ k v i, abs_set ta prop value tick seq A !! k = Some (v, i) ∧ is_inactive age tick i).

Definition rebuild_flag (age ta prop value tick seq : Z) (tracks : Buckets) : bool :=
  let l := leave_buckets ta prop value tracks in
  l.1.2 || bool_decide (l.1.1 !! (prop, value) = None) ||
  any_inactive age tick (set_bucket ta prop value tick seq tracks).

Lemma update_tables_flat ta prop value tick conn r :
  let r' := update_tables ta prop value tick conn r in
  flat_track_list_ r' =
    if rebuild_flag (inactive_age_ms_ r) ta prop value tick (u64 (update_value_seq_num_ r + 1)) (ordered_tracks_ r)
    then rebuild prop (ordered_tracks_ r') (<[ta := conn]> (track_connections_ r))
    else update_in_place ta tick conn (flat_track_list_ r).
Proof.
  unfold update_tables, rebuild_flag, set_bucket.
  by destruct (leave_buckets ta prop value (ordered_tracks_ r)) as [[tracks nr] vd].
Qed.

Lemma any_inactive_spec age tick tracks A :
  rank_rel tracks A →
  any_inactive age tick tracks = true ↔ ∃ k v i, A !! k = Some (v, i) ∧ is_inactive age tick i.
Proof.
  intros [_ Hr]. unfold any_inactive. rewrite existsb_exists. split.
  - intros ([[p v] e] & Hin%list_elem_of_In%elem_of_entries & Hb%bool_decide_eq_true). simpl in Hb.
    destruct (decide (map_Forall (λ _ i, ¬ is_inactive age tick i) e)) as [Hall|Hall].
    { destruct Hb. unfold active_entry. apply map_filter_id. intros ta i Hi. by apply (Hall ta i). }
    apply map_not_Forall in Hall as (ta & i & Hi & Hin'); [|apply _].
    exists (p, ta), v, i. split; [|by apply dec_stable]. apply Hr. unfold in_bucket. by rewrite Hin.
  - intros ([p ta] & v & i & HA & Hin). apply Hr in HA. unfold in_bucket in HA.
    destruct (tracks !! (p, v)) as [e|] eqn:He; [|done]. simpl in HA.
    exists ((p, v), e). split; [by apply list_elem_of_In, elem_of_entries|].
    apply bool_decide_eq_true. simpl. intros Heq.
    assert (active_entry age tick e !! ta = Some i) as Hi by by rewrite Heq.
    apply map_lookup_filter_Some in Hi as [_ Hi]. by apply Hi.
Qed.

Lemma rebuild_flag_spec age ta prop value tick seq tracks A :
  0 ≤ value → rank_rel tracks A →
  rebuild_flag age ta prop value tick seq tracks = true ↔ rebuilds age ta prop value tick seq A.
Proof.
  intros Hv0 Hrel. pose proof Hrel as [Hwf Hr]. unfold rebuild_flag, rebuilds. cbv zeta.
  rewrite !orb_true_iff, (any_inactive_spec _ _ _ _ (rank_rel_set ta prop value tick seq _ _ Hv0 Hrel)).
  assert ((leave_buckets ta prop value tracks).1.2 = true ↔
    ∃ v i ta' i', A !! (prop, ta) = Some (v, i) ∧ v ≠ value ∧ ta' ≠ ta ∧ A !! (prop, ta') = Some (v, i')) as ->.
  { unfold leave_buckets. rewrite (proj1 (foldl_leave_flags _ _ _ _)), orb_false_l, existsb_exists. split.
    - intros ([[p v] e] & Hin%list_elem_of_In%elem_of_same_first & Hb%bool_decide_eq_true).
      destruct Hin as (Hk & Hp & _). simpl in *; subst p. destruct Hb as [[Hv [i Hi]] Hne].
      apply map_choose in Hne as (ta' & i' & Hi'). apply lookup_delete_Some in Hi' as [Hta Hi'].
      exists v, i, ta', i'. split_and!; [|done|done|]; apply Hr; unfold in_bucket; by rewrite Hk.
    - intros (v & i & ta' & i' & HA & Hv & Hta & HA'). apply Hr in HA, HA'. unfold in_bucket in HA, HA'.
      destruct (tracks !! (prop, v)) as [e|] eqn:He; [|done]. simpl in HA, HA'.
      exists ((prop, v), e). split.
      { apply list_elem_of_In, elem_of_same_first. destruct (Hwf _ _ _ He). done. }
      apply bool_decide_eq_true. simpl. split; [split; [done|eauto]|].
      intros Hemp. assert (delete ta e !! ta' = Some i') as Hx by by rewrite lookup_delete_ne.
      by rewrite Hemp in Hx. }
  assert (bool_decide ((leave_buckets ta prop value tracks).1.1 !! (prop, value) = None) = true ↔
    ∀ ta' i, A !! (prop, ta') ≠ Some (value, i)) as ->; [|tauto].
  rewrite bool_decide_eq_true, leave_buckets_lookup, decide_True by done. split.
  - intros Hnone ta' i HA. apply Hr in HA. unfold in_bucket in HA.
    destruct (tracks !! (prop, value)) as [e|]; [|done]. simpl in Hnone. unfold after_leave in Hnone.
    rewrite decide_False in Hnone; [done|]. by intros [? _].
  - intros Hnone. destruct (tracks !! (prop, value)) as [e|] eqn:He; [|done]. exfalso.
    destruct (Hwf _ _ _ He) as [_ Hne]. apply map_choose in Hne as (ta' & i & Hi).
    apply (Hnone ta' i), Hr. unfold in_bucket. by rewrite He.
Qed.

Lemma update_in_place_alias ta tick conn flat :
  (λ t, alias t) <$> update_in_place ta tick conn flat = (λ t, alias t) <$> flat.
Proof.
  induction flat as [|[[[a s] l] c] flat IH]; [done|]. cbn [update_in_place].
  destruct (decide (a = ta)) as [->|]; rewrite !fmap_cons; [done|]. by rewrite IH.
Qed.

(** ** Properties of the ranked list *)

(** C31: whenever it is rebuilt, the list handed to the subscribers holds every
    active track of the updated property exactly once, with its current ticks
    and connection, from the highest value to the lowest and within a value by
    ascending sequence number; so the first N elements are the top N. *)
Theorem ranked_list_rebuilt ta prop value tick conn r A :
  0 ≤ value → rank_rel (ordered_tracks_ r) A →
  let seq := u64 (update_value_seq_num_ r + 1) in
  rebuilds (inactive_age_ms_ r) ta prop value tick seq A →
  ranked_list (abs_update (inactive_age_ms_ r) ta prop value tick seq A) prop
    (<[ta := conn]> (track_connections_ r))
    (flat_track_list_ (update_tables ta prop value tick conn r)).
Proof.
  intros Hv Hrel seq Hreb. rewrite update_tables_flat. fold seq.
  rewrite (proj2 (rebuild_flag_spec _ _ _ _ _ _ _ _ Hv Hrel) Hreb).
  apply rebuild_ranked. rewrite update_tables_tracks. by apply rank_rel_drop, rank_rel_set.
Qed.

(** A track that is new to the property does not enter the list when
    another track already has its value and nothing is inactive: the list keeps
    the tracks it had, although the new track is recorded as active. *)
Theorem new_track_not_ranked ta prop value tick conn r A other i :
  0 ≤ value → 0 ≤ inactive_age_ms_ r → rank_rel (ordered_tracks_ r) A →
  A !! (prop, ta) = None → A !! (prop, other) = Some (value, i) →
  (∀ k v j, A !! k = Some (v, j) → ¬ is_inactive (inactive_age_ms_ r) tick j) →
  let r' := update_tables ta prop value tick conn r in
  (λ t, alias t) <$> flat_track_list_ r' = (λ t, alias t) <$> flat_track_list_ r ∧
  ∃ j, in_bucket (ordered_tracks_ r') prop value ta j.
Proof.
  intros Hv Hage Hrel Hta Hother Hact r'. set (seq := u64 (update_value_seq_num_ r + 1)).
  assert (∀ j, latest_tick j = tick → ¬ is_inactive (inactive_age_ms_ r) tick j) as Hnow.
  { intros j Hj [_ Hi]. rewrite Hj in Hi. lia. }
  split.
  - unfold r'. rewrite update_tables_flat. fold seq.
    destruct (rebuild_flag _ _ _ _ _ _ _) eqn:Hflag; [|apply update_in_place_alias].
    apply (rebuild_flag_spec _ _ _ _ _ _ _ _ Hv Hrel) in Hflag as [Hf|[Hf|Hf]].
    + by destruct (Hf other i).
    + destruct Hf as (v & j & _ & _ & HA & _). congruence.
    + destruct Hf as (k & v & j & Hk & Hin). unfold abs_set in Hk.
      apply lookup_insert_Some in Hk as [[_ [= <- <-]]|[_ Hk]]; [|by destruct (Hact _ _ _ Hk)].
      exfalso. revert Hin. apply Hnow. unfold abs_info. by rewrite Hta.
  - pose proof (rank_rel_drop (inactive_age_ms_ r) tick _ _
      (rank_rel_set ta prop value tick seq _ _ Hv Hrel)) as [_ Hr'].
    exists (abs_info ta prop value tick seq A). unfold r'. rewrite update_tables_tracks. apply Hr'.
    apply map_lookup_filter_Some. split; [apply lookup_insert_eq|]. simpl. apply Hnow.
    unfold abs_info. by rewrite Hta.
Qed.

(** A track whose value decreases is put before every track of its new
    bucket that has not itself decreased, at the top of the bucket and not at
    the bottom: its sequence number is below 2^63, theirs is not. *)
Theorem decreased_track_ranks_first ta prop value tick conn r A v i other j :
  0 ≤ value → rank_rel (ordered_tracks_ r) A → 0 ≤ update_value_seq_num_ r < 2 ^ 63 - 1 →
  A !! (prop, ta) = Some (v, i) → value < v →
  A !! (prop, other) = Some (value, j) → 2 ^ 63 ≤ insert_seq_num j →
  ¬ is_inactive (inactive_age_ms_ r) tick j → 0 ≤ inactive_age_ms_ r →
  let seq := u64 (update_value_seq_num_ r + 1) in
  rebuilds (inactive_age_ms_ r) ta prop value tick seq A →
  ∃ l1 l2 l3 a b, flat_track_list_ (update_tables ta prop value tick conn r) = l1 ++ a :: l2 ++ b :: l3 ∧
    alias a = ta ∧ alias b = other.
Proof.
  intros Hv Hrel Hseq HA Hlt Hother Hj Hact Hage seq Hreb.
  set (A' := abs_update (inactive_age_ms_ r) ta prop value tick seq A).
  assert (ranked_list A' prop (<[ta := conn]> (track_connections_ r))
    (flat_track_list_ (update_tables ta prop value tick conn r))) as [Hmem Hsort].
  { rewrite update_tables_flat. fold seq. rewrite (proj2 (rebuild_flag_spec _ _ _ _ _ _ _ _ Hv Hrel) Hreb).
    apply rebuild_ranked. rewrite update_tables_tracks. by apply rank_rel_drop, rank_rel_set. }
  set (sn := 2 ^ 63 - 1 - (update_value_seq_num_ r + 1)).
  assert (abs_info ta prop value tick seq A = mkTick sn tick) as Hinfo.
  { unfold abs_info. rewrite HA, decide_False, bool_decide_eq_true_2 by lia.
    f_equal. unfold new_seq_num, seq. change (Z.shiftr (2 ^ 64 - 1) 1) with (2 ^ 63 - 1).
    rewrite !wrap_small; [done|unfold in_range; lia..| ].
    rewrite wrap_small; unfold in_range; lia. }
  assert (other ≠ ta) as Hne by (intros ->; rewrite HA in Hother; simplify_eq; lia).
  assert (A' !! (prop, ta) = Some (value, mkTick sn tick)) as HA1.
  { apply map_lookup_filter_Some. unfold abs_set. rewrite lookup_insert_eq, Hinfo. split; [done|].
    simpl. unfold is_inactive. simpl. lia. }
  assert (A' !! (prop, other) = Some (value, j)) as HA2.
  { apply map_lookup_filter_Some. unfold abs_set. rewrite lookup_insert_ne by congruence. done. }
  destruct j as [sj tj]. simpl in Hj.
  assert ((ta, sn, tick, default 0 (<[ta := conn]> (track_connections_ r) !! ta)) ∈
    flat_track_list_ (update_tables ta prop value tick conn r)) as H1 by (apply Hmem; eauto).
  assert ((other, sj, tj, default 0 (<[ta := conn]> (track_connections_ r) !! other)) ∈
    flat_track_list_ (update_tables ta prop value tick conn r)) as H2 by (apply Hmem; eauto).
  apply list_elem_of_split in H1 as (l1 & l & Hl). rewrite Hl in H2, Hsort |- *.
  apply elem_of_app in H2 as [H2|H2].
  - exfalso. destruct (StronglySorted_app_1_elem_of _ _ _ _ _ Hsort H2 ltac:(left))
      as (va & ia & vb & ib & Ha & Hb & _ & Hord). simpl in Ha, Hb.
    rewrite HA1 in Hb. rewrite HA2 in Ha. simplify_eq. simpl in Hord. unfold sn in Hord. lia.
  - apply elem_of_cons in H2 as [[=]|H2]; [congruence|].
    apply list_elem_of_split in H2 as (l2 & l3 & ->). by do 5 eexists.
Qed.

(** ** Witnesses *)

Lemma rank_rel_empty : rank_rel ∅ ∅.
Proof. split; [intros ???; by rewrite lookup_empty|]. intros p ta v i. unfold in_bucket. by rewrite !lookup_empty. Qed.

Definition step (u : Z * Z) (s : TrackRanking * Values) : TrackRanking * Values :=
  let '(ta, value) := u in
  (update_tables ta 12 value 1000 ta s.1,
   abs_update (inactive_age_ms_ s.1) ta 12 value 1000 (u64 (update_value_seq_num_ s.1 + 1)) s.2).

Lemma step_rel u s :
  0 ≤ u.2 → rank_rel (ordered_tracks_ s.1) s.2 → rank_rel (ordered_tracks_ (step u s).1) (step u s).2.
Proof.
  destruct u as [ta value]. intros Hv Hs. simpl. rewrite update_tables_tracks.
  by apply rank_rel_drop, rank_rel_set.
Qed.

(** Track 1 has value 500, tracks 2 and 3 have value 700. *)
Definition demo0 : TrackRanking * Values := (TrackRanking_default, ∅).
Definition demo1 := step (1, 500) demo0.
Definition demo3 := step (3, 700) (step (2, 700) demo1).

Lemma demo1_rel : rank_rel (ordered_tracks_ demo1.1) demo1.2.
Proof. apply step_rel; [done|exact rank_rel_empty]. Qed.
Lemma demo3_rel : rank_rel (ordered_tracks_ demo3.1) demo3.2.
Proof. apply step_rel; [done|apply step_rel; [done|exact demo1_rel]]. Qed.

Lemma ranking_refines_values_witness :
  rank_rel (ordered_tracks_ (update_tables 2 12 700 1000 2 demo1.1)) (abs_update 10000 2 12 700 1000 2 demo1.2).
Proof. apply (ranking_refines_values 2 12 700 1000 2 demo1.1 demo1.2); [done|exact demo1_rel]. Defined.

Lemma ranked_list_rebuilt_witness :
  ranked_list (abs_update 10000 2 12 700 1000 2 demo1.2) 12 {[2 := 2; 1 := 1]}
    [(2, 2 ^ 63 + 2, 1000, 2); (1, 2 ^ 63 + 1, 1000, 1)].
Proof.
  apply (ranked_list_rebuilt 2 12 700 1000 2 demo1.1 demo1.2); [done|exact demo1_rel|].
  left. intros ta' i Hi. assert (map_Forall (λ _ x, x.1 ≠ 700) demo1.2) as Hall by decide_now.
  by apply (Hall _ _ Hi).
Defined.

Lemma new_track_not_ranked_witness :
  (λ t, alias t) <$> flat_track_list_ (update_tables 2 12 500 1100 2 demo1.1) = [1] ∧
  ∃ j, in_bucket (ordered_tracks_ (update_tables 2 12 500 1100 2 demo1.1)) 12 500 2 j.
Proof.
  apply (new_track_not_ranked 2 12 500 1100 2 demo1.1 demo1.2 1 (mkTick (2 ^ 63 + 1) 1000));
    [done|done|exact demo1_rel|vm_refl|vm_refl|].
  intros k v j Hj. assert (map_Forall (λ _ x, ¬ is_inactive 10000 1100 x.2) demo1.2) as Hall by decide_now.
  exact (Hall _ _ Hj).
Defined.

Lemma decreased_track_ranks_first_witness :
  ∃ l1 l2 l3 a b, flat_track_list_ (update_tables 2 12 500 1000 2 demo3.1) = l1 ++ a :: l2 ++ b :: l3 ∧
    alias a = 2 ∧ alias b = 1.
Proof.
  apply (decreased_track_ranks_first 2 12 500 1000 2 demo3.1 demo3.2 700 (mkTick (2 ^ 63 + 2) 1000)
    1 (mkTick (2 ^ 63 + 1) 1000)).
  - done.
  - exact demo3_rel.
  - decide_now.
  - vm_refl.
  - done.
  - vm_refl.
  - decide_now.
  - decide_now.
  - decide_now.
  - right. left. exists 700, (mkTick (2 ^ 63 + 2) 1000), 3, (mkTick (2 ^ 63 + 3) 1000).
    split_and!; [vm_refl|done|done|vm_refl].
Defined.
