(* ===== verification/Transport.v ===== *)
(** * Interface to the QUIC transport (quicr::ITransport, a git submodule)

    The peering code drives the transport through a handful of calls.  A call is
    recorded in a trace; what the transport answers (connection, data context
    and stream identifiers) is a function of the calls made so far. *)

From S2P Require Import Prelude Common.

Record TransportRemote := mkRemote { host_or_ip : list Z; port : Z }.

(** [ITransport::EnqueueFlags]: the relay sets [use_reliable] and leaves the
    other members alone. *)
Record EnqueueFlags := mkFlags { use_reliable : bool; other_flags : list bool }.

(** The values the relay distinguishes. *)
Inductive TransportStatus :=
  | kReady | kConnecting | kDisconnected | kRemoteRequestClose
  | kShutdown | kIdleTimeout | kShuttingDown | kOtherStatus.

Inductive StreamClosedFlag := kFin | kReset.

Inductive TransportCall :=
  | MakeClientTransport (remote : TransportRemote)
  | Start (conn : Z)
  | CreateDataContext (conn : Z) (use_reliable : bool) (priority : Z) (bidir : bool)
  | DeleteDataContext (conn ctx : Z)
  | CreateStream (conn ctx priority : Z)
  | CloseStream (conn ctx stream : Z) (reset : bool)
  | Enqueue (conn ctx stream : Z) (data : list Z) (priority ttl : Z)
      (delay_and_flags : option (Z * EnqueueFlags)).

Abbreviation Trace := (list TransportCall).

#[global] Instance EnqueueFlags_eq_dec : EqDecision EnqueueFlags.
Proof. solve_decision. Defined.
#[global] Instance TransportRemote_eq_dec : EqDecision TransportRemote.
Proof. solve_decision. Defined.
#[global] Instance TransportCall_eq_dec : EqDecision TransportCall.
Proof. solve_decision. Defined.
#[global] Instance TransportStatus_eq_dec : EqDecision TransportStatus.
Proof. solve_decision. Defined.
#[global] Instance StreamClosedFlag_eq_dec : EqDecision StreamClosedFlag.
Proof. solve_decision. Defined.

Class Transport := {
  answer_Start : Trace → Z;              (* TransportConnId, 64 bits *)
  answer_CreateDataContext : Trace → Z;  (* DataContextId, 64 bits *)
  answer_CreateStream : Trace → Z;       (* stream id, 64 bits *)
  default_flags : EnqueueFlags;          (* a default-initialised EnqueueFlags *)
  kReadLoopMaxPerStream : Z;
}.

(** The data contexts that a trace has opened on a connection, with the id each
    was given. *)
Section contexts.
Context `{Transport}.

Fixpoint contexts_from (before : Trace) (rest : Trace) (conn : Z) (open : gset Z) : gset Z :=
  match rest with
  | [] => open
  | c :: rest =>
      let open := match c with
        | CreateDataContext conn' _ _ _ =>
            if decide (conn' = conn) then {[answer_CreateDataContext before]} ∪ open else open
        | DeleteDataContext conn' ctx =>
            if decide (conn' = conn) then open ∖ {[ctx]} else open
        | _ => open
        end in
      contexts_from (before ++ [c]) rest conn open
  end.

Definition open_contexts (t : Trace) (conn : Z) : gset Z := contexts_from [] t conn ∅.
End contexts.

(** What the relay relies on, as long as fewer than 2^32 calls were made: a new
    data context is one that is not open on the connection, and it is numbered
    from one up, in 32 bits. *)
Class TransportLaws `{Transport} := {
  CreateDataContext_range t :
    Z.of_nat (length t) < 2 ^ 32 - 1 → 0 < answer_CreateDataContext t < 2 ^ 32;
  CreateDataContext_fresh t conn :
    Z.of_nat (length t) < 2 ^ 32 - 1 → answer_CreateDataContext t ∉ open_contexts t conn;
}.

Lemma contexts_from_app `{Transport} before t1 t2 conn open :
  contexts_from before (t1 ++ t2) conn open =
  contexts_from (before ++ t1) t2 conn (contexts_from before t1 conn open).
Proof.
  revert before open. induction t1 as [|c t1 IH]; intros before open; cbn [app contexts_from].
  - by rewrite app_nil_r.
  - by rewrite IH, <- app_assoc.
Qed.

Lemma open_contexts_snoc `{Transport} t c conn :
  open_contexts (t ++ [c]) conn =
  match c with
  | CreateDataContext conn' _ _ _ =>
      if decide (conn' = conn) then {[answer_CreateDataContext t]} ∪ open_contexts t conn
      else open_contexts t conn
  | DeleteDataContext conn' ctx =>
      if decide (conn' = conn) then open_contexts t conn ∖ {[ctx]} else open_contexts t conn
  | _ => open_contexts t conn
  end.
Proof. unfold open_contexts. rewrite contexts_from_app. by destruct c. Qed.

(** A transport that numbers everything by the calls made before. *)
Module DemoTransport.
#[export] Instance transport : Transport := {|
  answer_Start := λ t, 1000 + Z.of_nat (length t);
  answer_CreateDataContext := λ t, 1 + Z.of_nat (length t);
  answer_CreateStream := λ t, 4 * Z.of_nat (length t);
  default_flags := mkFlags true [false; false; false];
  kReadLoopMaxPerStream := 60;
|}.

Lemma open_contexts_bound t conn : set_Forall (λ c, c ≤ Z.of_nat (length t)) (open_contexts t conn).
Proof.
  induction t as [|c t IH] using rev_ind; [by intros ??%not_elem_of_empty|].
  rewrite open_contexts_snoc, length_app. intros x Hx. simpl length.
  assert (x ∈ open_contexts t conn → x ≤ Z.of_nat (length t)) as IH' by apply IH.
  destruct c; try case_decide; simpl in Hx; try (specialize (IH' Hx); lia); [|set_solver by lia].
  apply elem_of_union in Hx as [->%elem_of_singleton|Hx]; [lia|specialize (IH' Hx); lia].
Qed.

#[export] Instance transport_laws : TransportLaws.
Proof.
  split; intros t; simpl.
  - lia.
  - intros conn _ Hin%open_contexts_bound. simpl in Hin. lia.
Qed.
End DemoTransport.
