(* ===== verification/State.v ===== *)
(** * The relay's shared state (struct State, src/state.h)

    The tables the client manager keeps about requests, publishers and
    subscribers, which the peer manager looks at too.  Handlers are referred to
    by their address ([Ref]); a [shared_ptr] that [operator[]] may have created
    empty is an optional address. *)

From S2P Require Import Prelude Common Quicr.

Abbreviation Ref := Z.

(** [quicr::messages::Location] *)
Record Location := mkLocation { loc_group : Z; loc_object : Z }.

#[global] Instance Location_eq_dec : EqDecision Location.
Proof. solve_decision. Defined.

Inductive RequestType := kSubscribeNamespace | kPublishNamespace.
Inductive RequestState := kRequestOk | kPendingOk | kRequestError.

Section state.
Context `{TrackNames}.

(** The only value stored in [related_data] is a namespace. *)
Record RequestTransaction := mkRequest {
  rt_type : RequestType;
  rt_state : RequestState;
  related_data : option TrackNamespace;
}.

Record SubscribePublishHandlerInfo := mkSubscribeHandlerInfo {
  shi_track_full_name : FullTrackName;
  shi_track_alias : Z;
  shi_request_id : Z;
  shi_priority : Z;
  shi_object_ttl : Z;
  shi_group_order : option Z;
  shi_start_location : Location;
}.

(** [State::SubscribeInfo] without the connection handle and request id, by
    which the set orders and compares it. *)
Record ActiveSubscribe := mkActive {
  act_track_alias : Z;
  act_priority : Z;
  act_delivery_timeout : Z;
  act_start_location : Location;
}.

Record RelayState := mkState {
  requests : gmap (Z * Z) RequestTransaction;                    (* connection, request id *)
  pub_namespace_active : gmap (TrackNamespace * Z) (gset Z);     (* connection: track aliases *)
  pub_subscribes : gmap (Z * Z) (option Ref);                    (* track alias, connection *)
  pub_subscribes_by_req_id : gmap (Z * Z) (option Ref);          (* request id, connection *)
  subscribes_namespaces : gmap TrackNamespace (gmap Z Ref);      (* connection *)
  subscribes : gmap (Z * Z) SubscribePublishHandlerInfo;         (* track alias, connection *)
  subscribe_alias_req_id : gmap (Z * Z) Z;                       (* connection, request id *)
  subscribe_active_ : gmap (TrackNamespace * Z) (gmap (Z * Z) ActiveSubscribe);  (* name hash *)
}.

Definition State_empty : RelayState := mkState ∅ ∅ ∅ ∅ ∅ ∅ ∅ ∅.

Definition set_requests f st := mkState (f (requests st)) (pub_namespace_active st) (pub_subscribes st)
  (pub_subscribes_by_req_id st) (subscribes_namespaces st) (subscribes st) (subscribe_alias_req_id st)
  (subscribe_active_ st).
Definition set_pub_namespace_active f st := mkState (requests st) (f (pub_namespace_active st)) (pub_subscribes st)
  (pub_subscribes_by_req_id st) (subscribes_namespaces st) (subscribes st) (subscribe_alias_req_id st)
  (subscribe_active_ st).
Definition set_pub_subscribes f st := mkState (requests st) (pub_namespace_active st) (f (pub_subscribes st))
  (pub_subscribes_by_req_id st) (subscribes_namespaces st) (subscribes st) (subscribe_alias_req_id st)
  (subscribe_active_ st).
Definition set_pub_subscribes_by_req_id f st := mkState (requests st) (pub_namespace_active st) (pub_subscribes st)
  (f (pub_subscribes_by_req_id st)) (subscribes_namespaces st) (subscribes st) (subscribe_alias_req_id st)
  (subscribe_active_ st).
Definition set_subscribes_namespaces f st := mkState (requests st) (pub_namespace_active st) (pub_subscribes st)
  (pub_subscribes_by_req_id st) (f (subscribes_namespaces st)) (subscribes st) (subscribe_alias_req_id st)
  (subscribe_active_ st).
Definition set_state_subscribes f st := mkState (requests st) (pub_namespace_active st) (pub_subscribes st)
  (pub_subscribes_by_req_id st) (subscribes_namespaces st) (f (subscribes st)) (subscribe_alias_req_id st)
  (subscribe_active_ st).
Definition set_subscribe_alias_req_id f st := mkState (requests st) (pub_namespace_active st) (pub_subscribes st)
  (pub_subscribes_by_req_id st) (subscribes_namespaces st) (subscribes st) (f (subscribe_alias_req_id st))
  (subscribe_active_ st).
Definition set_subscribe_active f st := mkState (requests st) (pub_namespace_active st) (pub_subscribes st)
  (pub_subscribes_by_req_id st) (subscribes_namespaces st) (subscribes st) (subscribe_alias_req_id st)
  (f (subscribe_active_ st)).
End state.
