(* ===== verification/QuicrServer.v ===== *)
(** * Interface to the server and the track handlers of libquicr (a git submodule)

    The client manager derives from [quicr::Server], the handlers from libquicr's
    handlers.  A call into libquicr is recorded in a trace; what libquicr answers
    later (aliases, statuses, open streams, who is alive) is a function of the
    calls made so far. *)

From S2P Require Import Prelude Common Quicr State.

Inductive TrackMode := kDatagramMode | kStreamMode.

(** [PublishTrackHandler::Status], as far as the relay tells values apart. *)
Inductive PublishStatus := kPubOk | kPubPaused | kPubOther (n : Z).

#[global] Instance TrackMode_eq_dec : EqDecision TrackMode.
Proof. solve_decision. Defined.
#[global] Instance PublishStatus_eq_dec : EqDecision PublishStatus.
Proof. solve_decision. Defined.

(** [quicr::Extensions]: the values of each property, as bytes. *)
Abbreviation Extensions := (gmap Z (list (list Z))).

Record ObjectHeaders := mkObjectHeaders {
  oh_group_id : Z;
  oh_object_id : Z;
  oh_subgroup_id : Z;
  oh_payload_length : Z;
  oh_status : Z;
  oh_priority : Z;
  oh_ttl : option Z;
  oh_track_mode : option TrackMode;
  oh_extensions : option Extensions;
  oh_immutable_extensions : option Extensions;
}.

#[global] Instance ObjectHeaders_eq_dec : EqDecision ObjectHeaders.
Proof. solve_decision. Defined.

Record StreamHeaderSubGroup {Properties : Type} := mkSubgroupHeader {
  sh_track_alias : Z;
  sh_group_id : Z;
  sh_subgroup_id : option Z;
  sh_priority : Z;
  sh_properties : option Properties;
}.
Arguments StreamHeaderSubGroup : clear implicits.

Record StreamSubGroupObject {Properties : Type} := mkSubgroupObject {
  so_object_delta : Z;
  so_properties : option Properties;
  so_status : Z;
  so_extensions : option Extensions;
  so_immutable_extensions : option Extensions;
  so_payload : list Z;
}.
Arguments StreamSubGroupObject : clear implicits.

Record ObjectDatagram := mkObjectDatagram {
  od_track_alias : Z;
  od_group_id : Z;
  od_object_id : Z;
  od_priority : Z;
  od_extensions : option Extensions;
  od_payload : list Z;
}.

(** The members of [SubscribeAttributes] that the relay reads. *)
Record SubscribeAttributes := mkSubscribeAttributes {
  sa_priority : Z;
  sa_group_order : option Z;
  sa_delivery_timeout : Z;                (* ms *)
  sa_start_location : Location;
  sa_new_group_request_id : option Z;
  sa_is_publisher_initiated : bool;
}.

(** The parsers of [StreamBuffer]: whether the object is complete, the object as
    far as it was read, and the bytes left; and the printer of the header.  The
    first argument is the object as an earlier call left it. *)
Class MoqMessages := {
  StreamHeaderProperties : Type;
  properties_eq_dec :: EqDecision StreamHeaderProperties;
  set_from_first_object : StreamHeaderProperties → bool;   (* subgroup_id_mode *)
  subgroup_header_default : StreamHeaderSubGroup StreamHeaderProperties;
  subgroup_object_default : StreamSubGroupObject StreamHeaderProperties;
  read_subgroup_header : StreamHeaderSubGroup StreamHeaderProperties → list Z →
    bool * StreamHeaderSubGroup StreamHeaderProperties * list Z;
  put_subgroup_header : StreamHeaderSubGroup StreamHeaderProperties → list Z;
  read_subgroup_object : StreamSubGroupObject StreamHeaderProperties → list Z →
    bool * StreamSubGroupObject StreamHeaderProperties * list Z;
  read_datagram : list Z → option ObjectDatagram;
  kAvailable : Z;               (* ObjectStatus::kAvailable *)
  clear_keeps_object : bool;    (* whether Clear() leaves the second any *)
  (* the request id of a fetch header and the bytes left; the printer *)
  read_fetch_header : list Z → option (Z * list Z);
  put_fetch_header : Z → list Z;
  kAscending : Z;               (* GroupOrder::kAscending *)
  (* default constructors *)
  Location_default : Location;
  SubscribeAttributes_default : SubscribeAttributes;
}.

Abbreviation SubgroupHeader := (StreamHeaderSubGroup StreamHeaderProperties).
Abbreviation SubgroupObject := (StreamSubGroupObject StreamHeaderProperties).

Inductive RequestReason :=
  | kReasonOk | kReasonNotSupported | kReasonDoesNotExist | kReasonNoObjects | kReasonInvalidRange
  | kReasonInternalError.

(** [FetchTrackHandler::Status], as far as the relay tells values apart. *)
Inductive FetchStatus :=
  | kFetchOk | kFetchError | kFetchDoneByFin | kFetchPendingResponse | kFetchNotSubscribed | kFetchOther (n : Z).

#[global] Instance FetchStatus_eq_dec : EqDecision FetchStatus.
Proof. solve_decision. Defined.


Section server.
Context `{TrackNames, MoqMessages}.

Inductive QuicrCall :=
  (* objects made; the arguments the base constructors get *)
  | MakePublishTrack (h : Ref) (name : FullTrackName) (mode : TrackMode) (priority ttl : Z) (start : Location)
  | MakeSubscribeTrack (h : Ref) (name : FullTrackName) (priority : Z) (group_order : option Z)
      (is_publisher_initiated : bool)
  | MakePublishNamespace (h : Ref) (prefix : TrackNamespace)
  | MakePublishFetch (h : Ref) (name : FullTrackName) (priority request_id group_order ttl : Z)
  | MakeFetchTrack (h : Ref) (name : FullTrackName) (priority : Z) (group_order : option Z) (start : Location)
      (end_group : Z) (end_object : option Z)
  (* methods of the base classes *)
  | Base_PublishTrack (ns h : Ref)
  | Base_PublishObject (h : Ref) (headers : ObjectHeaders) (data : list Z) (mode : option StreamHeaderProperties)
  | Base_ForwardPublishedData (h : Ref) (is_new_stream : bool) (group_id subgroup_id : Z) (data : list Z)
  | Base_EndSubgroup (h : Ref) (group_id subgroup_id : Z) (completed : bool)
  | Base_SetStatus (h : Ref) (status : PublishStatus)
  | Base_SetTrackAlias (h : Ref) (alias : Z)
  | Base_SetDefaultTrackMode (h : Ref) (mode : TrackMode)
  | Base_SetDeliveryTimeout (h : Ref) (ms : Z)
  | Base_Pause (h : Ref)
  | Base_Resume (h : Ref)
  | Base_ResetPendingNewGroup (h : Ref)
  | Base_SetNewGroupRequestId (h : Ref) (group_id : Z)
  | Base_RequestNewGroup (h : Ref)
  | Base_SupportNewGroupRequest (h : Ref)
  (* methods of the server *)
  | BindPublisherTrack (conn src_conn request_id : Z) (h : Ref)
  | UnbindPublisherTrack (conn src_conn : Z) (h : option Ref)
  | SubscribeTrack (conn : Z) (h : Ref)
  | UnsubscribeTrack (conn : Z) (h : Ref)
  | UpdateTrackSubscription (conn : Z) (h : Ref)
  | PublishNamespace (conn : Z) (ns : Ref)
  | ResolveSubscribe (conn request_id alias : Z) (reason : RequestReason) (is_publisher_initiated : bool)
      (largest : option Location)
  | ResolvePublish (conn request_id : Z) (h : Ref)
  | ResolvePublishNamespace (conn request_id : Z) (ns : TrackNamespace) (conns : list Z)
  | ResolvePublishNamespaceDone (conn request_id : Z) (conns : list Z)
  | ResolveSubscribeNamespace (conn ctx request_id : Z) (prefix : TrackNamespace) (matched : list TrackNamespace)
  | ResolveTrackStatus (conn request_id : Z) (reason : RequestReason) (is_publisher_initiated : bool)
      (largest : option Location)
  | ResolveFetch (conn request_id priority : Z) (group_order : option Z) (reason : RequestReason)
      (largest : option Location)
  | BindFetchTrack (conn : Z) (h : Ref)
  | UnbindFetchTrack (conn : Z) (h : Ref)
  | FetchTrack (conn : Z) (h : Ref)
  | CancelFetchTrack (conn : Z) (h : Ref)
  (* not a call: something arrived from the network, or time passed *)
  | Input (what : list Z).

Abbreviation QuicrTrace := (list QuicrCall).

Class QuicrServer := {
  q_TrackAlias : QuicrTrace → Ref → option Z;
  q_ReceivedTrackAlias : QuicrTrace → Ref → option Z;
  q_Status : QuicrTrace → Ref → PublishStatus;
  q_ConnectionId : QuicrTrace → Ref → Z;
  q_RequestId : QuicrTrace → Ref → option Z;
  q_Priority : QuicrTrace → Ref → Z;
  q_DeliveryTimeout : QuicrTrace → Ref → option Z;
  q_IsPublisherInitiated : QuicrTrace → Ref → bool;
  q_PendingNewGroup : QuicrTrace → Ref → option Z;
  (* stream_info_by_group_: group, subgroup, last object id, in its order *)
  q_StreamInfo : QuicrTrace → Ref → list (Z * list (Z * option Z));
  q_NamespaceHandlers : QuicrTrace → Ref → Z → option Ref;   (* handlers_.find(hash) *)
  q_NamespaceName : QuicrTrace → Ref → FullTrackName;        (* GetFullTrackName() of a namespace handler *)
  q_Prefix : QuicrTrace → Ref → TrackNamespace;
  q_Alive : QuicrTrace → Ref → bool;                         (* lock() succeeds *)
  q_Holds : QuicrTrace → Ref → bool;                         (* libquicr has a shared_ptr to the handler *)
  q_FetchStatus : QuicrTrace → Ref → FetchStatus;
  q_LatestLocation : QuicrTrace → Ref → option Location;
  answer_PublishObject : QuicrTrace → outcome unit;
}.

#[global] Instance FullTrackName_eq_dec : EqDecision FullTrackName.
Proof. unfold FullTrackName. apply _. Defined.
#[global] Instance RequestReason_eq_dec : EqDecision RequestReason.
Proof. solve_decision. Defined.
#[global] Instance QuicrCall_eq_dec : EqDecision QuicrCall.
Proof. solve_decision. Defined.
End server.
Abbreviation QuicrTrace := (list QuicrCall).

(** ** A server that answers from the trace

    A handler has the alias and status it was last given; a publish handler knows
    the subgroups objects were published to and not ended. *)
Module DemoServer.
Import Quicr.Demo.

#[export] Instance messages : MoqMessages := {|
  StreamHeaderProperties := bool;
  set_from_first_object b := b;
  subgroup_header_default := mkSubgroupHeader _ 0 0 None 0 None;
  subgroup_object_default := mkSubgroupObject _ 0 None 0 None None [];
  (* alias, group, subgroup or 255, which leaves it to the first object, priority *)
  read_subgroup_header h data :=
    match data with
    | a :: g :: s :: p :: rest =>
        (true, mkSubgroupHeader _ a g (if decide (s = 255) then None else Some s) p (Some (bool_decide (s = 255))), rest)
    | _ => (false, h, data)
    end;
  put_subgroup_header h := [sh_track_alias h; sh_group_id h; default 255 (sh_subgroup_id h); sh_priority h];
  (* delta, length, payload *)
  read_subgroup_object o data :=
    match data with
    | d :: n :: rest =>
        if decide (Z.to_nat n ≤ length rest)%nat
        then (true, mkSubgroupObject _ d (so_properties o) 0 None None (take (Z.to_nat n) rest), drop (Z.to_nat n) rest)
        else (false, o, data)
    | _ => (false, o, data)
    end;
  read_datagram data :=
    match data with
    | a :: g :: o :: p :: rest => Some (mkObjectDatagram a g o p None rest)
    | _ => None
    end;
  kAvailable := 0;
  clear_keeps_object := true;
  (* two bytes *)
  read_fetch_header data := match data with _ :: r :: rest => Some (r, rest) | _ => None end;
  put_fetch_header r := [5; r];
  kAscending := 1;
  Location_default := mkLocation 0 0;
  SubscribeAttributes_default := mkSubscribeAttributes 128 None 0 (mkLocation 0 0) None false;
|}.

(** The last answer a trace gives. *)
Definition last_of {A} (f : QuicrCall → option A) (t : list QuicrCall) : option A := last (omap f t).

Definition alias_call (h : Ref) (c : QuicrCall) : option Z :=
  match c with Base_SetTrackAlias h' a => if decide (h' = h) then Some a else None | _ => None end.
Definition status_call (h : Ref) (c : QuicrCall) : option PublishStatus :=
  match c with Base_SetStatus h' s => if decide (h' = h) then Some s else None | _ => None end.
Definition conn_call (h : Ref) (c : QuicrCall) : option Z :=
  match c with
  | BindPublisherTrack conn _ _ h' | SubscribeTrack conn h' | PublishNamespace conn h' =>
      if decide (h' = h) then Some conn else None
  | _ => None
  end.

Definition holds_call (h : Ref) (c : QuicrCall) : option bool :=
  match c with
  | SubscribeTrack _ h' | ResolvePublish _ _ h' => if decide (h' = h) then Some true else None
  | UnsubscribeTrack _ h' => if decide (h' = h) then Some false else None
  | _ => None
  end.

Definition add_stream (h : Ref) (l : list (Z * list (Z * option Z))) (c : QuicrCall) : list (Z * list (Z * option Z)) :=
  match c with
  | Base_PublishObject h' hd _ _ =>
      if decide (h' = h) then l ++ [(oh_group_id hd, [(oh_subgroup_id hd, Some (oh_object_id hd))])] else l
  | Base_EndSubgroup h' g sg _ =>
      if decide (h' = h) then filter (λ e, (e.1, e.2.*1) ≠ (g, [sg])) l else l
  | _ => l
  end.

#[export] Instance server : QuicrServer := {|
  q_TrackAlias t h := last_of (alias_call h) t;
  q_ReceivedTrackAlias t h := None;
  q_Status t h := default (kPubOther 0) (last_of (status_call h) t);
  q_ConnectionId t h := default 0 (last_of (conn_call h) t);
  q_RequestId t h := Some 0;
  q_Priority t h := 0;
  q_DeliveryTimeout t h := None;
  q_IsPublisherInitiated t h := existsb (λ c, match c with
    | MakeSubscribeTrack h' _ _ _ b => bool_decide (h' = h) && b | _ => false end) t;
  q_PendingNewGroup t h := None;
  q_StreamInfo t h := foldl (add_stream h) [] t;
  q_NamespaceHandlers t ns alias := last_of (λ c, match c with
    | Base_PublishTrack ns' h => if decide (ns' = ns ∧ last_of (alias_call h) t = Some alias) then Some h else None
    | _ => None end) t;
  q_NamespaceName t ns := (default [] (last_of (λ c, match c with
    | MakePublishNamespace ns' p => if decide (ns' = ns) then Some p else None | _ => None end) t), []);
  q_Prefix t ns := default [] (last_of (λ c, match c with
    | MakePublishNamespace ns' p => if decide (ns' = ns) then Some p else None | _ => None end) t);
  q_Alive t h := true;
  q_Holds t h := default false (last_of (holds_call h) t);
  q_FetchStatus t h := default kFetchNotSubscribed (last_of (λ c, match c with
    | FetchTrack _ h' => if decide (h' = h) then Some kFetchPendingResponse else None
    | Input [0] => Some kFetchOk | Input [1] => Some kFetchDoneByFin | Input [2] => Some kFetchError
    | _ => None end) t);
  q_LatestLocation t h := None;
  answer_PublishObject t := Ok tt;
|}.

Lemma last_of_snoc {A} (f : QuicrCall → option A) t c :
  last_of f (t ++ [c]) = match f c with Some a => Some a | None => last_of f t end.
Proof.
  unfold last_of. rewrite omap_app. simpl. destruct (f c) as [a|].
  - by rewrite last_snoc.
  - by rewrite app_nil_r.
Qed.
End DemoServer.
