(* ===== verification/PeerSession.v ===== *)
(** * Peer session (class PeerSession, src/peering/peer_session.{h,cc})

    One connection to a neighbouring relay: its state, the messages it sends,
    and the subscribe node sets (SNS) it has told the neighbour about.  These
    operations do not call back into the peer manager; the ones that do are in
    PeerSessionEvents.v. *)

From S2P Require Import Prelude Common Quicr NodeInfo Connect SubscribeInfo SubscribeNodeSet AnnounceInfo InfoBase Transport.

Inductive StatusValue := kStatusConnecting | kStatusConnected | kStatusDisconnected.

#[global] Instance StatusValue_eq_dec : EqDecision StatusValue.
Proof. solve_decision. Defined.

Record PeerSession := mkPeerSession {
  peer_config_ : TransportRemote;
  node_info_ : NodeInfo;                  (* of this relay *)
  remote_node_info_ : NodeInfo;
  metrics_srtt_us : Z;
  status_ : StatusValue;
  is_inbound_ : bool;
  sub_sns_ : gmap Z SubscribeNodeSet;     (* full name hash *)
  peer_sns_ : gmap (Z * Z) SubscribeNodeSet;  (* ingress session id, ingress SNS id *)
  t_conn_id_ : Z;
  control_data_ctx_id_ : Z;
  control_stream_id_ : Z;
  controL_msg_buffer_ : list Z;
  transport_ : bool;                      (* the pointer is set *)
}.

Definition GetSessionId (s : PeerSession) : Z := t_conn_id_ s.

Definition set_status st s := mkPeerSession (peer_config_ s) (node_info_ s) (remote_node_info_ s)
  (metrics_srtt_us s) st (is_inbound_ s) (sub_sns_ s) (peer_sns_ s) (t_conn_id_ s)
  (control_data_ctx_id_ s) (control_stream_id_ s) (controL_msg_buffer_ s) (transport_ s).
Definition set_remote ni s := mkPeerSession (peer_config_ s) (node_info_ s) ni
  (metrics_srtt_us s) (status_ s) (is_inbound_ s) (sub_sns_ s) (peer_sns_ s) (t_conn_id_ s)
  (control_data_ctx_id_ s) (control_stream_id_ s) (controL_msg_buffer_ s) (transport_ s).
Definition set_srtt srtt s := mkPeerSession (peer_config_ s) (node_info_ s) (remote_node_info_ s)
  srtt (status_ s) (is_inbound_ s) (sub_sns_ s) (peer_sns_ s) (t_conn_id_ s)
  (control_data_ctx_id_ s) (control_stream_id_ s) (controL_msg_buffer_ s) (transport_ s).
Definition set_sub_sns f s := mkPeerSession (peer_config_ s) (node_info_ s) (remote_node_info_ s)
  (metrics_srtt_us s) (status_ s) (is_inbound_ s) (f (sub_sns_ s)) (peer_sns_ s) (t_conn_id_ s)
  (control_data_ctx_id_ s) (control_stream_id_ s) (controL_msg_buffer_ s) (transport_ s).
Definition set_peer_sns f s := mkPeerSession (peer_config_ s) (node_info_ s) (remote_node_info_ s)
  (metrics_srtt_us s) (status_ s) (is_inbound_ s) (sub_sns_ s) (f (peer_sns_ s)) (t_conn_id_ s)
  (control_data_ctx_id_ s) (control_stream_id_ s) (controL_msg_buffer_ s) (transport_ s).
Definition set_conn conn s := mkPeerSession (peer_config_ s) (node_info_ s) (remote_node_info_ s)
  (metrics_srtt_us s) (status_ s) (is_inbound_ s) (sub_sns_ s) (peer_sns_ s) conn
  (control_data_ctx_id_ s) (control_stream_id_ s) (controL_msg_buffer_ s) (transport_ s).
Definition set_control_ctx ctx s := mkPeerSession (peer_config_ s) (node_info_ s) (remote_node_info_ s)
  (metrics_srtt_us s) (status_ s) (is_inbound_ s) (sub_sns_ s) (peer_sns_ s) (t_conn_id_ s)
  ctx (control_stream_id_ s) (controL_msg_buffer_ s) (transport_ s).
Definition set_control_stream stream s := mkPeerSession (peer_config_ s) (node_info_ s) (remote_node_info_ s)
  (metrics_srtt_us s) (status_ s) (is_inbound_ s) (sub_sns_ s) (peer_sns_ s) (t_conn_id_ s)
  (control_data_ctx_id_ s) stream (controL_msg_buffer_ s) (transport_ s).
Definition set_buffer f s := mkPeerSession (peer_config_ s) (node_info_ s) (remote_node_info_ s)
  (metrics_srtt_us s) (status_ s) (is_inbound_ s) (sub_sns_ s) (peer_sns_ s) (t_conn_id_ s)
  (control_data_ctx_id_ s) (control_stream_id_ s) (f (controL_msg_buffer_ s)) (transport_ s).
Definition set_transport b s := mkPeerSession (peer_config_ s) (node_info_ s) (remote_node_info_ s)
  (metrics_srtt_us s) (status_ s) (is_inbound_ s) (sub_sns_ s) (peer_sns_ s) (t_conn_id_ s)
  (control_data_ctx_id_ s) (control_stream_id_ s) (controL_msg_buffer_ s) b.

(** The constructor.  [metrics_.srtt_us] and [control_data_ctx_id_] have no
    initialiser; [garbage] is what they hold. *)
Definition PeerSession_make (garbage : Z * Z) (is_inbound : bool) (conn_id : Z) (node_info : NodeInfo)
    (remote : TransportRemote) : PeerSession :=
  mkPeerSession remote node_info NodeInfo_default garbage.1 kStatusConnecting is_inbound ∅ ∅
    conn_id garbage.2 0 [] false.

Section peer_session.
Context `{Transport}.

(** A session and the transport it drives. *)
Abbreviation Sess := (PeerSession * Trace)%type.

Definition self : ST Sess PeerSession := gets fst.
Definition modify_self (f : PeerSession → PeerSession) : ST Sess unit := modify (λ s, (f s.1, s.2)).

(** A call through [transport_]; a null pointer is undefined behaviour. *)
Definition call (c : TransportCall) : ST Sess unit := λ s,
  if transport_ s.1 then (Ok tt, (s.1, s.2 ++ [c])) else (UB, s).

Definition call_answer (answer : Trace → Z) (c : TransportCall) : ST Sess Z := λ s,
  if transport_ s.1 then (Ok (answer s.2), (s.1, s.2 ++ [c])) else (UB, s).

Definition Status (s : PeerSession) : StatusValue := status_ s.

(** [void Connect()] *)
Definition Session_Connect : ST Sess unit :=
  modify_self (set_status kStatusConnecting) ;;
  modify_self (set_remote NodeInfo_default) ;;
  s ← self;
  if is_inbound_ s then modify_self (set_status kStatusConnected)
  else
    modify_self (set_transport false) ;;
    modify_self (set_peer_sns (λ _, ∅)) ;;
    modify_self (set_transport true) ;;
    call (MakeClientTransport (peer_config_ s)) ;;
    t ← gets snd;
    conn ← call_answer answer_Start (Start (answer_Start t));
    modify_self (set_conn conn) ;;
    ctx ← call_answer answer_CreateDataContext (CreateDataContext conn true 0 true);
    modify_self (set_control_ctx ctx) ;;
    stream ← call_answer answer_CreateStream (CreateStream conn ctx 0);
    modify_self (set_control_stream stream).

(** ** Sending *)

(** A message on the control stream. *)
Definition enqueue_control (bytes : list Z) : ST Sess unit :=
  s ← self;
  call (Enqueue (t_conn_id_ s) (control_data_ctx_id_ s) (control_stream_id_ s) bytes 0 1000 None).

(** [if (status_ != StatusValue::kConnected) return;] *)
Definition if_connected (m : ST Sess unit) : ST Sess unit :=
  s ← self; if decide (status_ s = kStatusConnected) then m else mret tt.

Definition SendSns (sns : SubscribeNodeSet) (withdraw : bool) : ST Sess unit :=
  if_connected (enqueue_control (SNS_Serialize true withdraw sns)).

Definition SendAnnounceInfo `{TrackNames} (announce_info : AnnounceInfo) (withdraw : bool) : ST Sess unit :=
  if_connected (enqueue_control (AnnounceInfo_Serialize true withdraw announce_info)).

(** [SendSubscribeInfo(SubscribeInfo&, bool)]: serialising bumps the sequence
    number of a subscription that this relay originated; the object afterwards
    is returned. *)
Definition SendSubscribeInfo (subscribe_info : SubscribeInfo) (withdraw : bool) : ST Sess SubscribeInfo :=
  s ← self;
  if decide (status_ s = kStatusConnected) then
    let '(bytes, si) := SubscribeInfo_Serialize true withdraw
      (bool_decide (ni_id (node_info_ s) = si_source_node_id subscribe_info)) subscribe_info in
    enqueue_control bytes ;;
    mret si
  else mret subscribe_info.

Definition SendNodeInfo `{UintVar} (node_info : NodeInfo) (withdraw : bool) : ST Sess unit :=
  if_connected (enqueue_control (NodeInfo_Serialize true withdraw node_info)).

Definition SendConnect `{UintVar} : ST Sess unit :=
  s ← self;
  modify_self (set_peer_sns (λ _, ∅)) ;;
  enqueue_control (Connect_Serialize (mkConnect PeerMode.kBoth (node_info_ s))).

(** The value of an outcome, its exception or undefined behaviour passed on. *)
Definition lift_outcome {S A} (o : outcome A) : ST S A := λ s, (o, s).

Definition SendConnectOk `{UintVar} : ST Sess unit :=
  s ← self;
  bytes ← lift_outcome (ConnectResponse_Serialize
    (mkConnectResponse ProtocolError.kNoError (Some (node_info_ s))));
  enqueue_control bytes.

Definition SendData (priority ttl sns_id stream_id : Z) (eflags : EnqueueFlags) (data : list Z) :
    ST Sess unit :=
  if_connected (
    s ← self;
    call (Enqueue (t_conn_id_ s) sns_id stream_id data priority ttl (Some (0, eflags)))).

Definition Session_CreateStream (sns_id priority : Z) : ST Sess Z :=
  s ← self;
  call_answer answer_CreateStream (CreateStream (t_conn_id_ s) sns_id priority).

Definition Session_CloseStream (sns_id stream_id : Z) (flag : StreamClosedFlag) : ST Sess unit :=
  s ← self;
  call (CloseStream (t_conn_id_ s) sns_id stream_id (bool_decide (flag = kReset))).

(** ** Subscribe node sets *)

(** [it->second.id = transport_->CreateDataContext(...)] when it is not set;
    the id is narrowed to 32 bits. *)
Definition ensure_context (sns : SubscribeNodeSet) (priority : Z) : ST Sess SubscribeNodeSet :=
  if decide (sns_id sns = 0) then
    s ← self;
    ctx ← call_answer answer_CreateDataContext (CreateDataContext (t_conn_id_ s) true priority false);
    mret (mkSNS (u32 ctx) (sns_priority sns) (sns_nodes sns))
  else mret sns.

(** The part common to the two tables; [store] writes the entry back. *)
Definition add_source_node (sns : SubscribeNodeSet) (sub_node_id priority : Z)
    (store : SubscribeNodeSet → PeerSession → PeerSession) : ST Sess (Z * bool) :=
  modify_self (store sns) ;;
  sns ← ensure_context sns priority;
  let is_new := bool_decide (sub_node_id ∉ sns_nodes sns) in
  let sns := mkSNS (sns_id sns) (sns_priority sns) ({[sub_node_id]} ∪ sns_nodes sns) in
  modify_self (store sns) ;;
  when is_new (SendSns sns false) ;;
  mret (sns_id sns, is_new).

Definition AddPeerSnsSourceNode (in_peer_session_id in_sns_id sub_node_id priority : Z) :
    ST Sess (Z * bool) :=
  s ← self;
  add_source_node (default SNS_default (peer_sns_ s !! (in_peer_session_id, in_sns_id)))
    sub_node_id priority (λ sns, set_peer_sns <[(in_peer_session_id, in_sns_id) := sns]>).

Definition AddSubscribeSourceNode (full_name_hash sub_node_id priority : Z) : ST Sess (Z * bool) :=
  s ← self;
  add_source_node (default SNS_default (sub_sns_ s !! full_name_hash))
    sub_node_id priority (λ sns, set_sub_sns <[full_name_hash := sns]>).

(** One node leaves; an empty set closes the data context and is withdrawn. *)
Definition remove_source_node (sns : SubscribeNodeSet) (sub_node_id : Z)
    (store : SubscribeNodeSet → PeerSession → PeerSession) (erase : PeerSession → PeerSession) :
    ST Sess (bool * bool) :=
  let node_removed := bool_decide (sub_node_id ∈ sns_nodes sns) in
  let sns := mkSNS (sns_id sns) (sns_priority sns) (sns_nodes sns ∖ {[sub_node_id]}) in
  modify_self (store sns) ;;
  if decide (sns_nodes sns = ∅) then
    s ← self;
    call (DeleteDataContext (t_conn_id_ s) (sns_id sns)) ;;
    SendSns sns true ;;
    modify_self erase ;;
    mret (node_removed, true)
  else mret (node_removed, false).

Definition RemoveSubscribeSourceNode (full_name_hash sub_node_id : Z) : ST Sess (bool * bool) :=
  s ← self;
  match sub_sns_ s !! full_name_hash with
  | Some sns => remove_source_node sns sub_node_id
      (λ sns, set_sub_sns <[full_name_hash := sns]>) (set_sub_sns (delete full_name_hash))
  | None => mret (false, false)
  end.

Definition RemovePeerSnsSourceNode (in_peer_session_id in_sns_id sub_node_id : Z) : ST Sess (bool * bool) :=
  s ← self;
  let key := (in_peer_session_id, in_sns_id) in
  match peer_sns_ s !! key with
  | Some sns =>
      if decide (sub_node_id = 0) then
        SendSns sns true ;;
        modify_self (set_peer_sns (delete key)) ;;
        mret (false, false)
      else remove_source_node sns sub_node_id
        (λ sns, set_peer_sns <[key := sns]>) (set_peer_sns (delete key))
  | None => mret (false, false)
  end.
End peer_session.
Abbreviation Sess := (PeerSession * Trace)%type.
