(* ===== verification/PeerSessionSns.v ===== *)
(** * What a neighbour knows of a session's subscribe node sets

    The neighbour's view is computed from the control messages that were sent to
    it, decoded as it decodes them.  The operations on the two SNS tables keep
    that view in step with the tables. *)

From S2P Require Import Prelude Common Quicr NodeInfo Connect SubscribeInfo SubscribeNodeSet AnnounceInfo InfoBase Transport PeerSession.

(** ** The neighbour's view *)

(** The type in the common header. *)
Definition control_type (bytes : list Z) : option Z :=
  ValueOf kIsBigEndian true 2 (take 2 (drop 1 bytes)).

(** An SNS message: withdrawn or not, and the decoded set. *)
Definition sns_message (bytes : list Z) : option (bool * SubscribeNodeSet) :=
  ty ← control_type bytes;
  if decide (ty = MsgType.kSubscribeNodeSetAdvertised) then
    match run_decoder (SNS_read false) (drop 7 bytes) with
    | Ok sns => Some (false, sns) | _ => None
    end
  else if decide (ty = MsgType.kSubscribeNodeSetWithdrawn) then
    match run_decoder (SNS_read true) (drop 7 bytes) with
    | Ok sns => Some (true, sns) | _ => None
    end
  else None.

Definition view_update (m : option (bool * SubscribeNodeSet)) (view : gmap Z (gset Z)) : gmap Z (gset Z) :=
  match m with
  | Some (false, sns) => <[sns_id sns := sns_nodes sns]> view
  | Some (true, sns) => delete (sns_id sns) view
  | None => view
  end.

Definition view_step (s : PeerSession) (view : gmap Z (gset Z)) (c : TransportCall) : gmap Z (gset Z) :=
  match c with
  | Enqueue conn ctx stream data _ _ _ =>
      if decide (conn = t_conn_id_ s ∧ ctx = control_data_ctx_id_ s ∧ stream = control_stream_id_ s)
      then view_update (sns_message data) view else view
  | _ => view
  end.

Definition sns_view (s : PeerSession) (t : Trace) : gmap Z (gset Z) := foldl (view_step s) ∅ t.

Lemma sns_view_snoc s t c : sns_view s (t ++ [c]) = view_step s (sns_view s t) c.
Proof. unfold sns_view. by rewrite foldl_app. Qed.

Lemma control_type_framed ty sz body :
  in_range 16 ty → control_type (common_headers ty sz ++ body) = Some ty.
Proof.
  intros Hty. by apply common_headers_type.
Qed.

Lemma sns_message_advertised sns :
  SNS_wf sns → sns_message (SNS_Serialize true false sns) = Some (false, sns).
Proof.
  intros Hsns. unfold sns_message, SNS_Serialize.
  rewrite control_type_framed by decide_now. cbn [mbind option_bind].
  rewrite drop_app_length' by done. rewrite SNS_read_put by done. done.
Qed.

Lemma sns_message_withdrawn sns :
  SNS_wf sns → sns_message (SNS_Serialize true true sns) = Some (true, mkSNS (sns_id sns) 2 ∅).
Proof.
  intros (Hi & _). unfold sns_message, SNS_Serialize.
  rewrite control_type_framed by decide_now. cbn [mbind option_bind].
  rewrite decide_False, decide_True, drop_app_length' by done. unfold SNS_read, run_decoder.
  rewrite <- (app_nil_r (put _ _)). by decode.
Qed.

(** A control message of another type leaves the view alone. *)
Lemma sns_message_other ty sz body :
  in_range 16 ty → ty ≠ MsgType.kSubscribeNodeSetAdvertised → ty ≠ MsgType.kSubscribeNodeSetWithdrawn →
  sns_message (common_headers ty sz ++ body) = None.
Proof.
  intros Hty H1 H2. unfold sns_message. rewrite control_type_framed by done.
  cbn [mbind option_bind]. by rewrite !decide_False.
Qed.

(** ** The two tables as one *)

Abbreviation SnsKey := (Z + Z * Z)%type.

Definition sns_at (s : PeerSession) (k : SnsKey) : option SubscribeNodeSet :=
  match k with inl h => sub_sns_ s !! h | inr k => peer_sns_ s !! k end.
Definition set_at (k : SnsKey) (sns : SubscribeNodeSet) : PeerSession → PeerSession :=
  match k with inl h => set_sub_sns <[h := sns]> | inr k => set_peer_sns <[k := sns]> end.
Definition erase_at (k : SnsKey) : PeerSession → PeerSession :=
  match k with inl h => set_sub_sns (delete h) | inr k => set_peer_sns (delete k) end.

(** What the table updates do not touch. *)
Definition same_wiring (s s' : PeerSession) : Prop :=
  t_conn_id_ s' = t_conn_id_ s ∧ control_data_ctx_id_ s' = control_data_ctx_id_ s ∧
  control_stream_id_ s' = control_stream_id_ s ∧ status_ s' = status_ s ∧ transport_ s' = transport_ s.

Lemma set_at_wiring k sns s : same_wiring s (set_at k sns s).
Proof. by destruct k. Qed.
Lemma erase_at_wiring k s : same_wiring s (erase_at k s).
Proof. by destruct k. Qed.

Lemma sns_at_set k sns s k' : sns_at (set_at k sns s) k' = if decide (k = k') then Some sns else sns_at s k'.
Proof. destruct k, k'; simpl; try (rewrite lookup_insert; repeat case_decide); congruence. Qed.
Lemma sns_at_erase k s k' : sns_at (erase_at k s) k' = if decide (k = k') then None else sns_at s k'.
Proof. destruct k, k'; simpl; try (rewrite lookup_delete; repeat case_decide); congruence. Qed.

Lemma set_at_twice k a b s : set_at k b (set_at k a s) = set_at k b s.
Proof. destruct k; unfold set_at, set_sub_sns, set_peer_sns; simpl; by rewrite insert_insert_eq. Qed.
Lemma erase_set_at k a s : erase_at k (set_at k a s) = erase_at k s.
Proof. destruct k; unfold set_at, erase_at, set_sub_sns, set_peer_sns; simpl; by rewrite delete_insert_eq. Qed.

Lemma sns_view_wiring s s' t : same_wiring s s' → sns_view s' t = sns_view s t.
Proof.
  intros (Hc & Hx & Hs & _). unfold sns_view. revert Hc Hx Hs. generalize (∅ : gmap Z (gset Z)).
  induction t as [|c t IH]; intros v Hc Hx Hs; [done|]. cbn [foldl]. rewrite IH by done. f_equal.
  destruct c; simpl; try done. by rewrite Hc, Hx, Hs.
Qed.

Lemma difference_empty_iff (X Y : gset Z) : X ∖ Y = ∅ ↔ X ⊆ Y.
Proof.
  split; [|apply subseteq_empty_difference_L]. intros He x Hx.
  destruct (decide (x ∈ Y)) as [|Hn]; [done|]. exfalso. apply (not_elem_of_empty (C := gset Z) x). rewrite <- He.
  by apply elem_of_difference.
Qed.

Section sns.
Context `{Transport}.

(** ** What the operations do *)

Definition ready (s : PeerSession) : Prop := status_ s = kStatusConnected ∧ transport_ s = true.

Definition send_sns_call (s : PeerSession) (sns : SubscribeNodeSet) (withdraw : bool) : TransportCall :=
  Enqueue (t_conn_id_ s) (control_data_ctx_id_ s) (control_stream_id_ s)
    (SNS_Serialize true withdraw sns) 0 1000 None.

(** The set after its data context has been made sure of, and the call. *)
Definition with_context (s : PeerSession) (t : Trace) (priority : Z) (sns : SubscribeNodeSet) :
    SubscribeNodeSet * Trace :=
  if decide (sns_id sns = 0)
  then (mkSNS (u32 (answer_CreateDataContext t)) (sns_priority sns) (sns_nodes sns),
        [CreateDataContext (t_conn_id_ s) true priority false])
  else (sns, []).

Definition with_node (n : Z) (sns : SubscribeNodeSet) : SubscribeNodeSet :=
  mkSNS (sns_id sns) (sns_priority sns) ({[n]} ∪ sns_nodes sns).
Definition without_node (n : Z) (sns : SubscribeNodeSet) : SubscribeNodeSet :=
  mkSNS (sns_id sns) (sns_priority sns) (sns_nodes sns ∖ {[n]}).

Lemma SendSns_ok sns w s t : ready s → SendSns sns w (s, t) = (Ok tt, (s, t ++ [send_sns_call s sns w])).
Proof.
  intros [Hst Htr]. unfold SendSns, if_connected, enqueue_control, self, call, mbind, st_bind, gets. simpl.
  rewrite decide_True by done. simpl. by rewrite Htr.
Qed.

Lemma add_source_node_ok k sns n p s t :
  ready s →
  let '(sns', calls) := with_context s t p sns in
  let is_new := bool_decide (n ∉ sns_nodes sns) in
  add_source_node sns n p (set_at k) (s, t) =
  (Ok (sns_id sns', is_new),
   (set_at k (with_node n sns') s,
    t ++ calls ++ if is_new then [send_sns_call s (with_node n sns') false] else [])).
Proof.
  intros Hr. assert (∀ x, ready (set_at k x s)) as Hr' by by destruct k.
  assert (t_conn_id_ (set_at k sns s) = t_conn_id_ s) as Hc by by destruct k.
  unfold add_source_node, with_context, modify_self.
  rewrite (bind_ok (modify _) _ (s, t) tt (set_at k sns s, t)) by done.
  assert (∀ sns' calls, ensure_context sns p (set_at k sns s, t) = (Ok sns', (set_at k sns s, t ++ calls)) →
    sns_nodes sns' = sns_nodes sns →
    (sns ← ensure_context sns p;
     modify_self (set_at k (with_node n sns)) ;;
     when (bool_decide (n ∉ sns_nodes sns)) (SendSns (with_node n sns) false) ;;
     mret (sns_id sns, bool_decide (n ∉ sns_nodes sns))) (set_at k sns s, t) =
    (Ok (sns_id sns', bool_decide (n ∉ sns_nodes sns)),
     (set_at k (with_node n sns') s,
      t ++ calls ++ if bool_decide (n ∉ sns_nodes sns) then [send_sns_call s (with_node n sns') false] else []))) as Hrest.
  { intros sns' calls He Hn. rewrite (bind_ok _ _ _ _ _ He). unfold modify_self.
    rewrite (bind_ok (modify _) _ _ tt (set_at k (with_node n sns') s, t ++ calls))
      by (unfold modify; simpl; by rewrite set_at_twice).
    rewrite <- Hn. case_bool_decide; cbn [when].
    - rewrite (bind_ok _ _ _ _ _ (SendSns_ok _ _ _ _ (Hr' _))).
      unfold mret, st_ret. rewrite app_assoc. do 4 f_equal. by destruct k.
    - by rewrite app_nil_r. }
  destruct (decide (sns_id sns = 0)) as [Hid|Hid].
  - apply Hrest; [|done]. unfold ensure_context. rewrite decide_True by done.
    unfold self, call_answer, mbind, st_bind, gets. simpl. rewrite (proj2 (Hr' sns)). simpl. by rewrite Hc.
  - apply (Hrest sns []); [|done]. unfold ensure_context. rewrite decide_False, app_nil_r by done. done.
Qed.

Lemma remove_source_node_ok k sns n s t :
  ready s →
  remove_source_node sns n (λ x, set_at k x) (erase_at k) (s, t) =
  if decide (sns_nodes (without_node n sns) = ∅)
  then (Ok (bool_decide (n ∈ sns_nodes sns), true),
        (erase_at k s, t ++ [DeleteDataContext (t_conn_id_ s) (sns_id sns);
                             send_sns_call s (without_node n sns) true]))
  else (Ok (bool_decide (n ∈ sns_nodes sns), false), (set_at k (without_node n sns) s, t)).
Proof.
  intros Hr. set (sns' := without_node n sns).
  assert (ready (set_at k sns' s)) as Hr' by by destruct k.
  unfold remove_source_node, modify_self. fold (without_node n sns). fold sns'.
  rewrite (bind_ok (modify _) _ (s, t) tt (set_at k sns' s, t)) by done.
  destruct (decide (sns_nodes sns' = ∅)); [|done].
  unfold self. rewrite (bind_ok (gets fst) _ (set_at k sns' s, t) (set_at k sns' s) (set_at k sns' s, t)) by done.
  assert (call (DeleteDataContext (t_conn_id_ (set_at k sns' s)) (sns_id sns')) (set_at k sns' s, t) =
    (Ok tt, (set_at k sns' s, t ++ [DeleteDataContext (t_conn_id_ s) (sns_id sns)]))) as Hcall.
  { unfold call. simpl. rewrite (proj2 Hr'). by destruct k. }
  rewrite (bind_ok _ _ _ _ _ Hcall), (bind_ok _ _ _ _ _ (SendSns_ok _ _ _ _ Hr')).
  unfold modify, mbind, st_bind, mret, st_ret. simpl. rewrite erase_set_at, <- app_assoc.
  do 5 f_equal. by destruct k.
Qed.

(** ** The tables and the view *)

Section invariant.
(** The nodes of the mesh, few enough to be counted in 16 bits. *)
Context (N : gset Z) (HN : set_Forall (in_range 64) N) (Nsize : in_range 16 (Z.of_nat (size N))).
(** How the nodes of a set relate to those the neighbour has for it. *)
Context (rel : relation (gset Z)) `{!Reflexive rel}.

Record sns_inv (s : PeerSession) (t : Trace) : Prop := {
  inv_ready : ready s;
  inv_entry k sns : sns_at s k = Some sns →
    0 < sns_id sns < 2 ^ 32 ∧ in_range 8 (sns_priority sns) ∧ sns_nodes sns ⊆ N ∧
    sns_id sns ∈ open_contexts t (t_conn_id_ s);
  inv_ids k k' sns sns' : sns_at s k = Some sns → sns_at s k' = Some sns' →
    sns_id sns = sns_id sns' → k = k';
  inv_known k sns : sns_at s k = Some sns →
    ∃ known, sns_view s t !! sns_id sns = Some known ∧ rel (sns_nodes sns) known;
  inv_only i : is_Some (sns_view s t !! i) → ∃ k sns, sns_at s k = Some sns ∧ sns_id sns = i;
}.

Lemma entry_wf sns : 0 < sns_id sns < 2 ^ 32 → in_range 8 (sns_priority sns) → sns_nodes sns ⊆ N → SNS_wf sns.
Proof using HN Nsize.
  intros Hi Hp Hn. unfold SNS_wf. split_and!; [unfold in_range; lia|done| |].
  - intros n ?. by apply HN, Hn.
  - pose proof (subseteq_size _ _ Hn). unfold in_range in *. lia.
Qed.

(** The view after the calls of an operation. *)
Lemma view_send s t sns w : SNS_wf sns →
  sns_view s (t ++ [send_sns_call s sns w]) =
  (if w then delete (sns_id sns) else <[sns_id sns := sns_nodes sns]>) (sns_view s t).
Proof.
  intros Hsns. rewrite sns_view_snoc. unfold view_step, send_sns_call. rewrite decide_True by done.
  destruct w; [by rewrite sns_message_withdrawn|by rewrite sns_message_advertised].
Qed.

Lemma open_send s t sns w conn : open_contexts (t ++ [send_sns_call s sns w]) conn = open_contexts t conn.
Proof. by rewrite open_contexts_snoc. Qed.

(** Writing an entry whose id is its old one, or is of no other entry. *)
Lemma inv_set k sns s t :
  sns_inv s t →
  0 < sns_id sns < 2 ^ 32 ∧ in_range 8 (sns_priority sns) ∧ sns_nodes sns ⊆ N ∧
    sns_id sns ∈ open_contexts t (t_conn_id_ s) →
  (∀ k' sns', k' ≠ k → sns_at s k' = Some sns' → sns_id sns' ≠ sns_id sns) →
  (∀ old, sns_at s k = Some old → sns_id old = sns_id sns) →
  ∀ known, rel (sns_nodes sns) known →
  ∀ t', sns_view s t' = <[sns_id sns := known]> (sns_view s t) →
  open_contexts t' (t_conn_id_ s) = open_contexts t (t_conn_id_ s) →
  sns_inv (set_at k sns s) t'.
Proof.
  intros [Hr He Hids Hk Ho] Hsns Hnew Hold known Hrel t' Hv Hop.
  destruct (set_at_wiring k sns s) as (Hc & Hw). split.
  - by destruct k.
  - intros k' sns'. rewrite sns_at_set, Hc, Hop. case_decide; [by intros [= <-]|]. apply He.
  - intros k1 k2 s1 s2. rewrite !sns_at_set.
    destruct (decide (k = k1)) as [<-|H1], (decide (k = k2)) as [<-|H2]; [done| | |by apply Hids].
    + intros [= <-] Hs2 Heq. destruct (Hnew k2 s2); auto.
    + intros Hs1 [= <-] Heq. destruct (Hnew k1 s1); auto.
  - intros k' sns'. rewrite sns_at_set, (sns_view_wiring s) by by destruct k. rewrite Hv.
    case_decide as Hkk; [intros [= <-]; rewrite lookup_insert_eq; eauto|].
    intros Hs'. rewrite lookup_insert_ne; [by apply (Hk k')|]. intros Heq. by apply (Hnew k' sns').
  - intros i. rewrite (sns_view_wiring s) by by destruct k. rewrite Hv. intros Hi.
    destruct (decide (i = sns_id sns)) as [->|Hne].
    + exists k, sns. by rewrite sns_at_set, decide_True.
    + rewrite lookup_insert_ne in Hi by done. destruct (Ho i Hi) as (k' & sns' & Hs' & <-).
      exists k', sns'. rewrite sns_at_set. case_decide as Hkk; [|done]. subst k'.
      by rewrite (Hold sns') in Hne.
Qed.

(** The data contexts and the view after an allocation. *)
Lemma inv_context `{!TransportLaws} s t p : Z.of_nat (length t) < 2 ^ 32 - 1 → sns_inv s t →
  sns_inv s (t ++ [CreateDataContext (t_conn_id_ s) true p false]) ∧
  let c := answer_CreateDataContext t in
  0 < c < 2 ^ 32 ∧ c ∈ open_contexts (t ++ [CreateDataContext (t_conn_id_ s) true p false]) (t_conn_id_ s) ∧
  ∀ k sns, sns_at s k = Some sns → sns_id sns ≠ c.
Proof.
  intros Hlen [Hr He Hids Hk Ho].
  pose proof (open_contexts_snoc t (CreateDataContext (t_conn_id_ s) true p false) (t_conn_id_ s)) as Hop.
  simpl in Hop. rewrite decide_True in Hop by done. split; [split|split_and!]; try done.
  - intros k sns Hs. destruct (He k sns Hs) as (?&?&?&?). rewrite Hop. split_and!; try done; try lia. by apply elem_of_union_r.
  - intros k sns Hs. rewrite sns_view_snoc. by apply (Hk k).
  - intros i. rewrite sns_view_snoc. apply Ho.
  - by apply CreateDataContext_range.
  - by apply CreateDataContext_range.
  - rewrite Hop. by apply elem_of_union_l, elem_of_singleton.
  - intros k sns Hs Heq. destruct (He k sns Hs) as (_ & _ & _ & Hin). rewrite Heq in Hin.
    exact (CreateDataContext_fresh t (t_conn_id_ s) Hlen Hin).
Qed.

(** *** Adding a source node *)

Lemma inv_add `{!TransportLaws} k n p s t :
  n ∈ N → in_range 8 p → Z.of_nat (length t) < 2 ^ 32 - 1 → sns_inv s t →
  let sns := default SNS_default (sns_at s k) in
  ∃ s' t' id, add_source_node sns n p (set_at k) (s, t) = (Ok (id, bool_decide (n ∉ sns_nodes sns)), (s', t')) ∧
    sns_inv s' t' ∧ (length t' ≤ length t + 2)%nat ∧ same_wiring s s' ∧
    (∃ sns', sns_at s' k = Some sns' ∧ sns_id sns' = id ∧ sns_nodes sns' = {[n]} ∪ sns_nodes sns) ∧
    ∀ k', k' ≠ k → sns_at s' k' = sns_at s k'.
Proof.
  intros Hn Hp Hlen Hinv sns. pose proof (inv_ready _ _ Hinv) as Hr.
  pose proof (add_source_node_ok k sns n p s t Hr) as Hop. unfold with_context in Hop.
  assert (∃ sns' calls, (if decide (sns_id sns = 0)
    then (mkSNS (u32 (answer_CreateDataContext t)) (sns_priority sns) (sns_nodes sns),
          [CreateDataContext (t_conn_id_ s) true p false])
    else (sns, [])) = (sns', calls) ∧ sns_nodes sns' = sns_nodes sns ∧ sns_inv s (t ++ calls) ∧
    (length calls ≤ 1)%nat ∧
    (0 < sns_id sns' < 2 ^ 32 ∧ in_range 8 (sns_priority sns') ∧ sns_nodes sns' ⊆ N ∧
     sns_id sns' ∈ open_contexts (t ++ calls) (t_conn_id_ s)) ∧
    (∀ k' o, k' ≠ k → sns_at s k' = Some o → sns_id o ≠ sns_id sns') ∧
    (∀ o, sns_at s k = Some o → sns_id o = sns_id sns')) as (sns' & calls & Hctx & Hnodes & Hinv' & Hl & Hok & Hdis & Hold).
  { destruct (sns_at s k) as [o|] eqn:Ho.
    - simpl in sns. subst sns. destruct (inv_entry _ _ Hinv k o Ho) as (Hid & Hpr & Hsub & Hopen).
      exists o, []. rewrite decide_False, app_nil_r by lia. split_and!; try done; try (simpl; lia).
      + intros k' o' Hk Ho' Heq. by apply Hk, (inv_ids _ _ Hinv _ _ o' o).
      + by intros o' [= <-].
    - destruct (inv_context s t p Hlen Hinv) as (Hinv' & Hc & Hopen & Hdis).
      subst sns. simpl default. rewrite decide_True by done. do 2 eexists. split; [done|].
      cbn [sns_id sns_priority sns_nodes SNS_default]. rewrite wrap_small by (unfold in_range; lia).
      split_and!; try done; try (simpl; lia); first [set_solver|intros k' o' _; apply Hdis]. }
  rewrite Hctx in Hop. rewrite <- Hnodes in Hop |- *. set (new := bool_decide (n ∉ sns_nodes sns')) in Hop |- *.
  eexists _, _, _. split; [exact Hop|].
  assert (SNS_wf (with_node n sns')) as Hwf.
  { destruct Hok as (?&?&?&?). apply entry_wf; try done. simpl. set_solver. }
  assert (∀ known t', rel ({[n]} ∪ sns_nodes sns') known →
    sns_view s t' = <[sns_id sns' := known]> (sns_view s (t ++ calls)) →
    open_contexts t' (t_conn_id_ s) = open_contexts (t ++ calls) (t_conn_id_ s) →
    sns_inv (set_at k (with_node n sns') s) t') as Hset.
  { intros known t' Hrel Hv Ho. destruct Hok as (?&?&?&?).
    apply (inv_set k (with_node n sns') s (t ++ calls)) with known; try done. simpl.
    split_and!; try done; try lia. set_solver. }
  split_and!.
  - destruct (decide (n ∈ sns_nodes sns')) as [Hin|Hin]; subst new.
    + rewrite bool_decide_eq_false_2, app_nil_r by (by intros ?).
      destruct (sns_at s k) as [o|] eqn:Ho; [|subst sns; rewrite Hnodes in Hin; set_solver].
      destruct (inv_known _ _ Hinv' k o Ho) as (known & Hv & Hrel). rewrite (Hold o eq_refl) in Hv.
      apply Hset with known; [|by rewrite insert_id|done].
      replace ({[n]} ∪ sns_nodes sns') with (sns_nodes o); [done|]. rewrite Hnodes in *. simpl in sns.
      set_solver.
    + rewrite bool_decide_eq_true_2 by done. rewrite app_assoc. apply Hset with ({[n]} ∪ sns_nodes sns').
      * reflexivity.
      * by rewrite view_send.
      * apply open_send.
  - rewrite !length_app. destruct new; simpl; lia.
  - by destruct k.
  - exists (with_node n sns'). by rewrite sns_at_set, decide_True.
  - intros k' Hk. rewrite sns_at_set, decide_False by congruence. done.
Qed.

(** *** Removing *)

Lemma inv_erase k sns s t t' :
  sns_inv s t → sns_at s k = Some sns →
  sns_view s t' = delete (sns_id sns) (sns_view s t) →
  (∀ i, i ≠ sns_id sns → i ∈ open_contexts t (t_conn_id_ s) → i ∈ open_contexts t' (t_conn_id_ s)) →
  sns_inv (erase_at k s) t'.
Proof.
  intros [Hr He Hids Hk Ho] Hs Hv Hop. destruct (erase_at_wiring k s) as (Hc & _).
  assert (∀ k' sns', sns_at (erase_at k s) k' = Some sns' → sns_at s k' = Some sns' ∧ sns_id sns' ≠ sns_id sns) as Hold.
  { intros k' sns'. rewrite sns_at_erase. case_decide as Hkk; [done|]. intros Hs'. split; [done|].
    intros Heq. by apply Hkk, (Hids _ _ sns sns'). }
  split.
  - by destruct k.
  - intros k' sns' [Hs' Hne]%Hold. rewrite Hc. destruct (He _ _ Hs') as (?&?&?&?). auto.
  - intros k1 k2 s1 s2 [H1 _]%Hold [H2 _]%Hold. by apply Hids.
  - intros k' sns' [Hs' Hne]%Hold. rewrite (sns_view_wiring s), Hv, lookup_delete_ne by first [done|by destruct k].
    by apply (Hk k').
  - intros i. rewrite (sns_view_wiring s), Hv by by destruct k. intros Hi.
    destruct (decide (i = sns_id sns)) as [->|Hne]; [rewrite lookup_delete_eq in Hi; by destruct Hi|].
    rewrite lookup_delete_ne in Hi by done. destruct (Ho i Hi) as (k' & sns' & Hs' & <-).
    exists k', sns'. split; [|done]. rewrite sns_at_erase. case_decide as Hkk; [|done]. subst k'. congruence.
Qed.

Lemma inv_remove k n sns s t :
  (∀ a known, rel a known → rel (a ∖ {[n]}) known) →
  sns_inv s t → sns_at s k = Some sns →
  let gone := bool_decide (sns_nodes sns ⊆ {[n]}) in
  ∃ s' t', remove_source_node sns n (λ x, set_at k x) (erase_at k) (s, t) =
      (Ok (bool_decide (n ∈ sns_nodes sns), gone), (s', t')) ∧
    sns_inv s' t' ∧ (length t' ≤ length t + 2)%nat ∧ same_wiring s s' ∧
    sns_at s' k = (if gone then None else Some (without_node n sns)) ∧
    ∀ k', k' ≠ k → sns_at s' k' = sns_at s k'.
Proof.
  intros Hrel Hinv Hs gone. pose proof (inv_ready _ _ Hinv) as Hr.
  destruct (inv_entry _ _ Hinv k sns Hs) as (Hid & Hp & Hn & Ho).
  rewrite remove_source_node_ok by done. subst gone.
  assert (sns_nodes (without_node n sns) = ∅ ↔ sns_nodes sns ⊆ {[n]}) as Hiff by apply difference_empty_iff.
  destruct (decide (sns_nodes (without_node n sns) = ∅)) as [He|He].
  - rewrite (bool_decide_eq_true_2 (_ ⊆ _)) by by apply Hiff. eexists _, _. split_and!; [done| | | | |].
    + change [DeleteDataContext (t_conn_id_ s) (sns_id sns); send_sns_call s (without_node n sns) true] with
        ([DeleteDataContext (t_conn_id_ s) (sns_id sns)] ++ [send_sns_call s (without_node n sns) true]).
      rewrite app_assoc. apply (inv_erase k sns) with t; [done..| |].
      * rewrite view_send; [|apply entry_wf; try done; simpl; set_solver].
        simpl. by rewrite sns_view_snoc.
      * intros i Hne Hi. rewrite open_send, open_contexts_snoc, decide_True by done.
        apply elem_of_difference. split; [done|]. by intros ?%elem_of_singleton.
    + rewrite length_app. simpl. lia.
    + by destruct k.
    + by rewrite sns_at_erase, decide_True.
    + intros k' Hk. by rewrite sns_at_erase, decide_False.
  - rewrite (bool_decide_eq_false_2 (_ ⊆ _)) by by rewrite <- Hiff. eexists _, _. split_and!; [done| | | | |].
    + destruct (inv_known _ _ Hinv k sns Hs) as (known & Hv & Hkn).
      apply (inv_set k (without_node n sns) s t) with known; simpl; try done; auto.
      * split_and!; try done; try lia. set_solver.
      * intros k' o Hk Ho' Heq. by apply Hk, (inv_ids _ _ Hinv _ _ o sns).
      * intros o Ho'. by rewrite Hs in Ho'; simplify_eq.
      * by rewrite insert_id.
    + lia.
    + by destruct k.
    + by rewrite sns_at_set, decide_True.
    + intros k' Hk. by rewrite sns_at_set, decide_False.
Qed.

Lemma inv_remove_all k sns s t :
  sns_inv s t → sns_at s k = Some sns →
  sns_inv (erase_at k s) (t ++ [send_sns_call s sns true]).
Proof.
  intros Hinv Hs. destruct (inv_entry _ _ Hinv k sns Hs) as (Hid & Hp & Hn & Ho).
  apply (inv_erase k sns s t); [done..| |].
  - by rewrite view_send by by apply entry_wf.
  - intros i _ Hi. by rewrite open_send.
Qed.

(** *** Calls that are not about subscribe node sets *)

Definition neutral (s : PeerSession) (c : TransportCall) : Prop :=
  (∀ view, view_step s view c = view) ∧
  ∀ t, open_contexts (t ++ [c]) (t_conn_id_ s) = open_contexts t (t_conn_id_ s).

Lemma inv_neutral s t c : neutral s c → sns_inv s t → sns_inv s (t ++ [c]).
Proof.
  intros [Hv Hop] [Hr He Hids Hk Ho]. split; try done; try setoid_rewrite sns_view_snoc; try setoid_rewrite Hv; try done.
  intros k sns. rewrite Hop. apply He.
Qed.
End invariant.

(** ** Runs of a session *)

Context `{UintVar, TrackNames}.

(** What the peer manager asks of a connected session. *)
Inductive SessionOp :=
  | op_add_subscribe (full_name_hash node priority : Z)
  | op_add_peer (in_session in_sns node priority : Z)
  | op_remove_subscribe (full_name_hash node : Z)
  | op_remove_peer (in_session in_sns node : Z)
  | op_node_info (ni : NodeInfo) (withdraw : bool)
  | op_announce (ai : AnnounceInfo) (withdraw : bool)
  | op_subscribe (si : SubscribeInfo) (withdraw : bool)
  | op_data (priority ttl ctx stream : Z) (flags : EnqueueFlags) (data : list Z)
  | op_create_stream (ctx priority : Z)
  | op_close_stream (ctx stream : Z) (flag : StreamClosedFlag).

Definition run_op (op : SessionOp) : ST Sess unit :=
  match op with
  | op_add_subscribe h n p => _ ← AddSubscribeSourceNode h n p; mret tt
  | op_add_peer i j n p => _ ← AddPeerSnsSourceNode i j n p; mret tt
  | op_remove_subscribe h n => _ ← RemoveSubscribeSourceNode h n; mret tt
  | op_remove_peer i j n => _ ← RemovePeerSnsSourceNode i j n; mret tt
  | op_node_info ni w => SendNodeInfo ni w
  | op_announce ai w => SendAnnounceInfo ai w
  | op_subscribe si w => _ ← SendSubscribeInfo si w; mret tt
  | op_data p ttl ctx stream fl data => SendData p ttl ctx stream fl data
  | op_create_stream ctx p => _ ← Session_CreateStream ctx p; mret tt
  | op_close_stream ctx stream fl => Session_CloseStream ctx stream fl
  end.

(** The nodes are nodes of the mesh and data does not travel on the control
    context; [exact] excludes the removal of a single node. *)
Definition op_ok (N : gset Z) (exact : bool) (control_ctx : Z) (op : SessionOp) : Prop :=
  match op with
  | op_add_subscribe _ n p | op_add_peer _ _ n p => n ∈ N ∧ in_range 8 p
  | op_remove_subscribe _ _ => exact = false
  | op_remove_peer _ _ n => n = 0 ∨ exact = false
  | op_data _ _ ctx _ _ _ => ctx ≠ control_ctx
  | _ => True
  end.

#[global] Instance op_ok_dec N exact ctx op : Decision (op_ok N exact ctx op).
Proof. destruct op; simpl; apply _. Defined.

Definition knows (exact : bool) : relation (gset Z) := if exact then (=) else (⊆).
#[global] Instance knows_refl exact : Reflexive (knows exact).
Proof. intros X. destruct exact; simpl; [done|]. set_solver. Qed.

Lemma neutral_control s bytes :
  sns_message bytes = None →
  neutral s (Enqueue (t_conn_id_ s) (control_data_ctx_id_ s) (control_stream_id_ s) bytes 0 1000 None).
Proof.
  intros Hm. split; [|intros t; by rewrite open_contexts_snoc].
  intros view. simpl. case_decide; [by rewrite Hm|done].
Qed.

(** A message that is not about a subscribe node set. *)
Lemma op_neutral s t op :
  ready s →
  match op with
  | op_add_subscribe _ _ _ | op_add_peer _ _ _ _ | op_remove_subscribe _ _ | op_remove_peer _ _ _ => True
  | op_data _ _ ctx _ _ _ => ctx ≠ control_data_ctx_id_ s → ∃ c, run_op op (s, t) = (Ok tt, (s, t ++ [c])) ∧ neutral s c
  | _ => ∃ c, run_op op (s, t) = (Ok tt, (s, t ++ [c])) ∧ neutral s c
  end.
Proof.
  intros [Hst Htr].
  destruct op; [done..| | | | | |];
    unfold run_op, SendNodeInfo, SendAnnounceInfo, SendSubscribeInfo, SendData, Session_CreateStream,
      Session_CloseStream, if_connected, enqueue_control, self, call, call_answer, mbind, st_bind, gets;
    cbn [fst snd]; rewrite ?(decide_True _ _ Hst); unfold SubscribeInfo_Serialize; cbn [fst snd];
    rewrite Htr; cbn [fst snd].
  1-3: eexists; (split; [reflexivity|]); apply neutral_control, sns_message_other; destruct withdraw; decide_now.
  - intros Hctx. eexists. split; [reflexivity|]. split; [|intros ?; by rewrite open_contexts_snoc].
    intros view. simpl. rewrite decide_False; [done|]. by intros (_ & ? & _).
  - eexists. split; [reflexivity|]. split; [done|]. intros ?. by rewrite open_contexts_snoc.
  - eexists. split; [reflexivity|]. split; [done|]. intros ?. by rewrite open_contexts_snoc.
Qed.

Section runs.
Context `{!TransportLaws} (N : gset Z) (HN : set_Forall (in_range 64) N) (Nsize : in_range 16 (Z.of_nat (size N))).
Context (exact : bool).

Lemma run_op_inv op s t :
  op_ok N exact (control_data_ctx_id_ s) op → Z.of_nat (length t) < 2 ^ 32 - 1 → sns_inv N (knows exact) s t →
  ∃ s' t', run_op op (s, t) = (Ok tt, (s', t')) ∧ sns_inv N (knows exact) s' t' ∧
    (length t' ≤ length t + 2)%nat ∧ same_wiring s s'.
Proof using All.
  intros Hop Hlen Hinv. pose proof (inv_ready _ _ _ _ Hinv) as Hr. pose proof (op_neutral s t op Hr) as Hneu.
  assert (∀ n : Z, exact = false → ∀ a known, knows exact a known → knows exact (a ∖ {[n]}) known) as Hk.
  { intros n -> a known Ha. simpl in *. set_solver. }
  assert (same_wiring s s) as Hsame by done.
  assert (∀ c, neutral s c → run_op op (s, t) = (Ok tt, (s, t ++ [c])) →
    ∃ s' t', run_op op (s, t) = (Ok tt, (s', t')) ∧ sns_inv N (knows exact) s' t' ∧
      (length t' ≤ length t + 2)%nat ∧ same_wiring s s') as Hsend.
  { intros c Hc Hrun. eexists _, _. split_and!; [exact Hrun| | |done].
    - by apply inv_neutral.
    - rewrite length_app. simpl. lia. }
  destruct op as [h n p|i j n p|h n|i j n|ni w|ai w|si w|p ttl ctx stream fl data|ctx p|ctx stream fl];
    cbn [run_op op_ok] in *; try (destruct Hneu as (c & Hrun & Hc); by apply (Hsend c)).
  - destruct Hop as [Hn Hp].
    destruct (inv_add N HN Nsize (knows exact) (inl h) n p s t Hn Hp Hlen Hinv) as (s' & t' & id & Hrun & Hi' & Hl' & Hw' & _).
    exists s', t'. split; [|done]. unfold AddSubscribeSourceNode, self, mbind, st_bind, gets. cbn [fst].
    cbn [sns_at] in Hrun. change (λ sns, set_sub_sns <[h := sns]>) with (set_at (inl h)). by rewrite Hrun.
  - destruct Hop as [Hn Hp].
    destruct (inv_add N HN Nsize (knows exact) (inr (i, j)) n p s t Hn Hp Hlen Hinv) as (s' & t' & id & Hrun & Hi' & Hl' & Hw' & _).
    exists s', t'. split; [|done]. unfold AddPeerSnsSourceNode, self, mbind, st_bind, gets. cbn [fst].
    cbn [sns_at] in Hrun. change (λ sns, set_peer_sns <[(i, j) := sns]>) with (set_at (inr (i, j))). by rewrite Hrun.
  - unfold RemoveSubscribeSourceNode, self, mbind, st_bind, gets. cbn [fst].
    destruct (sub_sns_ s !! h) as [sns|] eqn:Hs; [|exists s, t; split_and!; try done; lia].
    destruct (inv_remove N HN Nsize (knows exact) (inl h) n sns s t (Hk n Hop) Hinv Hs) as (s' & t' & Hrun & Hi' & Hl' & Hw' & _).
    exists s', t'. split; [|done].
    change (λ sns, set_sub_sns <[h := sns]>) with (λ x, set_at (inl h) x).
    change (set_sub_sns (delete h)) with (erase_at (inl h)). by rewrite Hrun.
  - unfold RemovePeerSnsSourceNode, self, mbind, st_bind, gets. cbn [fst].
    destruct (peer_sns_ s !! (i, j)) as [sns|] eqn:Hs; [|exists s, t; split_and!; try done; lia].
    destruct (decide (n = 0)) as [->|Hn].
    + rewrite SendSns_ok by done.
      exists (set_peer_sns (delete (i, j)) s), (t ++ [send_sns_call s sns true]). split; [reflexivity|]. split_and!; [| |done].
      * by apply (inv_remove_all N HN Nsize (knows exact) (inr (i, j))).
      * rewrite length_app. simpl. lia.
    + destruct Hop as [|Hop]; [done|].
      destruct (inv_remove N HN Nsize (knows exact) (inr (i, j)) n sns s t (Hk n Hop) Hinv Hs) as (s' & t' & Hrun & Hi' & Hl' & Hw' & _).
      exists s', t'. split; [|done].
      change (λ sns, set_peer_sns <[(i, j) := sns]>) with (λ x, set_at (inr (i, j)) x).
      change (set_peer_sns (delete (i, j))) with (erase_at (inr (i, j))). by rewrite Hrun.
  - destruct (Hneu Hop) as (c & Hrun & Hc). by apply (Hsend c).
Qed.

Lemma for_each_run_inv ops : ∀ s t,
  Forall (op_ok N exact (control_data_ctx_id_ s)) ops →
  Z.of_nat (length t + 2 * length ops) < 2 ^ 32 - 1 → sns_inv N (knows exact) s t →
  ∃ s' t', for_each ops run_op (s, t) = (Ok tt, (s', t')) ∧ sns_inv N (knows exact) s' t'.
Proof using All.
  induction ops as [|op ops IH]; intros s t Hok Hlen Hinv; [by eexists _, _|].
  inversion Hok as [|? ? Hop Hops]; subst. cbn [length] in Hlen.
  destruct (run_op_inv op s t) as (s1 & t1 & Hrun & Hinv1 & Hl & Hw); [done|lia|done|].
  cbn [for_each]. rewrite (bind_ok _ _ _ _ _ Hrun). apply IH; [|lia|done].
  by rewrite (proj1 (proj2 Hw)).
Qed.
End runs.
End sns.

(** ** Properties *)

Section properties.
Context `{TransportLaws, UintVar, TrackNames}.

(** C12: the neighbour's view follows the tables.  After any sequence of
    operations of a session that starts with empty tables, the neighbour knows
    exactly the set ids in use, no two sets share an id, and for each set it
    knows at least its nodes; it knows exactly its nodes when no single node was
    removed. *)
Theorem sns_view_follows_tables (N : gset Z) (exact : bool) (ops : list SessionOp) s t :
  set_Forall (in_range 64) N → in_range 16 (Z.of_nat (size N)) →
  ready s → sub_sns_ s = ∅ → peer_sns_ s = ∅ → sns_view s t = ∅ →
  Z.of_nat (length t + 2 * length ops) < 2 ^ 32 - 1 →
  Forall (op_ok N exact (control_data_ctx_id_ s)) ops →
  ∃ s' t', for_each ops run_op (s, t) = (Ok tt, (s', t')) ∧
    (∀ i, is_Some (sns_view s' t' !! i) ↔ ∃ k sns, sns_at s' k = Some sns ∧ sns_id sns = i) ∧
    (∀ k k' sns sns', sns_at s' k = Some sns → sns_at s' k' = Some sns' → sns_id sns = sns_id sns' → k = k') ∧
    ∀ k sns, sns_at s' k = Some sns → ∃ known, sns_view s' t' !! sns_id sns = Some known ∧
      if exact then known = sns_nodes sns else sns_nodes sns ⊆ known.
Proof.
  intros HN Hsize Hr Hsub Hpeer Hview Hlen Hok.
  destruct (for_each_run_inv N HN Hsize exact ops s t Hok Hlen) as (s' & t' & Hrun & Hinv).
  { assert (∀ k, sns_at s k = None) as Hnone by (intros [h|k]; simpl; by rewrite ?Hsub, ?Hpeer).
    split; [done| | | |].
    - intros k sns. by rewrite Hnone.
    - intros k k' sns sns'. by rewrite Hnone.
    - intros k sns. by rewrite Hnone.
    - intros i. rewrite Hview. by intros [??]. }
  destruct Hinv as [_ _ Hids Hk Ho]. exists s', t'. split_and!; [done| |done|].
  - intros i. split; [apply Ho|]. intros (k & sns & Hs & <-). destruct (Hk k sns Hs) as (known & -> & _). eauto.
  - intros k sns Hs. destruct (Hk k sns Hs) as (known & Hv & Hkn). exists known. split; [done|].
    by destruct exact; simpl in Hkn.
Qed.

(** When a subscribe source node leaves a set that keeps other nodes, the
    table loses it but nothing is sent: the neighbour goes on knowing it. *)
Theorem removed_node_still_advertised full_name_hash n sns s t :
  ready s → sub_sns_ s !! full_name_hash = Some sns → n ∈ sns_nodes sns → ¬ sns_nodes sns ⊆ {[n]} →
  ∃ s', RemoveSubscribeSourceNode full_name_hash n (s, t) = (Ok (true, false), (s', t)) ∧
    sub_sns_ s' !! full_name_hash = Some (without_node n sns) ∧ sns_view s' t = sns_view s t.
Proof.
  intros Hr Hs Hn Hne.
  exists (set_at (inl full_name_hash) (without_node n sns) s).
  unfold RemoveSubscribeSourceNode, self. rewrite (bind_ok (gets fst) _ (s, t) s (s, t)) by done. rewrite Hs.
  pose proof (remove_source_node_ok (inl full_name_hash) sns n s t Hr) as Hop.
  rewrite decide_False in Hop by by rewrite <- difference_empty_iff in Hne.
  rewrite bool_decide_eq_true_2 in Hop by done. split_and!; [exact Hop| |].
  - simpl. by rewrite lookup_insert_eq.
  - apply sns_view_wiring, set_at_wiring.
Qed.
End properties.

(** ** Witnesses *)

Import Quicr.Demo DemoTransport.

Definition demo_session : PeerSession :=
  set_transport true (set_status kStatusConnected
    (PeerSession_make (0, 7) true 42 demo_node (mkRemote [] 0))).

Definition demo_ops : list SessionOp :=
  [op_add_subscribe 11 70 1; op_add_subscribe 11 80 1; op_add_peer 5 3 70 1;
   op_subscribe demo_subscribe false; op_remove_peer 5 3 0; op_data 1 100 1 9 default_flags [1; 2]].

Lemma sns_view_follows_tables_witness :
  ∃ s' t', for_each demo_ops run_op (demo_session, []) = (Ok tt, (s', t')) ∧
    (∀ i, is_Some (sns_view s' t' !! i) ↔ ∃ k sns, sns_at s' k = Some sns ∧ sns_id sns = i) ∧
    (∀ k k' sns sns', sns_at s' k = Some sns → sns_at s' k' = Some sns' → sns_id sns = sns_id sns' → k = k') ∧
    ∀ k sns, sns_at s' k = Some sns → ∃ known, sns_view s' t' !! sns_id sns = Some known ∧
      known = sns_nodes sns.
Proof.
  apply (sns_view_follows_tables {[70; 80]} true demo_ops demo_session []);
    [decide_now|decide_now|by split|done|done|done|done|decide_now].
Defined.

Definition demo_session2 : PeerSession := set_sub_sns <[11 := mkSNS 4 2 {[70; 80]}]> demo_session.

Lemma removed_node_still_advertised_witness :
  ∃ s', RemoveSubscribeSourceNode 11 70 (demo_session2, []) = (Ok (true, false), (s', [])) ∧
    sub_sns_ s' !! 11 = Some (without_node 70 (mkSNS 4 2 {[70; 80]})) ∧ sns_view s' [] = sns_view demo_session2 [].
Proof.
  apply (removed_node_still_advertised 11 70 (mkSNS 4 2 {[70; 80]}) demo_session2 []);
    [by split|vm_refl|decide_now|decide_now].
Defined.
