(* ===== verification/PeerSessionEvents.v ===== *)
(** * Events of a peer session (class PeerSession, src/peering/peer_session.cc)

    What a session does when the transport reports something.  It calls back
    into its manager, which is reached through an interface: the handlers are
    defined, and their properties proved, for any manager. *)

From S2P Require Import Prelude Common Quicr NodeInfo Connect DataHeader SubscribeInfo SubscribeNodeSet AnnounceInfo InfoBase Transport PeerSession.

(** [std::any] of a stream context: the peering code stores a data header in
    it. *)
Inductive caller_any := any_empty | any_header (d : DataHeader) | any_other.

(** [quicr::StreamRxContext]; the queue may hold expired elements, for which
    [Pop] returns nothing. *)
Record StreamRxContext := mkRx { data_queue : list (option (list Z)); rx_any : caller_any }.

(** The objects at their addresses, the transport's trace and the contexts of
    received streams, inside a larger state. *)
Class SessionStore (W : Type) := {
  w_session : SessRef → W → option PeerSession;
  w_set_session : SessRef → PeerSession → W → W;
  w_trace : W → Trace;
  w_set_trace : Trace → W → W;
  w_rx : Z * Z → W → option StreamRxContext;      (* GetStreamRxContext(conn, stream) *)
  w_set_rx : Z * Z → StreamRxContext → W → W;
}.

(** The manager as its sessions see it: the callbacks. *)
Class PeerManagerI `{TrackNames} (W : Type) := {
  m_NodeReceived : Z → NodeInfo → bool → ST W unit;
  m_SessionChanged : Z → StatusValue → NodeInfo → ST W unit;
  m_InfoBaseSyncPeer : SessRef → ST W unit;
  m_SnsReceived : SessRef → SubscribeNodeSet → bool → ST W unit;
  m_SubscribeInfoReceived : Z → SubscribeInfo → bool → ST W unit;
  m_AnnounceInfoReceived : Z → AnnounceInfo → bool → ST W unit;
  m_ForwardPeerData : Z → bool → Z → DataHeader → list Z → Z → EnqueueFlags → ST W unit;
  m_CloseStream : Z → Z → Z → Z → StreamClosedFlag → ST W unit;
}.

Section on_session.
Context {W : Type} `{!SessionStore W}.

(** Running a method of the session at an address. *)
Definition on_session {A} (this : SessRef) (m : ST Sess A) : ST W A := λ w,
  match w_session this w with
  | None => (UB, w)
  | Some s => match m (s, w_trace w) with
              | (o, (s', t')) => (o, w_set_session this s' (w_set_trace t' w))
              end
  end.

Definition the_session (this : SessRef) : ST W PeerSession := on_session this self.
End on_session.

Section events.
Context `{UintVar, TrackNames, Transport} {W : Type} `{!SessionStore W, !PeerManagerI W}.

(** [manager_.SessionChanged(GetSessionId(), status_, remote_node_info_)] *)
Definition session_changed (this : SessRef) : ST W unit :=
  s ← the_session this;
  m_SessionChanged (GetSessionId s) (status_ s) (remote_node_info_ s).

(** ** Control messages *)

(** The [switch] of ProcessControlMessage. *)
Definition dispatch (this : SessRef) (type : Z) (msg_bytes : list Z) : ST W unit :=
  s ← the_session this;
  let id := GetSessionId s in
  if decide (type = MsgType.kConnect) then
    connect ← lift_outcome (run_decoder Connect_read msg_bytes);
    on_session this (modify_self (set_remote (c_node_info connect))) ;;
    on_session this (modify_self (set_status kStatusConnected)) ;;
    m_NodeReceived id (c_node_info connect) false ;;
    session_changed this ;;
    on_session this SendConnectOk ;;
    m_InfoBaseSyncPeer this
  else if decide (type = MsgType.kConnectResponse) then
    connect_resp ← lift_outcome (run_decoder ConnectResponse_read msg_bytes);
    (if decide (cr_error connect_resp = ProtocolError.kNoError) then
       node_info ← deref (cr_node_info connect_resp);
       on_session this (modify_self (set_remote node_info)) ;;
       m_NodeReceived id node_info false ;;
       m_InfoBaseSyncPeer this
     else mret tt) ;;
    on_session this (modify_self (set_status kStatusConnected)) ;;
    session_changed this ;;
    m_InfoBaseSyncPeer this
  else if decide (type = MsgType.kSubscribeNodeSetAdvertised) then
    sns ← lift_outcome (run_decoder (SNS_read false) msg_bytes);
    m_SnsReceived this sns false
  else if decide (type = MsgType.kSubscribeNodeSetWithdrawn) then
    sns ← lift_outcome (run_decoder (SNS_read true) msg_bytes);
    m_SnsReceived this sns true
  else if decide (type = MsgType.kNodeInfoAdvertise) then
    node_info ← lift_outcome (run_decoder NodeInfo_read msg_bytes);
    m_NodeReceived id node_info false
  else if decide (type = MsgType.kNodeInfoWithdrawn) then
    node_info ← lift_outcome (run_decoder NodeInfo_read msg_bytes);
    m_NodeReceived id node_info true
  else if decide (type = MsgType.kSubscribeInfoAdvertised) then
    subscribe_info ← lift_outcome (run_decoder SubscribeInfo_read msg_bytes);
    m_SubscribeInfoReceived id subscribe_info false
  else if decide (type = MsgType.kSubscribeInfoWithdrawn) then
    subscribe_info ← lift_outcome (run_decoder SubscribeInfo_read msg_bytes);
    m_SubscribeInfoReceived id subscribe_info true
  else if decide (type = MsgType.kAnnounceInfoAdvertised) then
    announce_info ← lift_outcome (run_decoder AnnounceInfo_read msg_bytes);
    m_AnnounceInfoReceived id announce_info false
  else if decide (type = MsgType.kAnnounceInfoWithdrawn) then
    announce_info ← lift_outcome (run_decoder AnnounceInfo_read msg_bytes);
    m_AnnounceInfoReceived id announce_info true
  else mret tt.

(** [std::span{ cursor_it, cursor_it + n }] of a vector. *)
Definition span (n : Z) (bytes : list Z) : option (list Z) :=
  if decide (Z.of_nat (length bytes) < n) then None else Some (take (Z.to_nat n) bytes).

(** [void ProcessControlMessage()].  The sum [kCommonHeadersSize + data_len]
    is a 32-bit one. *)
Definition ProcessControlMessage (this : SessRef) : ST W unit :=
  try_catch (
    s ← the_session this;
    let buffer := controL_msg_buffer_ s in
    if decide (kCommonHeadersSize ≤ Z.of_nat (length buffer)) then
      type ← deref (ValueOf kIsBigEndian true 2 (take 2 (drop 1 buffer)));
      data_len ← deref (ValueOf kIsBigEndian true 4 (take 4 (drop 3 buffer)));
      if decide (u32 (kCommonHeadersSize + data_len) ≤ Z.of_nat (length buffer)) then
        msg_bytes ← deref (span data_len (drop 7 buffer));
        dispatch this type msg_bytes ;;
        on_session this (modify_self (set_buffer (drop (Z.to_nat (kCommonHeadersSize + data_len)))))
      else mret tt
    else mret tt)
  (λ _, on_session this (modify_self (set_buffer (λ _, [])))).

(** ** Received data *)

Definition get_any (key : Z * Z) : ST W caller_any :=
  rx ← gets (w_rx key); rx ← deref rx; mret (rx_any rx).
Definition set_any (key : Z * Z) (a : caller_any) : ST W unit :=
  rx ← gets (w_rx key); rx ← deref rx; modify (w_set_rx key (mkRx (data_queue rx) a)).

(** [std::any_cast<DataHeader&>(ctx)] *)
Definition cast_header (a : caller_any) : ST W DataHeader :=
  match a with any_header d => mret d | _ => throw bad_any_cast end.

(** [bool ProcessReceivedData(stream_id, ctx, data)], [ctx] being the
    [caller_any] of the stream context at [key]. *)
Definition ProcessReceivedData (this : SessRef) (stream_id : option Z) (key : Z * Z) (data : list Z) :
    ST W bool :=
  s ← the_session this;
  let eflags := mkFlags (bool_decide (is_Some stream_id)) (other_flags default_flags) in
  ctx ← get_any key;
  match ctx with
  | any_empty =>
      set_any key (any_header DataHeader_default) ;;
      hdr_len ← deref (head data);
      if decide (Z.of_nat (length data) < hdr_len) then mret false
      else
        match Deserialize data DataHeader_default with
        | (Ok _, d) =>
            set_any key (any_header d) ;;
            m_ForwardPeerData (GetSessionId s) true (default 0 stream_id) d data hdr_len eflags ;;
            mret true
        | (Throw e, d) => set_any key (any_header d) ;; throw e
        | (UB, _) => undefined
        end
  | _ =>
      data_header ← cast_header ctx;
      m_ForwardPeerData (GetSessionId s) false (default 0 stream_id) data_header data 0 eflags ;;
      mret true
  end.

(** The loop of OnRecvStream; every round takes an element off the queue, so
    its length at the start is enough fuel. *)
Fixpoint recv_loop (fuel : nat) (this : SessRef) (conn_id stream_id : Z) (data_ctx_id : option Z)
    (is_bidir : bool) (i : Z) : ST W unit :=
  match fuel with
  | O => mret tt
  | S fuel =>
      if decide (i < kReadLoopMaxPerStream) then
        rx ← gets (w_rx (conn_id, stream_id));
        rx ← deref rx;
        match data_queue rx with
        | [] => mret tt
        | data_opt :: queue =>
            modify (w_set_rx (conn_id, stream_id) (mkRx queue (rx_any rx))) ;;
            match data_opt with
            | None => mret tt
            | Some data =>
                if is_bidir then
                  ctx ← deref data_ctx_id;
                  on_session this (modify_self (set_control_ctx ctx)) ;;
                  on_session this (modify_self (set_buffer (λ b, b ++ data))) ;;
                  ProcessControlMessage this ;;
                  recv_loop fuel this conn_id stream_id data_ctx_id is_bidir (i + 1)
                else
                  done ← ProcessReceivedData this (Some stream_id) (conn_id, stream_id) data;
                  recv_loop fuel this conn_id stream_id data_ctx_id is_bidir
                    (if (done : bool) then i + 1 else 59 + 1)
            end
        end
      else mret tt
  end.

(** [void OnRecvStream(conn_id, stream_id, data_ctx_id, is_bidir)] *)
Definition Session_OnRecvStream (this : SessRef) (conn_id stream_id : Z) (data_ctx_id : option Z)
    (is_bidir : bool) : ST W unit :=
  rx ← gets (w_rx (conn_id, stream_id));
  rx ← deref rx;
  recv_loop (length (data_queue rx)) this conn_id stream_id data_ctx_id is_bidir 0.

(** [void OnRecvDgram(conn_id, data_ctx_id)]; [dgrams] is what [Dequeue]
    returns, in order, before it returns nothing. *)
Definition Session_OnRecvDgram (this : SessRef) (dgrams : list (list Z)) : ST W unit :=
  for_each (take 80 dgrams) (λ data,
    data_header ← lift_outcome (DataHeader_of_span data);
    s ← the_session this;
    m_ForwardPeerData (GetSessionId s) false 0 data_header data (dh_header_len data_header)
      (mkFlags false [false; false; false])).

(** [void OnConnectionMetricsSampled(...)] *)
Definition Session_OnConnectionMetricsSampled (this : SessRef) (srtt_us_avg : Z) : ST W unit :=
  on_session this (modify_self (set_srtt srtt_us_avg)).

(** [void OnStreamClosed(connection_handle, stream_id, ..., flag)] *)
Definition Session_OnStreamClosed (this : SessRef) (connection_handle stream_id : Z)
    (flag : StreamClosedFlag) : ST W unit :=
  rx ← gets (w_rx (connection_handle, stream_id));
  match rx with
  | Some rx =>
      data_header ← cast_header (rx_any rx);
      m_CloseStream connection_handle (dh_sns_id data_header) stream_id
        (dh_track_full_name_hash data_header) flag
  | None => mret tt
  end.

(** ** Connection status *)

Definition status_change (status : TransportStatus) : ST Sess unit :=
  match status with
  | kReady => SendConnect
  | kConnecting | kOtherStatus => mret tt
  | _ => modify_self (set_status kStatusDisconnected)
  end.

(** [void OnConnectionStatus(conn_id, status)] *)
Definition Session_OnConnectionStatus (this : SessRef) (status : TransportStatus) : ST W unit :=
  on_session this (status_change status) ;;
  session_changed this.
End events.
