(* ===== verification/PeerSessionControl.v ===== *)
(** * The control stream of a peer session

    The messages of the control stream as data, what each makes the session do,
    and how ProcessControlMessage takes them from the bytes received. *)

From S2P Require Import Prelude Common Quicr NodeInfo Connect DataHeader SubscribeInfo SubscribeNodeSet AnnounceInfo InfoBase Transport PeerSession PeerSessionEvents.

(** The stores behind the interface behave as stores. *)
Class SessionStoreLaws (W : Type) `{SessionStore W} := {
  session_self r s w : w_session r w = Some s → w_set_session r s w = w;
  session_set r s0 s w : w_session r w = Some s0 → w_session r (w_set_session r s w) = Some s;
  session_set_set r s1 s2 w : w_set_session r s2 (w_set_session r s1 w) = w_set_session r s2 w;
  trace_self w : w_set_trace (w_trace w) w = w;
  trace_session r s w : w_trace (w_set_session r s w) = w_trace w;
  rx_set key rx0 rx w : w_rx key w = Some rx0 → w_rx key (w_set_rx key rx w) = Some rx;
  rx_set_set key rx1 rx2 w : w_set_rx key rx2 (w_set_rx key rx1 w) = w_set_rx key rx2 w;
  session_rx r key rx w : w_session r (w_set_rx key rx w) = w_session r w;
  rx_session r key s w : w_rx key (w_set_session r s w) = w_rx key w;
  set_rx_session r s key rx w : w_set_rx key rx (w_set_session r s w) = w_set_session r s (w_set_rx key rx w);
}.

Section control.
Context `{UintVarLaws, TrackNamesLaws, Transport} {W : Type} `{!SessionStore W, !SessionStoreLaws W, !PeerManagerI W}.
Implicit Types w : W.

(** ** Messages *)

Inductive ControlMessage :=
  | cm_connect (c : Connect)
  | cm_response (r : ConnectResponse)
  | cm_sns (sns : SubscribeNodeSet)
  | cm_sns_withdrawn (id : Z)
  | cm_node (ni : NodeInfo) (withdraw : bool)
  | cm_subscribe (si : SubscribeInfo) (withdraw : bool)
  | cm_announce (ai : AnnounceInfo) (withdraw : bool).

Definition cm_type (m : ControlMessage) : Z :=
  match m with
  | cm_connect _ => MsgType.kConnect
  | cm_response _ => MsgType.kConnectResponse
  | cm_sns _ => MsgType.kSubscribeNodeSetAdvertised
  | cm_sns_withdrawn _ => MsgType.kSubscribeNodeSetWithdrawn
  | cm_node _ w => if w then MsgType.kNodeInfoWithdrawn else MsgType.kNodeInfoAdvertise
  | cm_subscribe _ w => if w then MsgType.kSubscribeInfoWithdrawn else MsgType.kSubscribeInfoAdvertised
  | cm_announce _ w => if w then MsgType.kAnnounceInfoWithdrawn else MsgType.kAnnounceInfoAdvertised
  end.

Definition cm_body (m : ControlMessage) : list Z :=
  match m with
  | cm_connect c => encode c
  | cm_response r => encode r
  | cm_sns sns => encode sns
  | cm_sns_withdrawn id => put 4 id
  | cm_node ni _ => encode ni
  | cm_subscribe si _ => encode si
  | cm_announce ai _ => encode ai
  end.

(** The bytes on the stream. *)
Definition cm_bytes (m : ControlMessage) : list Z :=
  common_headers (cm_type m) (Z.of_nat (length (cm_body m))) ++ cm_body m.

Definition cm_valid (m : ControlMessage) : Prop :=
  match m with
  | cm_connect c => msg_valid c
  | cm_response r => msg_valid r
  | cm_sns sns => msg_valid sns
  | cm_sns_withdrawn id => in_range 32 id
  | cm_node ni _ => msg_valid ni
  | cm_subscribe si _ => msg_valid si
  | cm_announce ai _ => msg_valid ai
  end ∧ in_range 32 (Z.of_nat (length (cm_bytes m))).

(** Every message the session sends has these bytes. *)
Lemma cm_bytes_sent :
  (∀ sns, SNS_wf sns → SNS_Serialize true false sns = cm_bytes (cm_sns sns)) ∧
  (∀ sns, SNS_Serialize true true sns = cm_bytes (cm_sns_withdrawn (sns_id sns))) ∧
  (∀ ni wd, NodeInfo_wf ni → NodeInfo_Serialize true wd ni = cm_bytes (cm_node ni wd)) ∧
  (∀ ai wd, AnnounceInfo_wf ai → AnnounceInfo_Serialize true wd ai = cm_bytes (cm_announce ai wd)) ∧
  (∀ si wd o, SubscribeInfo_wf si → (SubscribeInfo_Serialize true wd o si).1 =
     cm_bytes (cm_subscribe (SubscribeInfo_Serialize true wd o si).2 wd)) ∧
  (∀ c, Connect_wf c → Connect_Serialize c = cm_bytes (cm_connect c)) ∧
  (∀ r, ConnectResponse_wf r → ConnectResponse_Serialize r = Ok (cm_bytes (cm_response r))).
Proof.
  unfold cm_bytes, cm_type, cm_body. split_and!.
  - intros sns Hs. by rewrite (codec_size (M := SubscribeNodeSet)).
  - intros sns. rewrite length_put. done.
  - intros ni wd Hn. by rewrite (codec_size (M := NodeInfo)).
  - intros ai wd Ha. by rewrite (codec_size (M := AnnounceInfo)).
  - intros si wd o Hs. unfold SubscribeInfo_Serialize. cbn [fst snd].
    rewrite (codec_size (M := SubscribeInfo)); [done|]. destruct o; [by apply bump_seq_wf|done].
  - intros c Hc. by rewrite (codec_size (M := Connect)).
  - intros r Hr. rewrite (codec_size (M := ConnectResponse)) by done. by apply ConnectResponse_Serialize_framed.
Qed.

(** What a message makes the session and its manager do. *)
Definition handle (this : SessRef) (m : ControlMessage) : ST W unit :=
  s ← the_session this;
  let id := GetSessionId s in
  let connected := on_session this (modify_self (set_status kStatusConnected)) in
  match m with
  | cm_connect c =>
      on_session this (modify_self (set_remote (c_node_info c))) ;; connected ;;
      m_NodeReceived id (c_node_info c) false ;; session_changed this ;;
      on_session this SendConnectOk ;; m_InfoBaseSyncPeer this
  | cm_response r =>
      match cr_node_info r with
      | Some ni =>
          on_session this (modify_self (set_remote ni)) ;;
          m_NodeReceived id ni false ;; m_InfoBaseSyncPeer this
      | None => mret tt
      end ;; connected ;; session_changed this ;; m_InfoBaseSyncPeer this
  | cm_sns sns => m_SnsReceived this sns false
  | cm_sns_withdrawn i => m_SnsReceived this (mkSNS i 2 ∅) true
  | cm_node ni w => m_NodeReceived id ni w
  | cm_subscribe si w => m_SubscribeInfoReceived id si w
  | cm_announce ai w => m_AnnounceInfoReceived id ai w
  end.

(** The decoder of each message, on the body of the message. *)
Lemma decode_bind {M B} (dec : Dec M) (bytes : list Z) (m : M) (f : M → ST W B) w :
  run_decoder dec bytes = Ok m → (x ← lift_outcome (run_decoder dec bytes); f x) w = f m w.
Proof. intros Hd. unfold lift_outcome, mbind, st_bind. by rewrite Hd. Qed.

Ltac decide_types := repeat (rewrite decide_False by done); rewrite decide_True by done.

Lemma dispatch_handle this m w : cm_valid m → dispatch this (cm_type m) (cm_body m) w = handle this m w.
Proof.
  intros [Hm _]. unfold dispatch, handle. apply bind_ext. intros s w' _.
  destruct m as [c|r|sns|i|ni wd|si wd|ai wd]; try destruct wd; cbn [cm_type cm_body cm_valid] in *; decide_types.
  - by rewrite (decode_bind _ _ _ _ _ (codec_roundtrip c Hm)).
  - rewrite (decode_bind _ _ _ _ _ (codec_roundtrip r Hm)). destruct Hm as [_ Hm].
    destruct r as [err [ni|]]; cbn [cr_error cr_node_info] in *.
    + destruct Hm as [-> _]. by rewrite decide_True.
    + by rewrite decide_False.
  - by rewrite (decode_bind _ _ _ _ _ (codec_roundtrip sns Hm)).
  - rewrite (decode_bind _ _ (mkSNS i 2 ∅)); [done|]. unfold run_decoder, SNS_read.
    rewrite <- (app_nil_r (put _ _)). by decode.
  - by rewrite (decode_bind _ _ _ _ _ (codec_roundtrip ni Hm)).
  - by rewrite (decode_bind _ _ _ _ _ (codec_roundtrip ni Hm)).
  - by rewrite (decode_bind _ _ _ _ _ (codec_roundtrip si Hm)).
  - by rewrite (decode_bind _ _ _ _ _ (codec_roundtrip si Hm)).
  - by rewrite (decode_bind _ _ _ _ _ (codec_roundtrip ai Hm)).
  - by rewrite (decode_bind _ _ _ _ _ (codec_roundtrip ai Hm)).
Qed.

(** ** ProcessControlMessage *)

Lemma the_session_ok this s w : w_session this w = Some s → the_session this w = (Ok s, w).
Proof.
  intros Hs. unfold the_session, on_session. rewrite Hs. cbn. by rewrite trace_self, session_self.
Qed.

Lemma on_session_modify this f s w :
  w_session this w = Some s → on_session this (modify_self f) w = (Ok tt, w_set_session this (f s) w).
Proof. intros Hs. unfold on_session. rewrite Hs. cbn. by rewrite trace_self. Qed.

(** A whole message at the front of the buffer is handled and taken off. *)
Definition process (this : SessRef) (m : ControlMessage) : ST W unit :=
  try_catch (handle this m ;;
             on_session this (modify_self (set_buffer (drop (length (cm_bytes m))))))
            (λ _, on_session this (modify_self (set_buffer (λ _, [])))).

Lemma cm_bytes_length m : length (cm_bytes m) = (7 + length (cm_body m))%nat.
Proof. unfold cm_bytes. by rewrite length_app. Qed.

Lemma cm_type_range m : in_range 16 (cm_type m).
Proof. destruct m as [| | | |? wd|? wd|? wd]; try destruct wd; decide_now. Qed.

Lemma process_message this m rest s w :
  cm_valid m → w_session this w = Some s → controL_msg_buffer_ s = cm_bytes m ++ rest →
  ProcessControlMessage this w = process this m w.
Proof.
  intros Hm Hs Hb. pose proof (proj2 Hm) as Hl. rewrite cm_bytes_length in Hl.
  unfold ProcessControlMessage, process, try_catch.
  rewrite (bind_ok _ _ _ _ _ (the_session_ok _ _ _ Hs)). rewrite Hb. cbv zeta.
  assert (kCommonHeadersSize ≤ Z.of_nat (length (cm_bytes m ++ rest))) as H7
    by (rewrite length_app, cm_bytes_length; unfold kCommonHeadersSize; lia).
  rewrite decide_True by done.
  assert (∀ B (f : Z → ST W B), (x ← deref (ValueOf kIsBigEndian true 2 (take 2 (drop 1 (cm_bytes m ++ rest)))); f x) w =
    f (cm_type m) w) as Hty.
  { intros B f. unfold cm_bytes. rewrite <- app_assoc, common_headers_type by apply cm_type_range. done. }
  assert (∀ B (f : Z → ST W B), (x ← deref (ValueOf kIsBigEndian true 4 (take 4 (drop 3 (cm_bytes m ++ rest)))); f x) w =
    f (Z.of_nat (length (cm_body m))) w) as Hsz.
  { intros B f. unfold cm_bytes. rewrite <- app_assoc, common_headers_size; [done|].
    unfold in_range in *. lia. }
  rewrite Hty, Hsz. rewrite wrap_small by (unfold in_range, kCommonHeadersSize in *; lia).
  rewrite decide_True by (rewrite length_app, cm_bytes_length; unfold kCommonHeadersSize; lia).
  assert (span (Z.of_nat (length (cm_body m))) (drop 7 (cm_bytes m ++ rest)) = Some (cm_body m)) as Hspan.
  { unfold span, cm_bytes. rewrite <- app_assoc, drop_app_length' by done.
    rewrite decide_False by (rewrite length_app; lia). by rewrite Nat2Z.id, take_app_length. }
  rewrite Hspan. rewrite (bind_ok (deref (Some _)) _ w (cm_body m) w) by done.
  unfold mbind, st_bind. rewrite (dispatch_handle this m w Hm).
  replace (Z.to_nat (kCommonHeadersSize + Z.of_nat (length (cm_body m)))) with (length (cm_bytes m));
    [done|]. rewrite cm_bytes_length. unfold kCommonHeadersSize. lia.
Qed.

(** An incomplete message is left in the buffer. *)
Lemma process_incomplete this m n s w :
  cm_valid m → (n < length (cm_bytes m))%nat →
  w_session this w = Some s → controL_msg_buffer_ s = take n (cm_bytes m) →
  ProcessControlMessage this w = (Ok tt, w).
Proof.
  intros Hm Hn Hs Hb. pose proof (proj2 Hm) as Hl. rewrite cm_bytes_length in Hl, Hn.
  unfold ProcessControlMessage, try_catch. rewrite (bind_ok _ _ _ _ _ (the_session_ok _ _ _ Hs)).
  rewrite Hb. cbv zeta. rewrite length_take, cm_bytes_length. unfold kCommonHeadersSize.
  destruct (decide (7 ≤ Z.of_nat (n `min` (7 + length (cm_body m))))) as [H7|H7]; [|done].
  assert (∀ i k, (i + k ≤ n)%nat → take k (drop i (take n (cm_bytes m))) = take k (drop i (cm_bytes m))) as Htd.
  { intros i k Hik. rewrite skipn_firstn_comm, take_take. f_equal. lia. }
  rewrite !Htd by lia.
  assert (ValueOf kIsBigEndian true 2 (take 2 (drop 1 (cm_bytes m))) = Some (cm_type m)) as ->
    by (unfold cm_bytes; apply common_headers_type, cm_type_range).
  assert (ValueOf kIsBigEndian true 4 (take 4 (drop 3 (cm_bytes m))) = Some (Z.of_nat (length (cm_body m)))) as ->
    by (unfold cm_bytes; apply common_headers_size; unfold in_range in *; lia).
  unfold deref, mbind, st_bind, mret, st_ret. rewrite wrap_small by (unfold in_range in *; lia).
  by rewrite decide_False by lia.
Qed.

(** ** OnRecvStream *)

(** One round of the loop on the control stream. *)
Lemma recv_round this conn sid ctx c q i k s a w :
  i < kReadLoopMaxPerStream → w_session this w = Some s → w_rx (conn, sid) w = Some (mkRx (Some c :: q) a) →
  recv_loop (S k) this conn sid (Some ctx) true i w =
  (ProcessControlMessage this ;; recv_loop k this conn sid (Some ctx) true (i + 1))
    (w_set_session this (set_buffer (λ _, controL_msg_buffer_ s ++ c) (set_control_ctx ctx s))
      (w_set_rx (conn, sid) (mkRx q a) w)).
Proof.
  intros Hi Hs Hrx. cbn [recv_loop]. rewrite decide_True by lia.
  rewrite (bind_ok (gets _) _ w (Some (mkRx (Some c :: q) a)) w) by (unfold gets; by rewrite Hrx).
  rewrite (bind_ok (deref _) _ w (mkRx (Some c :: q) a) w) by done. cbn [data_queue].
  set (w1 := w_set_rx (conn, sid) (mkRx q a) w).
  rewrite (bind_ok (modify _) _ w tt w1) by done. rewrite (bind_ok (deref _) _ w1 ctx w1) by done.
  assert (w_session this w1 = Some s) as Hs1 by (unfold w1; by rewrite session_rx).
  rewrite (bind_ok _ _ _ _ _ (on_session_modify _ _ _ _ Hs1)).
  assert (w_session this (w_set_session this (set_control_ctx ctx s) w1) = Some (set_control_ctx ctx s)) as Hs2
    by (by apply session_set with s).
  rewrite (bind_ok _ _ _ _ _ (on_session_modify _ _ _ _ Hs2)). by rewrite session_set_set.
Qed.

(** Pieces that do not complete the message are put behind what is there. *)
Lemma recv_loop_partial this conn sid ctx m q a chunks : ∀ i k pre rest s w,
  cm_valid m → chunks ≠ [] → rest ≠ [] → pre ++ concat chunks ++ rest = cm_bytes m →
  i + Z.of_nat (length chunks) ≤ kReadLoopMaxPerStream →
  w_session this w = Some s → controL_msg_buffer_ s = pre →
  w_rx (conn, sid) w = Some (mkRx ((Some <$> chunks) ++ q) a) →
  recv_loop (length chunks + k) this conn sid (Some ctx) true i w =
  recv_loop k this conn sid (Some ctx) true (i + Z.of_nat (length chunks))
    (w_set_session this (set_buffer (λ _, pre ++ concat chunks) (set_control_ctx ctx s))
      (w_set_rx (conn, sid) (mkRx q a) w)).
Proof.
  induction chunks as [|c chunks IH]; intros i k pre rest s w Hm Hne Hrest Hpre Hi Hs Hb Hrx; [done|].
  cbn [concat length] in Hpre, Hi |- *. cbn [Nat.add fmap list_fmap app] in Hrx |- *.
  rewrite (recv_round this conn sid ctx c _ i _ s a w) by (done || lia). rewrite Hb.
  set (s1 := set_buffer _ _). set (w1 := w_set_session _ _ _).
  assert (w_session this w1 = Some s1) as Hs1 by (apply session_set with s; by rewrite session_rx).
  assert (controL_msg_buffer_ s1 = take (length (pre ++ c)) (cm_bytes m)) as Hb1
    by (by rewrite <- Hpre, <- app_assoc, app_assoc, take_app_length).
  assert (length (pre ++ c) < length (cm_bytes m))%nat as Hlen
    by (rewrite <- Hpre, !length_app; destruct rest; [done|cbn [length]; lia]).
  rewrite (bind_ok _ _ _ _ _ (process_incomplete this m _ s1 w1 Hm Hlen Hs1 Hb1)).
  destruct chunks as [|c' chunks].
  - cbn [concat length Nat.add]. by rewrite app_nil_r.
  - rewrite (IH (i + 1) k (pre ++ c) rest s1 w1); try done.
    + unfold w1. rewrite set_rx_session, session_set_set, rx_set_set, <- app_assoc. f_equal. cbn [length]. lia.
    + by rewrite <- Hpre, <- !app_assoc.
    + cbn [length] in *. lia.
    + unfold w1. rewrite rx_session. by apply rx_set with (mkRx (Some c :: (Some <$> c' :: chunks) ++ q) a).
Qed.

(** The piece with the last byte has the message handled. *)
Lemma recv_loop_last this conn sid ctx m c i pre s a w :
  cm_valid m → pre ++ c = cm_bytes m → i < kReadLoopMaxPerStream →
  w_session this w = Some s → controL_msg_buffer_ s = pre → w_rx (conn, sid) w = Some (mkRx [Some c] a) →
  recv_loop 1 this conn sid (Some ctx) true i w =
  process this m (w_set_session this (set_buffer (λ _, cm_bytes m) (set_control_ctx ctx s))
    (w_set_rx (conn, sid) (mkRx [] a) w)).
Proof.
  intros Hm Hpre Hi Hs Hb Hrx. rewrite (recv_round this conn sid ctx c [] i 0 s a w) by done. rewrite Hb, Hpre.
  set (s1 := set_buffer _ _). set (w1 := w_set_session _ _ _).
  assert (w_session this w1 = Some s1) as Hs1 by (apply session_set with s; by rewrite session_rx).
  unfold mbind, st_bind. rewrite (process_message this m [] s1 w1 Hm Hs1) by (by rewrite app_nil_r).
  by destruct (process this m w1) as [[[]|e|] w2].
Qed.

Lemma recv_loop_control this conn sid ctx m chunks i pre s a w :
  cm_valid m → chunks ≠ [] → Forall (λ c, c ≠ []) chunks → pre ++ concat chunks = cm_bytes m →
  i + Z.of_nat (length chunks) ≤ kReadLoopMaxPerStream →
  w_session this w = Some s → controL_msg_buffer_ s = pre →
  w_rx (conn, sid) w = Some (mkRx (Some <$> chunks) a) →
  recv_loop (length chunks) this conn sid (Some ctx) true i w =
  process this m (w_set_session this (set_buffer (λ _, cm_bytes m) (set_control_ctx ctx s))
    (w_set_rx (conn, sid) (mkRx [] a) w)).
Proof.
  intros Hm Hne Hall Hpre Hi Hs Hb Hrx. destruct (exists_last Hne) as (init & c & ->).
  rewrite concat_app in Hpre. cbn [concat] in Hpre. rewrite app_nil_r in Hpre. rewrite length_app in Hi |- *.
  cbn [length] in Hi |- *. apply Forall_app in Hall as [_ Hc]. apply (proj1 (Forall_singleton _ _)) in Hc.
  rewrite fmap_app in Hrx.
  destruct init as [|c0 init].
  - apply (recv_loop_last this conn sid ctx m c i pre); try done. cbn [length] in Hi. lia.
  - rewrite (recv_loop_partial this conn sid ctx m [Some c] a (c0 :: init) i 1 pre c s w)
      by (done || lia).
    set (s1 := set_buffer _ _). set (w1 := w_set_session _ _ _).
    rewrite (recv_loop_last this conn sid ctx m c _ (pre ++ concat (c0 :: init)) s1 a w1); try done.
    + unfold w1. by rewrite set_rx_session, session_set_set, rx_set_set.
    + by rewrite <- app_assoc.
    + lia.
    + apply session_set with s. by rewrite session_rx.
    + unfold w1. rewrite rx_session. by apply rx_set with (mkRx ((Some <$> c0 :: init) ++ [Some c]) a).
Qed.

(** A message that has arrived in pieces. *)
Lemma OnRecvStream_control this conn sid ctx m chunks s a w :
  cm_valid m → Forall (λ c, c ≠ []) chunks → concat chunks = cm_bytes m →
  Z.of_nat (length chunks) ≤ kReadLoopMaxPerStream →
  w_session this w = Some s → controL_msg_buffer_ s = [] →
  w_rx (conn, sid) w = Some (mkRx (Some <$> chunks) a) →
  Session_OnRecvStream this conn sid (Some ctx) true w =
  process this m (w_set_session this (set_buffer (λ _, cm_bytes m) (set_control_ctx ctx s))
    (w_set_rx (conn, sid) (mkRx [] a) w)).
Proof.
  intros Hm Hall Hcat Hlen Hs Hb Hrx. unfold Session_OnRecvStream.
  rewrite (bind_ok (gets _) _ w (Some (mkRx (Some <$> chunks) a)) w) by (unfold gets; by rewrite Hrx).
  rewrite (bind_ok (deref _) _ w (mkRx (Some <$> chunks) a) w) by done.
  cbn [data_queue]. rewrite length_fmap.
  apply (recv_loop_control this conn sid ctx m chunks 0 [] s a w); try done.
  intros ->. cbn [concat] in Hcat. by pose proof (f_equal length Hcat) as Hl; rewrite cm_bytes_length in Hl.
Qed.

(** The transport queues pieces of the control stream and calls the session. *)
Definition stream_arrives (this : SessRef) (conn sid ctx : Z) (pieces : list (list Z)) : ST W unit :=
  rx ← gets (w_rx (conn, sid));
  rx ← deref rx;
  modify (w_set_rx (conn, sid) (mkRx (data_queue rx ++ (Some <$> pieces)) (rx_any rx))) ;;
  Session_OnRecvStream this conn sid (Some ctx) true.

Lemma stream_arrives_loop this conn sid ctx pieces a w :
  w_rx (conn, sid) w = Some (mkRx [] a) →
  stream_arrives this conn sid ctx pieces w =
  recv_loop (length pieces) this conn sid (Some ctx) true 0 (w_set_rx (conn, sid) (mkRx (Some <$> pieces) a) w).
Proof.
  intros Hrx. unfold stream_arrives.
  rewrite (bind_ok (gets _) _ w (Some (mkRx [] a)) w) by (unfold gets; by rewrite Hrx).
  rewrite (bind_ok (deref _) _ w (mkRx [] a) w) by done. cbn [data_queue rx_any app].
  set (rx := mkRx (Some <$> pieces) a). set (w1 := w_set_rx _ rx w).
  rewrite (bind_ok (modify _) _ w tt w1) by done. unfold Session_OnRecvStream.
  assert (w_rx (conn, sid) w1 = Some rx) as Hrx1 by (by apply rx_set with (mkRx [] a)).
  rewrite (bind_ok (gets _) _ w1 (Some rx) w1) by (unfold gets; by rewrite Hrx1).
  rewrite (bind_ok (deref _) _ w1 rx w1) by done. unfold rx. cbn [data_queue]. by rewrite length_fmap.
Qed.

(** The state of a session and of its stream after the bytes [b] have come, none
    of which is handled yet. *)
Definition buffered (this : SessRef) (conn sid ctx : Z) (s : PeerSession) (a : caller_any) (b : list Z) (w : W) : W :=
  w_set_session this (set_buffer (λ _, b) (set_control_ctx ctx s)) (w_set_rx (conn, sid) (mkRx [] a) w).

Lemma buffered_buffered this conn sid ctx s a a' b b' w :
  buffered this conn sid ctx (set_buffer (λ _, b) (set_control_ctx ctx s)) a b' (buffered this conn sid ctx s a' b w) =
  buffered this conn sid ctx s a b' w.
Proof. unfold buffered. by rewrite set_rx_session, session_set_set, rx_set_set. Qed.

Lemma buffered_session this conn sid ctx s a b w : w_session this w = Some s →
  w_session this (buffered this conn sid ctx s a b w) = Some (set_buffer (λ _, b) (set_control_ctx ctx s)).
Proof. intros Hs. apply session_set with s. by rewrite session_rx. Qed.

Lemma buffered_rx this conn sid ctx s a b w : w_rx (conn, sid) w = Some (mkRx [] a) →
  w_rx (conn, sid) (buffered this conn sid ctx s a b w) = Some (mkRx [] a).
Proof. intros Hrx. unfold buffered. rewrite rx_session. by apply rx_set with (mkRx [] a). Qed.

(** A call that the transport makes: at least a piece, and not more than one call
    reads. *)
Definition stream_call (pieces : list (list Z)) : Prop :=
  pieces ≠ [] ∧ Z.of_nat (length pieces) ≤ kReadLoopMaxPerStream ∧ Forall (λ c, c ≠ []) pieces.

Lemma stream_arrives_incomplete this conn sid ctx m pieces rest pre a s w :
  cm_valid m → stream_call pieces → rest ≠ [] → pre ++ concat pieces ++ rest = cm_bytes m →
  w_session this w = Some s → controL_msg_buffer_ s = pre → w_rx (conn, sid) w = Some (mkRx [] a) →
  stream_arrives this conn sid ctx pieces w = (Ok tt, buffered this conn sid ctx s a (pre ++ concat pieces) w).
Proof.
  intros Hm (Hne & Hlen & _) Hrest Hpre Hs Hb Hrx. rewrite (stream_arrives_loop this conn sid ctx pieces a w Hrx).
  set (w1 := w_set_rx _ (mkRx (Some <$> pieces) a) w).
  assert (w_session this w1 = Some s) as Hs1 by (unfold w1; by rewrite session_rx).
  assert (w_rx (conn, sid) w1 = Some (mkRx (Some <$> pieces) a)) as Hrx1 by (by apply rx_set with (mkRx [] a)).
  pose proof (recv_loop_partial this conn sid ctx m [] a pieces 0 0 pre rest s w1 Hm Hne Hrest Hpre Hlen Hs1 Hb) as Hloop.
  rewrite app_nil_r, Nat.add_0_r in Hloop. rewrite (Hloop Hrx1). unfold buffered, w1. by rewrite rx_set_set.
Qed.

Lemma stream_arrives_complete this conn sid ctx m pieces pre a s w :
  cm_valid m → stream_call pieces → pre ++ concat pieces = cm_bytes m →
  w_session this w = Some s → controL_msg_buffer_ s = pre → w_rx (conn, sid) w = Some (mkRx [] a) →
  stream_arrives this conn sid ctx pieces w = process this m (buffered this conn sid ctx s a (cm_bytes m) w).
Proof.
  intros Hm (Hne & Hlen & Hall) Hpre Hs Hb Hrx. rewrite (stream_arrives_loop this conn sid ctx pieces a w Hrx).
  rewrite (recv_loop_control this conn sid ctx m pieces 0 pre s a).
  - unfold buffered. by rewrite rx_set_set.
  - done.
  - done.
  - done.
  - done.
  - lia.
  - by rewrite session_rx.
  - done.
  - by apply rx_set with (mkRx [] a).
Qed.

(** What the calls before the last one leave. *)
Lemma stream_arrives_prefix this conn sid ctx m a batches : ∀ pre rest s w,
  cm_valid m → batches ≠ [] → Forall stream_call batches → rest ≠ [] →
  pre ++ concat (concat batches) ++ rest = cm_bytes m →
  w_session this w = Some s → controL_msg_buffer_ s = pre → w_rx (conn, sid) w = Some (mkRx [] a) →
  for_each batches (stream_arrives this conn sid ctx) w =
  (Ok tt, buffered this conn sid ctx s a (pre ++ concat (concat batches)) w).
Proof.
  induction batches as [|pieces batches IH]; intros pre rest s w Hm Hne Hb Hrest Hpre Hs Hbuf Hrx; [done|].
  apply Forall_cons in Hb as [Hp Hb]. cbn [concat for_each] in Hpre |- *. rewrite concat_app in Hpre |- *.
  rewrite <- app_assoc in Hpre.
  rewrite (bind_ok _ _ _ _ _ (stream_arrives_incomplete this conn sid ctx m pieces (concat (concat batches) ++ rest)
    pre a s w Hm Hp ltac:(by intros [_ ?]%app_eq_nil) Hpre Hs Hbuf Hrx)).
  destruct batches as [|p' batches]; [cbn [concat]; by rewrite app_nil_r|].
  rewrite (IH (pre ++ concat pieces) rest (set_buffer (λ _, pre ++ concat pieces) (set_control_ctx ctx s))).
  - by rewrite buffered_buffered, app_assoc.
  - done.
  - done.
  - done.
  - done.
  - by rewrite <- app_assoc.
  - by apply buffered_session.
  - done.
  - by apply buffered_rx.
Qed.

Lemma stream_call_bytes pieces : stream_call pieces → concat pieces ≠ [].
Proof. intros (Hne & _ & Hall). destruct pieces as [|c pieces]; [done|]. apply Forall_cons in Hall as [Hc _]. by destruct c. Qed.

Lemma stream_arrives_last this conn sid ctx m a batches last s w :
  cm_valid m → Forall stream_call (batches ++ [last]) → concat (concat (batches ++ [last])) = cm_bytes m →
  w_session this w = Some s → controL_msg_buffer_ s = [] → w_rx (conn, sid) w = Some (mkRx [] a) →
  for_each (batches ++ [last]) (stream_arrives this conn sid ctx) w =
  process this m (buffered this conn sid ctx s a (cm_bytes m) w).
Proof.
  intros Hm [Hb Hl]%Forall_app Hcat Hs Hbuf Hrx. apply (proj1 (Forall_singleton _ _)) in Hl.
  rewrite !concat_app in Hcat. cbn [concat] in Hcat. rewrite app_nil_r in Hcat. rewrite for_each_app.
  destruct batches as [|pieces batches].
  - cbn [for_each]. unfold mbind, mret, st_bind, st_ret.
    rewrite (stream_arrives_complete this conn sid ctx m last [] a s w) by done.
    by destruct (process this m _) as [[[]|e|] w2].
  - rewrite (bind_ok _ _ _ _ _ (stream_arrives_prefix this conn sid ctx m a (pieces :: batches) [] (concat last) s w
      Hm ltac:(done) Hb (stream_call_bytes last Hl) Hcat Hs Hbuf Hrx)).
    cbn [for_each]. unfold mbind, mret, st_bind, st_ret. rewrite app_nil_l.
    rewrite (stream_arrives_complete this conn sid ctx m last (concat (concat (pieces :: batches))) a
      (set_buffer (λ _, concat (concat (pieces :: batches))) (set_control_ctx ctx s))).
    + rewrite buffered_buffered. by destruct (process this m _) as [[[]|e|] w2].
    + done.
    + done.
    + done.
    + by apply buffered_session.
    + done.
    + by apply buffered_rx.
Qed.

(** ** Received data *)

Lemma get_any_ok key rx w : w_rx key w = Some rx → get_any key w = (Ok (rx_any rx), w).
Proof. intros Hrx. unfold get_any, gets, mbind, st_bind. by rewrite Hrx. Qed.

Lemma set_any_ok key rx a w :
  w_rx key w = Some rx → set_any key a w = (Ok tt, w_set_rx key (mkRx (data_queue rx) a) w).
Proof. intros Hrx. unfold set_any, gets, mbind, st_bind. by rewrite Hrx. Qed.

(** The flags of forwarded stream data. *)
Definition stream_flags : EnqueueFlags := mkFlags true (other_flags default_flags).

Lemma received_short this sid key data len q s w :
  w_session this w = Some s → w_rx key w = Some (mkRx q any_empty) →
  head data = Some len → Z.of_nat (length data) < len →
  ProcessReceivedData this (Some sid) key data w =
    (Ok false, w_set_rx key (mkRx q (any_header DataHeader_default)) w).
Proof.
  intros Hs Hrx Hhd Hlen. unfold ProcessReceivedData.
  rewrite (bind_ok _ _ _ _ _ (the_session_ok _ _ _ Hs)), (bind_ok _ _ _ _ _ (get_any_ok _ _ _ Hrx)).
  cbn [rx_any]. rewrite (bind_ok _ _ _ _ _ (set_any_ok _ _ _ _ Hrx)). rewrite Hhd.
  unfold deref, mbind, st_bind, mret, st_ret. by rewrite decide_True.
Qed.

Lemma received_existing this sid key data d q s w :
  w_session this w = Some s → w_rx key w = Some (mkRx q (any_header d)) →
  ProcessReceivedData this (Some sid) key data w =
    (m_ForwardPeerData (GetSessionId s) false sid d data 0 stream_flags ;; mret true) w.
Proof.
  intros Hs Hrx. unfold ProcessReceivedData.
  by rewrite (bind_ok _ _ _ _ _ (the_session_ok _ _ _ Hs)), (bind_ok _ _ _ _ _ (get_any_ok _ _ _ Hrx)).
Qed.

Lemma received_new this sid key data d q s w :
  w_session this w = Some s → w_rx key w = Some (mkRx q any_empty) →
  Deserialize data DataHeader_default = (Ok true, d) →
  ProcessReceivedData this (Some sid) key data w =
    (m_ForwardPeerData (GetSessionId s) true sid d data (dh_header_len d) stream_flags ;; mret true)
      (w_set_rx key (mkRx q (any_header d)) w).
Proof.
  intros Hs Hrx Hdes. destruct (Deserialize_head _ _ _ Hdes) as [Hhd Hlen]. unfold ProcessReceivedData.
  rewrite (bind_ok _ _ _ _ _ (the_session_ok _ _ _ Hs)), (bind_ok _ _ _ _ _ (get_any_ok _ _ _ Hrx)).
  cbn [rx_any]. rewrite (bind_ok _ _ _ _ _ (set_any_ok _ _ _ _ Hrx)). cbn [data_queue].
  set (w1 := w_set_rx _ _ w).
  rewrite (bind_ok (deref _) _ w1 (dh_header_len d) w1) by (by rewrite Hhd).
  rewrite decide_False by lia. rewrite Hdes.
  assert (w_rx key w1 = Some (mkRx q (any_header DataHeader_default))) as Hrx1 by (by apply rx_set with (mkRx q any_empty)).
  rewrite (bind_ok _ _ _ _ _ (set_any_ok _ _ _ _ Hrx1)). cbn [data_queue]. unfold w1. by rewrite rx_set_set.
Qed.

(** ** Properties *)


(** One call handles one message: with further bytes behind a message,
    whole messages included, only the first is handled and taken off; and with
    less than a whole message nothing happens at all. *)
Theorem control_message_one_per_call this m rest n s s' w w' :
  cm_valid m → w_session this w = Some s → controL_msg_buffer_ s = cm_bytes m ++ rest →
  (n < length (cm_bytes m))%nat → w_session this w' = Some s' → controL_msg_buffer_ s' = take n (cm_bytes m) →
  ProcessControlMessage this w = process this m w ∧
  ProcessControlMessage this w' = (Ok tt, w').
Proof.
  intros Hm Hs Hb Hn Hs' Hb'. split; [by apply process_message with rest s|by apply process_incomplete with m n s'].
Qed.

(** The start of a data stream is forwarded with the header it carries and
    the payload offset, and what follows on the stream with the same header as
    existing data. *)
Theorem data_stream_forwarded this conn sid d bytes payload data2 q s w :
  DataHeader_wf d → dh_header_len d = 0 → dh_type d = DataType.kNewStream →
  DataHeader_Serialize d = Ok bytes →
  w_session this w = Some s → w_rx (conn, sid) w = Some (mkRx q any_empty) →
  let d' := mkDataHeader (Z.of_nat (length bytes)) (dh_type d) (dh_sns_id d)
              (dh_track_full_name_hash d) (dh_priority d) (dh_ttl d) in
  let w1 := w_set_rx (conn, sid) (mkRx q (any_header d')) w in
  ProcessReceivedData this (Some sid) (conn, sid) (bytes ++ payload) w =
    (m_ForwardPeerData (GetSessionId s) true sid d' (bytes ++ payload) (Z.of_nat (length bytes)) stream_flags ;;
     mret true) w1 ∧
  ProcessReceivedData this (Some sid) (conn, sid) data2 w1 =
    (m_ForwardPeerData (GetSessionId s) false sid d' data2 0 stream_flags ;; mret true) w1.
Proof.
  intros Hd Hl Hty Hser Hs Hrx d' w1.
  destruct (data_header_roundtrip d payload Hd Hl (or_intror Hty)) as (bytes' & Hser' & Hsz & Hdes).
  rewrite Hser in Hser'. injection Hser' as <-. rewrite decide_False in Hdes by (by rewrite Hty).
  rewrite <- Hsz in Hdes. fold d' in Hdes. split.
  - exact (received_new this sid (conn, sid) _ d' q s w Hs Hrx Hdes).
  - apply received_existing with q; unfold w1; [by rewrite session_rx|].
    by apply rx_set with (mkRx q any_empty).
Qed.

(** C32: a first piece that is shorter than the header it announces spoils the
    stream: the context already holds a default header, so what arrives later
    is forwarded as existing data of SNS 0, and its header is never parsed. *)
Theorem split_header_never_parsed this conn sid data len data2 q s w :
  w_session this w = Some s → w_rx (conn, sid) w = Some (mkRx q any_empty) →
  head data = Some len → Z.of_nat (length data) < len →
  let w1 := w_set_rx (conn, sid) (mkRx q (any_header DataHeader_default)) w in
  ProcessReceivedData this (Some sid) (conn, sid) data w = (Ok false, w1) ∧
  ProcessReceivedData this (Some sid) (conn, sid) data2 w1 =
    (m_ForwardPeerData (GetSessionId s) false sid DataHeader_default data2 0 stream_flags ;; mret true) w1 ∧
  dh_sns_id DataHeader_default = 0.
Proof.
  intros Hs Hrx Hhd Hlen w1. split_and!; [by apply received_short with len s| |done].
  apply received_existing with q; unfold w1; [by rewrite session_rx|].
  by apply rx_set with (mkRx q any_empty).
Qed.

(** A peer that answers a connect with an error is treated as connected:
    the session becomes connected, the manager is told so and sends it the
    whole information base. *)
Theorem rejected_connect_still_connects this r rest s w :
  cm_valid (cm_response r) → cr_error r ≠ ProtocolError.kNoError →
  w_session this w = Some s → controL_msg_buffer_ s = cm_bytes (cm_response r) ++ rest →
  ProcessControlMessage this w =
  try_catch ((on_session this (modify_self (set_status kStatusConnected)) ;;
              session_changed this ;; m_InfoBaseSyncPeer this) ;;
             on_session this (modify_self (set_buffer (drop (length (cm_bytes (cm_response r)))))))
            (λ _, on_session this (modify_self (set_buffer (λ _, [])))) w.
Proof.
  intros Hm Hr Hs Hb. rewrite (process_message this _ rest s w Hm Hs Hb). unfold process, try_catch.
  assert (handle this (cm_response r) w = (on_session this (modify_self (set_status kStatusConnected)) ;;
      session_changed this ;; m_InfoBaseSyncPeer this) w) as Heq.
  { unfold handle. rewrite (bind_ok _ _ _ _ _ (the_session_ok _ _ _ Hs)).
    destruct Hm as [[_ Hm] _]. destruct (cr_node_info r); [by destruct Hm|done]. }
  unfold mbind at 1 3, st_bind at 1 3. by rewrite Heq.
Qed.
End control.

(** ** A manager that records its callbacks *)

Module DemoManager.
Import Quicr.Demo DemoTransport.

Record World := mkWorld {
  heap : gmap SessRef PeerSession;
  rxs : gmap (Z * Z) StreamRxContext;
  trace : Trace;
  calls : list Z;   (* the number of each callback made *)
}.

Definition record {A} (n : Z) (a : A) : ST World A := λ w,
  (Ok a, mkWorld (heap w) (rxs w) (trace w) (calls w ++ [n])).

#[export] Instance store : SessionStore World := {|
  w_session r w := heap w !! r;
  w_set_session r s w := mkWorld (<[r := s]> (heap w)) (rxs w) (trace w) (calls w);
  w_trace := trace;
  w_set_trace t w := mkWorld (heap w) (rxs w) t (calls w);
  w_rx key w := rxs w !! key;
  w_set_rx key rx w := mkWorld (heap w) (<[key := rx]> (rxs w)) (trace w) (calls w);
|}.

#[export] Instance manager : PeerManagerI World := {|
  m_NodeReceived _ _ _ := record 1 tt;
  m_SessionChanged _ _ _ := record 2 tt;
  m_InfoBaseSyncPeer _ := record 3 tt;
  m_SnsReceived _ _ _ := record 4 tt;
  m_SubscribeInfoReceived _ _ _ := record 5 tt;
  m_AnnounceInfoReceived _ _ _ := record 6 tt;
  m_ForwardPeerData _ _ _ _ _ _ _ := record 7 tt;
  m_CloseStream _ _ _ _ _ := record 8 tt;
|}.

#[export] Instance store_laws : SessionStoreLaws World.
Proof.
  split; simpl; try done.
  - intros r s [h x t c] Hs. simpl in *. by rewrite insert_id.
  - intros. apply lookup_insert_eq.
  - intros. by rewrite insert_insert_eq.
  - by intros [].
  - intros. apply lookup_insert_eq.
  - intros. by rewrite insert_insert_eq.
Qed.
End DemoManager.

(** ** Witnesses *)

Import Quicr.Demo DemoTransport DemoManager.

Definition demo_peer : PeerSession :=
  set_transport true (set_status kStatusConnected (PeerSession_make (0, 7) true 42 demo_node (mkRemote [] 0))).
Definition demo_message : ControlMessage := cm_node demo_node false.
Definition demo_bytes : list Z := cm_bytes demo_message.
Definition demo_chunks : list (list Z) := [take 3 demo_bytes; take 20 (drop 3 demo_bytes); drop 23 demo_bytes].
Definition demo_world (buffer : list Z) (rx : StreamRxContext) : World :=
  mkWorld {[1 := set_buffer (λ _, buffer) demo_peer]} {[(42, 0) := rx]} [] [].

Lemma demo_message_valid : cm_valid demo_message.
Proof. split; [change (NodeInfo_wf demo_node); decide_now|decide_now]. Qed.


Lemma control_message_one_per_call_witness :
  (ProcessControlMessage 1 (demo_world (demo_bytes ++ demo_bytes) (mkRx [] any_empty)) =
    (Ok tt, mkWorld {[1 := set_buffer (λ _, demo_bytes) demo_peer]} {[(42, 0) := mkRx [] any_empty]} [] [1])) ∧
  ProcessControlMessage 1 (demo_world (take 30 demo_bytes) (mkRx [] any_empty)) =
    (Ok tt, demo_world (take 30 demo_bytes) (mkRx [] any_empty)).
Proof.
  destruct (control_message_one_per_call 1 demo_message demo_bytes 30
    (set_buffer (λ _, demo_bytes ++ demo_bytes) demo_peer) (set_buffer (λ _, take 30 demo_bytes) demo_peer)
    (demo_world (demo_bytes ++ demo_bytes) (mkRx [] any_empty))
    (demo_world (take 30 demo_bytes) (mkRx [] any_empty))) as [H1 H2].
  - exact demo_message_valid.
  - vm_refl.
  - vm_refl.
  - apply Nat.ltb_lt. vm_refl.
  - vm_refl.
  - vm_refl.
  - split; [rewrite H1; vm_refl|exact H2].
Defined.

Definition demo_header_bytes : list Z :=
  match DataHeader_Serialize demo_data_header with Ok bytes => bytes | _ => [] end.

Lemma data_stream_forwarded_witness :
  ProcessReceivedData 1 (Some 0) (42, 0) (demo_header_bytes ++ [1; 2; 3]) (demo_world [] (mkRx [] any_empty)) =
  (Ok true, mkWorld {[1 := demo_peer]}
    {[(42, 0) := mkRx [] (any_header (mkDataHeader 19 DataType.kNewStream 77 123456789012 3 5000))]} [] [7]).
Proof.
  destruct (data_stream_forwarded 1 42 0 demo_data_header demo_header_bytes [1; 2; 3] [4] [] demo_peer
    (demo_world [] (mkRx [] any_empty))) as [H _].
  - decide_now.
  - vm_refl.
  - vm_refl.
  - vm_refl.
  - vm_refl.
  - vm_refl.
  - rewrite H. vm_refl.
Defined.

Lemma split_header_never_parsed_witness :
  ProcessReceivedData 1 (Some 0) (42, 0) [19; 2; 0] (demo_world [] (mkRx [] any_empty)) =
  (Ok false, mkWorld {[1 := demo_peer]} {[(42, 0) := mkRx [] (any_header DataHeader_default)]} [] []).
Proof.
  destruct (split_header_never_parsed 1 42 0 [19; 2; 0] 19 [4] [] demo_peer (demo_world [] (mkRx [] any_empty)))
    as [H _]; [vm_refl|vm_refl|vm_refl|decide_now|]. rewrite H. vm_refl.
Defined.

Definition demo_rejection : ConnectResponse := mkConnectResponse ProtocolError.kConnectNotAuthorized None.

Lemma rejected_connect_still_connects_witness :
  ProcessControlMessage 1 (mkWorld {[1 := set_status kStatusConnecting
      (set_buffer (λ _, cm_bytes (cm_response demo_rejection)) demo_peer)]} ∅ [] []) =
  (Ok tt, mkWorld {[1 := demo_peer]} ∅ [] [2; 3]).
Proof.
  rewrite (rejected_connect_still_connects 1 demo_rejection []
    (set_status kStatusConnecting (set_buffer (λ _, cm_bytes (cm_response demo_rejection)) demo_peer))).
  - vm_refl.
  - split; [change (ConnectResponse_wf demo_rejection); decide_now|decide_now].
  - decide_now.
  - vm_refl.
  - vm_refl.
Defined.
