(* ===== verification/PeerWorld.v ===== *)
(** * The state of the peer manager (class PeerManager, src/peering/peer_manager.h)

    The manager, its sessions at their addresses, the information base, the
    relay's [State], and the client manager, which is reached through an
    interface. *)

From S2P Require Import Prelude Common Quicr State NodeInfo DataHeader SubscribeInfo SubscribeNodeSet AnnounceInfo InfoBase Transport PeerSession PeerSessionEvents PeerSessionControl.

(** ** Subscribe messages (quicr::messages)

    The subscribe message travels as bytes; libquicr parses and prints its four
    fields and its parameters. *)
Class SubscribeMessages `{TrackNames} := {
  Parameters : Type;
  ParseSubscribe : list Z → outcome (Z * TrackNamespace * list Z * Parameters);
  AppendSubscribe : Z → TrackNamespace → list Z → Parameters → list Z;
  GetPriority : Parameters → outcome Z;               (* Get<uint8_t>(kSubscriberPriority) *)
  GetNewGroup : Parameters → outcome (option Z);      (* GetOptional<uint64_t>(kNewGroupRequest) *)
  AddNewGroup : option Z → Parameters → outcome Parameters;   (* Add(kNewGroupRequest, v) *)
  AddOptionalNewGroup : option Z → Parameters → outcome Parameters;
  is_new_group : Parameters → list bool;              (* type == kNewGroupRequest, in order *)
  erase_parameter : nat → Parameters → Parameters;
  MakeParameters : Z → option Z → Parameters;         (* kSubscriberPriority, kGroupOrder *)
}.

(** [rand()], call by call. *)
Class Rand := { rand : nat → Z }.

Record World `{TrackNames} (C : Type) := mkWorld {
  sessions : gmap SessRef PeerSession;
  rx_contexts : gmap (Z * Z) StreamRxContext;
  trace : Trace;
  info_base_ : InfoBase;
  server_peer_sessions_ : gmap Z SessRef;
  client_peer_sessions_ : gmap Z SessRef;
  pm_node_info_ : NodeInfo;
  pm_mutex_ : bool;                    (* held *)
  stop_ : bool;
  client_manager_ : bool;              (* the pointer is set *)
  state_ : RelayState;
  state_mutex : bool;                  (* held *)
  rand_calls : nat;
  client : C;
}.
Arguments mkWorld {_ _}.
Arguments sessions {_ _}.
Arguments rx_contexts {_ _}.
Arguments trace {_ _}.
Arguments info_base_ {_ _}.
Arguments server_peer_sessions_ {_ _}.
Arguments client_peer_sessions_ {_ _}.
Arguments pm_node_info_ {_ _}.
Arguments pm_mutex_ {_ _}.
Arguments stop_ {_ _}.
Arguments client_manager_ {_ _}.
Arguments state_ {_ _}.
Arguments state_mutex {_ _}.
Arguments rand_calls {_ _}.
Arguments client {_ _}.

(** The attributes of a publish that an announcement starts. *)
Record PublishAttributes `{TrackNames} := mkPublish {
  pa_track_full_name : FullTrackName;
  pa_track_alias : Z;
  pa_is_publisher_initiated : bool;
  pa_dynamic_groups : bool;
  pa_forward : bool;
  pa_priority : Z;
  pa_delivery_timeout : Z;
}.

Arguments mkPublish {_}.

(** What the peer manager asks of the client manager.  The operations work on
    the whole state, since the client manager may call back; it
    calls [ClientAnnounce], which needs the first operation only. *)
Class ClientProcessI `{TrackNames} (C : Type) := {
  cm_ProcessSubscribe : TrackHash → FullTrackName → Z → option Z → ST (World C) unit;
}.

Class ClientManagerI `{TrackNames} (C : Type) := {
  cm_process :: ClientProcessI C;
  cm_PeerUnsubscribeTrack : Z → ST (World C) unit;
  cm_RemoveOrPausePublisherSubscribe : Z → ST (World C) unit;
  cm_PublishNamespaceReceived : TrackNamespace → Z → ST (World C) unit;
  cm_PublishNamespaceDoneReceived : Z → ST (World C) unit;
  cm_PublishReceived : PublishAttributes → ST (World C) unit;
  cm_PublishDoneReceived : ST (World C) unit;
  cm_PeerDataReceived : Z → bool → option Z → list Z → ST (World C) unit;
  cm_PeerStreamClosed : Z → Z → bool → ST (World C) unit;
}.

Section world.
Context `{TrackNames} {C : Type}.
Abbreviation World := (World C).
Implicit Types w : World.

Definition set_sessions f w : World := mkWorld (f (sessions w)) (rx_contexts w) (trace w) (info_base_ w)
  (server_peer_sessions_ w) (client_peer_sessions_ w) (pm_node_info_ w) (pm_mutex_ w) (stop_ w)
  (client_manager_ w) (state_ w) (state_mutex w) (rand_calls w) (client w).
Definition set_rx_contexts f w : World := mkWorld (sessions w) (f (rx_contexts w)) (trace w) (info_base_ w)
  (server_peer_sessions_ w) (client_peer_sessions_ w) (pm_node_info_ w) (pm_mutex_ w) (stop_ w)
  (client_manager_ w) (state_ w) (state_mutex w) (rand_calls w) (client w).
Definition set_trace t w : World := mkWorld (sessions w) (rx_contexts w) t (info_base_ w)
  (server_peer_sessions_ w) (client_peer_sessions_ w) (pm_node_info_ w) (pm_mutex_ w) (stop_ w)
  (client_manager_ w) (state_ w) (state_mutex w) (rand_calls w) (client w).
Definition set_info_base ib w : World := mkWorld (sessions w) (rx_contexts w) (trace w) ib
  (server_peer_sessions_ w) (client_peer_sessions_ w) (pm_node_info_ w) (pm_mutex_ w) (stop_ w)
  (client_manager_ w) (state_ w) (state_mutex w) (rand_calls w) (client w).
Definition set_server f w : World := mkWorld (sessions w) (rx_contexts w) (trace w) (info_base_ w)
  (f (server_peer_sessions_ w)) (client_peer_sessions_ w) (pm_node_info_ w) (pm_mutex_ w) (stop_ w)
  (client_manager_ w) (state_ w) (state_mutex w) (rand_calls w) (client w).
Definition set_client f w : World := mkWorld (sessions w) (rx_contexts w) (trace w) (info_base_ w)
  (server_peer_sessions_ w) (f (client_peer_sessions_ w)) (pm_node_info_ w) (pm_mutex_ w) (stop_ w)
  (client_manager_ w) (state_ w) (state_mutex w) (rand_calls w) (client w).
Definition set_stop b w : World := mkWorld (sessions w) (rx_contexts w) (trace w) (info_base_ w)
  (server_peer_sessions_ w) (client_peer_sessions_ w) (pm_node_info_ w) (pm_mutex_ w) b
  (client_manager_ w) (state_ w) (state_mutex w) (rand_calls w) (client w).
Definition set_pm_mutex b w : World := mkWorld (sessions w) (rx_contexts w) (trace w) (info_base_ w)
  (server_peer_sessions_ w) (client_peer_sessions_ w) (pm_node_info_ w) b (stop_ w)
  (client_manager_ w) (state_ w) (state_mutex w) (rand_calls w) (client w).
Definition set_state_mutex b w : World := mkWorld (sessions w) (rx_contexts w) (trace w) (info_base_ w)
  (server_peer_sessions_ w) (client_peer_sessions_ w) (pm_node_info_ w) (pm_mutex_ w) (stop_ w)
  (client_manager_ w) (state_ w) b (rand_calls w) (client w).
Definition set_rand_calls n w : World := mkWorld (sessions w) (rx_contexts w) (trace w) (info_base_ w)
  (server_peer_sessions_ w) (client_peer_sessions_ w) (pm_node_info_ w) (pm_mutex_ w) (stop_ w)
  (client_manager_ w) (state_ w) (state_mutex w) n (client w).
Definition SetClientManager w : World := mkWorld (sessions w) (rx_contexts w) (trace w) (info_base_ w)
  (server_peer_sessions_ w) (client_peer_sessions_ w) (pm_node_info_ w) (pm_mutex_ w) (stop_ w)
  true (state_ w) (state_mutex w) (rand_calls w) (client w).

(** ** Sessions *)

#[global] Instance world_store : SessionStore World := {|
  w_session r w := sessions w !! r;
  w_set_session r s := set_sessions <[r := s]>;
  w_trace := trace;
  w_set_trace := set_trace;
  w_rx key w := rx_contexts w !! key;
  w_set_rx key rx := set_rx_contexts <[key := rx]>;
|}.

#[global] Instance world_store_laws : SessionStoreLaws World.
Proof.
  split; simpl; try done; unfold set_sessions, set_rx_contexts; simpl.
  - intros r s [] Hs. simpl in *. by rewrite insert_id.
  - intros. apply lookup_insert_eq.
  - intros. by rewrite insert_insert_eq.
  - by intros [].
  - intros. apply lookup_insert_eq.
  - intros. by rewrite insert_insert_eq.
Qed.

(** [weak_ptr::lock()], then [GetSessionId()]. *)
Definition session_id w (r : SessRef) : option Z := GetSessionId <$> sessions w !! r.

(** A weak pointer as a shared one: null when the object is gone. *)
Definition lock_ptr (p : weak_ptr) : ST World (option SessRef) :=
  gets (λ w, r ← p; if decide (is_Some (sessions w !! r)) then Some r else None).

(** Objects that no map of the manager holds any more are destroyed. *)
Definition collect w : World :=
  set_sessions (filter (λ e, e.1 ∈ (map_to_list (server_peer_sessions_ w)).*2 ++
                                   (map_to_list (client_peer_sessions_ w)).*2)) w.

(** ** Parts of the state *)

(** A method of the information base that does not look at sessions. *)
Definition on_ib {A} (m : ST InfoBase A) : ST World A := zoom info_base_ set_info_base m.

(** A method that locks weak pointers to sessions. *)
Definition on_nodes {A} (m : (SessRef → option Z) → ST InfoBase A) : ST World A := λ w,
  on_ib (m (session_id w)) w.

(** [std::lock_guard _(mutex_)] of the manager. *)
Definition with_pm_lock {A} (m : ST World A) : ST World A := λ w,
  if pm_mutex_ w then (UB, w)
  else match m (set_pm_mutex true w) with (o, w') => (o, set_pm_mutex false w') end.

(** A lock of [info_base_->mutex_] taken by the manager. *)
Definition with_ib_lock {A} (m : ST World A) : ST World A := λ w,
  if mutex_ (info_base_ w) then (UB, w)
  else match m (set_info_base (set_mutex true (info_base_ w)) w) with
       | (o, w') => (o, set_info_base (set_mutex false (info_base_ w')) w')
       end.

(** [std::lock_guard _(state_.state_mutex)] *)
Definition with_state_lock {A} (m : ST World A) : ST World A := λ w,
  if state_mutex w then (UB, w)
  else match m (set_state_mutex true w) with (o, w') => (o, set_state_mutex false w') end.

(** [uint64_t update_ref = rand()] *)
Definition next_rand `{Rand} : ST World Z := λ w,
  (Ok (u64 (rand (rand_calls w))), set_rand_calls (S (rand_calls w)) w).

(** A call through [client_manager_]; a null pointer is undefined behaviour. *)
Definition call_client {A} (m : ST World A) : ST World A :=
  w ← get; if client_manager_ w then m else undefined.

(** Both session maps, outbound first, as every broadcast visits them. *)
Definition all_sessions w : list (Z * SessRef) :=
  entries (client_peer_sessions_ w) ++ entries (server_peer_sessions_ w).

(** ** Running a session's method that only sends *)

Lemma set_trace_same w : set_trace (trace w) w = w.
Proof. by destruct w. Qed.

Lemma set_session_same w r s : sessions w !! r = Some s → set_sessions <[r := s]> w = w.
Proof. intros Hs. destruct w. unfold set_sessions. simpl in *. by rewrite insert_id. Qed.

(** A method that only sends. *)
Lemma on_session_calls {A} w r s (m : ST (PeerSession * Trace) A) a calls :
  sessions w !! r = Some s → m (s, trace w) = (Ok a, (s, trace w ++ calls)) →
  on_session r m w = (Ok a, set_trace (trace w ++ calls) w).
Proof.
  intros Hs Hm. unfold on_session. simpl. rewrite Hs, Hm. f_equal.
  by rewrite set_session_same.
Qed.

End world.

(** ** A relay with three neighbours

    Concrete messages, random numbers and a client manager that only counts the
    calls it gets, for evaluating the operations. *)
Module DemoRelay.
Import Quicr.Demo DemoTransport.

(** Request id, priority, new group (255: none), then the name; the namespace is
    the name. *)
#[export] Instance messages : SubscribeMessages := {|
  Parameters := Z * list Z;
  ParseSubscribe data :=
    match data with
    | req :: prio :: group :: name => Ok (req, [name], name, (prio, if decide (group = 255) then [] else [group]))
    | _ => Throw invalid_argument
    end;
  AppendSubscribe req _ name p := req :: p.1 :: default 255 (head p.2) :: name;
  GetPriority p := Ok p.1;
  GetNewGroup p := Ok (head p.2);
  AddNewGroup v p := Ok (p.1, p.2 ++ from_option (λ x, [x]) [] v);
  AddOptionalNewGroup v p := Ok (p.1, p.2 ++ from_option (λ x, [x]) [] v);
  is_new_group p := (λ _, true) <$> p.2;
  erase_parameter n p := (p.1, take n p.2 ++ drop (S n) p.2);
  MakeParameters priority _ := (priority, []);
|}.

#[export] Instance demo_rand : Rand := {| rand n := Z.of_nat n |}.

Definition count {A} (a : A) : ST (World nat) A := λ w,
  (Ok a, mkWorld (sessions w) (rx_contexts w) (trace w) (info_base_ w) (server_peer_sessions_ w)
    (client_peer_sessions_ w) (pm_node_info_ w) (pm_mutex_ w) (stop_ w) (client_manager_ w) (state_ w)
    (state_mutex w) (rand_calls w) (S (client w))).

#[export] Instance client_process : ClientProcessI nat := {|
  cm_ProcessSubscribe _ _ _ _ := count tt;
|}.

#[export] Instance client_manager : ClientManagerI nat := {|
  cm_PeerUnsubscribeTrack _ := count tt;
  cm_RemoveOrPausePublisherSubscribe _ := count tt;
  cm_PublishNamespaceReceived _ _ := count tt;
  cm_PublishNamespaceDoneReceived _ := count tt;
  cm_PublishReceived _ := count tt;
  cm_PublishDoneReceived := count tt;
  cm_PeerDataReceived _ _ _ _ := count tt;
  cm_PeerStreamClosed _ _ _ := count tt;
|}.

Definition relay_node_of (id : Z) : NodeInfo := mkNodeInfo id NodeType.kEdge [114] 0 0 [].
Definition relay_node : NodeInfo := relay_node_of 5.

(** A connected session to node [id]. *)
Definition neighbour (conn id : Z) : PeerSession :=
  set_transport true (set_status kStatusConnected (set_remote (relay_node_of id)
    (PeerSession_make (300, 7) true conn relay_node (mkRemote [] 0)))).

(** Sessions 11 and 12 were opened by nodes 71 and 72; session 21 was opened to
    node 81. *)
Definition relay_with {C} (c : C) (ib : InfoBase) : World C :=
  mkWorld {[1 := neighbour 11 71; 2 := neighbour 12 72; 3 := neighbour 21 81]} ∅ [] ib
    {[11 := 1; 12 := 2]} {[21 := 3]} relay_node false false true State_empty false 0 c.
Definition relay (ib : InfoBase) : World nat := relay_with 0%nat ib.
End DemoRelay.
