(* ===== verification/ClientState.v ===== *)
(** * The client manager's state (src/client_manager.h) and its handlers' data

    The objects the client manager and its handlers own, at their addresses:
    publish track handlers, publish namespace handlers, subscribe track handlers
    and track rankings; the object cache; and the trace of calls into libquicr.
    The tables of [State] are in the relay's state. *)

From S2P Require Import Prelude Common Quicr State QuicrServer TrackRanking Transport PeerSession PeerSessionEvents PeerWorld.

(** The members of [Config] that the client manager reads. *)
Record ClientConfig := mkClientConfig {
  object_ttl_ : Z;
  sub_dampen_ms_ : Z;
  disable_cache : bool;
  allow_self : bool;
  detached_subs : bool;
  cache_duration_ms_ : Z;
}.

Record CacheObject := mkCacheObject { co_headers : ObjectHeaders; co_data : list Z }.

(** [quicr::Cache] of groups: a group is a set of objects ordered by object id.
    The first argument is the current tick. *)
Class GroupCache := {
  Cache : Type;
  cache_make : Z → Cache;                                        (* duration *)
  cache_Get : Z → Z → Cache → option (gmap Z CacheObject);
  cache_assign : Z → gmap Z CacheObject → Cache → Cache;         (* through the pointer Get returned *)
  cache_Insert : Z → Z → gmap Z CacheObject → Z → Cache → Cache; (* tick, group, objects, ttl *)
  cache_Last : Z → Cache → option (gmap Z CacheObject);
  cache_GetRange : Z → Z → Z → Cache → list (gmap Z CacheObject);
}.

(** ** Publish track handlers (src/publish_handler.h) *)

Record PublishTrackHandler := mkPublishTrackHandler { start_location_ : Location }.

(** ** Publish namespace handlers (src/publish_namespace_handler.h) *)

Record ActiveTrack := mkActiveTrack { last_updated_tick : Z; at_handler : Ref }.

Record PublishNamespaceHandler := mkNamespaceHandler {
  nh_max_tracks_selected_ : Z;
  nh_inactive_age_ms_ : Z;
  property_type_ : option Z;
  published_tracks_ : gmap Z ActiveTrack;    (* track alias *)
}.

Definition PublishNamespaceHandler_default : PublishNamespaceHandler :=
  mkNamespaceHandler 1 10000 None ∅.

Record TrackPropertyValue := mkPropertyValue { latest_value : Z; latest_tick_ms : Z }.

(** ** Subscribe track handlers (src/subscribe_handler.h) *)

Section data.
Context `{TrackNames, MoqMessages, GroupCache}.

(** libquicr's stream context; [buf_any] and [buf_any_b] are the two objects a
    [StreamBuffer] carries. *)
Record StreamContext := mkStreamContext {
  sc_buffer : list Z;
  buf_any : option SubgroupHeader;
  buf_any_b : option SubgroupObject;
  next_object_id : option Z;
  current_group_id : Z;
  current_subgroup_id : Z;
}.

Definition StreamContext_empty : StreamContext := mkStreamContext [] None None None 0 0.

Record SubscribeTrackHandler := mkSubscribeTrackHandler {
  sub_full_name : FullTrackName;
  is_datagram_ : bool;
  is_from_peer_ : bool;
  subscribers_ : gmap Z (option Ref);               (* connection; null for peering *)
  sub_namespaces_ : gmap Z (gmap Z Ref);            (* namespace full name hash, connection *)
  tracked_properties_value_ : gmap Z TrackPropertyValue;
  track_ranking_ : option Ref;
  streams_ : gmap Z StreamContext;
  pub_last_update_time : option Z;
}.

(** ** Fetches

    The variables the thread of a fetch captures ([ClientManager::FetchReceived]),
    and how far it is. *)
Record FetchRequest := mkFetch {
  fr_connection : Z;
  fr_request_id : Z;
  fr_name : FullTrackName;
  fr_priority : Z;
  fr_group_order : option Z;
  fr_start : Location;
  fr_end_group : Z;
  fr_end_object : option Z;
  fr_reason : RequestReason;
  fr_largest : option Location;
  fr_handler : Ref;                                 (* pub_fetch_h *)
  fr_entries : list (gmap Z CacheObject);           (* cache_entries *)
}.

Inductive FetchProgress :=
  | FetchStart
  | FetchWait (to : Z) (track : Ref) (pub_conn : Z)       (* for the publisher's answer *)
  | FetchStream (track : Ref) (pub_conn : Z)              (* while the publisher sends *)
  | FetchLinger (track : Ref) (pub_conn : Z)              (* the last two seconds *)
  | FetchObjects (rest : list CacheObject).               (* the objects of the cache *)

(** [FetchTrackHandler] (src/fetch_handler.h): whom the data goes to, and the
    buffers of the streams. *)
Record FetchTrackHandler := mkFetchTrackHandler {
  publish_fetch_handler_ : Ref;
  fetch_streams_ : gmap Z (list Z);
}.

Record ClientState := mkClientState {
  config_ : ClientConfig;
  pub_heap : gmap Ref PublishTrackHandler;
  ns_heap : gmap Ref PublishNamespaceHandler;
  sub_heap : gmap Ref SubscribeTrackHandler;
  rank_heap : gmap Ref TrackRanking;
  next_ref : Ref;
  track_rankings_ : gmap Z Ref;                     (* namespace hash *)
  cache_ : gmap Z Cache;                            (* full name hash *)
  stop_fetch_ : gmap (Z * Z) bool;                  (* connection, request id *)
  qtrace : QuicrTrace;
  tick_service_ : option Z;                         (* the tick in ms, while the service lives *)
  steady_clock : Z;                                 (* ms *)
  fetch_heap : gmap Ref FetchTrackHandler;
  fetch_threads : gmap Ref (FetchRequest * FetchProgress);   (* by the publish fetch handler *)
}.

Definition set_pub_heap f s := mkClientState (config_ s) (f (pub_heap s)) (ns_heap s) (sub_heap s) (rank_heap s)
  (next_ref s) (track_rankings_ s) (cache_ s) (stop_fetch_ s) (qtrace s) (tick_service_ s) (steady_clock s) (fetch_heap s) (fetch_threads s).
Definition set_ns_heap f s := mkClientState (config_ s) (pub_heap s) (f (ns_heap s)) (sub_heap s) (rank_heap s)
  (next_ref s) (track_rankings_ s) (cache_ s) (stop_fetch_ s) (qtrace s) (tick_service_ s) (steady_clock s) (fetch_heap s) (fetch_threads s).
Definition set_sub_heap f s := mkClientState (config_ s) (pub_heap s) (ns_heap s) (f (sub_heap s)) (rank_heap s)
  (next_ref s) (track_rankings_ s) (cache_ s) (stop_fetch_ s) (qtrace s) (tick_service_ s) (steady_clock s) (fetch_heap s) (fetch_threads s).
Definition set_rank_heap f s := mkClientState (config_ s) (pub_heap s) (ns_heap s) (sub_heap s) (f (rank_heap s))
  (next_ref s) (track_rankings_ s) (cache_ s) (stop_fetch_ s) (qtrace s) (tick_service_ s) (steady_clock s) (fetch_heap s) (fetch_threads s).
Definition set_next_ref r s := mkClientState (config_ s) (pub_heap s) (ns_heap s) (sub_heap s) (rank_heap s)
  r (track_rankings_ s) (cache_ s) (stop_fetch_ s) (qtrace s) (tick_service_ s) (steady_clock s) (fetch_heap s) (fetch_threads s).
Definition set_track_rankings f s := mkClientState (config_ s) (pub_heap s) (ns_heap s) (sub_heap s) (rank_heap s)
  (next_ref s) (f (track_rankings_ s)) (cache_ s) (stop_fetch_ s) (qtrace s) (tick_service_ s) (steady_clock s) (fetch_heap s) (fetch_threads s).
Definition set_cache f s := mkClientState (config_ s) (pub_heap s) (ns_heap s) (sub_heap s) (rank_heap s)
  (next_ref s) (track_rankings_ s) (f (cache_ s)) (stop_fetch_ s) (qtrace s) (tick_service_ s) (steady_clock s) (fetch_heap s) (fetch_threads s).
Definition set_stop_fetch f s := mkClientState (config_ s) (pub_heap s) (ns_heap s) (sub_heap s) (rank_heap s)
  (next_ref s) (track_rankings_ s) (cache_ s) (f (stop_fetch_ s)) (qtrace s) (tick_service_ s) (steady_clock s) (fetch_heap s) (fetch_threads s).
Definition set_fetch_heap f s := mkClientState (config_ s) (pub_heap s) (ns_heap s) (sub_heap s) (rank_heap s)
  (next_ref s) (track_rankings_ s) (cache_ s) (stop_fetch_ s) (qtrace s) (tick_service_ s) (steady_clock s)
  (f (fetch_heap s)) (fetch_threads s).
Definition set_fetch_threads f s := mkClientState (config_ s) (pub_heap s) (ns_heap s) (sub_heap s) (rank_heap s)
  (next_ref s) (track_rankings_ s) (cache_ s) (stop_fetch_ s) (qtrace s) (tick_service_ s) (steady_clock s)
  (fetch_heap s) (f (fetch_threads s)).
Definition set_qtrace t s := mkClientState (config_ s) (pub_heap s) (ns_heap s) (sub_heap s) (rank_heap s)
  (next_ref s) (track_rankings_ s) (cache_ s) (stop_fetch_ s) t (tick_service_ s) (steady_clock s) (fetch_heap s) (fetch_threads s).
End data.

Section client_ops.
Context `{TrackNames, MoqMessages, GroupCache, !QuicrServer}.
Abbreviation World := (World ClientState).

Definition set_client_state (f : ClientState → ClientState) (w : World) : World :=
  mkWorld (sessions w) (rx_contexts w) (trace w) (info_base_ w) (server_peer_sessions_ w)
    (client_peer_sessions_ w) (pm_node_info_ w) (pm_mutex_ w) (stop_ w) (client_manager_ w) (state_ w)
    (state_mutex w) (rand_calls w) (f (client w)).

Definition set_state (f : RelayState → RelayState) (w : World) : World :=
  mkWorld (sessions w) (rx_contexts w) (trace w) (info_base_ w) (server_peer_sessions_ w)
    (client_peer_sessions_ w) (pm_node_info_ w) (pm_mutex_ w) (stop_ w) (client_manager_ w) (f (state_ w))
    (state_mutex w) (rand_calls w) (client w).

(** A call into libquicr, and a question to it. *)
Definition qcall (c : QuicrCall) : ST World unit :=
  modify (set_client_state (λ s, set_qtrace (qtrace s ++ [c]) s)).
Definition qget {A} (f : QuicrTrace → A) : ST World A := gets (λ w, f (qtrace (client w))).

(** [optional::value()] *)
Definition value {A} (o : option A) : ST World A :=
  match o with Some a => mret a | None => throw bad_optional_access end.

(** [make_shared]: a fresh address. *)
Definition alloc : ST World Ref := λ w,
  (Ok (next_ref (client w)), set_client_state (λ s, set_next_ref (next_ref s + 1) s) w).

(** Dereference of a pointer to one of the objects. *)
Definition the_pub (h : Ref) : ST World PublishTrackHandler :=
  w ← get; deref (pub_heap (client w) !! h).
Definition the_ns (n : Ref) : ST World PublishNamespaceHandler :=
  w ← get; deref (ns_heap (client w) !! n).
Definition the_sub (s : Ref) : ST World SubscribeTrackHandler :=
  w ← get; deref (sub_heap (client w) !! s).
Definition modify_ns (n : Ref) (f : PublishNamespaceHandler → PublishNamespaceHandler) : ST World unit :=
  modify (set_client_state (set_ns_heap (alter f n))).
Definition modify_sub (s : Ref) (f : SubscribeTrackHandler → SubscribeTrackHandler) : ST World unit :=
  modify (set_client_state (set_sub_heap (alter f s))).

(** The tick in milliseconds, 0 when the service is gone. *)
Definition cur_tick : ST World Z := gets (λ w, default 0 (tick_service_ (client w))).

Lemma qget_bind {A B} (f : QuicrTrace → A) (k : A → ST World B) w : (qget f ≫= k) w = k (f (qtrace (client w))) w.
Proof. done. Qed.
Lemma the_sub_ok this s w : sub_heap (client w) !! this = Some s → the_sub this w = (Ok s, w).
Proof. intros Hs. unfold the_sub. rewrite (bind_ok _ _ w w w) by done. by rewrite Hs. Qed.
End client_ops.

(** A cache that keeps everything. *)
Module DemoCache.
#[export] Instance demo_cache : GroupCache := {|
  Cache := gmap Z (gmap Z CacheObject);
  cache_make _ := ∅;
  cache_Get _ g c := c !! g;
  cache_assign g objects c := <[g := objects]> c;
  cache_Insert _ g objects _ c := <[g := objects]> c;
  cache_Last _ c := snd <$> last (entries c);
  cache_GetRange _ a b c := snd <$> filter (λ e, a ≤ e.1 ∧ e.1 ≤ b) (entries c);
|}.

Definition demo_config : ClientConfig := mkClientConfig 5000 500 false false false 60000.
End DemoCache.
