(* ===== verification/PeerManager.v ===== *)
(** * Peer manager (class PeerManager, src/peering/peer_manager.cc)

    What the manager does with the messages of its sessions, with the requests
    of the client manager and with the events of its transport. *)

From S2P Require Import Prelude Common Quicr State NodeInfo DataHeader SubscribeInfo SubscribeNodeSet AnnounceInfo InfoBase Transport PeerSession PeerSessionEvents PeerSessionControl PeerWorld.

Definition kDefaultObjectTtl : Z := 5000.

Section peer_manager.
Context `{UintVar, TrackNames, Transport, !SubscribeMessages, Rand} {C : Type} `{!ClientManagerI C}.
Abbreviation World := (World C).

(** ** Sessions *)

(** [GetPeerSession(peer_session_id)] *)
Definition GetPeerSession (peer_session_id : Z) : ST World SessRef :=
  w ← get;
  match server_peer_sessions_ w !! peer_session_id with
  | Some r => mret r
  | None => match client_peer_sessions_ w !! peer_session_id with
            | Some r => mret r
            | None => throw invalid_argument
            end
  end.

(** [try { m } catch (const std::exception&) { }] *)
Definition ignore_exceptions (m : ST World unit) : ST World unit := try_catch m (λ _, mret tt).

(** ** Node information *)

(** The lambda of PropagateNodeInfo. *)
Definition skip_node (node_a node_b : NodeInfo) : bool :=
  bool_decide (ni_id node_a = ni_id node_b) || bool_decide (ni_id node_b = 0) ||
  bool_decide (ni_id node_a = 0) ||
  existsb (λ npi, bool_decide (item_id npi = ni_id node_b)) (ni_path node_a).

(** [PropagateNodeInfo(node_info, withdraw)] *)
Definition PropagateNodeInfo (node_info : NodeInfo) (withdraw : bool) : ST World unit :=
  with_pm_lock (
    w ← get;
    for_each (all_sessions w) (λ e,
      s ← the_session e.2;
      if skip_node node_info (remote_node_info_ s) then mret tt
      else on_session e.2 (SendNodeInfo node_info withdraw))).

(** [PropagateNodeInfo(peer_session_id, node_info, withdraw)] *)
Definition PropagateNodeInfo_to (peer_session_id : Z) (node_info : NodeInfo) (withdraw : bool) : ST World unit :=
  with_pm_lock (
    w ← get;
    let send r :=
      s ← the_session r;
      if decide (ni_id (remote_node_info_ s) ≠ ni_id node_info)
      then on_session r (SendNodeInfo node_info withdraw) else mret tt in
    match server_peer_sessions_ w !! peer_session_id with
    | Some r => send r
    | None => match client_peer_sessions_ w !! peer_session_id with
              | Some r => send r
              | None => mret tt
              end
    end).

(** [node_info.path.push_back({id, srtt})] *)
Definition path_push (ni : NodeInfo) (item : NodePathItem) : NodeInfo :=
  mkNodeInfo (ni_id ni) (ni_type ni) (ni_contact ni) (ni_longitude ni) (ni_latitude ni) (ni_path ni ++ [item]).

(** [NodeReceived(peer_session_id, node_info, withdraw)] *)
Definition NodeReceived (peer_session_id : Z) (node_info : NodeInfo) (withdraw : bool) : ST World unit :=
  ignore_exceptions (
    peer_session ← GetPeerSession peer_session_id;
    if withdraw then
      on_nodes (λ lock, RemoveNode lock peer_session_id (ni_id node_info)) ;;
      s ← the_session peer_session;
      PropagateNodeInfo (path_push node_info (mkNodePathItem (ni_id (node_info_ s)) (metrics_srtt_us s))) true
    else
      updated ← on_nodes (λ lock, AddNode lock peer_session node_info);
      if (updated : bool) then
        s ← the_session peer_session;
        PropagateNodeInfo (path_push node_info (mkNodePathItem (ni_id node_info) (metrics_srtt_us s))) false
      else mret tt).

(** ** Subscribes *)

(** [HasSubscribers(track_fullname_hash)] *)
Definition Manager_HasSubscribers (track_fullname_hash : Z) (w : World) : bool :=
  bool_decide (same_first track_fullname_hash (client_fib_ (info_base_ w)) ≠ []).

(** The loops over both session maps that send a subscribe info; [skip] is the
    session it came from. *)
Definition broadcast_subscribe (skip : option Z) (si : SubscribeInfo) (withdraw : bool) :
    ST World SubscribeInfo :=
  w ← get;
  fold_each (all_sessions w) si (λ si e,
    if decide (skip = Some e.1) then mret si
    else on_session e.2 (SendSubscribeInfo si withdraw)).

(** The entry made when a source becomes reachable through a session. *)
Definition fib_entry (update_ref out_sns_id : Z) (peer_session : weak_ptr) : FibEntry :=
  mkFibEntry update_ref ∅ out_sns_id peer_session 0.

(** [client_fib_.try_emplace(key, entry)] *)
Definition client_fib_try_emplace (key : Z * Z) (e : FibEntry) : ST World unit :=
  on_ib (modify (set_client_fib (λ m,
    match m !! key with Some _ => m | None => <[key := e]> m end))).

(** Whether some client publishes the track or a namespace that matches it. *)
Definition announce_matches (track_fullname_hash : Z) (track_namespace : TrackNamespace) (st : RelayState) : bool :=
  bool_decide (same_first track_fullname_hash (pub_subscribes st) ≠ []) ||
  existsb (λ e, HasSamePrefix e.1.1 track_namespace) (entries (pub_namespace_active st)).

(** The best session to the subscriber learns of the source; [client_fib_key]
    is the session id the forwarding entry is filed under. *)
Definition add_best_source (update_ref : Z) (si : SubscribeInfo) (priority : Z)
    (client_fib_key : Z → Z) : ST World unit :=
  w ← get;
  match nodes_best_ (info_base_ w) !! si_source_node_id si with
  | None => mret tt
  | Some best =>
      p ← lock_ptr best;
      peer_session ← deref p;
      r ← on_session peer_session (AddSubscribeSourceNode (si_hash si) (si_source_node_id si) priority);
      if (r.2 : bool) then
        s ← the_session peer_session;
        client_fib_try_emplace (si_hash si, client_fib_key (GetSessionId s)) (fib_entry update_ref r.1 best)
      else mret tt
  end.

(** The part of SubscribeInfoReceived for a new subscription. *)
Definition subscribe_added (peer_session_id : Z) (si : SubscribeInfo) : ST World unit :=
  update_ref ← next_rand;
  fields ← lift_outcome (ParseSubscribe (si_subscribe_data si));
  let '(_, track_namespace, track_name, parameters) := fields in
  priority ← lift_outcome (GetPriority parameters);
  ngr_id ← lift_outcome (GetNewGroup parameters);
  with_state_lock (
    w ← get;
    if announce_matches (si_hash si) track_namespace (state_ w) then
      (if client_manager_ w
       then cm_ProcessSubscribe (si_track_hash si) (track_namespace, track_name) 10 ngr_id
       else mret tt) ;;
      add_best_source update_ref si priority (λ _, peer_session_id)
    else mret tt).

(** The part for a withdrawal. *)
Definition subscribe_removed (peer_session_id : Z) (si : SubscribeInfo) : ST World unit :=
  w ← get;
  match nodes_best_ (info_base_ w) !! si_source_node_id si with
  | None => mret tt
  | Some best =>
      p ← lock_ptr best;
      peer_session ← deref p;
      r ← on_session peer_session (RemoveSubscribeSourceNode (si_hash si) (si_source_node_id si));
      if (r.2 : bool) then
        on_ib (modify (set_client_fib (delete (si_hash si, peer_session_id)))) ;;
        w ← get;
        if Manager_HasSubscribers (si_hash si) w then mret tt
        else call_client (cm_PeerUnsubscribeTrack (si_hash si))
      else mret tt
  end ;;
  w ← get;
  if client_manager_ w then cm_RemoveOrPausePublisherSubscribe (si_hash si) else mret tt.

(** [SubscribeInfoReceived(peer_session_id, subscribe_info, withdraw)] *)
Definition SubscribeInfoReceived (peer_session_id : Z) (subscribe_info : SubscribeInfo) (withdraw : bool) :
    ST World unit :=
  ignore_exceptions (
    _ ← GetPeerSession peer_session_id;
    is_updated ← on_ib (if withdraw then RemoveSubscribe subscribe_info else AddSubscribe subscribe_info);
    si ← (if (is_updated : bool) then broadcast_subscribe (Some peer_session_id) subscribe_info withdraw
          else mret subscribe_info);
    if withdraw then subscribe_removed peer_session_id si else subscribe_added peer_session_id si).

(** [ClientUnsubscribe(track_fullname_hash)] *)
Definition ClientUnsubscribe (track_fullname_hash : Z) : ST World unit :=
  w ← get;
  si ← on_ib (GetSubscribe track_fullname_hash (ni_id (pm_node_info_ w)));
  match si with
  | None => mret tt
  | Some si =>
      _ ← on_ib (RemoveSubscribe si);
      _ ← broadcast_subscribe None si true;
      mret tt
  end.

(** The subscribe data with the new-group request that [attrs] asks for. *)
Definition update_subscribe_data (new_group_request_id : option Z) (data : list Z) : ST World (list Z) :=
  fields ← lift_outcome (ParseSubscribe data);
  let '(request_id, track_namespace, track_name, parameters) := fields in
  ngr_id ← lift_outcome (GetNewGroup parameters);
  parameters ← (if decide (ngr_id = None) then lift_outcome (AddOptionalNewGroup ngr_id parameters)
                else mret parameters);
  let found := fst <$> list_find (λ b : bool, b = true) (is_new_group parameters) in
  match found, new_group_request_id with
  | Some i, None => mret (AppendSubscribe request_id track_namespace track_name (erase_parameter i parameters))
  | None, Some v =>
      parameters ← lift_outcome (AddNewGroup (Some v) parameters);
      mret (AppendSubscribe request_id track_namespace track_name parameters)
  | _, _ => mret data
  end.

(** [ClientSubscribeUpdate(track_full_name, attrs)] *)
Definition ClientSubscribeUpdate (track_full_name : FullTrackName) (new_group_request_id : option Z) :
    ST World unit :=
  let th := track_hash track_full_name.1 track_full_name.2 in
  w ← get;
  si ← on_ib (GetSubscribe (track_fullname_hash th) (ni_id (pm_node_info_ w)));
  match si with
  | None => mret tt
  | Some si =>
      data ← try_catch (data ← update_subscribe_data new_group_request_id (si_subscribe_data si); mret (Some data))
                       (λ _, mret None);
      match data with
      | None => mret tt
      | Some data =>
          _ ← broadcast_subscribe None
                (mkSubscribeInfo (si_seq si) (si_source_node_id si) (si_track_hash si) data) false;
          mret tt
      end
  end.

(** [ClientSubscribe(track_full_name, attrs, subscribe_data)]; the attributes
    are not used. *)
Definition ClientSubscribe (track_full_name : FullTrackName) (subscribe_data : list Z) : ST World unit :=
  if decide (subscribe_data = []) then mret tt
  else
    w ← get;
    let si := mkSubscribeInfo 0 (ni_id (pm_node_info_ w))
                (track_hash track_full_name.1 track_full_name.2) subscribe_data in
    _ ← on_ib (AddSubscribe si);
    _ ← broadcast_subscribe None si false;
    mret tt.

(** ** Announces *)

Definition broadcast_announce (skip : option Z) (ai : AnnounceInfo) (withdraw : bool) : ST World unit :=
  w ← get;
  for_each (all_sessions w) (λ e,
    if decide (skip = Some e.1) then mret tt
    else on_session e.2 (SendAnnounceInfo ai withdraw)).

(** What the client manager is told about an announcement of another node. *)
Definition tell_client (ai : AnnounceInfo) (withdraw : bool) : ST World unit :=
  let th := track_hash (ai_name_space ai) (ai_name ai) in
  call_client (
    if Z.testbit (ai_flags ai) 0 then
      if withdraw then cm_PublishNamespaceDoneReceived (track_namespace_hash th)
      else cm_PublishNamespaceReceived (ai_name_space ai) (track_namespace_hash th)
    else if withdraw then cm_PublishDoneReceived
    else cm_PublishReceived (mkPublish (ai_name_space ai, ai_name ai) (ai_fullname_hash ai)
           true true true 64 kDefaultObjectTtl)).

(** [AnnounceInfoReceived(peer_session_id, announce_info, withdraw)] *)
Definition AnnounceInfoReceived (peer_session_id : Z) (announce_info : AnnounceInfo) (withdraw : bool) :
    ST World unit :=
  ignore_exceptions (
    _ ← GetPeerSession peer_session_id;
    changed ← on_ib (if withdraw then RemoveAnnounce announce_info else AddAnnounce announce_info);
    if (changed : bool) then
      broadcast_announce (Some peer_session_id) announce_info withdraw ;;
      tell_client announce_info withdraw
    else mret tt).

End peer_manager.

Section client_announce.
Context `{TrackNames, Transport, !SubscribeMessages, Rand} {C : Type} `{!ClientProcessI C}.
Abbreviation World := (World C).

(** A new-group request found among the parameters is passed on as [true]. *)
Definition requested_group (parameters : Parameters) : option Z :=
  if existsb id (is_new_group parameters) then Some 1 else None.

(** A subscription of another node, looked at by a new announcement. *)
Definition announce_matching (update_ref : Z) (name_space : TrackNamespace) (si : SubscribeInfo) :
    ST World unit :=
  fields ← lift_outcome (ParseSubscribe (si_subscribe_data si));
  let '(_, track_namespace, track_name, parameters) := fields in
  _ ← lift_outcome (GetNewGroup parameters);
  if HasSamePrefix name_space track_namespace then
    w ← get;
    if decide (si_source_node_id si = ni_id (pm_node_info_ w)) then mret tt
    else
      (if client_manager_ w
       then cm_ProcessSubscribe (si_track_hash si) (track_namespace, track_name) 10 (requested_group parameters)
       else mret tt) ;;
      w ← get;
      match nodes_best_ (info_base_ w) !! si_source_node_id si with
      | None => mret tt
      | Some _ =>
          priority ← lift_outcome (GetPriority parameters);
          add_best_source update_ref si priority id
      end
  else mret tt.

(** [ClientAnnounce(track_full_name, attrs, withdraw, publish_namespace)] *)
Definition ClientAnnounce (track_full_name : FullTrackName) (withdraw publish_namespace : bool) : ST World unit :=
  w ← get;
  let self_id := ni_id (pm_node_info_ w) in
  let th := track_hash track_full_name.1 track_full_name.2 in
  let ai := mkAnnounceInfo self_id track_full_name.1 track_full_name.2 (track_fullname_hash th)
              (if publish_namespace then 1 else 0) in
  _ ← on_ib (if withdraw then RemoveAnnounce ai else AddAnnounce ai);
  broadcast_announce None ai withdraw ;;
  if withdraw then mret tt
  else
    update_ref ← next_rand;
    w ← get;
    for_each (entries (subscribes_ (info_base_ w))) (λ subs,
      for_each (entries subs.2) (λ e,
        if decide (e.1 = self_id) then mret tt
        else ignore_exceptions (announce_matching update_ref track_full_name.1 e.2))).

Definition ClientUnannounce (full_track_name : FullTrackName) : ST World unit :=
  ClientAnnounce full_track_name true false.

End client_announce.

Section session_changes.
Context `{UintVar, TrackNames, Transport, !SubscribeMessages, Rand} {C : Type} `{!ClientManagerI C}.
Abbreviation World := (World C).

(** [GetOriginNodeId(full_name)] *)
Definition GetOriginNodeId (full_name : FullTrackName) : ST World (gset Z) :=
  on_ib (GetAnnounceIds full_name.1 full_name.2 false).

(** ** Session changes *)

(** The loop over the subscriptions of one track; the variables are
    [remove_sub] and [update_sub].  The caller holds [info_base_->mutex_]. *)
Definition reroute (peer_session_id : Z) (acc : list SubscribeInfo * list (Z * SubscribeInfo))
    (si : SubscribeInfo) : ST World (list SubscribeInfo * list (Z * SubscribeInfo)) :=
  let '(remove_sub, update_sub) := acc in
  w ← get;
  match client_fib_ (info_base_ w) !! (si_hash si, peer_session_id) with
  | None => mret acc
  | Some _ =>
      on_ib (modify (set_client_fib (delete (si_hash si, peer_session_id)))) ;;
      best ← on_ib (GetBestPeerSession (si_source_node_id si));
      p ← lock_ptr best;
      match p with
      | Some peer_sess =>
          s ← the_session peer_sess;
          mret (remove_sub, update_sub ++ [(GetSessionId s, si)])
      | None => undefined      (* [sub_it->second], an end iterator *)
      end
  end.

Definition collect_subs (peer_session_id remote_id : Z)
    (acc : list SubscribeInfo * list (Z * SubscribeInfo)) (subs : Z * gmap Z SubscribeInfo) :
    ST World (list SubscribeInfo * list (Z * SubscribeInfo)) :=
  match subs.2 !! remote_id with
  | Some si => mret (acc.1 ++ [si], acc.2)
  | None => fold_each (entries subs.2).*2 acc (reroute peer_session_id)
  end.

(** Whether some session of the maps is connected. *)
Definition any_connected (w : World) : bool :=
  existsb (λ e, bool_decide ((Status <$> sessions w !! e.2) = Some kStatusConnected)) (all_sessions w).

(** [SessionChanged(peer_session_id, status, remote_node_info)] *)
Definition SessionChanged (peer_session_id : Z) (status : StatusValue) (remote_node_info : NodeInfo) :
    ST World unit :=
  match status with
  | kStatusConnected | kStatusConnecting => mret tt
  | kStatusDisconnected =>
      PropagateNodeInfo remote_node_info true ;;
      w ← get;
      (if stop_ w then mret tt else on_nodes (λ lock, PurgePeerSessionInfo lock peer_session_id)) ;;
      subs ← with_ib_lock (
        w ← get;
        fold_each (entries (subscribes_ (info_base_ w))) ([], [])
          (collect_subs peer_session_id (ni_id remote_node_info)));
      let '(remove_sub, update_sub) := subs in
      for_each remove_sub (λ si, SubscribeInfoReceived peer_session_id si true) ;;
      for_each update_sub (λ e, SubscribeInfoReceived e.1 e.2 false) ;;
      w ← get;
      if any_connected w then mret tt
      else on_ib (modify (set_announces (λ _, ∅)))
  end.
End session_changes.
