(* ===== verification/Startup.v ===== *)
(** * Start and end of the process (src/main.cc, src/config.h, src/config.cc, src/signal_handler.h)

    The configuration from the command line, and the signals that stop the
    relay.  The option parser is not part of the program: [CliOptions] is what it
    returns. *)

From Stdlib Require Import Strings.String.
From S2P Require Import Prelude NodeId NodeInfo Quicr State QuicrServer PeerWorld PeerManager ClientState.

Definition kDefaultClientPort : Z := 33435.
Definition kDefaultPeerPort : Z := 33434.
Definition kDefaultPeerCheckIntervalMs : Z := 5000.
Definition kDefaultPeerInitQueueSize : Z := 5000.

(** ** Configuration *)

(** What cxxopts gives for the options: [None] when [count(...)] is 0. *)
Record CliOptions := mkOptions {
  opt_qlog : option (list Z);
  opt_debug : bool;
  opt_disable_cache : bool;
  opt_detached_subs : bool;
  opt_allow_self : bool;
  opt_peer : option (list (list Z));
  opt_node_type : option (list Z);
  opt_cert : list Z;
  opt_key : list Z;
  opt_peer_port : Z;
  opt_object_ttl : Z;
  opt_sub_dampen_ms : Z;
  opt_endpoint_id : list Z;
  opt_cache_key : option Z;
  opt_bind_ip : list Z;
  opt_port : Z;
}.

Record Config := mkConfig {
  cfg_debug : bool;
  cfg_detached_subs : bool;
  cfg_allow_self : bool;
  cfg_disable_cache : bool;
  cfg_relay_id : list Z;
  cfg_tls_cert_filename : list Z;
  cfg_tls_key_filename : list Z;
  cfg_object_ttl : Z;
  cfg_sub_dampen_ms : Z;
  cfg_node_type : Z;
  cfg_cache_key : option Z;
  cfg_listening_port : Z;
  cfg_peers : list (list Z * Z);
  cfg_check_interval_ms : Z;
  cfg_init_queue_size : Z;
}.

(** [Config::Config()]; the members that no initialiser sets are parameters. *)
Definition Config_make (hostname : list Z) (sub_dampen_ms listening_port : Z) : Config :=
  mkConfig false false false false hostname [] [] kDefaultObjectTtl sub_dampen_ms NodeType.kEdge None listening_port []
    kDefaultPeerCheckIntervalMs kDefaultPeerInitQueueSize.

(** [quicr::ServerConfig], the members that InitConfig sets. *)
Record ServerConfig := mkServerConfig {
  sc_endpoint_id : list Z;
  sc_server_bind_ip : list Z;
  sc_server_port : Z;
  sc_debug : bool;
  sc_tls_cert_filename : list Z;
  sc_tls_key_filename : list Z;
  sc_use_reset_wait_strategy : bool;
  sc_quic_qlog_path : list Z;
  sc_idle_timeout_ms : Z;
  sc_time_queue_rx_size : Z;
  sc_time_queue_bucket_interval : Z;
  sc_time_queue_max_duration : Z;
  sc_max_connections : Z;
}.

(** [std::stoi] *)
Definition stoi (s : list Z) : outcome Z :=
  let '(neg, ds) := signed_digits s in
  match ds with
  | [] => Throw invalid_argument
  | _ => let v := if neg : bool then - dec_value ds else dec_value ds in
         if decide (- 2 ^ 31 ≤ v < 2 ^ 31) then Ok v else Throw out_of_range
  end.

(** One [peer] option: [host] or [host:port]. *)
Definition parse_peer (peer : list Z) : outcome (list Z * Z) :=
  let port_pos := find_from ch_colon 0 peer in
  let? port := match port_pos with
               | None => Ok kDefaultPeerPort
               | Some pos => let? text := substr peer (S pos) None in let? n := stoi text in Ok (u16 n)
               end in
  let? host := substr peer 0 port_pos in
  Ok (host, port).

Fixpoint parse_peers (peers : list (list Z)) : outcome (list (list Z * Z)) :=
  match peers with
  | [] => Ok []
  | peer :: peers => let? p := parse_peer peer in let? ps := parse_peers peers in Ok (p :: ps)
  end.

Definition parse_node_type (node_type : list Z) : option Z :=
  if decide (node_type = str "edge"%string) then Some NodeType.kEdge
  else if decide (node_type = str "via"%string) then Some NodeType.kVia
  else if decide (node_type = str "stub"%string) then Some NodeType.kStub
  else None.

(** [InitConfig(cli_opts, cfg)]; the left is the argument of [exit]. *)
Definition InitConfig (exists_file : list Z → bool) (o : CliOptions) (cfg : Config) :
    outcome (Z + (Config * ServerConfig)) :=
  let? peers := parse_peers (default [] (opt_peer o)) in
  match match opt_node_type o with Some t => parse_node_type t | None => Some (cfg_node_type cfg) end with
  | None => Ok (inl (-1))
  | Some node_type =>
      if decide (opt_cert o ≠ [] ∧ exists_file (opt_cert o) = false) then Ok (inl 1)
      else if decide (opt_key o ≠ [] ∧ exists_file (opt_key o) = false) then Ok (inl 1)
      else
        let cfg := mkConfig (opt_debug o) (opt_detached_subs o || cfg_detached_subs cfg)
          (opt_allow_self o || cfg_allow_self cfg) (opt_disable_cache o || cfg_disable_cache cfg)
          (opt_endpoint_id o) (opt_cert o) (opt_key o) (opt_object_ttl o) (opt_sub_dampen_ms o) node_type
          (match opt_cache_key o with Some k => Some k | None => cfg_cache_key cfg end)
          (opt_peer_port o) (cfg_peers cfg ++ peers) (cfg_check_interval_ms cfg) (cfg_init_queue_size cfg) in
        Ok (inr (cfg,
          mkServerConfig (cfg_relay_id cfg) (opt_bind_ip o) (opt_port o) (cfg_debug cfg) (cfg_tls_cert_filename cfg)
            (cfg_tls_key_filename cfg) false (default [] (opt_qlog o)) 10000 10000 500 (u32 (cfg_object_ttl cfg * 2)) 5000))
  end.

(** What the client manager reads of it; [cache_duration] is an option of its
    own. *)
Definition client_config (cfg : Config) (cache_duration : Z) : ClientConfig :=
  mkClientConfig (cfg_object_ttl cfg) (cfg_sub_dampen_ms cfg) (cfg_disable_cache cfg) (cfg_allow_self cfg)
    (cfg_detached_subs cfg) cache_duration.

Example peer_with_port : parse_peer (str "relay.example:33440"%string) = Ok (str "relay.example"%string, 33440).
Proof. reflexivity. Qed.
Example peer_without_port : parse_peer (str "relay.example"%string) = Ok (str "relay.example"%string, 33434).
Proof. reflexivity. Qed.
Example peer_ipv6 : parse_peer (str "2001:db8::1"%string) = Throw invalid_argument.
Proof. reflexivity. Qed.

(** *** Peers *)

Lemma dec_value_nonneg l : digits l → 0 ≤ dec_value l.
Proof.
  induction l as [|d l IH] using rev_ind; [done|]. unfold digits. rewrite Forall_app, Forall_singleton, dec_value_app.
  intros [Hl Hd%isdigit_spec]. specialize (IH Hl). lia.
Qed.

Lemma stoi_digits l :
  digits l → l ≠ [] → stoi l = if decide (dec_value l < 2 ^ 31) then Ok (dec_value l) else Throw out_of_range.
Proof.
  intros Hl Hne. unfold stoi. rewrite signed_digits_digits by done. pose proof (dec_value_nonneg l Hl).
  destruct l as [|c l]; [done|]. repeat case_decide; (done || lia).
Qed.

(** C40: a peer option [host:port].  Every port below 2^16 is taken as it is
    written, and without one the default is used; a larger number is accepted as
    well, modulo 2^16, up to the largest [int], beyond which the process ends with
    an exception.  The host ends at the first colon. *)
Theorem peer_option_parsed host n :
  ch_colon ∉ host → 0 ≤ n < 10 ^ 20 →
  parse_peer host = Ok (host, kDefaultPeerPort) ∧
  parse_peer (host ++ ch_colon :: dec 20 n) =
    (if decide (n < 2 ^ 31) then Ok (host, u16 n) else Throw out_of_range) ∧
  (n < 2 ^ 16 → u16 n = n).
Proof.
  intros Hhost Hn. destruct (dec_spec 20 n) as (Hd & Hne & Hv); [lia..|]. split_and!.
  - unfold parse_peer. rewrite find_from_none by by rewrite drop_0. unfold substr. by rewrite decide_False, drop_0 by lia.
  - unfold parse_peer. rewrite find_from_first by done. rewrite substr_rest, stoi_digits, Hv by done.
    case_decide; [|done]. by rewrite substr_first.
  - intros Hsmall. apply wrap_small; unfold in_range; lia.
Qed.

Lemma peer_option_parsed_witness :
  parse_peer (str "relay:33440"%string) = Ok (str "relay"%string, 33440) ∧
  parse_peer (str "relay:70000"%string) = Ok (str "relay"%string, 4464).
Proof.
  assert (ch_colon ∉ str "relay"%string) as Hc by decide_now.
  split; [apply (peer_option_parsed _ 33440 Hc); lia|apply (peer_option_parsed _ 70000 Hc); lia].
Defined.

(** ** Signals

    The main thread and the signal handlers share [gvars::main_mutex].  A signal
    may be delivered to any thread, and interrupts it; the mask of the handlers is
    empty, so that only the same signal has to wait for its handler. *)

(** A thread; 0 runs [main]. *)
Definition main_thread : nat := 0.

(** Where [main] is, after the options have been parsed and help was not asked
    for. *)
Inductive MainPoint :=
  | Installing         (* installSignalHandlers() *)
  | Locking            (* std::unique_lock lock(main_mutex) *)
  | Configuring        (* InitConfig() to the constructor of the peer manager *)
  | Starting           (* the try block, up to cv.wait *)
  | Checking           (* cv.wait evaluates its predicate *)
  | Waiting            (* cv.wait sleeps, or is awake and locks the mutex again *)
  | Unlocking          (* cv.wait has returned *)
  | Stopping           (* after lock.unlock() *)
  | Failing            (* an exception has left the try block: until lock is destroyed *)
  | Exiting            (* exit(), which destroys no local variable *)
  | Aborted            (* an exception that nothing catches: std::terminate() *)
  | Returned (code : Z).

#[global] Instance MainPoint_eq_dec : EqDecision MainPoint.
Proof. solve_decision. Defined.

(** A signal handler that has been entered: whether its [lock_guard] has the
    mutex yet. *)
Record Handler := mkHandler {
  h_thread : nat;
  h_signal : Z;
  h_locked : bool;
}.

#[global] Instance Handler_eq_dec : EqDecision Handler.
Proof. solve_decision. Defined.

(** [gvars], where main is, and the handlers that have not returned, the latest
    first; a mutex knows the thread that owns it. *)
Record Process := mkProcess {
  main_at : MainPoint;
  main_mutex : option nat;
  terminate : bool;
  termination_reason : option (list Z);
  handlers : list Handler;
}.

Definition process_start : Process := mkProcess Installing None false None [].

Definition SIGHUP : Z := 1.
Definition SIGINT : Z := 2.
Definition SIGQUIT : Z := 3.

Definition reason_of (signal_number : Z) : list Z :=
  if decide (signal_number = SIGINT) then str "Interrupt signal received"%string
  else if decide (signal_number = SIGHUP) then str "Hangup signal received"%string
  else if decide (signal_number = SIGQUIT) then str "Quit signal received"%string
  else str "Unknown signal received"%string.

Definition set_main (m : MainPoint) (owner : option nat) (p : Process) : Process :=
  mkProcess m owner (terminate p) (termination_reason p) (handlers p).

(** [mutex.lock()] by thread [t]: it waits ([None]) for another thread; locking
    what the thread has already is undefined. *)
Definition lock_mutex (t : nat) (p : Process) : option (outcome unit) :=
  match main_mutex p with
  | None => Some (Ok tt)
  | Some t' => if decide (t' = t) then Some UB else None
  end.

(** How code that does not return normally ends. *)
Inductive Course := Normally | ByException | ByExit.

Definition EXIT_SUCCESS : Z := 0.
Definition EXIT_FAILURE : Z := 1.

(** A step of [main]. *)
Definition main_step (c : Course) (p : Process) : option (outcome unit * Process) :=
  let locking m := o ← lock_mutex main_thread p; Some (o, if o is Ok _ then set_main m (Some main_thread) p else p) in
  let next m := Some (Ok tt, set_main m (main_mutex p) p) in
  let unlocking m := Some (Ok tt, set_main m None p) in
  match main_at p, c with
  | Installing, Normally => next Locking
  | Locking, Normally => locking Configuring
  | Configuring, Normally => next Starting
  | Configuring, ByExit => next Exiting
  | Configuring, ByException => next Aborted
  | Starting, Normally => next Checking
  | Starting, ByExit => next Exiting
  | Starting, ByException => next Failing
  | Checking, Normally => if terminate p then next Unlocking else unlocking Waiting
  | Waiting, Normally => locking Checking
  | Unlocking, Normally => unlocking Stopping
  | Stopping, Normally => next (Returned EXIT_SUCCESS)
  | Failing, Normally => unlocking (Returned EXIT_FAILURE)
  | _, _ => None
  end.

(** The handler that runs on a thread is the one that was entered last. *)
Definition running (t : nat) (p : Process) : option Handler := head (filter (λ h, h_thread h = t) (handlers p)).

Definition replace_running (t : nat) (new : option Handler) : list Handler → list Handler :=
  fix go l := match l with
              | [] => []
              | h :: l => if decide (h_thread h = t) then option_list new ++ l else h :: go l
              end.

(** The body of [signalHandler] behind its [lock_guard], whose destructor
    unlocks. *)
Definition signal_body (t : nat) (signal_number : Z) (p : Process) : Process :=
  mkProcess (main_at p) None true
    (if terminate p then termination_reason p else Some (reason_of signal_number))
    (replace_running t None (handlers p)).

(** A step of the handler that runs on thread [t]. *)
Definition signalHandler (t : nat) (p : Process) : option (outcome unit * Process) :=
  h ← running t p;
  if h_locked h then Some (Ok tt, signal_body t (h_signal h) p)
  else
    o ← lock_mutex t p;
    Some (o, if o is Ok _ then mkProcess (main_at p) (Some t) (terminate p) (termination_reason p)
                                 (replace_running t (Some (mkHandler t (h_signal h) true)) (handlers p))
             else p).

(** The signals that [installSignalHandlers] installs the handler for. *)
Definition handled_signals : list Z := [SIGHUP; SIGINT; SIGQUIT].

(** Signal [n] is delivered to thread [t]; it waits while a handler for the same
    signal runs there.  Before the handlers are installed a signal kills the
    process. *)
Definition deliver_signal (t : nat) (n : Z) (p : Process) : option (outcome unit * Process) :=
  if decide (main_at p ≠ Installing ∧ n ∈ handled_signals ∧ Forall (λ h, h_thread h = t → h_signal h ≠ n) (handlers p))
  then Some (Ok tt, mkProcess (main_at p) (main_mutex p) (terminate p) (termination_reason p) (mkHandler t n false :: handlers p))
  else None.

Inductive Action :=
  | act_main (c : Course)
  | act_handler (t : nat)
  | act_signal (t : nat) (n : Z).

(** One step of the process; [main] goes on when no handler has interrupted it. *)
Definition process_step (a : Action) (p : Process) : option (outcome unit * Process) :=
  match a with
  | act_main c => if decide (running main_thread p = None) then main_step c p else None
  | act_handler t => signalHandler t p
  | act_signal t n => deliver_signal t n p
  end.

Fixpoint run_process (acts : list Action) (p : Process) : option Process :=
  match acts with
  | [] => Some p
  | a :: acts => match process_step a p with Some (Ok _, p') => run_process acts p' | _ => None end
  end.

Definition reachable (p : Process) : Prop := ∃ acts, run_process acts process_start = Some p.

(** *** Who has the mutex *)

(** Where [main] is in possession of the mutex. *)
Definition holds (m : MainPoint) : bool :=
  match m with
  | Configuring | Starting | Checking | Unlocking | Failing | Exiting | Aborted => true
  | _ => false
  end.

(** The owner is [main] or the thread of the one handler that is past its lock;
    the flag is set with the reason, and only then the wait ends. *)
Definition process_ok (p : Process) : Prop :=
  (match main_mutex p with
   | None => holds (main_at p) = false ∧ filter (λ h, h_locked h) (handlers p) = []
   | Some t => (holds (main_at p) = true ∧ t = main_thread ∧ filter (λ h, h_locked h) (handlers p) = []) ∨
               (holds (main_at p) = false ∧ ∃ n, filter (λ h, h_locked h) (handlers p) = [mkHandler t n true])
   end) ∧
  (terminate p = true ↔ is_Some (termination_reason p)) ∧
  (main_at p = Unlocking ∨ main_at p = Stopping ∨ main_at p = Returned EXIT_SUCCESS → terminate p = true).

Lemma running_split t p h :
  running t p = Some h → ∃ l1 l2, handlers p = l1 ++ h :: l2 ∧ h_thread h = t ∧
    ∀ new, replace_running t new (handlers p) = l1 ++ option_list new ++ l2.
Proof.
  unfold running. generalize (handlers p) as l. intros l. induction l as [|h' l IH]; [done|]. rewrite filter_cons.
  case_decide as Ht.
  - intros [= <-]. exists [], l. split_and!; [done|done|]. intros new. cbn. by rewrite decide_True.
  - intros Hr. destruct (IH Hr) as (l1 & l2 & -> & Hh & Hnew). exists (h' :: l1), l2. split_and!; [done|done|].
    intros new. cbn. rewrite decide_False by done. by rewrite <- Hnew.
Qed.

Lemma main_step_ok c p p' : process_ok p → main_step c p = Some (Ok tt, p') → process_ok p'.
Proof.
  intros (Hown & Hflag & Hend) Hstep. unfold main_step, lock_mutex in Hstep. unfold process_ok.
  destruct p as [m o te re hs]; cbn [main_at main_mutex terminate termination_reason handlers] in *.
  destruct m, c, o as [t|], te; try discriminate Hstep; cbn in Hstep; repeat case_decide; simplify_eq; cbn in *;
    (split; [naive_solver|split; [done|naive_solver]]).
Qed.

Lemma handler_step_ok t p p' : process_ok p → signalHandler t p = Some (Ok tt, p') → process_ok p'.
Proof.
  intros (Hown & Hflag & Hend) Hstep. unfold signalHandler in Hstep.
  destruct (running t p) as [h|] eqn:Hr; [|done]. destruct (running_split t p h Hr) as (l1 & l2 & Hl & Hh & Hnew).
  cbn [mbind option_bind] in Hstep. destruct h as [t' n b]. cbn in Hh, Hstep. subst t'. rewrite Hl, filter_app in Hown.
  destruct b.
  - rewrite filter_cons_True in Hown by done. injection Hstep as <-. unfold process_ok, signal_body. cbn. rewrite Hnew, filter_app.
    split; [|split; [|done]].
    + destruct (main_mutex p) as [t'|]; [destruct Hown as [(_ & _ & Hf)|(Hm & n' & Hf)]|destruct Hown as [_ Hf]].
      * by apply app_eq_nil in Hf as [_ ?].
      * split; [done|]. apply app_eq_unit in Hf as [[-> [= -> ->]]|[_ ?]]; done.
      * by apply app_eq_nil in Hf as [_ ?].
    + split; [intros _; destruct (terminate p) eqn:Ht; [by apply Hflag|done]|done].
  - rewrite filter_cons_False in Hown by naive_solver. unfold lock_mutex in Hstep.
    destruct (main_mutex p) as [t'|] eqn:Hm; [by case_decide|]. injection Hstep as <-.
    unfold process_ok. cbn [main_mutex handlers main_at terminate termination_reason]. rewrite Hnew, filter_app. destruct Hown as [Hm' Hf].
    apply app_eq_nil in Hf as [-> Hf]. split; [|done]. right. split; [done|]. exists n. rewrite app_nil_l. change (filter (λ h, h_locked h) (mkHandler t n true :: l2) = [mkHandler t n true]). rewrite filter_cons_True by done. by rewrite Hf.
Qed.

Lemma reachable_ok p : reachable p → process_ok p.
Proof.
  intros [acts Hrun]. assert (process_ok process_start) as Hok by (split; [done|split; [|by intros [|[|]]]; split; [done|by intros []]]).
  revert Hok Hrun. generalize process_start. induction acts as [|a acts IH]; intros q Hok Hrun; [by injection Hrun as <-|].
  cbn in Hrun. destruct (process_step a q) as [[[[]|e|] q']|] eqn:Hstep; try done. apply (IH q'); [|done].
  destruct a as [c|t|t n]; cbn in Hstep.
  - case_decide; [by apply (main_step_ok c q)|done].
  - by apply (handler_step_ok t q).
  - unfold deliver_signal in Hstep. case_decide; [|done]. injection Hstep as <-. exact Hok.
Qed.

(** A handler that has not locked yet finds the mutex with its own thread exactly
    when main is at a point where it has it, and was interrupted there, or when
    the handler has interrupted another one that is past its lock. *)
Lemma handler_ub p t : reachable p →
  (fst <$> signalHandler t p = Some UB ↔
   (∃ n, running t p = Some (mkHandler t n false)) ∧
   ((t = main_thread ∧ holds (main_at p) = true) ∨ ∃ n, mkHandler t n true ∈ handlers p)).
Proof.
  intros (Hown & _)%reachable_ok. unfold signalHandler. destruct (running t p) as [[t' n b]|] eqn:Hr; [|naive_solver].
  destruct (running_split t p _ Hr) as (l1 & l2 & Hl & [= ->] & _). cbn. destruct b; [naive_solver|]. unfold lock_mutex.
  assert (∀ n', mkHandler t n' true ∈ handlers p → mkHandler t n' true ∈ filter (λ h, h_locked h) (handlers p)) as Hin
    by (intros; by apply list_elem_of_filter).
  destruct (main_mutex p) as [t'|].
  - destruct Hown as [(Hm & -> & Hf)|(Hm & n' & Hf)].
    + case_decide as Ht; cbn; [subst t; naive_solver|]. split; [done|]. intros [_ [[-> _]|[n' Hn]]]; [done|].
      apply Hin in Hn. rewrite Hf in Hn. by apply not_elem_of_nil in Hn.
    + assert (mkHandler t' n' true ∈ handlers p) as Ht' by (eapply list_elem_of_filter; rewrite Hf; by apply list_elem_of_singleton).
      case_decide as Ht; cbn; [subst t'; naive_solver|]. split; [done|]. intros [_ [[_ ?]|[n'' Hn]]]; [congruence|].
      apply Hin in Hn. rewrite Hf in Hn. apply list_elem_of_singleton in Hn. congruence.
  - cbn. split; [done|]. destruct Hown as [Hm Hf]. intros [_ [[_ ?]|[n'' Hn]]]; [congruence|].
    apply Hin in Hn. rewrite Hf in Hn. by apply not_elem_of_nil in Hn.
Qed.

(** [main] itself never locks what it has: no handler of its thread is between
    lock and unlock when it runs. *)
Lemma main_never_ub p c : reachable p → fst <$> process_step (act_main c) p ≠ Some UB.
Proof.
  intros (Hown & _)%reachable_ok. cbn. case_decide as Hr; [|done]. unfold main_step, lock_mutex.
  destruct p as [m o te re hs]; cbn [main_at main_mutex terminate termination_reason handlers] in *.
  destruct m, c, o as [t|], te; try done; cbn; repeat case_decide; cbn; try done; subst t;
    destruct Hown as [[? _]|[_ [n Hf]]]; try done;
    (assert (mkHandler main_thread n true ∈ filter (λ h, h_thread h = main_thread) hs) as Hin
      by (apply list_elem_of_filter; split; [done|]; eapply list_elem_of_filter; rewrite Hf; by apply list_elem_of_singleton);
     unfold running in Hr; cbn in Hr; destruct (filter _ hs); [by apply not_elem_of_nil in Hin|done]).
Qed.

(** The first signal stays: no step takes the flag or the reason back. *)
Lemma reason_stays a p p' : process_step a p = Some (Ok tt, p') → terminate p = true →
  terminate p' = true ∧ termination_reason p' = termination_reason p.
Proof.
  intros Hstep Ht. destruct a as [c|t|t n]; cbn in Hstep.
  - case_decide; [|done]. unfold main_step, lock_mutex in Hstep. rewrite Ht in Hstep.
    destruct (main_at p), c, (main_mutex p); try discriminate Hstep; cbn in Hstep; repeat case_decide; by simplify_eq.
  - unfold signalHandler in Hstep. destruct (running t p) as [h|]; [|done]. cbn in Hstep. destruct (h_locked h).
    + injection Hstep as <-. unfold signal_body. cbn. by rewrite Ht.
    + destruct (lock_mutex t p) as [[| |]|]; cbn in Hstep; simplify_eq. done.
  - unfold deliver_signal in Hstep. case_decide; by simplify_eq.
Qed.

Lemma run_reason_stays acts p p' : run_process acts p = Some p' → terminate p = true →
  terminate p' = true ∧ termination_reason p' = termination_reason p.
Proof.
  revert p. induction acts as [|a acts IH]; intros p Hrun Ht; [by injection Hrun as <-|]. cbn in Hrun.
  destruct (process_step a p) as [[[[]|e|] q]|] eqn:Hstep; try done. destruct (reason_stays a p q Hstep Ht) as [Hq <-].
  by apply IH.
Qed.

(** While main sleeps and no handler runs, the mutex is free. *)
Lemma waiting_free p : reachable p → main_at p = Waiting → handlers p = [] →
  p = mkProcess Waiting None (terminate p) (termination_reason p) [].
Proof.
  intros (Hown & _)%reachable_ok. destruct p as [m o te re hs]; cbn. intros -> ->.
  destruct o as [t'|]; [by destruct Hown as [(? & _)|(_ & ? & ?)]|done].
Qed.

Lemma running_head t n b l m o te re :
  running t (mkProcess m o te re (mkHandler t n b :: l)) = Some (mkHandler t n b).
Proof. unfold running. cbn [handlers]. by rewrite filter_cons_True. Qed.

Lemma replace_head t new n b l : replace_running t new (mkHandler t n b :: l) = option_list new ++ l.
Proof. cbn. by rewrite decide_True. Qed.

Lemma signal_enters t n m te re : m ≠ Installing → n ∈ handled_signals →
  run_process [act_signal t n; act_handler t] (mkProcess m None te re []) =
  Some (mkProcess m (Some t) te re [mkHandler t n true]).
Proof.
  intros Hm Hn. cbn [run_process process_step]. unfold deliver_signal. rewrite decide_True by done.
  cbn [main_at main_mutex terminate termination_reason handlers]. unfold signalHandler. rewrite running_head. cbn.
  by rewrite decide_True.
Qed.

Lemma second_lock t n p : main_mutex p = Some t → running t p = Some (mkHandler t n false) →
  fst <$> signalHandler t p = Some UB.
Proof. intros Hm Hr. unfold signalHandler, lock_mutex. rewrite Hr, Hm. cbn. by case_decide. Qed.

Lemma signal_nests t n n' m te re : m ≠ Installing → n' ∈ handled_signals → n ≠ n' → ∃ q,
  run_process [act_signal t n'] (mkProcess m (Some t) te re [mkHandler t n true]) = Some q ∧
  fst <$> signalHandler t q = Some UB.
Proof.
  intros Hm Hin Hn. cbn [run_process process_step]. unfold deliver_signal.
  rewrite decide_True by (split_and!; [done|done|repeat constructor; done]). eexists; split; [done|].
  apply (second_lock t n'); [done|apply running_head].
Qed.

Lemma signal_stops t n te re : (te = true ↔ is_Some re) →
  run_process (act_handler t :: replicate 3 (act_main Normally)) (mkProcess Waiting (Some t) te re [mkHandler t n true]) =
  Some (mkProcess Stopping None true (Some (default (reason_of n) re)) []).
Proof.
  intros Hflag. cbn [run_process process_step]. unfold signalHandler. rewrite running_head. cbn [mbind option_bind h_locked].
  unfold signal_body. cbn [main_at main_mutex terminate termination_reason handlers h_signal]. rewrite replace_head.
  destruct te, re; try done; naive_solver.
Qed.

Lemma run_process_app acts1 acts2 p :
  run_process (acts1 ++ acts2) p = q ← run_process acts1 p; run_process acts2 q.
Proof.
  revert p. induction acts1 as [|a acts1 IH]; intros p; [done|]. cbn. destruct (process_step a p) as [[[[]|e|] q]|]; [apply IH|done..].
Qed.

(** A schedule that leads [main] to each point where it has the mutex. *)
Definition path_to (m : MainPoint) : list Action :=
  let go n := replicate n (act_main Normally) in
  match m with
  | Starting => go 3
  | Checking => go 4
  | Unlocking => go 5 ++ [act_signal 1 SIGINT; act_handler 1; act_handler 1] ++ go 2
  | Failing => go 3 ++ [act_main ByException]
  | Exiting => go 3 ++ [act_main ByExit]
  | Aborted => go 2 ++ [act_main ByException]
  | _ => go 2
  end%nat.

Definition signal_at (m : MainPoint) : list Action := path_to m ++ [act_signal main_thread SIGQUIT].

(** C39: signals, in every interleaving of the steps of main (its exits included,
    from the installation of the handlers on), of the handlers and of the
    deliveries.  A signal handler runs into undefined behaviour (its thread locks
    the mutex a second time) exactly when it has not locked yet and either has
    interrupted main at a point where main has the mutex, or a handler, which it
    has interrupted on the same thread (the signal mask is empty), is past its
    lock.  Both do happen: the first at every point between main's lock and the
    end of the wait, the evaluation of the wait predicate, the failure of the try
    block, exit() and an uncaught exception included; the second while main
    sleeps.  Main itself never locks twice.  A signal that reaches any thread
    while main sleeps and no handler runs stops the process, with the reason of
    the first signal; nothing changes the reason once it is set, and main gets
    past its wait to a normal end only after a signal. *)
Theorem signal_outcome p : reachable p →
  (∀ t, fst <$> signalHandler t p = Some UB ↔
     (∃ n, running t p = Some (mkHandler t n false)) ∧
     ((t = main_thread ∧ holds (main_at p) = true) ∨ ∃ n, mkHandler t n true ∈ handlers p)) ∧
  (∀ m, holds m = true → ∃ q, run_process (signal_at m) process_start = Some q ∧ main_at q = m ∧
     fst <$> signalHandler main_thread q = Some UB) ∧
  (∀ t n n', n ∈ handled_signals → n' ∈ handled_signals → n ≠ n' → main_at p = Waiting → handlers p = [] → ∃ q,
     run_process [act_signal t n; act_handler t; act_signal t n'] p = Some q ∧ fst <$> signalHandler t q = Some UB) ∧
  (∀ c, fst <$> process_step (act_main c) p ≠ Some UB) ∧
  (∀ t n, n ∈ handled_signals → main_at p = Waiting → handlers p = [] →
     run_process ([act_signal t n; act_handler t; act_handler t] ++ replicate 3 (act_main Normally)) p =
     Some (mkProcess Stopping None true (Some (default (reason_of n) (termination_reason p))) [])) ∧
  (∀ acts q, terminate p = true → run_process acts p = Some q →
     terminate q = true ∧ termination_reason q = termination_reason p) ∧
  (main_at p = Stopping ∨ main_at p = Returned EXIT_SUCCESS → terminate p = true).
Proof.
  intros Hreach. pose proof (reachable_ok p Hreach) as (Hown & Hflag & Hend). split_and!.
  - intros t. by apply handler_ub.
  - intros m Hm. destruct m; try discriminate Hm; eexists; (split_and!; [reflexivity..|reflexivity]).
  - intros t n n' Hin Hin' Hn Hm Hh. rewrite (waiting_free p Hreach Hm Hh).
    destruct (signal_nests t n n' Waiting (terminate p) (termination_reason p)) as (q & Hq & Hub); [done..|].
    exists q. split; [|done]. etrans; [apply (run_process_app [_; _] [_])|]. by rewrite signal_enters.
  - intros c. by apply main_never_ub.
  - intros t n Hin Hm Hh. rewrite (waiting_free p Hreach Hm Hh) at 1.
    etrans; [apply (run_process_app [_; _] (_ :: _))|]. rewrite signal_enters by done. by apply signal_stops.
  - intros acts q Ht Hrun. by apply (run_reason_stays acts p q).
  - intros Hm. apply Hend. tauto.
Qed.

(** Ctrl-C is pressed while the relay configures itself: the handler is entered
    on the main thread and locks the mutex that main has. *)
Lemma signal_outcome_witness :
  let p := mkProcess Configuring (Some main_thread) false None [mkHandler main_thread SIGINT false] in
  reachable p ∧ fst <$> signalHandler main_thread p = Some UB.
Proof.
  set (p := mkProcess _ _ _ _ _). cbv zeta.
  assert (reachable p) as Hp by (exists [act_main Normally; act_main Normally; act_signal main_thread SIGINT]; reflexivity).
  split; [exact Hp|]. apply (signal_outcome p Hp). split; [by exists SIGINT|by left].
Defined.
