(* ===== verification/PeerForwarding.v ===== *)
(** * Data forwarding of the peer manager (src/peering/peer_manager.cc)

    The forwarding tables made from received subscribe node sets, and the data
    that follows them: between peers, from peers to clients and from clients to
    peers. *)

From S2P Require Import Prelude Common Quicr State NodeInfo DataHeader SubscribeInfo SubscribeNodeSet AnnounceInfo InfoBase Transport PeerSession PeerSessionEvents PeerSessionControl PeerWorld PeerManager.

Section forwarding.
Context `{UintVar, TrackNames, Transport, !SubscribeMessages, Rand} {C : Type} `{!ClientManagerI C}.
Abbreviation World := (World C).

(** ** Received subscribe node sets *)

(** [fib_it->second[out_peer_sess_id] = entry] *)
Definition set_fib (key : Z * Z) (out : Z) (e : FibEntry) : ST World unit :=
  on_ib (modify (set_peer_fib (alter <[out := e]> key))).

(** The entry is written afresh, without streams, whether there was one or not.
    When there was one, the set is known already and the session did not have the
    node, the message that is logged takes the session of the old entry. *)
Definition log_sns_update (old : option FibEntry) (is_new : bool) : ST World unit :=
  match old with
  | Some e =>
      if is_new then p ← lock_ptr (fe_peer_session e); old_sess ← deref p; _ ← the_session old_sess; mret tt
      else mret tt
  | None => mret tt
  end.

(** One node of the set. *)
Definition sns_node (new_ingress : bool) (update_ref : Z) (in_session : Z) (sns : SubscribeNodeSet) (node_id : Z) : ST World unit :=
  w ← get;
  let key := (in_session, sns_id sns) in
  if decide (node_id = ni_id (pm_node_info_ w)) then set_fib key 0 (fib_entry update_ref 0 None)
  else
    peer_sess_weak ← on_ib (GetBestPeerSession node_id);
    p ← lock_ptr peer_sess_weak;
    match p with
    | None => mret tt
    | Some peer_sess =>
        s ← the_session peer_sess;
        let old := if new_ingress then None else default ∅ (peer_fib_ (info_base_ w) !! key) !! GetSessionId s in
        r ← on_session peer_sess (AddPeerSnsSourceNode in_session (sns_id sns) node_id (sns_priority sns));
        log_sns_update old r.2 ;;
        set_fib key (GetSessionId s) (fib_entry update_ref r.1 peer_sess_weak)
    end.

(** The entries that an update of the set did not touch; the session is asked
    to drop the set under its own id. *)
Definition sns_stale (sns : SubscribeNodeSet) (update : Z) (remove_peers : list Z) (e : Z * FibEntry) :
    ST World (list Z) :=
  if decide (update_ref e.2 = update) then mret remove_peers
  else
    p ← lock_ptr (fe_peer_session e.2);
    match p with
    | Some peer_sess =>
        s ← the_session peer_sess;
        _ ← on_session peer_sess (RemovePeerSnsSourceNode (GetSessionId s) (sns_id sns) 0);
        mret tt
    | None => mret tt
    end ;;
    mret (remove_peers ++ [e.1]).

Definition sns_remove_stale (update in_session : Z) (sns : SubscribeNodeSet) : ST World unit :=
  w ← get;
  let key := (in_session, sns_id sns) in
  remove_peers ← fold_each (entries (default ∅ (peer_fib_ (info_base_ w) !! key))) [] (sns_stale sns update);
  for_each remove_peers (λ out, on_ib (modify (set_peer_fib (alter (delete out) key)))).

(** The withdrawal of a set. *)
Definition sns_withdraw (in_session : Z) (sns : SubscribeNodeSet) : ST World unit :=
  w ← get;
  let key := (in_session, sns_id sns) in
  match peer_fib_ (info_base_ w) !! key with
  | None => mret tt
  | Some outs =>
      for_each (entries outs) (λ e,
        if decide (e.1 = 0) then mret tt
        else
          p ← lock_ptr (fe_peer_session e.2);
          out_peer_sess ← deref p;
          _ ← on_session out_peer_sess (RemovePeerSnsSourceNode in_session (sns_id sns) 0);
          mret tt) ;;
      on_ib (modify (set_peer_fib (delete key)))
  end.

(** [SnsReceived(peer_session, sns, withdraw)] *)
Definition SnsReceived (peer_session : SessRef) (sns : SubscribeNodeSet) (withdraw : bool) : ST World unit :=
  update_ref ← next_rand;
  with_pm_lock (
    s ← the_session peer_session;
    let in_session := GetSessionId s in
    if withdraw then sns_withdraw in_session sns
    else
      w ← get;
      let key := (in_session, sns_id sns) in
      let new_ingress := bool_decide (peer_fib_ (info_base_ w) !! key = None) in
      when new_ingress (on_ib (modify (set_peer_fib <[key := ∅]>))) ;;
      for_each (set_elements (sns_nodes sns)) (sns_node new_ingress update_ref in_session sns) ;;
      if new_ingress then mret tt else sns_remove_stale update_ref in_session sns).

(** ** Data received from a peer *)

(** [std::copy(sns_id_bytes.rbegin(), sns_id_bytes.rend(), data.begin() + 2)] *)
Definition patch_sns_id (out_sns_id : Z) (data : list Z) : option (list Z) :=
  if decide (length data < 6)%nat then None
  else Some (take 2 data ++ put 4 out_sns_id ++ drop 6 data).

(** The client manager's part; [from] are the bytes from the payload on. *)
Definition forward_to_client (is_new_stream : bool) (stream_id : Z) (data_header : DataHeader)
    (data : list Z) (data_offset : Z) (eflags : EnqueueFlags) : ST World unit :=
  w ← get;
  match subscribes_ (info_base_ w) !! dh_track_full_name_hash data_header with
  | None => mret tt
  | Some subs =>
      match subs !! ni_id (pm_node_info_ w) with
      | None => mret tt
      | Some si =>
          client_data ← deref (if decide (Z.of_nat (length data) < data_offset) then None
                               else Some (drop (Z.to_nat data_offset) data));
          call_client (
            if use_reliable eflags
            then cm_PeerDataReceived (si_hash si) is_new_stream (Some stream_id) client_data
            else cm_PeerDataReceived (si_hash si) false None client_data)
      end
  end.

(** [entry.streams.emplace(in, out)] *)
Definition add_peer_stream (key : Z * Z) (out : Z) (stream_id out_stream_id : Z) : ST World unit :=
  on_ib (modify (set_peer_fib (alter (alter (λ e,
    mkFibEntry (update_ref e) (<[stream_id := out_stream_id]> (streams e)) (out_sns_id e)
      (fe_peer_session e) (fe_track_fullname_hash e)) out) key))).

(** One egress entry of the loop, which carries [data_out]. *)
Definition forward_entry (peer_session_id : Z) (is_new_stream : bool) (stream_id : Z)
    (data_header : DataHeader) (data : list Z) (data_offset : Z) (eflags : EnqueueFlags)
    (data_out : list Z) (e : Z * FibEntry) : ST World (list Z) :=
  let '(out_peer_sess_id, entry) := e in
  if decide (out_peer_sess_id = peer_session_id) then mret data_out
  else if decide (out_peer_sess_id = 0) then
    forward_to_client is_new_stream stream_id data_header data data_offset eflags ;; mret data_out
  else
    data_out ← (if is_new_stream || negb (use_reliable eflags)
                then deref (patch_sns_id (out_sns_id entry) data_out) else mret data_out);
    out_peer_sess ← lock_ptr (fe_peer_session entry);
    let send out_stream_id :=
      r ← deref out_peer_sess;
      on_session r (SendData (dh_priority data_header) (dh_ttl data_header) (out_sns_id entry)
        out_stream_id eflags data_out) ;;
      mret data_out in
    if use_reliable eflags then
      match streams entry !! stream_id with
      | Some out_stream_id => send out_stream_id
      | None =>
          if is_new_stream then
            r ← deref out_peer_sess;
            out_stream_id ← on_session r (Session_CreateStream (out_sns_id entry) (dh_priority data_header));
            add_peer_stream (peer_session_id, dh_sns_id data_header) out_peer_sess_id stream_id out_stream_id ;;
            send out_stream_id
          else mret data_out
      end
    else send 0.

(** [ForwardPeerData(...)] *)
Definition ForwardPeerData (peer_session_id : Z) (is_new_stream : bool) (stream_id : Z)
    (data_header : DataHeader) (data : list Z) (data_offset : Z) (eflags : EnqueueFlags) : ST World unit :=
  with_ib_lock (
    w ← get;
    match peer_fib_ (info_base_ w) !! (peer_session_id, dh_sns_id data_header) with
    | None => mret tt
    | Some outs =>
        _ ← fold_each (entries outs) data
              (forward_entry peer_session_id is_new_stream stream_id data_header data data_offset eflags);
        mret tt
    end).

(** ** Data received from a client *)

(** The stream id of a subgroup: [group_id << 16 | uint16_t(subgroup_id)]. *)
Definition subgroup_stream_id (group_id subgroup_id : Z) : Z :=
  Z.lor (u64 (Z.shiftl group_id 16)) (u16 subgroup_id).

Definition set_client_streams (key : Z * Z) (f : gmap Z Z → gmap Z Z) : ST World unit :=
  on_ib (modify (set_client_fib (alter (λ e,
    mkFibEntry (update_ref e) (f (streams e)) (out_sns_id e) (fe_peer_session e) (fe_track_fullname_hash e)) key))).

(** One forwarding entry of the loop of EndSubgroup. *)
Definition end_entry (in_stream_id : Z) (reset : bool) (e : (Z * Z) * FibEntry) : ST World unit :=
  p ← lock_ptr (fe_peer_session e.2);
  match p, streams e.2 !! in_stream_id with
  | Some peer_sess, Some out_stream_id =>
      on_session peer_sess (Session_CloseStream (out_sns_id e.2) out_stream_id (if reset then kReset else kFin)) ;;
      set_client_streams e.1 (delete in_stream_id)
  | _, _ => mret tt
  end.

(** [EndSubgroup(track_full_name_hash, group_id, subgroup_id, reset)] *)
Definition EndSubgroup (track_full_name_hash group_id subgroup_id : Z) (reset : bool) : ST World unit :=
  w ← get;
  for_each (same_first track_full_name_hash (client_fib_ (info_base_ w)))
    (end_entry (subgroup_stream_id group_id subgroup_id) reset).

(** The header in front of a client's data and how it is sent: the [switch] on
    the type. *)
Definition client_header (track_full_name_hash priority ttl type : Z) : DataHeader :=
  mkDataHeader 0 type 0 track_full_name_hash priority ttl.

Definition client_flags (type : Z) : EnqueueFlags :=
  mkFlags (if decide (type = DataType.kDatagram) then false
           else if decide (type = DataType.kExistingStream ∨ type = DataType.kNewStream) then true
           else use_reliable default_flags) (other_flags default_flags).

Definition sets_sns_id (type : Z) : bool :=
  bool_decide (type = DataType.kDatagram) || bool_decide (type = DataType.kNewStream).

(** One entry of the loop of ClientDataRecv; [false] is the [return] in it. *)
Definition client_entry (priority ttl type in_stream_id : Z) (net_data : list Z) (e : (Z * Z) * FibEntry) :
    ST World bool :=
  p ← lock_ptr (fe_peer_session e.2);
  match p with
  | None => mret true
  | Some peer_sess =>
      send_data ← (if sets_sns_id type then deref (patch_sns_id (out_sns_id e.2) net_data) else mret net_data);
      let send out_stream_id :=
        on_session peer_sess (SendData priority ttl (out_sns_id e.2) out_stream_id (client_flags type) send_data) ;;
        mret true in
      if use_reliable (client_flags type) then
        match streams e.2 !! in_stream_id with
        | Some out_stream_id => send out_stream_id
        | None =>
            if decide (type = DataType.kNewStream) then
              out_stream_id ← on_session peer_sess (Session_CreateStream (out_sns_id e.2) priority);
              set_client_streams e.1 <[in_stream_id := out_stream_id]> ;;
              send out_stream_id
            else mret false
        end
      else send 0
  end.

(** [ClientDataRecv(...)] *)
Definition ClientDataRecv (track_full_name_hash priority ttl type group_id subgroup_id : Z) (data : list Z) :
    ST World unit :=
  header ← lift_outcome (DataHeader_Serialize (client_header track_full_name_hash priority ttl type));
  w ← get;
  for_while (same_first track_full_name_hash (client_fib_ (info_base_ w)))
    (client_entry priority ttl type (subgroup_stream_id group_id subgroup_id) (header ++ data)).

(** ** Closed streams *)

(** One egress entry of the peer forwarding table. *)
Definition close_entry (key : Z * Z) (stream_id track_fullname_hash : Z) (flag : StreamClosedFlag)
    (e : Z * FibEntry) : ST World unit :=
  if decide (e.1 = 0) then
    call_client (cm_PeerStreamClosed track_fullname_hash stream_id (bool_decide (flag = kReset)))
  else
    p ← lock_ptr (fe_peer_session e.2);
    match streams e.2 !! stream_id, p with
    | Some out_stream_id, Some out_peer_sess =>
        on_session out_peer_sess (Session_CloseStream (out_sns_id e.2) out_stream_id flag) ;;
        on_ib (modify (set_peer_fib (alter (alter (λ e,
          mkFibEntry (update_ref e) (delete stream_id (streams e)) (out_sns_id e)
            (fe_peer_session e) (fe_track_fullname_hash e)) e.1) key)))
    | _, _ => mret tt
    end.

(** One entry of the client forwarding table: a stream whose egress id is the
    closed one is looked for, and the key erased is that egress id. *)
Definition close_client_entry (peer_session_id stream_id : Z) (flag : StreamClosedFlag)
    (e : (Z * Z) * FibEntry) : ST World unit :=
  if decide (e.1.2 ≠ peer_session_id) then mret tt
  else
    p ← lock_ptr (fe_peer_session e.2);
    match p with
    | None => mret tt
    | Some _ =>
        if existsb (λ s, bool_decide (s.2 = stream_id)) (map_to_list (streams e.2)) then
          set_client_streams e.1 (delete stream_id) ;;
          call_client (cm_PeerStreamClosed e.1.1 stream_id (bool_decide (flag = kReset)))
        else mret tt
    end.

(** [CloseStream(peer_session_id, sns, stream_id, track_fullname_hash, flag)] *)
Definition Manager_CloseStream (peer_session_id sns stream_id track_fullname_hash : Z)
    (flag : StreamClosedFlag) : ST World unit :=
  w ← get;
  let key := (peer_session_id, sns) in
  match peer_fib_ (info_base_ w) !! key with
  | None => mret tt
  | Some outs =>
      with_pm_lock (for_each (entries outs) (close_entry key stream_id track_fullname_hash flag))
  end ;;
  w ← get;
  for_each (entries (client_fib_ (info_base_ w))) (close_client_entry peer_session_id stream_id flag).

(** ** Synchronising a new peer *)

Definition sync_node (peer_session : SessRef) (e : (Z * Z) * NodeItem) : ST World unit :=
  s ← the_session peer_session;
  let remote := ni_id (remote_node_info_ s) in
  if decide (e.1.1 = ni_id (node_info_ s) ∨ e.1.2 = GetSessionId s ∨ e.1.1 = remote) then mret tt
  else if existsb (λ npi, bool_decide (item_id npi = remote)) (ni_path (it_node_info e.2)) then mret tt
  else on_session peer_session (SendNodeInfo
         (path_push (it_node_info e.2) (mkNodePathItem (ni_id (node_info_ s)) (metrics_srtt_us s))) false).

Definition sync_announce (peer_session : SessRef) (ai : AnnounceInfo) : ST World unit :=
  s ← the_session peer_session;
  if decide (ni_id (remote_node_info_ s) = ai_source_node_id ai) then mret tt
  else on_session peer_session (SendAnnounceInfo ai false).

(** The subscription is sent from where it is stored, so that sending one of
    this relay's own changes the stored sequence number. *)
Definition sync_subscribe (peer_session : SessRef) (hash : Z) (e : Z * SubscribeInfo) : ST World unit :=
  s ← the_session peer_session;
  if decide (ni_id (remote_node_info_ s) = si_source_node_id e.2) then mret tt
  else
    si ← on_session peer_session (SendSubscribeInfo e.2 false);
    on_ib (modify (set_subscribes (alter <[e.1 := si]> hash))).

(** [InfoBaseSyncPeer(peer_session)] *)
Definition InfoBaseSyncPeer (peer_session : SessRef) : ST World unit :=
  with_pm_lock (
    w ← get;
    for_each (entries (nodes_ (info_base_ w))) (sync_node peer_session) ;;
    w ← get;
    for_each (entries (announces_ (info_base_ w))) (λ a,
      for_each (entries a.2).*2 (sync_announce peer_session)) ;;
    w ← get;
    for_each (entries (subscribes_ (info_base_ w))) (λ subs,
      for_each (entries subs.2) (sync_subscribe peer_session subs.1))).
End forwarding.
