(* ===== verification/PublishHandler.v ===== *)
(** * Publish track handlers (class PublishTrackHandler, src/publish_handler.cc)

    The relay's side of a track it sends to a subscriber.  MetricsSampled only
    logs. *)

From S2P Require Import Prelude Common Quicr State QuicrServer TrackRanking Transport PeerSession PeerSessionEvents PeerWorld ClientState PeerManager PeerForwarding.

Section publish_handler.
Context `{TrackNames, MoqMessages, GroupCache, !QuicrServer}.
Abbreviation World := (World ClientState).

(** [make_shared<PublishTrackHandler>(...)] *)
Definition PublishTrackHandler_make (full_track_name : FullTrackName) (track_mode : TrackMode)
    (default_priority default_ttl : Z) (start_location : Location) : ST World Ref :=
  h ← alloc;
  qcall (MakePublishTrack h full_track_name track_mode (u8 default_priority) (u32 default_ttl) start_location) ;;
  modify (set_client_state (set_pub_heap <[h := mkPublishTrackHandler start_location]>)) ;;
  mret h.

(** [void StatusChanged(status)]: only logs, but takes the alias with [value()]
    when the status is not ok. *)
Definition Pub_StatusChanged (this : Ref) (status : PublishStatus) : ST World unit :=
  match status with
  | kPubOk => mret tt
  | _ => alias ← qget (λ t, q_TrackAlias t this); _ ← value alias; mret tt
  end.

(** [stream_info_by_group_.find(group_id)], then [find(subgroup_id)] in it. *)
Definition find_key {A} (k : Z) (l : list (Z * A)) : option A :=
  snd <$> (snd <$> list_find (λ e, e.1 = k) l).

(** [bool SentFirstObject(uint32_t group_id, uint32_t subgroup_id)] *)
Definition SentFirstObject (this : Ref) (group_id subgroup_id : Z) : ST World bool :=
  _ ← the_pub this;
  stream_info_by_group_ ← qget (λ t, q_StreamInfo t this);
  mret (match find_key (u32 group_id) stream_info_by_group_ with
        | Some subgroups =>
            match find_key (u32 subgroup_id) subgroups with
            | Some last_object_id => bool_decide (is_Some last_object_id)
            | None => false
            end
        | None => false
        end).

(** [void EndSubgroup(group_id, subgroup_id, completed)] *)
Definition Pub_EndSubgroup (this : Ref) (group_id subgroup_id : Z) (completed : bool) : ST World unit :=
  _ ← the_pub this;
  qcall (Base_EndSubgroup this group_id subgroup_id completed) ;;
  alias ← qget (λ t, q_TrackAlias t this);
  match alias with
  | Some alias => EndSubgroup alias group_id subgroup_id (negb completed)
  | None => mret tt
  end.

(** [void AbruptCloseAllSubgroups()] *)
Definition AbruptCloseAllSubgroups (this : Ref) : ST World unit :=
  _ ← the_pub this;
  stream_info_by_group_ ← qget (λ t, q_StreamInfo t this);
  let rm_subgroups := stream_info_by_group_ ≫= (λ group, (λ e, (group.1, e.1)) <$> group.2) in
  for_each rm_subgroups (λ e, Pub_EndSubgroup this e.1 e.2 false).
End publish_handler.
