(* ===== verification/NamespaceHandler.v ===== *)
(** * Publish namespace handlers (class PublishNamespaceHandler, src/publish_namespace_handler.cc)

    The tracks of a namespace that one subscriber gets.  With a track filter only
    the best ranked ones are sent: the ranking calls UpdateTrackRanking. *)

From S2P Require Import Prelude Common Quicr State QuicrServer TrackRanking Transport PeerSession PeerSessionEvents PeerWorld ClientState PeerManager PeerForwarding PublishHandler.

Section namespace_handler.
Context `{TrackNames, MoqMessages, GroupCache, !QuicrServer}.
Abbreviation World := (World ClientState).

Definition set_published (f : gmap Z ActiveTrack → gmap Z ActiveTrack) (n : PublishNamespaceHandler) :
    PublishNamespaceHandler :=
  mkNamespaceHandler (nh_max_tracks_selected_ n) (nh_inactive_age_ms_ n) (property_type_ n) (f (published_tracks_ n)).

Definition Ns_SetMaxSelected (max : Z) (n : PublishNamespaceHandler) : PublishNamespaceHandler :=
  mkNamespaceHandler max (nh_inactive_age_ms_ n) (property_type_ n) (published_tracks_ n).
Definition Ns_SetInactiveAge (age_ms : Z) (n : PublishNamespaceHandler) : PublishNamespaceHandler :=
  mkNamespaceHandler (nh_max_tracks_selected_ n) age_ms (property_type_ n) (published_tracks_ n).
Definition SetPropertyType (prop : Z) (n : PublishNamespaceHandler) : PublishNamespaceHandler :=
  mkNamespaceHandler (nh_max_tracks_selected_ n) (nh_inactive_age_ms_ n) (Some prop) (published_tracks_ n).
Definition GetPropertyType (n : PublishNamespaceHandler) : Z := default 0 (property_type_ n).

(** [Create(prefix, tick_service)] *)
Definition PublishNamespaceHandler_make (prefix : TrackNamespace) : ST World Ref :=
  n ← alloc;
  qcall (MakePublishNamespace n prefix) ;;
  modify (set_client_state (set_ns_heap <[n := PublishNamespaceHandler_default]>)) ;;
  mret n.

(** [last_updated_tick = tick] of an entry. *)
Definition touch_track (alias tick : Z) : gmap Z ActiveTrack → gmap Z ActiveTrack :=
  alter (λ t, mkActiveTrack tick (at_handler t)) alias.

(** [void PublishTrack(handler)]; [emplace] keeps an existing entry. *)
Definition PublishTrack (this handler : Ref) : ST World unit :=
  qcall (Base_PublishTrack this handler) ;;
  cur_ticks ← cur_tick;
  alias ← qget (λ t, q_TrackAlias t handler);
  alias ← value alias;
  modify_ns this (set_published (λ m,
    match m !! alias with Some _ => m | None => <[alias := mkActiveTrack cur_ticks handler]> m end)).

(** [PublishObject(track_full_name_hash, object_headers, data, stream_mode)]; a
    handler of another class is a null pointer after the cast. *)
Definition Ns_PublishObject (this : Ref) (track_full_name_hash : Z) (object_headers : ObjectHeaders)
    (data : list Z) (stream_mode : option StreamHeaderProperties) : ST World unit :=
  pub ← qget (λ t, q_NamespaceHandlers t this track_full_name_hash);
  match pub with
  | None => mret tt
  | Some handler =>
      sent ← SentFirstObject handler (oh_group_id object_headers) (oh_subgroup_id object_headers);
      if (sent : bool) then mret tt
      else
        match oh_track_mode object_headers with
        | Some mode => qcall (Base_SetDefaultTrackMode handler mode)
        | None => mret tt
        end ;;
        answer ← qget answer_PublishObject;
        qcall (Base_PublishObject handler object_headers data stream_mode) ;;
        lift_outcome answer
  end.

(** [ForwardPublishedData(track_full_name_hash, is_new_stream, group_id, subgroup_id, data)] *)
Definition Ns_ForwardPublishedData (this : Ref) (track_full_name_hash : Z) (is_new_stream : bool)
    (group_id subgroup_id : Z) (data : list Z) : ST World unit :=
  pub ← qget (λ t, q_NamespaceHandlers t this track_full_name_hash);
  match pub with
  | None => mret tt
  | Some handler =>
      sent ← SentFirstObject handler group_id subgroup_id;
      if (sent : bool) then qcall (Base_ForwardPublishedData handler is_new_stream group_id subgroup_id data)
      else mret tt
  end.

(** ** Top-n selection *)

(** One ranked track; the loop carries [active_tracks] and is left at [max]
    tracks ([None]). *)
Definition select_track (this : Ref) (max : Z) (active_tracks : gmap Z Z) (ranked : RankedTrack) :
    ST World (option (gmap Z Z)) :=
  let '(ta, _, latest_tick, publisher_conn_id) := ranked in
  if decide (max ≤ Z.of_nat (size active_tracks)) then mret None
  else
    conn ← qget (λ t, q_ConnectionId t this);
    if decide (publisher_conn_id = conn) then mret (Some active_tracks)
    else
      n ← the_ns this;
      match published_tracks_ n !! ta with
      | None => mret (Some active_tracks)
      | Some track =>
          alive ← qget (λ t, q_Alive t (at_handler track));
          h ← deref (if (alive : bool) then Some (at_handler track) else None);
          status ← qget (λ t, q_Status t h);
          (if decide (status = kPubPaused) then
             qcall (Base_SetStatus h kPubOk) ;;
             known ← qget (λ t, q_NamespaceHandlers t this ta);
             match known with
             | None => PublishTrack this h
             | Some _ => modify_ns this (set_published (touch_track ta latest_tick))
             end
           else mret tt) ;;
          mret (Some (match active_tracks !! ta with
                      | Some _ => active_tracks
                      | None => <[ta := latest_tick]> active_tracks
                      end))
      end.

Fixpoint select_tracks (this : Ref) (max : Z) (ordered_tracks : list RankedTrack) (active_tracks : gmap Z Z) :
    ST World (gmap Z Z) :=
  match ordered_tracks with
  | [] => mret active_tracks
  | ranked :: ordered_tracks =>
      r ← select_track this max active_tracks ranked;
      match r with
      | Some active_tracks => select_tracks this max ordered_tracks active_tracks
      | None => mret active_tracks
      end
  end.

(** One published track, when there are more than [max]: a handler of the
    relay's class has its subgroups reset.  The age of the track only matters for
    a log message. *)
Definition pause_track (active_tracks : gmap Z Z) (e : Z * ActiveTrack) : ST World unit :=
  if decide (is_Some (active_tracks !! e.1)) then mret tt
  else
    let h := at_handler e.2 in
    alive ← qget (λ t, q_Alive t h);
    if (alive : bool) then
      status ← qget (λ t, q_Status t h);
      if decide (status = kPubOk) then
        w ← get;
        when (bool_decide (is_Some (pub_heap (client w) !! h))) (AbruptCloseAllSubgroups h) ;;
        qcall (Base_SetStatus h kPubPaused)
      else mret tt
    else mret tt.

(** [void UpdateTrackRanking(ordered_tracks)] *)
Definition UpdateTrackRanking (this : Ref) (ordered_tracks : list RankedTrack) : ST World unit :=
  n ← the_ns this;
  match property_type_ n with
  | None => mret tt
  | Some _ =>
      for_each ordered_tracks (λ ranked,
        let '(ta, _, latest_tick, _) := ranked in modify_ns this (set_published (touch_track ta latest_tick))) ;;
      active_tracks ← select_tracks this (nh_max_tracks_selected_ n) ordered_tracks ∅;
      n ← the_ns this;
      if decide (nh_max_tracks_selected_ n < Z.of_nat (size (published_tracks_ n)))
      then for_each (entries (published_tracks_ n)) (pause_track active_tracks)
      else mret tt
  end.

(** [void EndSubgroup(group_id, subgroup_id, completed)] *)
Definition Ns_EndSubgroup (this : Ref) (group_id subgroup_id : Z) (completed : bool) : ST World unit :=
  n ← the_ns this;
  for_each (entries (published_tracks_ n)) (λ e,
    alive ← qget (λ t, q_Alive t (at_handler e.2));
    if (alive : bool) then Pub_EndSubgroup (at_handler e.2) group_id subgroup_id completed else mret tt).

(** ** The handlers as the ranking sees them

    A namespace handler is alive while [State], a subscribe handler or libquicr
    holds it. *)
Definition ns_held (r : Ref) (w : World) : bool :=
  existsb (λ e, bool_decide (r ∈ (map_to_list e.2).*2)) (map_to_list (subscribes_namespaces (state_ w))) ||
  existsb (λ e, existsb (λ c, bool_decide (r ∈ (map_to_list c.2).*2)) (map_to_list (sub_namespaces_ e.2)))
    (map_to_list (sub_heap (client w))) ||
  q_Alive (qtrace (client w)) r.

#[global] Instance ranking_handlers : NamespaceHandler World := {|
  h_alive r w := ns_held r w;
  h_namespace_hash r w := track_namespace_hash (track_hash (q_Prefix (qtrace (client w)) r) []);
  h_connection_id r w := q_ConnectionId (qtrace (client w)) r;
  h_UpdateTrackRanking := UpdateTrackRanking;
|}.
End namespace_handler.
