(* ===== verification/NamespaceHandlerSpec.v ===== *)
(** * What the top-n selection guarantees *)

From S2P Require Import Prelude Common Quicr State QuicrServer InfoBase TrackRanking Transport PeerSession PeerSessionEvents PeerSessionControl PeerWorld ClientState PeerManager PeerForwarding PublishHandler NamespaceHandler.

(** The calls a namespace handler makes on the handlers of its tracks. *)
Definition handler_call `{TrackNames, MoqMessages} (c : QuicrCall) : bool :=
  match c with
  | Base_SetStatus _ _ | Base_EndSubgroup _ _ _ _ | Base_PublishTrack _ _ => true
  | _ => false
  end.

(** Documented behaviour of libquicr: of these calls only SetStatus and
    PublishTrack change a status, and only that of their handler; none of them
    releases a handler or changes its alias or its connection. *)
Class HandlerLaws `{TrackNames, MoqMessages, !QuicrServer} := {
  status_SetStatus t h s h' :
    q_Status (t ++ [Base_SetStatus h s]) h' = if decide (h' = h) then s else q_Status t h';
  status_EndSubgroup t h g sg c h' : q_Status (t ++ [Base_EndSubgroup h g sg c]) h' = q_Status t h';
  status_PublishTrack t ns h h' : h' ≠ h → q_Status (t ++ [Base_PublishTrack ns h]) h' = q_Status t h';
  alive_kept t c h : handler_call c = true → q_Alive t h = true → q_Alive (t ++ [c]) h = true;
  alias_kept t c h : handler_call c = true → q_TrackAlias (t ++ [c]) h = q_TrackAlias t h;
  conn_kept t c h : handler_call c = true → q_ConnectionId (t ++ [c]) h = q_ConnectionId t h;
}.

Section spec.
Context `{TrackNames, MoqMessages, GroupCache, !QuicrServer, !HandlerLaws}.
Abbreviation World := (World ClientState).
Implicit Types w : World.

(** ** Closing subgroups towards the peers *)

(** The sessions of the forwarding entries have their transport. *)
Definition fib_ok w : Prop := ∀ k e r s,
  client_fib_ (info_base_ w) !! k = Some e → fe_peer_session e = Some r → sessions w !! r = Some s →
  transport_ s = true.

Lemma CloseStream_ok w r s ctx d flag :
  sessions w !! r = Some s → transport_ s = true →
  on_session r (Session_CloseStream ctx d flag) w =
    (Ok tt, set_trace (trace w ++ [CloseStream (t_conn_id_ s) ctx d (bool_decide (flag = kReset))]) w).
Proof.
  intros Hs Ht. apply on_session_calls with s; [done|].
  unfold Session_CloseStream, self, call, gets, mbind, st_bind. simpl. by rewrite Ht.
Qed.

Lemma fib_ok_streams w key f : fib_ok w →
  fib_ok (set_info_base (set_client_fib (alter (λ e, mkFibEntry (update_ref e) (f (streams e)) (out_sns_id e)
    (fe_peer_session e) (fe_track_fullname_hash e)) key) (info_base_ w)) w).
Proof.
  intros Hok k e r s. cbn [info_base_ set_info_base client_fib_ set_client_fib sessions].
  rewrite lookup_alter_Some. intros [(-> & e0 & Hk & ->)|[_ Hk]] Hr Hs; exact (Hok _ _ r s Hk Hr Hs).
Qed.

(** EndSubgroup of the peer manager closes streams and changes nothing the
    handlers look at. *)
Lemma end_entry_frame (J : ClientState → Prop) g reset S0 e :
  (∀ r s, fe_peer_session e.2 = Some r → S0 !! r = Some s → transport_ s = true) →
  hoare (λ w, sessions w = S0 ∧ fib_ok w ∧ J (client w)) (end_entry g reset e)
        (λ _ w, sessions w = S0 ∧ fib_ok w ∧ J (client w)) no_throw.
Proof.
  intros He w (HS & Hok & HJ). unfold end_entry, lock_ptr.
  rewrite (bind_ok (gets _) _ w _ w eq_refl).
  destruct (fe_peer_session e.2) as [r|] eqn:Hr; cbn [mbind option_bind]; [|by split_and!].
  case_decide as Hs; [|by split_and!]. destruct Hs as [s Hs].
  destruct (streams e.2 !! g) as [d|]; [|by split_and!]. rewrite HS in Hs.
  rewrite (bind_ok _ _ _ _ _ (CloseStream_ok w r s _ d _ ltac:(by rewrite HS) (He r s eq_refl Hs))).
  split_and!; [done| |done]. exact (fib_ok_streams (set_trace _ w) e.1 (delete g) Hok).
Qed.

Lemma EndSubgroup_frame (J : ClientState → Prop) a g sg reset :
  hoare (λ w, fib_ok w ∧ J (client w)) (EndSubgroup a g sg reset) (λ _ w, fib_ok w ∧ J (client w)) no_throw.
Proof.
  intros w0 [Hok HJ]. unfold EndSubgroup. rewrite (bind_ok get _ w0 w0 w0 eq_refl).
  pose proof (hoare_for_each (λ w, sessions w = sessions w0 ∧ fib_ok w ∧ J (client w))
    (same_first a (client_fib_ (info_base_ w0))) (end_entry (subgroup_stream_id g sg) reset) no_throw) as Hloop.
  specialize (Hloop (λ e He, end_entry_frame J _ reset (sessions w0) e
    (λ r s Hr Hs, Hok e.1 e.2 r s ltac:(destruct e; by apply elem_of_same_first in He as [? _]) Hr Hs)) w0
    (conj eq_refl (conj Hok HJ))).
  destruct (for_each _ _ w0) as [[[]|ex|] w']; tauto.
Qed.

(** ** Frames of the handlers' operations *)

Lemma qcall_frame (Q : ClientState → Prop) c :
  (∀ s, Q s → Q (set_qtrace (qtrace s ++ [c]) s)) →
  hoare (λ w, fib_ok w ∧ Q (client w)) (qcall c) (λ _ w, fib_ok w ∧ Q (client w)) no_throw.
Proof. intros HQ. apply hoare_modify. intros w [Hok Hw]. split; [exact Hok|by apply HQ]. Qed.

Lemma Pub_EndSubgroup_frame (Q : ClientState → Prop) h g sg c :
  (∀ s, Q s → is_Some (pub_heap s !! h)) →
  (∀ s g sg c, Q s → Q (set_qtrace (qtrace s ++ [Base_EndSubgroup h g sg c]) s)) →
  hoare (λ w, fib_ok w ∧ Q (client w)) (Pub_EndSubgroup h g sg c) (λ _ w, fib_ok w ∧ Q (client w)) no_throw.
Proof.
  intros Hh HQ. unfold Pub_EndSubgroup, the_pub.
  eapply hoare_bind with (R := λ _ w, fib_ok w ∧ Q (client w)).
  { intros w [Hok Hw]. destruct (Hh _ Hw) as [x Hx]. rewrite (bind_ok get _ w w w eq_refl), Hx. done. }
  intros _. eapply hoare_bind; [apply qcall_frame; intros s Hs; by apply HQ|].
  intros []. eapply hoare_bind with (R := λ _ w, fib_ok w ∧ Q (client w)); [by apply hoare_gets|].
  intros [a|]; [apply EndSubgroup_frame|by apply hoare_ret].
Qed.

Lemma AbruptClose_frame (Q : ClientState → Prop) h :
  (∀ s, Q s → is_Some (pub_heap s !! h)) →
  (∀ s g sg c, Q s → Q (set_qtrace (qtrace s ++ [Base_EndSubgroup h g sg c]) s)) →
  hoare (λ w, fib_ok w ∧ Q (client w)) (AbruptCloseAllSubgroups h) (λ _ w, fib_ok w ∧ Q (client w)) no_throw.
Proof.
  intros Hh HQ. unfold AbruptCloseAllSubgroups, the_pub.
  eapply hoare_bind with (R := λ _ w, fib_ok w ∧ Q (client w)).
  { intros w [Hok Hw]. destruct (Hh _ Hw) as [x Hx]. rewrite (bind_ok get _ w w w eq_refl), Hx. done. }
  intros _. eapply hoare_bind with (R := λ _ w, fib_ok w ∧ Q (client w)); [by apply hoare_gets|].
  intros info. apply hoare_for_each. intros e _. by apply Pub_EndSubgroup_frame.
Qed.

(** ** The tracks of one namespace handler *)

Section tracks.
Variables (n : Ref) (max conn : Z) (hs : gmap Z Ref).

(** The handler [n] publishes the tracks [hs]: each has a live handler of the
    relay's class that carries its alias. *)
Record tracks_ok (s : ClientState) : Prop := {
  t_ns : ∃ nh, ns_heap s !! n = Some nh ∧ nh_max_tracks_selected_ nh = max ∧ at_handler <$> published_tracks_ nh = hs;
  t_pub ta h : hs !! ta = Some h →
    is_Some (pub_heap s !! h) ∧ q_Alive (qtrace s) h = true ∧ q_TrackAlias (qtrace s) h = Some ta;
  t_conn : q_ConnectionId (qtrace s) n = conn;
}.

Lemma tracks_ok_call s c : handler_call c = true → tracks_ok s → tracks_ok (set_qtrace (qtrace s ++ [c]) s).
Proof.
  intros Hc [Hns Hpub Hconn]. split; [done| |by simpl; rewrite conn_kept].
  intros ta h Hh. destruct (Hpub ta h Hh) as (? & ? & ?). simpl.
  split_and!; [done|by apply alive_kept|by rewrite alias_kept].
Qed.

Lemma tracks_ok_published s f :
  (∀ m, at_handler <$> m = hs → at_handler <$> f m = hs) →
  tracks_ok s → tracks_ok (set_ns_heap (alter (set_published f) n) s).
Proof.
  intros Hf [(nh & Hn & Hm & Hhs) Hpub Hconn]. split; [|done..].
  eexists. simpl. rewrite lookup_alter_eq, Hn. split_and!; [done..|]. by apply Hf.
Qed.

Lemma touch_track_handlers ta tick m : at_handler <$> touch_track ta tick m = at_handler <$> m.
Proof.
  unfold touch_track. apply map_eq. intros k. rewrite !lookup_fmap.
  destruct (decide (k = ta)) as [->|]; [|by rewrite lookup_alter_ne].
  rewrite lookup_alter_eq. by destruct (m !! ta).
Qed.

Lemma tracks_ok_inj s ta ta' h : tracks_ok s → hs !! ta = Some h → hs !! ta' = Some h → ta = ta'.
Proof.
  intros [_ Hpub _] Hta Hta'. destruct (Hpub _ _ Hta) as (_ & _ & E1), (Hpub _ _ Hta') as (_ & _ & E2). congruence.
Qed.

(** ** The pausing loop *)

Definition paused_after (active : gmap Z Z) (t : QuicrTrace) (done : list (Z * ActiveTrack)) (s : ClientState) : Prop :=
  tracks_ok s ∧ t `prefix_of` qtrace s ∧
  ∀ e, e ∈ done → active !! e.1 = None → q_Status (qtrace s) (at_handler e.2) ≠ kPubOk.

Lemma paused_after_end active t done s h g sg c :
  paused_after active t done s → paused_after active t done (set_qtrace (qtrace s ++ [Base_EndSubgroup h g sg c]) s).
Proof.
  intros (Hok & Hpre & Hdone). split; [by apply tracks_ok_call|]. split; [by apply prefix_app_r|].
  intros e He Ha. simpl. rewrite status_EndSubgroup. by apply Hdone.
Qed.

Lemma paused_after_set active t done s h e :
  at_handler e.2 = h → paused_after active t done s →
  paused_after active t (done ++ [e]) (set_qtrace (qtrace s ++ [Base_SetStatus h kPubPaused]) s).
Proof.
  intros <- (Hok & Hpre & Hdone). split; [by apply tracks_ok_call|]. split; [by apply prefix_app_r|].
  intros e' He' Ha. simpl. rewrite status_SetStatus.
  case_decide; [done|]. apply elem_of_app in He' as [He'| ->%list_elem_of_singleton]; [by apply Hdone|done].
Qed.

(** A round that does nothing, for a track that need not be paused. *)
Lemma paused_after_skip active t done s e :
  (active !! e.1 = None → q_Status (qtrace s) (at_handler e.2) ≠ kPubOk) →
  paused_after active t done s → paused_after active t (done ++ [e]) s.
Proof.
  intros He (Hok & Hpre & Hdone). split_and!; [done..|].
  intros e' [He'| ->%list_elem_of_singleton]%elem_of_app Hn; [by apply Hdone|by apply He].
Qed.

Lemma pause_track_ok active t done e :
  hs !! e.1 = Some (at_handler e.2) →
  hoare (λ w, fib_ok w ∧ paused_after active t done (client w)) (pause_track active e)
        (λ _ w, fib_ok w ∧ paused_after active t (done ++ [e]) (client w)) no_throw.
Proof.
  intros He. unfold pause_track. case_decide as Ha.
  { apply hoare_ret. intros w [Hok Hp]. split; [done|]. apply paused_after_skip; [|done].
    intros Hn. rewrite Hn in Ha. by destruct Ha. }
  intros w [Hok Hp]. destruct (t_pub (client w) (proj1 Hp) _ _ He) as ([x Hx] & Hal & _).
  unfold qget. rewrite (bind_ok (gets _) _ w _ w eq_refl), Hal.
  rewrite (bind_ok (gets _) _ w _ w eq_refl). case_decide as Hst; [|split; [done|by apply paused_after_skip]].
  rewrite (bind_ok get _ w w w eq_refl), Hx. rewrite bool_decide_eq_true_2 by eauto. cbn [when].
  refine (hoare_bind (λ w, fib_ok w ∧ paused_after active t done (client w)) _ _ _ _ no_throw
    (AbruptClose_frame (paused_after active t done) _ _ _) _ w (conj Hok Hp)).
  - intros s Hs. apply (t_pub s (proj1 Hs) _ _ He).
  - intros. by apply paused_after_end.
  - intros []. apply hoare_modify. intros w' [Hok' Hp']. split; [exact Hok'|by apply paused_after_set].
Qed.

Lemma pause_loop_ok active t l :
  (∀ e, e ∈ l → hs !! e.1 = Some (at_handler e.2)) →
  hoare (λ w, fib_ok w ∧ tracks_ok (client w) ∧ qtrace (client w) = t) (for_each l (pause_track active))
        (λ _ w, fib_ok w ∧ paused_after active t l (client w)) no_throw.
Proof.
  intros Hl. pose proof (hoare_for_each_done (λ done w, fib_ok w ∧ paused_after active t done (client w))
    l (pause_track active) no_throw) as Hloop. eapply hoare_conseq; [apply Hloop| | |].
  - intros l1 x rest ->. apply pause_track_ok, Hl. apply elem_of_app; right; left.
  - intros w (Hok & Ht & <-). split; [done|split; [done|split; [done|]]]. by intros e ?%not_elem_of_nil.
  - auto.
  - auto.
Qed.

(** ** The selecting loop *)

Variable t0 : QuicrTrace.

(** Since [t0], the selected tracks that were paused were set to be sent, and the
    status of the others is as it was. *)
Definition resumed (active : gmap Z Z) (s : ClientState) : Prop :=
  ∃ calls, qtrace s = t0 ++ calls ∧
    ∀ ta h, hs !! ta = Some h →
      if decide (is_Some (active !! ta))
      then q_Status t0 h = kPubPaused → Base_SetStatus h kPubOk ∈ calls
      else q_Status (qtrace s) h = q_Status t0 h.

Definition eligible (r : RankedTrack) : Prop := r.2 ≠ conn ∧ is_Some (hs !! r.1.1.1).
#[global] Instance eligible_dec r : Decision (eligible r).
Proof. unfold eligible. apply _. Defined.

Definition P_select (active : gmap Z Z) (w : World) : Prop :=
  fib_ok w ∧ tracks_ok (client w) ∧ resumed active (client w).

(** A call on the handler of [ta] only, once [ta] is selected. *)
Lemma resumed_call active s c ta h :
  tracks_ok s → hs !! ta = Some h → (∀ h', h' ≠ h → q_Status (qtrace s ++ [c]) h' = q_Status (qtrace s) h') →
  is_Some (active !! ta) → resumed active s → resumed active (set_qtrace (qtrace s ++ [c]) s).
Proof.
  intros Hok Hta Hc Hact (calls & Ht & Hall). exists (calls ++ [c]). simpl. split; [by rewrite Ht, app_assoc|].
  intros ta' h' Hta'. specialize (Hall ta' h' Hta'). case_decide as Hd.
  - intros Hp. apply elem_of_app. left. by apply Hall.
  - rewrite Hc; [done|]. intros ->. by rewrite (tracks_ok_inj s ta' ta h Hok Hta' Hta) in Hd.
Qed.

Lemma resumed_select active s ta h tick :
  tracks_ok s → hs !! ta = Some h → active !! ta = None → q_Status (qtrace s) h = kPubPaused →
  resumed active s →
  resumed (<[ta := tick]> active) (set_qtrace (qtrace s ++ [Base_SetStatus h kPubOk]) s).
Proof.
  intros Hok Hta Hact Hst (calls & Ht & Hall). exists (calls ++ [Base_SetStatus h kPubOk]). simpl.
  split; [by rewrite Ht, app_assoc|]. intros ta' h' Hta'. specialize (Hall ta' h' Hta').
  destruct (decide (ta' = ta)) as [->|Hne].
  - rewrite lookup_insert_eq, decide_True by done. intros _. apply elem_of_app; right. rewrite Hta in Hta'.
    injection Hta' as ->. left.
  - rewrite lookup_insert_ne by done. case_decide; [intros Hp; apply elem_of_app; left; by apply Hall|].
    rewrite status_SetStatus, decide_False; [done|]. intros ->. apply Hne. by eapply tracks_ok_inj.
Qed.

Lemma resumed_keep active s ta h tick :
  hs !! ta = Some h → active !! ta = None → q_Status (qtrace s) h ≠ kPubPaused →
  resumed active s → resumed (<[ta := tick]> active) s.
Proof.
  intros Hta Hact Hst (calls & Ht & Hall). exists calls. split; [done|]. intros ta' h' Hta'.
  pose proof (Hall ta' h' Hta') as Hp. destruct (decide (ta' = ta)) as [->|Hne].
  - rewrite lookup_insert_eq, decide_True by done. rewrite Hact, decide_False in Hp by by intros [??].
    rewrite Hta in Hta'. injection Hta' as ->. congruence.
  - by rewrite lookup_insert_ne.
Qed.

Lemma modify_published_ok (Q : ClientState → Prop) f :
  (∀ m, at_handler <$> m = hs → at_handler <$> f m = hs) →
  (∀ s g, Q s → Q (set_ns_heap g s)) →
  hoare (λ w, fib_ok w ∧ tracks_ok (client w) ∧ Q (client w)) (modify_ns n (set_published f))
        (λ _ w, fib_ok w ∧ tracks_ok (client w) ∧ Q (client w)) no_throw.
Proof.
  intros Hf HQ. apply hoare_modify. intros w (Hok & Ht & Hw).
  split; [exact Hok|split; [by apply tracks_ok_published|by apply HQ]].
Qed.

Lemma publish_again_ok active ta h :
  hs !! ta = Some h → is_Some (active !! ta) →
  hoare (P_select active) (PublishTrack n h) (λ _, P_select active) no_throw.
Proof.
  intros Hta Hact. unfold PublishTrack.
  eapply hoare_bind with (R := λ _, P_select active).
  { apply hoare_modify. intros w (Hok & Ht & Hr). split; [exact Hok|]. simpl. split; [by apply tracks_ok_call|].
    apply (resumed_call active _ _ ta h); [done|done| |done|done]. intros h' Hne. by apply status_PublishTrack. }
  intros []. eapply hoare_bind with (R := λ _, P_select active); [by apply hoare_gets|]. intros tick.
  eapply hoare_bind with (R := λ a w, a = Some ta ∧ P_select active w).
  { apply hoare_gets. intros w Hp. split; [|done]. by apply (t_pub _ (proj1 (proj2 Hp)) ta h). }
  intros a w [-> Hp]. cbn [value]. rewrite (bind_ok (mret ta) _ w ta w eq_refl). revert w Hp.
  apply (modify_published_ok (resumed active)); [|done].
  intros m Hm. destruct (m !! ta) eqn:Hlk; [done|].
  apply (f_equal (.!! ta)) in Hm. by rewrite lookup_fmap, Hlk, Hta in Hm.
Qed.

Lemma select_track_ok active r :
  active !! r.1.1.1 = None →
  hoare (P_select active) (select_track n max active r)
    (λ o w, match o with
            | None => max ≤ Z.of_nat (size active) ∧ P_select active w
            | Some active' => Z.of_nat (size active) < max ∧ P_select active' w ∧
                active' = if decide (eligible r) then <[r.1.1.1 := r.1.2]> active else active
            end) no_throw.
Proof.
  destruct r as [[[ta seq] tick] c]. intros Hact. simpl in Hact. unfold select_track, eligible. cbn [fst snd].
  case_decide as Hmax; [by apply hoare_ret|].
  eapply hoare_bind with (R := λ cn w, cn = conn ∧ P_select active w).
  { apply hoare_gets. intros w Hp. split; [|done]. apply (t_conn _ (proj1 (proj2 Hp))). }
  intros cn w0 [-> Hp0]. revert w0 Hp0.
  case_decide as Hself.
  { rewrite decide_False by tauto. apply hoare_ret. intros w Hp. split; [lia|done]. }
  intros w Hp. destruct (t_ns _ (proj1 (proj2 Hp))) as (nh & Hn & _ & Hhs).
  unfold the_ns. rewrite (bind_ok (get ≫= _) _ w nh w) by by rewrite (bind_ok get _ w w w eq_refl), Hn.
  pose proof (f_equal (.!! ta) Hhs) as Hlk. cbn beta in Hlk. rewrite lookup_fmap in Hlk.
  destruct (published_tracks_ nh !! ta) as [tr|] eqn:Htr; cbn [fmap option_fmap option_map] in Hlk.
  2:{ rewrite decide_False by (rewrite <- Hlk; by intros [? [??]]). split; [lia|done]. }
  symmetry in Hlk. set (h := at_handler tr) in *.
  rewrite decide_True by by rewrite Hlk; eauto.
  destruct (t_pub _ (proj1 (proj2 Hp)) ta h Hlk) as (_ & Hal & _).
  unfold qget. rewrite (bind_ok (gets _) _ w _ w eq_refl), Hal. cbn [deref].
  rewrite (bind_ok (mret h) _ w h w eq_refl), (bind_ok (gets _) _ w _ w eq_refl).
  rewrite Hact. destruct Hp as (Hok & Ht & Hr).
  case_decide as Hst.
  - assert (hoare (P_select (<[ta := tick]> active))
      (known ← gets (λ w, q_NamespaceHandlers (qtrace (client w)) n ta);
       match known with
       | Some _ => modify_ns n (set_published (touch_track ta tick))
       | None => PublishTrack n h
       end) (λ _, P_select (<[ta := tick]> active)) no_throw) as Hpub.
    { eapply hoare_bind with (R := λ _, P_select (<[ta := tick]> active)); [by apply hoare_gets|].
      intros [|].
      - apply (modify_published_ok (resumed (<[ta := tick]> active))); [|done].
        intros m <-. apply touch_track_handlers.
      - apply (publish_again_ok _ ta); [done|]. by rewrite lookup_insert_eq. }
    assert (hoare (λ w', w' = w) (qcall (Base_SetStatus h kPubOk))
      (λ _, P_select (<[ta := tick]> active)) no_throw) as Hset.
    { apply hoare_modify. intros w' ->. split; [exact Hok|]. simpl. split; [by apply tracks_ok_call|by apply resumed_select]. }
    refine (hoare_bind (λ w', w' = w) _ _ (λ _, P_select (<[ta := tick]> active)) _ no_throw _ _ w eq_refl).
    + eapply hoare_bind; [exact Hset|]. intros []. exact Hpub.
    + intros []. apply hoare_ret. intros w' Hp'. split_and!; [lia|done|done].
  - split_and!; [lia| |done]. split; [done|split; [done|]]. by apply (resumed_keep active _ ta h).
Qed.

Definition chosen_from (k : Z) (ranked : list RankedTrack) : list Z :=
  take (Z.to_nat k) ((λ r : RankedTrack, r.1.1.1) <$> filter eligible ranked).

Lemma select_tracks_ok ranked : ∀ active,
  NoDup ((λ r : RankedTrack, r.1.1.1) <$> ranked) → (∀ r, r ∈ ranked → active !! r.1.1.1 = None) →
  hoare (P_select active) (select_tracks n max ranked active)
    (λ active' w, P_select active' w ∧
       dom active' = dom active ∪ list_to_set (chosen_from (max - Z.of_nat (size active)) ranked)) no_throw.
Proof.
  induction ranked as [|r ranked IH]; intros active Hnd Hact; cbn [select_tracks].
  { apply hoare_ret. intros w Hp. split; [done|]. unfold chosen_from. simpl. rewrite take_nil. set_solver. }
  rewrite fmap_cons in Hnd. apply NoDup_cons in Hnd as [Hr Hnd].
  eapply hoare_bind; [apply select_track_ok, Hact; left|]. intros [active'|]; cbn beta iota.
  - intros w (Hsz & Hp & ->). unfold chosen_from. rewrite filter_cons.
    case_decide as Hel; [|by apply IH; [|intros r' Hr'; apply Hact; right|]].
    rewrite fmap_cons. assert (active !! r.1.1.1 = None) as Hn by (apply Hact; left).
    pose proof (IH (<[r.1.1.1 := r.1.2]> active) Hnd) as IH'. specialize (IH' ltac:(
      intros r' Hr'; rewrite lookup_insert_ne; [apply Hact; by right|];
      intros Heq; apply Hr; apply list_elem_of_fmap; by exists r') w Hp).
    destruct (select_tracks _ _ _ _ w) as [[a|e|] w']; [|done|done]. destruct IH' as [Hp' Hdom]. split; [done|].
    rewrite Hdom, dom_insert_L, map_size_insert_None by done. unfold chosen_from.
    replace (Z.to_nat (max - Z.of_nat (size active))) with (S (Z.to_nat (max - Z.of_nat (S (size active))))) by lia.
    cbn [take list_to_set]. set_solver.
  - apply hoare_ret. intros w [Hsz Hp]. split; [done|]. unfold chosen_from.
    replace (Z.to_nat (max - Z.of_nat (size active))) with 0%nat by lia. simpl. set_solver.
Qed.

Lemma touch_loop_ok ranked :
  hoare (λ w, fib_ok w ∧ tracks_ok (client w) ∧ qtrace (client w) = t0)
    (for_each ranked (λ r : RankedTrack,
       let '(ta, _, latest_tick, _) := r in modify_ns n (set_published (touch_track ta latest_tick))))
    (λ _ w, fib_ok w ∧ tracks_ok (client w) ∧ qtrace (client w) = t0) no_throw.
Proof.
  apply hoare_for_each. intros [[[ta seq] tick] c] _.
  apply (modify_published_ok (λ s, qtrace s = t0)); [|done]. intros m <-. apply touch_track_handlers.
Qed.

(** The whole update: what was selected, and what was paused when there are
    more tracks than [max]. *)
Lemma UpdateTrackRanking_ok ranked w nh :
  fib_ok w → tracks_ok (client w) → qtrace (client w) = t0 → ns_heap (client w) !! n = Some nh →
  is_Some (property_type_ nh) → NoDup ((λ r : RankedTrack, r.1.1.1) <$> ranked) →
  ∃ w' active, UpdateTrackRanking n ranked w = (Ok tt, w') ∧ tracks_ok (client w') ∧ fib_ok w' ∧
    dom active = list_to_set (chosen_from max ranked) ∧
    ∃ s, resumed active s ∧ qtrace s `prefix_of` qtrace (client w') ∧
      (max < Z.of_nat (size hs) → ∀ ta h, hs !! ta = Some h → active !! ta = None →
         q_Status (qtrace (client w')) h ≠ kPubOk).
Proof.
  intros Hok Ht Htr Hn [pt Hpt] Hnd.
  destruct (t_ns _ Ht) as (nh' & Hn' & Hmax & _). rewrite Hn in Hn'. injection Hn' as <-.
  assert (hoare (λ w, fib_ok w ∧ tracks_ok (client w) ∧ qtrace (client w) = t0)
    (for_each ranked (λ ranked : RankedTrack,
       let '(ta, _, latest_tick, _) := ranked in modify_ns n (set_published (touch_track ta latest_tick))) ;;
     active_tracks ← select_tracks n max ranked ∅;
     n' ← the_ns n;
     if decide (nh_max_tracks_selected_ n' < Z.of_nat (size (published_tracks_ n')))
     then for_each (entries (published_tracks_ n')) (pause_track active_tracks)
     else mret tt)
    (λ _ w', ∃ active, tracks_ok (client w') ∧ fib_ok w' ∧ dom active = list_to_set (chosen_from max ranked) ∧
       ∃ s, resumed active s ∧ qtrace s `prefix_of` qtrace (client w') ∧
         (max < Z.of_nat (size hs) → ∀ ta h, hs !! ta = Some h → active !! ta = None →
            q_Status (qtrace (client w')) h ≠ kPubOk)) no_throw) as Hall.
  { eapply hoare_bind; [apply touch_loop_ok|]. intros [].
    eapply hoare_bind with (R := λ a w, P_select a w ∧ dom a = list_to_set (chosen_from max ranked)).
    { eapply hoare_conseq; [apply (select_tracks_ok ranked ∅ Hnd); done| | |done].
      - intros w0 (Hok0 & Ht0 & Hq). split; [done|split; [done|]]. exists []. rewrite app_nil_r. split; [done|].
        intros ta h _. rewrite lookup_empty, decide_False by by intros [??]. by rewrite Hq.
      - intros a w0 [Hp Hd]. split; [done|]. rewrite Hd. rewrite map_size_empty, Z.sub_0_r. set_solver. }
    intros a w1 [(Hok1 & Ht1 & Hr1) Hdom]. destruct (t_ns _ Ht1) as (nh1 & Hn1 & Hm1 & Hhs1).
    unfold the_ns. rewrite (bind_ok (get ≫= _) _ w1 nh1 w1) by by rewrite (bind_ok get _ w1 w1 w1 eq_refl), Hn1.
    rewrite Hm1. assert (size (published_tracks_ nh1) = size hs) as Hsz by (by rewrite <- Hhs1, map_size_fmap).
    rewrite Hsz. assert (∀ e, e ∈ entries (published_tracks_ nh1) → hs !! e.1 = Some (at_handler e.2)) as Hent.
    { intros [ta tr] He%elem_of_entries. cbn [fst snd]. by rewrite <- Hhs1, lookup_fmap, He. }
    case_decide as Hlt.
    - pose proof (pause_loop_ok a (qtrace (client w1)) _ Hent w1 (conj Hok1 (conj Ht1 eq_refl))) as Hp.
      destruct (for_each _ _ w1) as [[[]|e|] w2]; [|done|done]. destruct Hp as (Hok2 & Ht2 & Hpre & Hdone).
      exists a. split_and!; [done|done|done|]. exists (client w1). split_and!; [done|done|].
      intros _ ta h Hh Ha. rewrite <- Hhs1, lookup_fmap in Hh.
      destruct (published_tracks_ nh1 !! ta) as [tr|] eqn:Htr1; [|done]. injection Hh as <-.
      apply (Hdone (ta, tr)); [by apply elem_of_entries|done].
    - exists a. split_and!; [done|done|done|]. exists (client w1). split_and!; [done|done|lia]. }
  destruct (hoare_run _ _ _ w Hall (conj Hok (conj Ht Htr))) as ([] & w' & Hrun & a & Hw).
  exists w', a. split; [|exact Hw]. unfold UpdateTrackRanking.
  rewrite (bind_ok (the_ns n) _ w nh w) by by (unfold the_ns; rewrite (bind_ok get _ w w w eq_refl), Hn).
  rewrite Hpt, Hmax. exact Hrun.
Qed.
End tracks.

(** ** The selection *)

(** C11: after a ranking update a subscriber with a track filter is sent at most
    as many tracks as it asked for.  Selected are the first [max] of the ranked
    tracks that it publishes and that are not its own; those that were paused
    are set to be sent again, and every other track is no longer sent when there
    are more than [max].  The set of published tracks does not change. *)
Theorem top_n_published n ranked w nh :
  let conn := q_ConnectionId (qtrace (client w)) n in
  let max := nh_max_tracks_selected_ nh in
  let hs := at_handler <$> published_tracks_ nh in
  let selected := chosen_from conn hs max ranked in
  fib_ok w → ns_heap (client w) !! n = Some nh → is_Some (property_type_ nh) →
  tracks_ok n max conn hs (client w) → NoDup ((λ r : RankedTrack, r.1.1.1) <$> ranked) →
  ∃ w' calls, UpdateTrackRanking n ranked w = (Ok tt, w') ∧ tracks_ok n max conn hs (client w') ∧
    qtrace (client w') = qtrace (client w) ++ calls ∧
    (∀ ta h, ta ∈ selected → hs !! ta = Some h → q_Status (qtrace (client w)) h = kPubPaused →
       Base_SetStatus h kPubOk ∈ calls) ∧
    (max < Z.of_nat (size hs) → ∀ ta h, hs !! ta = Some h → ta ∉ selected →
       q_Status (qtrace (client w')) h ≠ kPubOk) ∧
    (0 ≤ max → Z.of_nat (size (filter (λ e, q_Status (qtrace (client w')) e.2 = kPubOk) hs)) ≤ max).
Proof.
  intros conn max hs selected Hok Hn Hp Ht Hnd.
  destruct (UpdateTrackRanking_ok n max conn hs (qtrace (client w)) ranked w nh Hok Ht eq_refl Hn Hp Hnd)
    as (w' & active & Hrun & Ht' & _ & Hdom & s & (calls & Hcalls & Hres) & [more Hmore] & Hpause).
  fold selected in Hdom. rewrite Hcalls, <- app_assoc in Hmore.
  assert (∀ ta, ta ∈ selected ↔ is_Some (active !! ta)) as Hsel.
  { intros ta. by rewrite <- elem_of_dom, Hdom, elem_of_list_to_set. }
  assert (∀ ta, ta ∉ selected → active !! ta = None) as Hnot.
  { intros ta. rewrite Hsel. intros ?%eq_None_not_Some. done. }
  exists w', (calls ++ more). split_and!; [done|done|done| | |].
  - intros ta h Hta Hh Hst. specialize (Hres ta h Hh). rewrite decide_True in Hres by by apply Hsel.
    apply elem_of_app. left. by apply Hres.
  - intros Hlt ta h Hh Hta. eapply Hpause; [done..|by apply Hnot].
  - intros Hmax. destruct (decide (max < Z.of_nat (size hs))) as [Hlt|Hge].
    + transitivity (Z.of_nat (length selected)); [|unfold selected, chosen_from; rewrite length_take; lia].
      apply inj_le. rewrite <- size_dom.
      transitivity (size (list_to_set selected : gset Z)); [|apply size_list_to_set_le].
      apply subseteq_size. intros ta [h [Hh Hst]%map_lookup_filter_Some]%elem_of_dom.
      apply elem_of_list_to_set. destruct (decide (ta ∈ selected)) as [|Hta]; [done|].
      exfalso. by eapply (Hpause Hlt ta h Hh (Hnot ta Hta)).
    + transitivity (Z.of_nat (size hs)); [|lia]. apply inj_le, map_filter_size_le.
Qed.
End spec.

(** ** Witness *)

Import Quicr.Demo DemoTransport DemoRelay DemoServer DemoCache.

#[export] Instance demo_handler_laws : HandlerLaws.
Proof.
  split; intros t.
  - intros h s h'. simpl. rewrite last_of_snoc. cbn [status_call].
    destruct (decide (h' = h)) as [->|Hne]; [by rewrite decide_True|by rewrite decide_False by congruence].
  - intros. simpl. by rewrite last_of_snoc.
  - intros. simpl. by rewrite last_of_snoc.
  - done.
  - intros c h Hc. simpl. rewrite last_of_snoc. by destruct c.
  - intros c h Hc. simpl. rewrite last_of_snoc. by destruct c.
Qed.

Definition demo_ns : PublishNamespaceHandler := mkNamespaceHandler 2 10000 (Some 12)
  {[101 := mkActiveTrack 0 1; 102 := mkActiveTrack 0 2; 103 := mkActiveTrack 0 3]}.

(** Handler 9 of connection 70 publishes three tracks and wants the best two;
    the first is sent now. *)
Definition demo_client : ClientState :=
  mkClientState demo_config
    {[1 := mkPublishTrackHandler (mkLocation 0 0); 2 := mkPublishTrackHandler (mkLocation 0 0);
      3 := mkPublishTrackHandler (mkLocation 0 0)]}
    {[9 := demo_ns]}
    ∅ ∅ 10 ∅ ∅ ∅
    [PublishNamespace 70 9; Base_SetTrackAlias 1 101; Base_SetTrackAlias 2 102; Base_SetTrackAlias 3 103;
     Base_SetStatus 1 kPubOk; Base_SetStatus 2 kPubPaused; Base_SetStatus 3 kPubPaused] (Some 100) 0 ∅ ∅.

(** The fourth-best track is the subscriber's own. *)
Definition demo_ranked : list RankedTrack :=
  [(104, 1, 50, 70); (103, 2, 60, 80); (102, 3, 40, 80); (101, 4, 90, 81)].

Lemma demo_fib_ok : fib_ok (relay_with demo_client InfoBase_empty).
Proof. intros k e r s Hk. done. Qed.

Lemma demo_tracks_ok : tracks_ok 9 2 70 {[101 := 1; 102 := 2; 103 := 3]} demo_client.
Proof.
  split.
  - exists demo_ns. split; [vm_refl|]. split; [vm_refl|]. vm_refl.
  - assert (map_Forall (λ ta h, is_Some (pub_heap demo_client !! h) ∧ q_Alive (qtrace demo_client) h = true ∧
      q_TrackAlias (qtrace demo_client) h = Some ta) ({[101 := 1; 102 := 2; 103 := 3]} : gmap Z Ref)) as Hall by decide_now.
    exact Hall.
  - vm_refl.
Qed.

Lemma top_n_published_witness :
  ∃ w' calls, UpdateTrackRanking 9 demo_ranked (relay_with demo_client InfoBase_empty) = (Ok tt, w') ∧
    qtrace (client w') = qtrace demo_client ++ calls ∧
    Base_SetStatus 3 kPubOk ∈ calls ∧ Base_SetStatus 2 kPubOk ∈ calls ∧
    q_Status (qtrace (client w')) 1 ≠ kPubOk.
Proof.
  destruct (top_n_published 9 demo_ranked (relay_with demo_client InfoBase_empty)
    demo_ns)
    as (w' & calls & Hrun & _ & Hq & Hsel & Hpause & _).
  - exact demo_fib_ok.
  - vm_refl.
  - by eexists.
  - exact demo_tracks_ok.
  - decide_now.
  - exists w', calls. split_and!; [exact Hrun|exact Hq| | |].
    + apply (Hsel 103); [decide_now|vm_refl|vm_refl].
    + apply (Hsel 102); [decide_now|vm_refl|vm_refl].
    + apply (Hpause eq_refl 101); [vm_refl|decide_now].
Defined.
