(* ===== verification/SubscribeHandler.v ===== *)
(** * Subscribe track handlers (class SubscribeTrackHandler, src/subscribe_handler.cc)

    A track this relay receives, from a publisher or from a peer, and its fan-out
    to subscribers, to subscribed namespaces and to peering (connection 0).

    [this] stays valid while a method runs.  The logging of StatusChanged is left
    out, its effect on [State] is not. *)

From S2P Require Import Prelude Common Quicr State QuicrServer DataHeader TrackRanking Transport PeerSession PeerSessionEvents PeerWorld ClientState PeerManager PeerForwarding PublishHandler NamespaceHandler.

Definition kRefreshRankingIntervalMs : Z := 120.

(** [SubscribeTrackHandler::Status], as far as StatusChanged tells values apart. *)
Inductive SubscribeStatus := kSubError | kSubOther (n : Z).

Section subscribe_handler.
Context `{UintVar, TrackNames, MoqMessages, GroupCache, !QuicrServer, Transport}.
Abbreviation World := (World ClientState).

Definition set_is_datagram b s := mkSubscribeTrackHandler (sub_full_name s) b (is_from_peer_ s) (subscribers_ s)
  (sub_namespaces_ s) (tracked_properties_value_ s) (track_ranking_ s) (streams_ s) (pub_last_update_time s).
Definition set_is_from_peer b s := mkSubscribeTrackHandler (sub_full_name s) (is_datagram_ s) b (subscribers_ s)
  (sub_namespaces_ s) (tracked_properties_value_ s) (track_ranking_ s) (streams_ s) (pub_last_update_time s).
Definition set_subscribers f s := mkSubscribeTrackHandler (sub_full_name s) (is_datagram_ s) (is_from_peer_ s)
  (f (subscribers_ s)) (sub_namespaces_ s) (tracked_properties_value_ s) (track_ranking_ s) (streams_ s)
  (pub_last_update_time s).
Definition set_sub_namespaces f s := mkSubscribeTrackHandler (sub_full_name s) (is_datagram_ s) (is_from_peer_ s)
  (subscribers_ s) (f (sub_namespaces_ s)) (tracked_properties_value_ s) (track_ranking_ s) (streams_ s)
  (pub_last_update_time s).
Definition set_tracked f s := mkSubscribeTrackHandler (sub_full_name s) (is_datagram_ s) (is_from_peer_ s)
  (subscribers_ s) (sub_namespaces_ s) (f (tracked_properties_value_ s)) (track_ranking_ s) (streams_ s)
  (pub_last_update_time s).
Definition set_sub_ranking r s := mkSubscribeTrackHandler (sub_full_name s) (is_datagram_ s) (is_from_peer_ s)
  (subscribers_ s) (sub_namespaces_ s) (tracked_properties_value_ s) r (streams_ s) (pub_last_update_time s).
Definition set_streams f s := mkSubscribeTrackHandler (sub_full_name s) (is_datagram_ s) (is_from_peer_ s)
  (subscribers_ s) (sub_namespaces_ s) (tracked_properties_value_ s) (track_ranking_ s) (f (streams_ s))
  (pub_last_update_time s).
Definition set_last_update t s := mkSubscribeTrackHandler (sub_full_name s) (is_datagram_ s) (is_from_peer_ s)
  (subscribers_ s) (sub_namespaces_ s) (tracked_properties_value_ s) (track_ranking_ s) (streams_ s) t.

(** The constructor: property 12 is tracked from the start. *)
Definition SubscribeTrackHandler_make (full_track_name : FullTrackName) (priority : Z) (group_order : option Z)
    (is_publisher_initiated : bool) : ST World Ref :=
  this ← alloc;
  qcall (MakeSubscribeTrack this full_track_name priority group_order is_publisher_initiated) ;;
  modify (set_client_state (set_sub_heap <[this :=
    mkSubscribeTrackHandler full_track_name false false ∅ ∅ {[12 := mkPropertyValue 0 0]} None ∅ None]>)) ;;
  mret this.

Definition SetTrackRanking (this : Ref) (track_ranking : Ref) : ST World unit :=
  modify_sub this (set_sub_ranking (Some track_ranking)).
Definition SetFromPeer (this : Ref) : ST World unit := modify_sub this (set_is_from_peer true).

(** [bool HasSubscribers() const] *)
Definition HasSubscribers_sub (s : SubscribeTrackHandler) : bool :=
  bool_decide (subscribers_ s ≠ ∅) || bool_decide (sub_namespaces_ s ≠ ∅).

(** The destructor. *)
Definition SubscribeTrackHandler_destroy (this : Ref) : ST World unit :=
  s ← the_sub this;
  conn ← qget (λ t, q_ConnectionId t this);
  for_each (entries (subscribers_ s)) (λ e, qcall (UnbindPublisherTrack e.1 conn e.2)) ;;
  modify (set_client_state (set_sub_heap (delete this))).

(** ** Subscribers *)

(** [sub_namespaces_[hash]] *)
Definition namespaces_at (hash : Z) (m : gmap Z (gmap Z Ref)) : gmap Z Ref := default ∅ (m !! hash).

(** [void AddSubscribeNamespace(handler)] *)
Definition AddSubscribeNamespace (this handler : Ref) : ST World unit :=
  name ← qget (λ t, q_NamespaceName t handler);
  conn ← qget (λ t, q_ConnectionId t handler);
  let hash := track_fullname_hash (track_hash name.1 name.2) in
  s ← the_sub this;
  modify_sub this (set_sub_namespaces (λ m, <[hash := namespaces_at hash m]> m)) ;;
  if decide (is_Some (namespaces_at hash (sub_namespaces_ s) !! conn)) then mret tt
  else
    modify_sub this (set_sub_namespaces (λ m, <[hash := <[conn := handler]> (namespaces_at hash m)]> m)) ;;
    n ← the_ns handler;
    let prop := GetPropertyType n in
    modify_sub this (set_tracked (λ m,
      match m !! prop with Some _ => m | None => <[prop := mkPropertyValue 0 0]> m end)) ;;
    qcall (Base_Resume this).

(** [void RemoveSubscribeNamespace(handler)] *)
Definition RemoveSubscribeNamespace (this handler : Ref) : ST World unit :=
  name ← qget (λ t, q_NamespaceName t handler);
  conn ← qget (λ t, q_ConnectionId t handler);
  let hash := track_fullname_hash (track_hash name.1 name.2) in
  s ← the_sub this;
  match sub_namespaces_ s !! hash with
  | None => mret tt
  | Some conns =>
      let conns := delete conn conns in
      modify_sub this (set_sub_namespaces (if decide (conns = ∅) then delete hash else <[hash := conns]>))
  end.

(** [void AddSubscriber(conn_handle, request_id, priority, delivery_timeout, start_location)] *)
Definition AddSubscriber (this : Ref) (conn_handle request_id priority delivery_timeout : Z)
    (start_location : Location) : ST World unit :=
  s ← the_sub this;
  if decide (is_Some (subscribers_ s !! conn_handle)) then mret tt
  else
    (if decide (conn_handle ≠ 0) then
       own_priority ← qget (λ t, q_Priority t this);
       own_timeout ← qget (λ t, q_DeliveryTimeout t this);
       config ← gets (λ w, config_ (client w));
       pub_track_h ← PublishTrackHandler_make (sub_full_name s)
         (if is_datagram_ s then kDatagramMode else kStreamMode)
         (if decide (priority = 0) then own_priority else priority)
         (if decide (delivery_timeout = 0) then default (object_ttl_ config) own_timeout else delivery_timeout)
         start_location;
       conn ← qget (λ t, q_ConnectionId t this);
       qcall (BindPublisherTrack conn_handle conn request_id pub_track_h) ;;
       modify_sub this (set_subscribers <[conn_handle := Some pub_track_h]>)
     else modify_sub this (set_subscribers <[conn_handle := None]>)) ;;
    qcall (Base_Resume this).

(** [void RemoveSubscriber(conn_handle)] *)
Definition RemoveSubscriber (this : Ref) (conn_handle : Z) : ST World unit :=
  s ← the_sub this;
  match subscribers_ s !! conn_handle with
  | None => mret tt
  | Some handler =>
      match handler with
      | Some handler =>
          conn ← qget (λ t, q_ConnectionId t this);
          qcall (UnbindPublisherTrack conn_handle conn (Some handler))
      | None => mret tt
      end ;;
      modify_sub this (set_subscribers (delete conn_handle))
  end ;;
  s ← the_sub this;
  if decide (subscribers_ s = ∅ ∧ sub_namespaces_ s = ∅) then qcall (Base_Pause this) else mret tt.

(** ** Tracked properties *)

(** A method of the ranking, which calls the namespace handlers. *)
Definition on_ranking (r : Ref) (m : ST (TrackRanking * World) unit) : ST World unit := λ w,
  match rank_heap (client w) !! r with
  | None => (Ok tt, w)                      (* lock() of a dead ranking *)
  | Some ranking =>
      match m (ranking, w) with
      | (o, (ranking', w')) => (o, set_client_state (set_rank_heap <[r := ranking']>) w')
      end
  end.

(** The lambda of UpdateTrackedProperties, on one entry of the map. *)
Definition update_property (this : Ref) (alias prop : Z) (tracked : TrackPropertyValue) (recv_value : Z) :
    ST World unit :=
  conn_id ← qget (λ t, q_ConnectionId t this);
  tick ← cur_tick;
  if decide (latest_value tracked ≠ recv_value ∨
             kRefreshRankingIntervalMs < u64 (tick - latest_tick_ms tracked)) then
    modify_sub this (set_tracked <[prop := mkPropertyValue recv_value tick]>) ;;
    s ← the_sub this;
    match track_ranking_ s with
    | Some r => on_ranking r (UpdateValue alias prop recv_value tick conn_id)
    | None => mret tt
    end
  else mret tt.

(** [uint64_t(UintVar(extensions.at(prop).front()))] *)
Definition property_value (prop : Z) (e : Extensions) : option (ST World Z) :=
  values ← e !! prop; Some (bytes ← deref (head values); mret (uv_value bytes)).

(** [void UpdateTrackedProperties(extensions, immutable_extensions)] *)
Definition UpdateTrackedProperties (this : Ref) (extensions immutable_extensions : option Extensions) :
    ST World unit :=
  alias ← qget (λ t, q_TrackAlias t this);
  alias ← value alias;
  match extensions with
  | None => mret tt
  | Some extensions =>
      s ← the_sub this;
      for_each (entries (tracked_properties_value_ s)) (λ e,
        if decide (Z.rem e.1 2 ≠ 0) then mret tt
        else match property_value e.1 extensions with
             | Some v => v ← v; update_property this alias e.1 e.2 v
             | None => match immutable_extensions ≫= property_value e.1 with
                       | Some v => v ← v; update_property this alias e.1 e.2 v
                       | None => mret tt
                       end
             end)
  end.

(** ** Received objects *)

(** [if (pending_new_group_request_id_ ...) reset()] *)
Definition reset_pending_group (this : Ref) (group_id : Z) : ST World unit :=
  pending ← qget (λ t, q_PendingNewGroup t this);
  match pending with
  | Some id => if decide (group_id = 0 ∨ id < group_id) then qcall (Base_ResetPendingNewGroup this) else mret tt
  | None => mret tt
  end.

(** [group->insert(object)]: the set is ordered by object id and keeps what it
    has. *)
Definition insert_object (o : CacheObject) (g : gmap Z CacheObject) : gmap Z CacheObject :=
  match g !! oh_object_id (co_headers o) with
  | Some _ => g
  | None => <[oh_object_id (co_headers o) := o]> g
  end.

(** The cache part of ObjectReceived; [count] and [at] are one lookup. *)
Definition cache_object (alias : Z) (o : CacheObject) : ST World unit :=
  tick ← cur_tick;
  modify (set_client_state (λ s, set_cache (λ m,
    let duration := cache_duration_ms_ (config_ s) in
    let cache := default (cache_make duration) (m !! alias) in
    let group_id := oh_group_id (co_headers o) in
    <[alias := match cache_Get tick group_id cache with
               | Some g => cache_assign group_id (insert_object o g) cache
               | None => cache_Insert tick group_id {[oh_object_id (co_headers o) := o]} duration cache
               end]> m) s)).

(** Whether a subscriber that starts at [start] gets the object. *)
Definition after_start (start : Location) (headers : ObjectHeaders) : bool :=
  bool_decide (loc_group start ≤ oh_group_id headers) && bool_decide (loc_object start ≤ oh_object_id headers).

(** One subscriber of the fan-out. *)
Definition publish_to (this : Ref) (object_headers : ObjectHeaders) (data : list Z)
    (stream_mode : option StreamHeaderProperties) (e : Z * option Ref) : ST World unit :=
  if decide (e.1 = 0) then mret tt
  else
    pub_handler ← deref e.2;
    s ← the_sub this;
    skip ← (if is_datagram_ s then mret false
            else SentFirstObject pub_handler (oh_group_id object_headers) (oh_subgroup_id object_headers));
    if (skip : bool) then mret tt
    else
      qcall (Base_SetDefaultTrackMode pub_handler (if is_datagram_ s then kDatagramMode else kStreamMode)) ;;
      pub ← the_pub pub_handler;
      if after_start (start_location_ pub) object_headers then
        answer ← qget answer_PublishObject;
        qcall (Base_PublishObject pub_handler object_headers data stream_mode) ;;
        lift_outcome answer
      else mret tt.

(** All handlers of [sub_namespaces_], in the order of the two loops. *)
Definition namespace_handlers (s : SubscribeTrackHandler) : list Ref :=
  entries (sub_namespaces_ s) ≫= λ conn_subs, (entries conn_subs.2).*2.

(** [void ObjectReceived(object_headers, data, stream_mode)] *)
Definition ObjectReceived (this : Ref) (object_headers : ObjectHeaders) (data : list Z)
    (stream_mode : option StreamHeaderProperties) : ST World unit :=
  UpdateTrackedProperties this (oh_extensions object_headers) (oh_immutable_extensions object_headers) ;;
  reset_pending_group this (oh_group_id object_headers) ;;
  config ← gets (λ w, config_ (client w));
  (if disable_cache config then mret tt
   else
     alias ← qget (λ t, q_TrackAlias t this);
     alias ← value alias;
     cache_object alias (mkCacheObject object_headers data)) ;;
  try_catch (
    s ← the_sub this;
    for_each (namespace_handlers s) (λ handler,
      alias ← qget (λ t, q_TrackAlias t this);
      alias ← value alias;
      Ns_PublishObject handler alias object_headers data stream_mode) ;;
    for_each (entries (subscribers_ s)) (publish_to this object_headers data stream_mode))
  (λ _, mret tt).

(** ** Forwarding of received bytes *)

(** What peering gets: the timeout is narrowed to 32 bits. *)
Definition send_to_peers (this : Ref) (alias d_type group_id subgroup_id : Z) (data : list Z) : ST World unit :=
  priority ← qget (λ t, q_Priority t this);
  timeout ← qget (λ t, q_DeliveryTimeout t this);
  ClientDataRecv alias (u8 priority) (u32 (default kDefaultObjectTtl timeout)) d_type group_id subgroup_id data.

(** One subscriber of the fan-out. *)
Definition forward_to (this : Ref) (alias d_type : Z) (is_new_stream : bool) (group_id subgroup_id : Z)
    (data : list Z) (e : Z * option Ref) : ST World unit :=
  if decide (e.1 = 0) then send_to_peers this alias d_type group_id subgroup_id data
  else
    pub_handler ← deref e.2;
    sent ← SentFirstObject pub_handler group_id subgroup_id;
    if (sent : bool) then qcall (Base_ForwardPublishedData pub_handler is_new_stream group_id subgroup_id data)
    else mret tt.

(** [void ForwardReceivedData(is_new_stream, group_id, subgroup_id, data)] *)
Definition ForwardReceivedData (this : Ref) (is_new_stream : bool) (group_id subgroup_id : Z) (data : list Z) :
    ST World unit :=
  alias ← qget (λ t, q_TrackAlias t this);
  match alias with
  | None => mret tt
  | Some alias =>
      s ← the_sub this;
      timeout ← qget (λ t, q_DeliveryTimeout t this);
      config ← gets (λ w, config_ (client w));
      (if negb (is_datagram_ s) && is_new_stream && bool_decide (default kDefaultObjectTtl timeout = 0)
       then qcall (Base_SetDeliveryTimeout this (object_ttl_ config)) else mret tt) ;;
      let d_type := if is_datagram_ s then DataType.kDatagram
                    else if is_new_stream then DataType.kNewStream else DataType.kExistingStream in
      for_each (namespace_handlers s) (λ handler,
        alias ← qget (λ t, q_TrackAlias t this);
        alias ← value alias;
        Ns_ForwardPublishedData handler alias is_new_stream group_id subgroup_id data) ;;
      for_each (entries (subscribers_ s)) (forward_to this alias d_type is_new_stream group_id subgroup_id data)
  end.

(** ** Streams *)

Definition modify_stream (this : Ref) (stream_id : Z) (f : StreamContext → StreamContext) : ST World unit :=
  modify_sub this (set_streams (λ m, <[stream_id := f (default StreamContext_empty (m !! stream_id))]> m)).
Definition the_stream (this : Ref) (stream_id : Z) : ST World StreamContext :=
  s ← the_sub this; mret (default StreamContext_empty (streams_ s !! stream_id)).

Definition set_sc_buffer b (c : StreamContext) := mkStreamContext b (buf_any c) (buf_any_b c) (next_object_id c)
  (current_group_id c) (current_subgroup_id c).
Definition set_any_header h (c : StreamContext) := mkStreamContext (sc_buffer c) h (buf_any_b c) (next_object_id c)
  (current_group_id c) (current_subgroup_id c).
Definition set_any_object o (c : StreamContext) := mkStreamContext (sc_buffer c) (buf_any c) o (next_object_id c)
  (current_group_id c) (current_subgroup_id c).
Definition set_next_object id (c : StreamContext) := mkStreamContext (sc_buffer c) (buf_any c) (buf_any_b c) id
  (current_group_id c) (current_subgroup_id c).
Definition set_current group subgroup (c : StreamContext) := mkStreamContext (sc_buffer c) (buf_any c) (buf_any_b c)
  (next_object_id c) group subgroup.

(** [buffer.GetAny<StreamHeaderSubGroup>()] *)
Definition stream_header (c : StreamContext) : ST World SubgroupHeader :=
  match buf_any c with Some h => mret h | None => throw bad_any_cast end.

Definition set_track_alias (alias : Z) (h : SubgroupHeader) : SubgroupHeader :=
  mkSubgroupHeader _ alias (sh_group_id h) (sh_subgroup_id h) (sh_priority h) (sh_properties h).
Definition set_subgroup_id (id : option Z) (h : SubgroupHeader) : SubgroupHeader :=
  mkSubgroupHeader _ (sh_track_alias h) (sh_group_id h) id (sh_priority h) (sh_properties h).
Definition set_properties (p : StreamHeaderProperties) (o : SubgroupObject) : SubgroupObject :=
  mkSubgroupObject _ (so_object_delta o) (Some p) (so_status o) (so_extensions o) (so_immutable_extensions o)
    (so_payload o).

(** The [is_start] branch; [false] is its [return]. *)
Definition start_stream (this : Ref) (stream_id : Z) (data : list Z) : ST World bool :=
  modify_stream this stream_id (λ c, mkStreamContext data (Some subgroup_header_default)
    (if clear_keeps_object then buf_any_b c else None) (next_object_id c) (current_group_id c) (current_subgroup_id c)) ;;
  let '(complete, s_hdr, rest) := read_subgroup_header subgroup_header_default data in
  modify_stream this stream_id (λ c, set_sc_buffer rest (set_any_header (Some s_hdr) c)) ;;
  if negb complete then mret false
  else
    received ← qget (λ t, q_ReceivedTrackAlias t this);
    alias ← qget (λ t, q_TrackAlias t this);
    alias ← value alias;
    let subgroup_id := default 0 (sh_subgroup_id s_hdr) in
    (if decide (default 0 received ≠ alias) then
       let s_hdr := set_track_alias alias s_hdr in
       modify_stream this stream_id (set_any_header (Some s_hdr)) ;;
       ForwardReceivedData this true (sh_group_id s_hdr) subgroup_id
         (put_subgroup_header s_hdr ++ drop (length data - length rest) data)
     else ForwardReceivedData this true (sh_group_id s_hdr) subgroup_id data) ;;
    modify_stream this stream_id (set_current (sh_group_id s_hdr) subgroup_id) ;;
    mret true.

(** [next_object_id] for an object with the given delta. *)
Definition next_id (c : StreamContext) (s_hdr : SubgroupHeader) (delta : Z) : Z :=
  match next_object_id c with
  | Some id => if decide (current_group_id c ≠ sh_group_id s_hdr ∨ Some (current_subgroup_id c) ≠ sh_subgroup_id s_hdr)
               then delta else u64 (id + delta)
  | None => delta
  end.

(** A complete object taken off the buffer. *)
Definition stream_object (this : Ref) (is_start : bool) (stream_id : Z) (s_hdr : SubgroupHeader)
    (obj : SubgroupObject) : ST World unit :=
  c ← the_stream this stream_id;
  let id := next_id c s_hdr (so_object_delta obj) in
  modify_stream this stream_id (set_next_object (Some id)) ;;
  modify_stream this stream_id (λ c, set_current (sh_group_id s_hdr) (current_subgroup_id c) c) ;;
  subgroup_id ← value (sh_subgroup_id s_hdr);
  modify_stream this stream_id (set_current (sh_group_id s_hdr) subgroup_id) ;;
  reset_pending_group this (sh_group_id s_hdr) ;;
  s_hdr ← (if decide (sh_subgroup_id s_hdr = None) then
             p ← deref (so_properties obj);
             if set_from_first_object p then
               let s_hdr := set_subgroup_id (Some id) s_hdr in
               modify_stream this stream_id (set_any_header (Some s_hdr)) ;;
               mret s_hdr
             else throw protocol_violation
           else mret s_hdr);
  subgroup_id ← value (sh_subgroup_id s_hdr);
  ObjectReceived this
    (mkObjectHeaders (sh_group_id s_hdr) id subgroup_id (Z.of_nat (length (so_payload obj))) (so_status obj)
       (sh_priority s_hdr) None (Some kStreamMode) (so_extensions obj) (so_immutable_extensions obj))
    (so_payload obj) (sh_properties s_hdr) ;;
  modify_stream this stream_id (set_next_object (Some (u64 (id + 1)))) ;;
  modify_stream this stream_id (set_any_object None) ;;
  c ← the_stream this stream_id;
  if decide (sc_buffer c = []) then mret tt
  else ForwardReceivedData this is_start (sh_group_id s_hdr) (default 0 (sh_subgroup_id s_hdr)) (sc_buffer c).

(** The [while] loop, whose body always ends in [break]. *)
Definition read_object (this : Ref) (is_start : bool) (stream_id : Z) : ST World unit :=
  c ← the_stream this stream_id;
  s_hdr ← stream_header c;
  let obj := default subgroup_object_default (buf_any_b c) in
  modify_stream this stream_id (set_any_object (Some obj)) ;;
  properties ← deref (sh_properties s_hdr);
  let '(complete, obj, rest) := read_subgroup_object (set_properties properties obj) (sc_buffer c) in
  modify_stream this stream_id (λ c, set_sc_buffer rest (set_any_object (Some obj) c)) ;;
  if (complete : bool) then stream_object this is_start stream_id s_hdr obj else mret tt.

(** [void StreamDataRecv(is_start, stream_id, data)]; the data of a stream that
    goes on may be null. *)
Definition StreamDataRecv (this : Ref) (is_start : bool) (stream_id : Z) (data : option (list Z)) : ST World unit :=
  modify_sub this (set_is_datagram false) ;;
  modify_stream this stream_id id ;;
  go_on ← (if is_start then data ← deref data; start_stream this stream_id data
           else match data with
                | Some data =>
                    c ← the_stream this stream_id;
                    ForwardReceivedData this false (current_group_id c) (current_subgroup_id c) data ;;
                    modify_stream this stream_id (λ c, set_sc_buffer (sc_buffer c ++ data) c) ;;
                    mret true
                | None => mret true
                end);
  if (go_on : bool) then read_object this is_start stream_id else mret tt.

(** [void DgramDataRecv(data)] *)
Definition DgramDataRecv (this : Ref) (data : list Z) : ST World unit :=
  modify_sub this (set_is_datagram true) ;;
  match read_datagram data with
  | None => mret tt
  | Some msg =>
      s ← the_sub this;
      (if decide (is_Some (subscribers_ s !! 0))
       then send_to_peers this (od_track_alias msg) DataType.kDatagram (od_group_id msg) 0 data
       else mret tt) ;;
      ObjectReceived this
        (mkObjectHeaders (od_group_id msg) (od_object_id msg) 0 (Z.of_nat (length (od_payload msg))) kAvailable
           (od_priority msg) None (Some kDatagramMode) (od_extensions msg) None)
        (od_payload msg) None
  end.

(** [void StreamClosed(stream_id, use_reset)] *)
Definition Sub_StreamClosed (this : Ref) (stream_id : Z) (use_reset : bool) : ST World unit :=
  s ← the_sub this;
  match streams_ s !! stream_id with
  | None => mret tt
  | Some stream =>
      for_each (entries (subscribers_ s)) (λ e,
        if decide (e.1 = 0) then
          alias ← qget (λ t, q_TrackAlias t this);
          match alias with
          | Some alias => EndSubgroup alias (current_group_id stream) (current_subgroup_id stream) use_reset
          | None => mret tt
          end
        else
          pub_handler ← deref e.2;
          Pub_EndSubgroup pub_handler (current_group_id stream) (current_subgroup_id stream) (negb use_reset)) ;;
      for_each (namespace_handlers s) (λ handler,
        Ns_EndSubgroup handler (current_group_id stream) (current_subgroup_id stream) (negb use_reset)) ;;
      modify_sub this (set_streams (delete stream_id))
  end.

(** [void StatusChanged(status)]; [pub_namespace_active[key]] creates an entry.
    What is logged takes the alias with [value()].  libquicr has the handler
    while it reports its status, so the erased entry is not its last owner. *)
Definition Sub_StatusChanged (this : Ref) (status : SubscribeStatus) : ST World unit :=
  alias ← qget (λ t, q_TrackAlias t this);
  match status with
  | kSubError =>
      match alias with
      | Some alias =>
          s ← the_sub this;
          conn ← qget (λ t, q_ConnectionId t this);
          let key := ((sub_full_name s).1, conn) in
          modify (set_state (set_pub_namespace_active (λ m, <[key := default ∅ (m !! key) ∖ {[alias]}]> m))) ;;
          modify (set_state (set_pub_subscribes (delete (alias, conn))))
      | None => mret tt
      end
  | kSubOther _ => mret tt
  end ;;
  _ ← value alias;
  mret tt.
End subscribe_handler.
