(* ===== verification/ClientManager.v ===== *)
(** * Subscriptions of the client manager (class ClientManager, src/client_manager.cc)

    What the manager does when clients and peers subscribe to tracks and leave
    them, and the data and requests that peering hands it.  [conn] 0 is peering.

    libquicr is called, never called back from: what it does later arrives as an
    event of its own. *)

From S2P Require Import Prelude Common Quicr State QuicrServer DataHeader TrackRanking InfoBase Transport PeerSession PeerSessionEvents PeerWorld ClientState PeerManager PeerForwarding PublishHandler NamespaceHandler SubscribeHandler.

Definition kDefaultPriority : Z := 10.

Section client_manager.
Context `{UintVar, TrackNames, MoqMessages, GroupCache, !QuicrServer, Transport, !SubscribeMessages}.
Abbreviation World := (World ClientState).
Implicit Types w : World.

(** ** Ownership of the subscribe handlers

    The tables of [State] and libquicr hold them; the last owner destroys. *)
Definition sub_held (h : Ref) w : bool :=
  bool_decide (Some h ∈ (map_to_list (pub_subscribes (state_ w))).*2) ||
  bool_decide (Some h ∈ (map_to_list (pub_subscribes_by_req_id (state_ w))).*2) ||
  q_Holds (qtrace (client w)) h.

Lemma sub_held_spec h w : sub_held h w = true ↔
  (∃ key, pub_subscribes (state_ w) !! key = Some (Some h)) ∨
  (∃ key, pub_subscribes_by_req_id (state_ w) !! key = Some (Some h)) ∨ q_Holds (qtrace (client w)) h = true.
Proof.
  assert (∀ m : gmap (Z * Z) (option Ref), Some h ∈ (map_to_list m).*2 ↔ ∃ key, m !! key = Some (Some h)) as Hin.
  { intros m. rewrite list_elem_of_fmap. setoid_rewrite <- elem_of_map_to_list. split.
    - intros ([key p] & -> & ?). by exists key.
    - intros [key ?]. by exists (key, Some h). }
  unfold sub_held. rewrite !orb_true_iff, !bool_decide_eq_true, !Hin. tauto.
Qed.

(** A [shared_ptr] that goes away. *)
Definition release (p : option Ref) : ST World unit :=
  match p with
  | None => mret tt
  | Some h => w ← get; if sub_held h w then mret tt else SubscribeTrackHandler_destroy h
  end.

(** [pub_subscribes.erase(key)] and [pub_subscribes[key] = h] *)
Definition erase_pub_subscribe (key : Z * Z) : ST World unit :=
  w ← get;
  modify (set_state (set_pub_subscribes (delete key))) ;;
  release (mjoin (pub_subscribes (state_ w) !! key)).
Definition assign_pub_subscribe (key : Z * Z) (h : Ref) : ST World unit :=
  w ← get;
  modify (set_state (set_pub_subscribes <[key := Some h]>)) ;;
  release (mjoin (pub_subscribes (state_ w) !! key)).

(** The same for [pub_subscribes_by_req_id]. *)
Definition erase_by_req_id (key : Z * Z) : ST World unit :=
  w ← get;
  modify (set_state (set_pub_subscribes_by_req_id (delete key))) ;;
  release (mjoin (pub_subscribes_by_req_id (state_ w) !! key)).
Definition assign_by_req_id (key : Z * Z) (h : Ref) : ST World unit :=
  w ← get;
  modify (set_state (set_pub_subscribes_by_req_id <[key := Some h]>)) ;;
  release (mjoin (pub_subscribes_by_req_id (state_ w) !! key)).

(** The loop [for (it = pub_subscribes.lower_bound({hash, 0}); ...)] with its
    [break] at another track. *)
Definition pub_subs (track_fullname_hash : Z) : ST World (list ((Z * Z) * option Ref)) :=
  gets (λ w, same_first track_fullname_hash (pub_subscribes (state_ w))).

(** ** The object cache *)

(** The last object of the last group that the cache has. *)
Definition latest_object (tick track_fullname_hash : Z) (s : ClientState) : option CacheObject :=
  cache ← cache_ s !! track_fullname_hash;
  latest_group ← cache_Last tick cache;
  snd <$> last (entries latest_group).

Definition object_location (o : CacheObject) : Location :=
  mkLocation (oh_group_id (co_headers o)) (oh_object_id (co_headers o)).

(** [GetLargestAvailable(track_name)] *)
Definition GetLargestAvailable (track_name : FullTrackName) : ST World (option Location) :=
  let th := track_hash track_name.1 track_name.2 in
  tick ← cur_tick;
  gets (λ w, object_location <$> latest_object tick (track_fullname_hash th) (client w)).

(** ** Subscriptions towards publishers *)

(** [elapsed]: [sub_dampen_ms_ + 1] in 32 bits when there was no update yet. *)
Definition elapsed_ms (sub_dampen_ms now : Z) (last : option Z) : Z :=
  match last with
  | Some t => u64 (now - t)
  | None => u32 (sub_dampen_ms + 1)
  end.

(** [DampenOrUpdateTrackSubscription(handler, new_group_request)]; it always
    returns false.  The message it logs takes the alias with [value()]. *)
Definition DampenOrUpdateTrackSubscription (h : Ref) (new_group_request : bool) : ST World unit :=
  conn ← qget (λ t, q_ConnectionId t h);
  if decide (conn ≤ 1) then mret tt
  else
    s ← the_sub h;
    now ← gets (λ w, steady_clock (client w));
    sub_dampen_ms ← gets (λ w, sub_dampen_ms_ (config_ (client w)));
    if new_group_request || bool_decide (sub_dampen_ms < elapsed_ms sub_dampen_ms now (pub_last_update_time s)) then
      alias ← qget (λ t, q_TrackAlias t h);
      _ ← value alias;
      modify_sub h (set_last_update (Some now)) ;;
      if new_group_request then qcall (Base_RequestNewGroup h)
      else qcall (UpdateTrackSubscription conn h)
    else mret tt.

(** One publisher of RemoveOrPausePublisherSubscribe; the variables are
    [has_subs] and [remove_sub_pub]. *)
Definition remove_or_pause (acc : bool * list (Z * Z)) (e : (Z * Z) * option Ref) :
    ST World (bool * list (Z * Z)) :=
  h ← deref e.2;
  s ← the_sub h;
  if HasSubscribers_sub s then mret (true, acc.2)
  else
    publisher_initiated ← qget (λ t, q_IsPublisherInitiated t h);
    if (publisher_initiated : bool) then
      qcall (Base_Pause h) ;;
      mret acc
    else
      qcall (UnsubscribeTrack e.1.2 h) ;;
      mret (acc.1, acc.2 ++ [e.1]).

(** [RemoveOrPausePublisherSubscribe(track_fullname_hash)] *)
Definition RemoveOrPausePublisherSubscribe (track_fullname_hash : Z) : ST World unit :=
  w ← get;
  if Manager_HasSubscribers track_fullname_hash w then mret tt
  else
    subs ← pub_subs track_fullname_hash;
    r ← fold_each subs (false, []) remove_or_pause;
    for_each r.2 erase_pub_subscribe ;;
    if (r.1 : bool) then mret tt else ClientUnsubscribe track_fullname_hash.

(** ** Subscribes *)

(** The subscribe message that peering passes on. *)
Definition subscribe_message (request_id : Z) (name : FullTrackName) (attrs : SubscribeAttributes) : list Z :=
  AppendSubscribe request_id name.1 name.2 (MakeParameters (sa_priority attrs) (sa_group_order attrs)).

(** The tables of a client's subscription; [try_emplace] and [emplace] keep what
    is there. *)
Definition add_active (conn request_id : Z) (th : TrackHash) (attrs : SubscribeAttributes)
    (actives : gmap (Z * Z) ActiveSubscribe) : gmap (Z * Z) ActiveSubscribe :=
  match actives !! (conn, request_id) with
  | Some _ => actives
  | None => <[(conn, request_id) := mkActive (track_fullname_hash th) (sa_priority attrs)
               (sa_delivery_timeout attrs) (sa_start_location attrs)]> actives
  end.

Definition add_subscribe (conn request_id : Z) (th : TrackHash) (name : FullTrackName) (attrs : SubscribeAttributes)
    (m : gmap (Z * Z) SubscribePublishHandlerInfo) : gmap (Z * Z) SubscribePublishHandlerInfo :=
  match m !! (track_fullname_hash th, conn) with
  | Some _ => m
  | None => <[(track_fullname_hash th, conn) :=
      mkSubscribeHandlerInfo name (track_fullname_hash th) request_id (sa_priority attrs)
        (u32 (sa_delivery_timeout attrs)) (sa_group_order attrs) Location_default]> m
  end.

Definition record_subscribe (conn request_id : Z) (th : TrackHash) (name : FullTrackName)
    (attrs : SubscribeAttributes) (st : RelayState) : RelayState :=
  let key := (name.1, track_name_hash th) in
  set_state_subscribes (add_subscribe conn request_id th name attrs)
    (set_subscribe_alias_req_id <[(conn, request_id) := track_fullname_hash th]>
      (set_subscribe_active (λ m, <[key := add_active conn request_id th attrs (default ∅ (m !! key))]> m) st)).

(** The subscriber joins a handler the relay already has. *)
Definition join_publisher (conn request_id : Z) (attrs : SubscribeAttributes) (e : (Z * Z) * option Ref) :
    ST World unit :=
  h ← deref e.2;
  publisher_initiated ← qget (λ t, q_IsPublisherInitiated t h);
  (if (publisher_initiated : bool) then qcall (Base_Resume h) else mret tt) ;;
  AddSubscriber h conn request_id (sa_priority attrs) (sa_delivery_timeout attrs) (sa_start_location attrs) ;;
  DampenOrUpdateTrackSubscription h (bool_decide (is_Some (sa_new_group_request_id attrs))).

(** One announcer of the last loop. *)
Definition subscribe_announcer (conn request_id track_fullname_hash : Z) (name : FullTrackName)
    (attrs : SubscribeAttributes) (e : (TrackNamespace * Z) * gset Z) : ST World unit :=
  if negb (HasSamePrefix e.1.1 name.1) || bool_decide (e.1.2 = 0) then mret tt
  else
    w ← get;
    match pub_subscribes (state_ w) !! (track_fullname_hash, e.1.2) with
    | None =>
        modify (set_state (set_pub_namespace_active (alter (λ aliases, {[track_fullname_hash]} ∪ aliases) e.1))) ;;
        h ← SubscribeTrackHandler_make name 0 (Some kAscending) false;
        qcall (SubscribeTrack e.1.2 h) ;;
        AddSubscriber h conn request_id (sa_priority attrs) (sa_delivery_timeout attrs) (sa_start_location attrs) ;;
        own_request_id ← qget (λ t, q_RequestId t h);
        own_request_id ← value own_request_id;
        assign_by_req_id (own_request_id, e.1.2) h ;;
        assign_pub_subscribe (track_fullname_hash, e.1.2) h ;;
        when (bool_decide (is_Some (sa_new_group_request_id attrs))) (qcall (Base_RequestNewGroup h))
    | Some p =>
        h ← deref p;
        DampenOrUpdateTrackSubscription h (bool_decide (is_Some (sa_new_group_request_id attrs)))
    end.

(** [ProcessSubscribe(connection_handle, request_id, th, track_full_name, attrs, largest)];
    [largest] is only logged. *)
Definition ProcessSubscribe (conn request_id : Z) (th : TrackHash) (name : FullTrackName)
    (attrs : SubscribeAttributes) : ST World unit :=
  (if decide (conn = 0 ∧ request_id = 0) then mret tt
   else
     modify (set_state (record_subscribe conn request_id th name attrs)) ;;
     ClientSubscribe name (subscribe_message request_id name attrs)) ;;
  subs ← pub_subs (track_fullname_hash th);
  for_each subs (join_publisher conn request_id attrs) ;;
  w ← get;
  for_each (entries (pub_namespace_active (state_ w)))
    (subscribe_announcer conn request_id (track_fullname_hash th) name attrs).

(** [SubscribeReceived(connection_handle, request_id, track_full_name, attrs)] *)
Definition SubscribeReceived (conn request_id : Z) (name : FullTrackName) (attrs : SubscribeAttributes) :
    ST World unit :=
  let th := track_hash name.1 name.2 in
  w ← get;
  match subscribes (state_ w) !! (track_fullname_hash th, conn) with
  | Some _ => qcall (ResolveSubscribe conn request_id (track_fullname_hash th) kReasonNotSupported false None)
  | None =>
      largest ← GetLargestAvailable name;
      qcall (ResolveSubscribe conn request_id (track_fullname_hash th) kReasonOk
        (if decide (is_Some largest) then sa_is_publisher_initiated attrs else false) largest) ;;
      ProcessSubscribe conn request_id th name attrs
  end.

(** [UnsubscribeReceived(connection_handle, request_id)] *)
Definition UnsubscribeReceived (conn request_id : Z) : ST World unit :=
  w ← get;
  match subscribe_alias_req_id (state_ w) !! (conn, request_id) with
  | None => mret tt
  | Some track_alias =>
      with_state_lock (
        w ← get;
        match subscribes (state_ w) !! (track_alias, conn) with
        | None => mret tt
        | Some info =>
            modify (set_state (set_subscribe_alias_req_id (delete (conn, request_id)))) ;;
            let name := shi_track_full_name info in
            let th := track_hash name.1 name.2 in
            subs ← pub_subs (track_fullname_hash th);
            for_each subs (λ e, h ← deref e.2; RemoveSubscriber h conn) ;;
            modify (set_state (set_subscribe_active (λ m,
              let actives := delete (conn, request_id) (default ∅ (m !! (name.1, track_name_hash th))) in
              if decide (actives = ∅) then delete (name.1, track_name_hash th) m
              else <[(name.1, track_name_hash th) := actives]> m))) ;;
            modify (set_state (set_state_subscribes (delete (track_alias, conn)))) ;;
            RemoveOrPausePublisherSubscribe (track_fullname_hash th)
        end)
  end.

(** [TrackStatusReceived(connection_handle, request_id, track_full_name)] *)
Definition TrackStatusReceived (conn request_id : Z) (name : FullTrackName) : ST World unit :=
  let th := track_hash name.1 name.2 in
  largest ← GetLargestAvailable name;
  subs ← pub_subs (track_fullname_hash th);
  match find (λ e, negb (bool_decide (e.1.2 = conn))) subs with
  | Some e =>
      h ← deref e.2;
      publisher_initiated ← qget (λ t, q_IsPublisherInitiated t h);
      qcall (ResolveTrackStatus conn request_id kReasonOk publisher_initiated largest)
  | None => qcall (ResolveTrackStatus conn request_id kReasonDoesNotExist false None)
  end.

(** Whether a group request is newer than the pending one. *)
Definition newer_group (pending : option Z) (group_id : Z) : bool :=
  match pending with
  | None => true
  | Some p => (bool_decide (group_id = 0) && bool_decide (p ≠ 0)) || bool_decide (p < group_id)
  end.

(** [NewGroupRequested(track_full_name, group_id)] *)
Definition NewGroupRequested (name : FullTrackName) (group_id : Z) : ST World unit :=
  let th := track_hash name.1 name.2 in
  ClientSubscribeUpdate name (Some 1) ;;
  subs ← pub_subs (track_fullname_hash th);
  for_each subs (λ e,
    h ← deref e.2;
    pending ← qget (λ t, q_PendingNewGroup t h);
    if newer_group pending group_id then
      qcall (Base_SetNewGroupRequestId h group_id) ;;
      DampenOrUpdateTrackSubscription h true
    else mret tt).

(** ** What peering asks *)

Definition PeerUnsubscribeTrack (track_full_name_hash : Z) : ST World unit :=
  subs ← pub_subs track_full_name_hash;
  for_each subs (λ e, h ← deref e.2; RemoveSubscriber h 0).

(** A method of the handler of the track that peering feeds. *)
Definition on_peer_track (track_full_name_hash : Z) (m : Ref → ST World unit) : ST World unit :=
  w ← get;
  match pub_subscribes (state_ w) !! (track_full_name_hash, 0) with
  | None => mret tt
  | Some p => h ← deref p; m h
  end.

Definition PeerDataReceived (track_full_name_hash : Z) (is_new_stream : bool) (stream_id : option Z) (data : list Z) :
    ST World unit :=
  on_peer_track track_full_name_hash (λ h,
    match stream_id with
    | Some stream_id => StreamDataRecv h is_new_stream stream_id (Some data)
    | None => DgramDataRecv h data
    end).

Definition PeerStreamClosed (track_full_name_hash stream_id : Z) (reset : bool) : ST World unit :=
  on_peer_track track_full_name_hash (λ h, Sub_StreamClosed h stream_id reset).

(** The peer manager's subscriptions: connection 0, request 0. *)
#[global] Instance client_process : ClientProcessI ClientState := {|
  cm_ProcessSubscribe th name priority new_group_request_id :=
    let d := SubscribeAttributes_default in
    ProcessSubscribe 0 0 th name
      (mkSubscribeAttributes priority (sa_group_order d) (sa_delivery_timeout d) (sa_start_location d)
         new_group_request_id (sa_is_publisher_initiated d));
|}.
End client_manager.
