(* ===== verification/ClientPublish.v ===== *)
(** * Publishers and namespaces of the client manager (class ClientManager, src/client_manager.cc)

    Tracks and namespaces that clients and peers publish, the namespaces that
    clients subscribe to, and the end of a connection. *)

From S2P Require Import Prelude Common Quicr State QuicrServer DataHeader TrackRanking InfoBase Transport PeerSession PeerSessionEvents PeerWorld ClientState PeerManager PeerForwarding PublishHandler NamespaceHandler SubscribeHandler ClientManager.

(** [ConnectionStatus], as far as ConnectionStatusChanged handles it. *)
Inductive ConnectionStatus := kConnConnected | kConnConnecting | kConnNotConnected | kConnClosedByRemote | kConnIdleTimeout.

Section client_publish.
Context `{UintVar, TrackNames, MoqMessages, GroupCache, !QuicrServer, Transport, !SubscribeMessages, Rand}.
Abbreviation World := (World ClientState).
Implicit Types w : World.

(** ** Publish namespace *)

(** One entry of [subscribe_active_] in the lambda of PublishNamespaceReceived:
    [anno_tracks] is the set of aliases of the announcement. *)
Definition subscribe_to_publisher_one (conn : Z) (track_namespace : TrackNamespace)
    (e : (TrackNamespace * Z) * gmap (Z * Z) ActiveSubscribe) : ST World unit :=
  if negb (HasSamePrefix e.1.1 track_namespace) then mret tt
  else
    match entries e.2 with
    | [] => mret tt
    | a_si :: _ =>
        let track_alias := act_track_alias a_si.2 in
        let key := (track_namespace, conn) in
        w ← get;
        let anno_tracks := default ∅ (pub_namespace_active (state_ w) !! key) in
        if decide (track_alias ∈ anno_tracks) then mret tt
        else
          modify (set_state (set_pub_namespace_active <[key := {[track_alias]} ∪ anno_tracks]>)) ;;
          match subscribes (state_ w) !! (track_alias, a_si.1.1) with
          | None => mret tt
          | Some sub_info =>
              h ← SubscribeTrackHandler_make (shi_track_full_name sub_info) 0 None false;
              for_each (entries e.2) (λ si,
                AddSubscriber h si.1.1 si.1.2 (act_priority si.2) (act_delivery_timeout si.2)
                  (act_start_location si.2)) ;;
              qcall (SubscribeTrack conn h) ;;
              assign_pub_subscribe (track_alias, conn) h
          end
    end.

(** The lambda; [operator[]] creates the set of aliases. *)
Definition subscribe_to_publisher (conn : Z) (track_namespace : TrackNamespace) : ST World unit :=
  let key := (track_namespace, conn) in
  modify (set_state (set_pub_namespace_active (λ m, <[key := default ∅ (m !! key)]> m))) ;;
  w ← get;
  for_each (entries (subscribe_active_ (state_ w))) (subscribe_to_publisher_one conn track_namespace).

(** The connections that subscribed to a namespace with the same prefix, in the
    order of the two loops. *)
Definition namespace_connections (track_namespace : TrackNamespace) (st : RelayState) : list Z :=
  filter (λ e, HasSamePrefix e.1 track_namespace = true) (entries (subscribes_namespaces st)) ≫=
    λ e, (entries e.2).*1.

(** [PublishNamespaceReceived(connection_handle, track_namespace, attrs)] *)
Definition PublishNamespaceReceived (conn : Z) (track_namespace : TrackNamespace) (request_id : Z) : ST World unit :=
  let key := (track_namespace, conn) in
  modify (set_state (set_requests (λ m,
    let request := default (mkRequest kPublishNamespace kRequestOk None) (m !! (conn, request_id)) in
    <[(conn, request_id) := mkRequest (rt_type request) (rt_state request) (Some track_namespace)]> m))) ;;
  w ← get;
  match pub_namespace_active (state_ w) !! key with
  | Some _ => if decide (conn ≠ 0) then subscribe_to_publisher conn track_namespace else mret tt
  | None =>
      modify (set_state (set_pub_namespace_active <[key := ∅]>)) ;;
      qcall (ResolvePublishNamespace conn request_id track_namespace
               (namespace_connections track_namespace (state_ w))) ;;
      if decide (conn ≠ 0) then
        subscribe_to_publisher conn track_namespace ;;
        ClientAnnounce (track_namespace, []) false true
      else mret tt
  end.

(** One track of a namespace that is done; [pub_subscribes[...]] creates an entry
    that is erased again. *)
Definition drop_announced (conn track_alias : Z) : ST World unit :=
  w ← get;
  match mjoin (pub_subscribes (state_ w) !! (track_alias, conn)) with
  | Some h => qcall (UnsubscribeTrack conn h)
  | None => mret tt
  end ;;
  erase_pub_subscribe (track_alias, conn).

(** [PublishNamespaceDoneReceived(connection_handle, request_id)] *)
Definition PublishNamespaceDoneReceived (conn request_id : Z) : ST World (list Z) :=
  w ← get;
  match requests (state_ w) !! (conn, request_id) with
  | None => mret []
  | Some request =>
      match related_data request with
      | None => throw bad_any_cast
      | Some track_namespace =>
          ClientAnnounce (track_namespace, []) true true ;;
          w ← get;
          let conns := namespace_connections track_namespace (state_ w) in
          qcall (ResolvePublishNamespaceDone conn request_id conns) ;;
          for_each (set_elements (default ∅ (pub_namespace_active (state_ w) !! (track_namespace, conn))))
            (drop_announced conn) ;;
          modify (set_state (set_pub_namespace_active (delete (track_namespace, conn)))) ;;
          (if decide (conn ≠ 0) then ClientUnannounce (track_namespace, []) else mret tt) ;;
          mret conns
      end
  end.

(** [PurgePublishState(connection_handle)] *)
Definition PurgePublishState (conn : Z) : ST World unit :=
  with_state_lock (
    w ← get;
    for_each (filter (λ key, key.2 = conn) (entries (pub_subscribes (state_ w))).*1) erase_pub_subscribe ;;
    modify (set_state (set_pub_namespace_active (filter (λ e, e.1.2 ≠ conn))))).

(** ** Publish *)

(** One subscriber of a namespace that the published track is in. *)
Definition publish_in_namespace (conn : Z) (attrs : PublishAttributes) (start_location : Location) (ns_h : Ref) :
    ST World unit :=
  ns_conn ← qget (λ t, q_ConnectionId t ns_h);
  config ← gets (λ w, config_ (client w));
  if negb (allow_self config) && bool_decide (ns_conn = conn) then mret tt
  else
    let name := pa_track_full_name attrs in
    h ← PublishTrackHandler_make name kStreamMode (pa_priority attrs) (pa_delivery_timeout attrs) start_location;
    alias ← qget (λ t, q_TrackAlias t h);
    when (bool_decide (alias = None))
      (qcall (Base_SetTrackAlias h (track_fullname_hash (track_hash name.1 name.2)))) ;;
    PublishTrack ns_h h.

(** The namespaces with the same prefix that have a subscriber. *)
Definition namespaces_of (name_space : TrackNamespace) (st : RelayState) : list (TrackNamespace * gmap Z Ref) :=
  filter (λ e, HasSamePrefix e.1 name_space = true ∧ e.2 ≠ ∅) (entries (subscribes_namespaces st)).

(** [sub_ns]: the first of them that is not empty. *)
Definition first_namespace (l : list (TrackNamespace * gmap Z Ref)) : TrackNamespace :=
  foldl (λ sub_ns e, if ns_empty sub_ns then e.1 else sub_ns) inhabitant l.

(** [PublishReceived(connection_handle, request_id, publish_attributes, ...)] *)
Definition PublishReceived (conn request_id : Z) (attrs : PublishAttributes) (start_location : Location) :
    ST World unit :=
  let is_from_peer := bool_decide (conn = 0) && bool_decide (request_id = 0) in
  let name := pa_track_full_name attrs in
  let hash := track_fullname_hash (track_hash name.1 name.2) in
  w ← get;
  for_each (entries (subscribes_namespaces (state_ w))) (λ e,
    if IsPrefixOf e.1 name.1
    then for_each (entries e.2).*2 (publish_in_namespace conn attrs start_location) else mret tt) ;;
  h ← SubscribeTrackHandler_make name 0 (Some kAscending) true;
  (if is_from_peer then
     qcall (Base_SetTrackAlias h (pa_track_alias attrs)) ;;
     SetFromPeer h
   else mret tt) ;;
  when (pa_dynamic_groups attrs) (qcall (Base_SupportNewGroupRequest h)) ;;
  assign_pub_subscribe (hash, conn) h ;;
  (if is_from_peer then mret tt
   else
     assign_by_req_id (request_id, conn) h ;;
     qcall (ResolvePublish conn request_id h) ;;
     ClientAnnounce name false false) ;;
  w ← get;
  let subs := same_first hash (subscribes (state_ w)) in
  for_each subs (λ e,
    AddSubscriber h e.1.2 (shi_request_id e.2) (shi_priority e.2) (shi_object_ttl e.2) (shi_start_location e.2)) ;;
  let namespaces := namespaces_of name.1 (state_ w) in
  for_each namespaces (λ e, for_each (entries e.2).*2 (AddSubscribeNamespace h)) ;;
  let ns_hash := track_namespace_hash (track_hash (first_namespace namespaces) []) in
  match track_rankings_ (client w) !! ns_hash with
  | Some r => SetTrackRanking h r
  | None => mret tt
  end ;;
  if Manager_HasSubscribers hash w || bool_decide (subs ≠ []) || bool_decide (namespaces ≠ []) then mret tt
  else qcall (Base_Pause h).

(** [PublishDoneReceived(connection_handle, request_id)]; the lock is released
    while the subscribers are dropped. *)
Definition PublishDoneReceived (conn request_id : Z) : ST World unit :=
  w ← get;
  match pub_subscribes_by_req_id (state_ w) !! (request_id, conn) with
  | None => mret tt
  | Some p =>
      h ← deref p;
      s ← the_sub h;
      let name := sub_full_name s in
      let hash := track_fullname_hash (track_hash name.1 name.2) in
      (if decide (conn ≠ 0) then ClientAnnounce name true false else mret tt) ;;
      unsub_list ← with_state_lock (
        erase_pub_subscribe (hash, conn) ;;
        w ← get;
        mret (if bool_decide (same_first hash (pub_subscribes (state_ w)) = []) &&
                 negb (detached_subs (config_ (client w)))
              then (λ e, (e.1.2, shi_request_id e.2)) <$> same_first hash (subscribes (state_ w)) else []));
      for_each unsub_list (λ e, UnsubscribeReceived e.1 e.2) ;;
      with_state_lock (erase_by_req_id (request_id, conn))
  end.

(** ** Subscribe namespace *)

(** [TrackFilter] of the attributes *)
Record TrackFilter := mkTrackFilter { tf_property_type : Z; tf_max_tracks_selected : Z; tf_timeout : Z }.

(** The handlers while a local [shared_ptr] holds one of them. *)
Definition holding (h : Ref) : NamespaceHandler World := {|
  h_alive r w := bool_decide (r = h) || h_alive r w;
  h_namespace_hash r w := h_namespace_hash r w;
  h_connection_id r w := h_connection_id r w;
  h_UpdateTrackRanking := h_UpdateTrackRanking;
|}.

(** The filter of the request goes to the ranking and to the handler. *)
Definition apply_filter (ranking handler : Ref) (filter : option TrackFilter) : ST World unit :=
  match filter with
  | None => mret tt
  | Some tf =>
      on_ranking ranking (modify (λ s,
        (if decide (inactive_age_ms_ s.1 < tf_timeout tf) then SetInactiveAge (tf_timeout tf) s.1 else s.1, s.2))) ;;
      modify_ns handler (Ns_SetMaxSelected (tf_max_tracks_selected tf)) ;;
      modify_ns handler (Ns_SetInactiveAge (tf_timeout tf)) ;;
      modify_ns handler (SetPropertyType (tf_property_type tf))
  end.

(** The matching published namespaces, neighbours only once. *)
Definition matched_namespaces (prefix : TrackNamespace) (st : RelayState) : list TrackNamespace :=
  foldl (λ matched e,
    if IsPrefixOf prefix e.1.1 && negb (bool_decide (last matched = Some e.1.1)) then matched ++ [e.1.1] else matched)
    [] (entries (pub_namespace_active st)).

(** One published track that the new subscriber of the namespace may get. *)
Definition publish_existing (conn : Z) (prefix : TrackNamespace) (ns_h ranking : Ref) (e : (Z * Z) * option Ref) :
    ST World unit :=
  config ← gets (λ w, config_ (client w));
  match e.2 with
  | None => mret tt
  | Some handler =>
      if negb (allow_self config) && bool_decide (e.1.2 = conn) then mret tt
      else
        s ← the_sub handler;
        let name := sub_full_name s in
        if IsPrefixOf prefix name.1 then
          largest ← GetLargestAvailable name;
          priority ← qget (λ t, q_Priority t handler);
          timeout ← qget (λ t, q_DeliveryTimeout t handler);
          pub_handler ← PublishTrackHandler_make name kStreamMode priority (default kDefaultObjectTtl timeout)
                          (default (mkLocation 0 0) largest);
          alias ← qget (λ t, q_TrackAlias t pub_handler);
          when (bool_decide (alias = None))
            (qcall (Base_SetTrackAlias pub_handler (track_fullname_hash (track_hash name.1 name.2)))) ;;
          AddSubscribeNamespace handler ns_h ;;
          SetTrackRanking handler ranking ;;
          PublishTrack ns_h pub_handler
        else mret tt
  end.

(** [SubscribeNamespaceReceived(connection_handle, data_ctx_id, prefix_namespace, attributes)];
    a connection that subscribes again keeps the handler it has in the table. *)
Definition SubscribeNamespaceReceived (conn data_ctx_id : Z) (prefix : TrackNamespace) (request_id : Z)
    (filter : option TrackFilter) : ST World unit :=
  let hash := track_namespace_hash (track_hash prefix []) in
  modify (set_state (set_subscribes_namespaces (λ m,
    match m !! prefix with Some _ => m | None => <[prefix := ∅]> m end))) ;;
  handler ← PublishNamespaceHandler_make prefix;
  qcall (PublishNamespace conn handler) ;;
  modify (set_state (set_subscribes_namespaces (alter (λ conns,
    match conns !! conn with Some _ => conns | None => <[conn := handler]> conns end) prefix))) ;;
  w ← get;
  ns_h ← deref (subscribes_namespaces (state_ w) !! prefix ≫= (.!! conn));
  ranking ← match track_rankings_ (client w) !! hash with
            | Some r => mret r
            | None =>
                r ← alloc;
                modify (set_client_state (λ s, set_rank_heap <[r := TrackRanking_default]>
                                                 (set_track_rankings <[hash := r]> s))) ;;
                mret r
            end;
  apply_filter ranking handler filter ;;
  on_ranking ranking (AddNamespaceHandler (H := holding handler) handler) ;;
  qcall (ResolveSubscribeNamespace conn data_ctx_id request_id prefix (matched_namespaces prefix (state_ w))) ;;
  for_each (entries (pub_subscribes (state_ w))) (publish_existing conn prefix ns_h ranking).

(** A range-for over [pub_subscribes] whose body may erase elements: an element
    erased before its turn is not visited, and going on from an element that the
    body has erased is undefined. *)
Definition for_pub_subscribes (f : (Z * Z) → option Ref → ST World unit) : ST World unit :=
  w ← get;
  for_each (entries (pub_subscribes (state_ w))) (λ e,
    w ← get;
    match pub_subscribes (state_ w) !! e.1 with
    | None => mret tt
    | Some p =>
        f e.1 p ;;
        w ← get;
        if decide (is_Some (pub_subscribes (state_ w) !! e.1)) then mret tt else undefined
    end).

(** One published track that the namespace subscriber leaves. *)
Definition leave_track (conn : Z) (prefix : TrackNamespace) (ns_h : Ref) (key : Z * Z) (p : option Ref) :
    ST World unit :=
  config ← gets (λ w, config_ (client w));
  match p with
  | None => mret tt
  | Some handler =>
      if negb (allow_self config) && bool_decide (key.2 = conn) then mret tt
      else
        s ← the_sub handler;
        if HasSamePrefix prefix (sub_full_name s).1 then
          RemoveSubscribeNamespace handler ns_h ;;
          w ← get;
          ranking ← deref (track_rankings_ (client w) !! track_namespace_hash (track_hash prefix []));
          on_ranking ranking (RemoveNamespaceHandler ns_h) ;;
          RemoveOrPausePublisherSubscribe key.1
        else mret tt
  end.

(** [UnsubscribeNamespaceReceived(connection_handle, prefix_namespace)] *)
Definition UnsubscribeNamespaceReceived (conn : Z) (prefix : TrackNamespace) : ST World unit :=
  w ← get;
  match subscribes_namespaces (state_ w) !! prefix with
  | None => mret tt
  | Some conns =>
      match conns !! conn with
      | None => if decide (conns = ∅) then modify (set_state (set_subscribes_namespaces (delete prefix))) else mret tt
      | Some ns_h =>
          for_pub_subscribes (leave_track conn prefix ns_h) ;;
          modify (set_state (set_subscribes_namespaces (alter (delete conn) prefix))) ;;
          w ← get;
          let hash := track_namespace_hash (track_hash prefix []) in
          if decide (subscribes_namespaces (state_ w) !! prefix = Some ∅) then
            modify (set_state (set_subscribes_namespaces (delete prefix))) ;;
            modify (set_client_state (λ s,
              set_rank_heap (λ m, match track_rankings_ s !! hash with Some r => delete r m | None => m end)
                (set_track_rankings (delete hash) s)))
          else mret tt
      end
  end.

(** ** The end of a connection *)

(** [ConnectionStatusChanged(connection_handle, status)] *)
Definition ConnectionStatusChanged (conn : Z) (status : ConnectionStatus) : ST World unit :=
  match status with
  | kConnConnected | kConnConnecting => mret tt
  | kConnNotConnected | kConnClosedByRemote | kConnIdleTimeout =>
      w ← get;
      for_each (filter (λ e, is_Some (e.2 !! conn)) (entries (subscribes_namespaces (state_ w)))).*1
        (UnsubscribeNamespaceReceived conn) ;;
      w ← get;
      for_each (same_first conn (subscribe_alias_req_id (state_ w))) (λ e, UnsubscribeReceived e.1.1 e.1.2) ;;
      PurgePublishState conn
  end.

(** ** The interface to the peer manager *)

#[global] Instance client_manager : ClientManagerI ClientState := {|
  cm_PeerUnsubscribeTrack := PeerUnsubscribeTrack;
  cm_RemoveOrPausePublisherSubscribe := RemoveOrPausePublisherSubscribe;
  cm_PublishNamespaceReceived name_space request_id := PublishNamespaceReceived 0 name_space request_id;
  cm_PublishNamespaceDoneReceived request_id := _ ← PublishNamespaceDoneReceived 0 request_id; mret tt;
  cm_PublishReceived attrs := PublishReceived 0 0 attrs Location_default;
  cm_PublishDoneReceived := PublishDoneReceived 0 0;
  cm_PeerDataReceived := PeerDataReceived;
  cm_PeerStreamClosed := PeerStreamClosed;
|}.
End client_publish.
