(* ===== verification/FetchHandler.v ===== *)
(** * Fetch track handlers (class FetchTrackHandler, src/fetch_handler.cc)

    A fetch that the relay passes on to the publisher: the stream the publisher
    answers with goes to the client with the client's request id. *)

From S2P Require Import Prelude Common Quicr State QuicrServer TrackRanking Transport PeerSession PeerSessionEvents PeerWorld ClientState.

Section fetch_handler.
Context `{TrackNames, MoqMessages, GroupCache, !QuicrServer}.
Abbreviation World := (World ClientState).

(** [Create(publish_fetch_handler, full_track_name, priority, group_order, start, end)] *)
Definition FetchTrackHandler_make (publish_fetch_handler : Ref) (full_track_name : FullTrackName) (priority : Z)
    (group_order : option Z) (start_location : Location) (end_group : Z) (end_object : option Z) : ST World Ref :=
  this ← alloc;
  qcall (MakeFetchTrack this full_track_name priority group_order start_location end_group end_object) ;;
  modify (set_client_state (set_fetch_heap <[this := mkFetchTrackHandler publish_fetch_handler ∅]>)) ;;
  mret this.

Definition the_fetch (this : Ref) : ST World FetchTrackHandler :=
  w ← get; deref (fetch_heap (client w) !! this).

Definition set_fetch_buffer (this : Ref) (stream_id : Z) (buffer : list Z) : ST World unit :=
  modify (set_client_state (set_fetch_heap (alter (λ f,
    mkFetchTrackHandler (publish_fetch_handler_ f) (<[stream_id := buffer]> (fetch_streams_ f))) this))).

(** [void StreamDataRecv(is_start, stream_id, data)]; the buffer of a stream only
    ever holds a header that was not complete. *)
Definition Fetch_StreamDataRecv (this : Ref) (is_start : bool) (stream_id : Z) (data : list Z) : ST World unit :=
  f ← the_fetch this;
  set_fetch_buffer this stream_id (default [] (fetch_streams_ f !! stream_id)) ;;
  if is_start then
    match read_fetch_header data with
    | None => set_fetch_buffer this stream_id data
    | Some (_, rest) =>
        request_id ← qget (λ t, q_RequestId t (publish_fetch_handler_ f));
        request_id ← deref request_id;
        let header_size := (length data - length rest)%nat in
        set_fetch_buffer this stream_id [] ;;
        qcall (Base_ForwardPublishedData (publish_fetch_handler_ f) true 0 0
                 (put_fetch_header request_id ++ drop header_size data))
    end
  else qcall (Base_ForwardPublishedData (publish_fetch_handler_ f) false 0 0 data).

(** [void StatusChanged(status)]: every branch only logs, and takes the alias
    with [value()]. *)
Definition Fetch_StatusChanged (this : Ref) (status : FetchStatus) : ST World unit :=
  alias ← qget (λ t, q_TrackAlias t this);
  _ ← value alias;
  mret tt.
End fetch_handler.
