(* ===== verification/ClientFetch.v ===== *)
(** * Fetches of the client manager (class ClientManager, src/client_manager.cc)

    A fetch is answered by a thread of its own, from the cache or by the
    publisher.  A step of the thread ([fetch_step]) is one round of the loop it
    is in; the sleeps between the rounds are where other events come in.  The
    objects of the groups are those the cache had when the fetch came. *)

From S2P Require Import Prelude Common Quicr State QuicrServer TrackRanking InfoBase Transport PeerSession PeerSessionEvents PeerWorld ClientState PeerManager SubscribeHandler ClientManager FetchHandler.

Definition kFetchUpstreamMaxWaitMs : Z := 2000.

Section client_fetch.
Context `{UintVar, TrackNames, MoqMessages, GroupCache, !QuicrServer, Transport, !SubscribeMessages}.
Abbreviation World := (World ClientState).
Implicit Types w : World.

(** ** Requests *)

(** The reason a fetch is answered with, before the groups are looked up. *)
Definition fetch_reason (largest : option Location) (start : Location) (end_group : Z) : RequestReason :=
  match largest with
  | None => kReasonNoObjects
  | Some l => if decide (end_group < loc_group start ∨ loc_group l < loc_group start)
              then kReasonInvalidRange else kReasonOk
  end.

Definition set_thread (h : Ref) (t : FetchRequest * FetchProgress) : ST World unit :=
  modify (set_client_state (set_fetch_threads <[h := t]>)).

(** [FetchReceived(connection_handle, request_id, track_full_name, priority, group_order, start, end)] *)
Definition FetchReceived (conn request_id : Z) (name : FullTrackName) (priority : Z) (group_order : option Z)
    (start : Location) (end_group : Z) (end_object : option Z) : ST World unit :=
  let hash := track_fullname_hash (track_hash name.1 name.2) in
  tick ← cur_tick;
  w ← get;
  let largest := object_location <$> latest_object tick hash (client w) in
  let reason := fetch_reason largest start end_group in
  let cache_entries := match cache_ (client w) !! hash with
                       | Some cache => cache_GetRange tick (loc_group start) end_group cache
                       | None => []
                       end in
  let reason := if decide (cache_entries = [] ∧ reason = kReasonOk) then kReasonNoObjects else reason in
  pub_fetch_h ← alloc;
  qcall (MakePublishFetch pub_fetch_h name priority request_id (default kAscending group_order)
           (object_ttl_ (config_ (client w)))) ;;
  qcall (BindFetchTrack conn pub_fetch_h) ;;
  modify (set_client_state (set_stop_fetch (λ m,
    match m !! (conn, request_id) with Some _ => m | None => <[(conn, request_id) := false]> m end))) ;;
  set_thread pub_fetch_h
    (mkFetch conn request_id name priority group_order start end_group end_object reason largest pub_fetch_h
       cache_entries, FetchStart).

(** [StandaloneFetchReceived(...)] *)
Definition StandaloneFetchReceived := FetchReceived.

(** The first group of a joining fetch. *)
Definition joining_group (relative : bool) (joining_start largest_group : Z) : Z :=
  if relative then
    if decide (joining_start < largest_group) then largest_group - joining_start else 0
  else joining_start.

(** [JoiningFetchReceived(...)] *)
Definition JoiningFetchReceived (conn request_id : Z) (name : FullTrackName) (priority : Z) (group_order : option Z)
    (relative : bool) (joining_start : Z) : ST World unit :=
  largest ← GetLargestAvailable name;
  match largest with
  | None => qcall (ResolveFetch conn request_id priority group_order kReasonInvalidRange None)
  | Some l =>
      FetchReceived conn request_id name priority group_order
        (mkLocation (joining_group relative joining_start (loc_group l)) 0) (loc_group l) None
  end.

(** [FetchCancelReceived(connection_handle, request_id)] *)
Definition FetchCancelReceived (conn request_id : Z) : ST World unit :=
  w ← get;
  match stop_fetch_ (client w) !! (conn, request_id) with
  | None => modify (set_client_state (set_stop_fetch <[(conn, request_id) := true]>))
  | Some _ => mret tt
  end.

(** ** The thread *)

(** The thread returns: the deferred [UnbindFetchTrack]. *)
Definition fetch_done (r : FetchRequest) : ST World unit :=
  qcall (UnbindFetchTrack (fr_connection r) (fr_handler r)) ;;
  modify (set_client_state (set_fetch_threads (delete (fr_handler r)))).

(** The publisher to ask, and the reason when the first entry is of another
    track. *)
Definition fetch_publisher (hash : Z) (st : RelayState) (rc : RequestReason) : Z * RequestReason :=
  match lower_bound (hash, 0) (pub_subscribes st) with
  | [] => (0, rc)
  | e :: _ => if decide (e.1.1 = hash) then (e.1.2, rc) else (0, kReasonNoObjects)
  end.

Definition resolve_fetch (r : FetchRequest) (rc : RequestReason) (largest : option Location) : ST World unit :=
  qcall (ResolveFetch (fr_connection r) (fr_request_id r) (fr_priority r) (fr_group_order r) rc largest).

(** The reason after waiting for the publisher. *)
Definition upstream_reason (status : FetchStatus) : RequestReason :=
  match status with
  | kFetchDoneByFin | kFetchOk => kReasonOk
  | kFetchError => kReasonNoObjects
  | _ => kReasonInternalError
  end.

(** The start of the thread. *)
Definition fetch_start (r : FetchRequest) : ST World unit :=
  if decide (fr_reason r = kReasonOk) then
    resolve_fetch r kReasonOk (fr_largest r) ;;
    set_thread (fr_handler r) (r, FetchObjects (fr_entries r ≫= λ group, (entries group).*2))
  else
    track ← FetchTrackHandler_make (fr_handler r) (fr_name r) (fr_priority r) (fr_group_order r) (fr_start r)
              (fr_end_group r) (fr_end_object r);
    p ← with_state_lock (gets (λ w,
          fetch_publisher (track_fullname_hash (track_hash (fr_name r).1 (fr_name r).2)) (state_ w) (fr_reason r)));
    let '(pub_conn, rc) := p in
    if decide (pub_conn ≠ 0) then
      qcall (FetchTrack pub_conn track) ;;
      set_thread (fr_handler r) (r, FetchWait 0 track pub_conn)
    else
      latest ← qget (λ t, q_LatestLocation t track);
      resolve_fetch r rc latest ;;
      set_thread (fr_handler r) (r, FetchStream track 0).

(** A round of the loop that waits for the publisher. *)
Definition fetch_wait (r : FetchRequest) (to : Z) (track : Ref) (pub_conn : Z) : ST World unit :=
  status ← qget (λ t, q_FetchStatus t track);
  if decide (to < kFetchUpstreamMaxWaitMs ∧ (status = kFetchPendingResponse ∨ status = kFetchNotSubscribed)) then
    set_thread (fr_handler r) (r, FetchWait (to + 5) track pub_conn)
  else
    latest ← qget (λ t, q_LatestLocation t track);
    resolve_fetch r (upstream_reason status) latest ;;
    set_thread (fr_handler r) (r, FetchStream track pub_conn).

Definition fetch_stream (r : FetchRequest) (track : Ref) (pub_conn : Z) : ST World unit :=
  status ← qget (λ t, q_FetchStatus t track);
  set_thread (fr_handler r) (r, if decide (status = kFetchOk) then FetchStream track pub_conn
                                else FetchLinger track pub_conn).

Definition fetch_linger (r : FetchRequest) (track : Ref) (pub_conn : Z) : ST World unit :=
  qcall (CancelFetchTrack pub_conn track) ;;
  fetch_done r.

(** One object of the cache: skipped before the start, and the end of the fetch
    after the end object. *)
Definition before_start (r : FetchRequest) (headers : ObjectHeaders) : bool :=
  bool_decide (loc_group (fr_start r) = oh_group_id headers) && bool_decide (oh_object_id headers < loc_object (fr_start r)).
Definition after_end (r : FetchRequest) (headers : ObjectHeaders) : bool :=
  match fr_end_object r with
  | Some end_object => bool_decide (oh_group_id headers = fr_end_group r) && bool_decide (end_object < oh_object_id headers)
  | None => false
  end.

Definition fetch_object (r : FetchRequest) (rest : list CacheObject) : ST World unit :=
  match rest with
  | [] => fetch_done r
  | object :: rest =>
      let key := (fr_connection r, fr_request_id r) in
      w ← get;
      modify (set_client_state (set_stop_fetch (λ m, <[key := default false (m !! key)]> m))) ;;
      if default false (stop_fetch_ (client w) !! key) then
        modify (set_client_state (set_stop_fetch (delete key))) ;;
        fetch_done r
      else if before_start r (co_headers object) then
        set_thread (fr_handler r) (r, FetchObjects rest)
      else if after_end r (co_headers object) then fetch_done r
      else
        qcall (Base_PublishObject (fr_handler r) (co_headers object) (co_data object) None) ;;
        set_thread (fr_handler r) (r, FetchObjects rest)
  end.

(** A step of the thread of the fetch that [h] publishes. *)
Definition fetch_step (h : Ref) : ST World unit :=
  w ← get;
  match fetch_threads (client w) !! h with
  | None => mret tt
  | Some (r, progress) =>
      match progress with
      | FetchStart => fetch_start r
      | FetchWait to track pub_conn => fetch_wait r to track pub_conn
      | FetchStream track pub_conn => fetch_stream r track pub_conn
      | FetchLinger track pub_conn => fetch_linger r track pub_conn
      | FetchObjects rest => fetch_object r rest
      end
  end.
End client_fetch.
