(* ===== verification/ClientPublishers.v ===== *)
(** * When the last subscriber leaves

    [RemoveOrPausePublisherSubscribe] as one change of the relay's state: which
    publishers are paused, which are given up, which handlers are destroyed and
    when peering hears of it. *)

From S2P Require Import Prelude Common Quicr State QuicrServer DataHeader TrackRanking InfoBase Transport PeerSession PeerSessionEvents PeerWorld ClientState PeerManager PeerForwarding PublishHandler NamespaceHandler SubscribeHandler ClientManager.

Section publishers.
Context `{UintVar, TrackNames, MoqMessages, GroupCache, !QuicrServer, Transport, !SubscribeMessages}.
Abbreviation World := (World ClientState).
Implicit Types w : World.

(** What a constructor of libquicr sets, pausing and unsubscribing leave. *)
Definition initiated_fixed : Prop := ∀ t h h' conn,
  q_IsPublisherInitiated (t ++ [Base_Pause h']) h = q_IsPublisherInitiated t h ∧
  q_IsPublisherInitiated (t ++ [UnsubscribeTrack conn h']) h = q_IsPublisherInitiated t h.

(** ** The abstract operation *)

Definition the_handler (e : (Z * Z) * option Ref) : Ref := default 0 e.2.

Definition idle w (e : (Z * Z) * option Ref) : bool :=
  match sub_heap (client w) !! the_handler e with Some s => negb (HasSubscribers_sub s) | None => false end.
Definition initiated w (e : (Z * Z) * option Ref) : bool := q_IsPublisherInitiated (qtrace (client w)) (the_handler e).

(** The call an idle publisher gets. *)
Definition leave_call w (e : (Z * Z) * option Ref) : QuicrCall :=
  if initiated w e then Base_Pause (the_handler e) else UnsubscribeTrack e.1.2 (the_handler e).

(** The publishers of a track that nobody listens to, and those of them that are
    given up. *)
Definition idle_publishers w (hash : Z) : list ((Z * Z) * option Ref) :=
  filter (λ e, idle w e = true) (same_first hash (pub_subscribes (state_ w))).
Definition given_up w (l : list ((Z * Z) * option Ref)) : list ((Z * Z) * option Ref) :=
  filter (λ e, initiated w e = false) l.

Definition with_calls (calls : list QuicrCall) w : World :=
  set_client_state (λ s, set_qtrace (qtrace s ++ calls) s) w.

(** The entries of [l] leave the table; their handlers are destroyed when nobody
    owns them any more. *)
Definition without_entries (l : list ((Z * Z) * option Ref)) w : World :=
  set_state (set_pub_subscribes (filter (λ e, e.1 ∉ l.*1))) w.
Definition without_publishers (l : list ((Z * Z) * option Ref)) w : World :=
  let w' := without_entries l w in
  set_client_state (set_sub_heap (filter (λ e, ¬ (e.1 ∈ the_handler <$> l ∧ sub_held e.1 w' = false)))) w'.

Definition after_leaving (hash : Z) w : World :=
  without_publishers (given_up w (idle_publishers w hash)) (with_calls (leave_call w <$> idle_publishers w hash) w).

Definition someone_stays (hash : Z) w : bool :=
  existsb (λ e, negb (idle w e)) (same_first hash (pub_subscribes (state_ w))).

(** Every entry of the table has a live handler. *)
Definition entries_live (l : list ((Z * Z) * option Ref)) w : Prop :=
  ∀ e, e ∈ l → ∃ h s, e.2 = Some h ∧ sub_heap (client w) !! h = Some s.

(** ** The loop over the publishers *)

Lemma with_calls_nil w : with_calls [] w = w.
Proof. destruct w as [?????????????[]]. unfold with_calls, set_client_state, set_qtrace. cbn. by rewrite app_nil_r. Qed.
Lemma with_calls_app l1 l2 w : with_calls (l1 ++ l2) w = with_calls l2 (with_calls l1 w).
Proof. unfold with_calls, set_client_state, set_qtrace. cbn. by rewrite app_assoc. Qed.

Lemma leaving_one (Hfix : initiated_fixed) w acc e :
  entries_live [e] w →
  remove_or_pause acc e w =
    if idle w e then
      (Ok (acc.1, if initiated w e then acc.2 else acc.2 ++ [e.1]), with_calls [leave_call w e] w)
    else (Ok (true, acc.2), w).
Proof.
  intros Hl. destruct (Hl e) as (h & s & Hh & Hs); [by left|]. destruct e as [key p]; simpl in Hh; subst p.
  unfold remove_or_pause, idle, leave_call, initiated, the_handler in *. simpl. rewrite Hs.
  rewrite (bind_ok _ _ w h w) by done. rewrite (bind_ok _ _ w s w) by by apply the_sub_ok.
  destruct (HasSubscribers_sub s); simpl; [done|].
  rewrite (bind_ok _ _ w (q_IsPublisherInitiated (qtrace (client w)) h) w) by done.
  by destruct (q_IsPublisherInitiated _ h), acc.
Qed.

(** A call about one publisher changes nothing for the others. *)
Lemma idle_with_calls calls w e : idle (with_calls calls w) e = idle w e.
Proof. done. Qed.
Lemma initiated_leave_call (Hfix : initiated_fixed) w e e' : initiated (with_calls [leave_call w e] w) e' = initiated w e'.
Proof. unfold initiated, leave_call. simpl. by case_match; rewrite ?(proj1 (Hfix _ _ _ 0)), ?(proj2 (Hfix _ _ _ _)). Qed.

Lemma given_up_leave_call (Hfix : initiated_fixed) w e l : given_up (with_calls [leave_call w e] w) l = given_up w l.
Proof. apply list_filter_iff. intros e'. by rewrite initiated_leave_call. Qed.

Lemma leaving_loop (Hfix : initiated_fixed) l : ∀ w acc, entries_live l w →
  fold_each l acc remove_or_pause w =
    (Ok (acc.1 || existsb (λ e, negb (idle w e)) l, acc.2 ++ (given_up w (filter (λ e, idle w e = true) l)).*1),
     with_calls (leave_call w <$> filter (λ e, idle w e = true) l) w).
Proof.
  induction l as [|e l IH]; intros w [busy keys] Hl.
  { simpl. by rewrite orb_false_r, app_nil_r, with_calls_nil. }
  cbn [fold_each existsb]. rewrite filter_cons.
  assert (entries_live [e] w) as He by (intros e' ->%list_elem_of_singleton; apply Hl; by left).
  assert (entries_live l (with_calls [leave_call w e] w)) as Hl' by (intros e' ?; apply Hl; by right).
  destruct (idle w e) eqn:Hidle; simpl.
  - rewrite (bind_ok _ _ _ _ _ (eq_trans (leaving_one Hfix w (busy, keys) e He) ltac:(by rewrite Hidle))).
    pose proof (IH _ (busy, if initiated w e then keys else keys ++ [e.1]) Hl') as IH'. cbn [fst snd] in *. rewrite IH'.
    set (rest := filter (λ e, idle w e = true) l).
    change (filter (λ e0, idle (with_calls [leave_call w e] w) e0 = true) l) with rest. rewrite given_up_leave_call by done.
    rewrite <- with_calls_app. unfold given_up at 2. rewrite filter_cons. fold (given_up w rest). f_equal; [f_equal; f_equal|].
    + destruct (initiated w e); simpl; [done|]. by rewrite <- app_assoc.
    + f_equal. simpl. f_equal. apply list_fmap_ext. intros ? e' _.
      pose proof (initiated_leave_call Hfix w e e') as Hi. unfold leave_call in Hi |- *. by rewrite Hi.
  - rewrite (bind_ok _ _ _ _ _ (eq_trans (leaving_one Hfix w (busy, keys) e He) ltac:(by rewrite Hidle))).
    rewrite IH; [by rewrite !orb_true_r|]. intros e' ?; apply Hl; by right.
Qed.

(** ** The loop that erases *)

Lemma without_none w : without_publishers [] w = w.
Proof.
  unfold without_publishers, without_entries, set_state, set_client_state, set_pub_subscribes, set_sub_heap. cbn.
  rewrite !map_filter_id by (intros; set_solver). by destruct w as [??????????[] ??[]].
Qed.

(** Ownership depends on the two tables and on libquicr only. *)
Lemma sub_held_same h w w' :
  pub_subscribes (state_ w') = pub_subscribes (state_ w) →
  pub_subscribes_by_req_id (state_ w') = pub_subscribes_by_req_id (state_ w) →
  qtrace (client w') = qtrace (client w) → sub_held h w' = sub_held h w.
Proof. unfold sub_held. by intros -> -> ->. Qed.

Lemma entries_left w done key :
  pub_subscribes (state_ (without_entries done w)) !! key = if decide (key ∈ done.*1) then None else pub_subscribes (state_ w) !! key.
Proof.
  cbn. case_decide as Hk.
  - apply map_lookup_filter_None. by right; intros ? _ [].
  - destruct (pub_subscribes (state_ w) !! key) eqn:E; [by apply map_lookup_filter_Some_2|].
    apply map_lookup_filter_None. by left.
Qed.

Lemma held_other w done e x :
  pub_subscribes (state_ w) !! e.1 = Some e.2 → e.2 ≠ Some x →
  sub_held x (without_entries (done ++ [e]) w) = sub_held x (without_entries done w).
Proof.
  intros Hm Hne. apply eq_true_iff_eq. rewrite !sub_held_spec. setoid_rewrite entries_left.
  enough (∀ key, (if decide (key ∈ (done ++ [e]).*1) then None else pub_subscribes (state_ w) !! key) = Some (Some x) ↔
    (if decide (key ∈ done.*1) then None else pub_subscribes (state_ w) !! key) = Some (Some x)) as Hk
    by (setoid_rewrite Hk; done).
  intros key. rewrite fmap_app. destruct (decide (key = e.1)) as [->|Hkey].
  - rewrite decide_True by set_solver. rewrite Hm. case_decide; naive_solver.
  - do 2 case_decide; set_solver.
Qed.

Lemma erase_eq key w : erase_pub_subscribe key w =
  release (mjoin (pub_subscribes (state_ w) !! key)) (set_state (set_pub_subscribes (delete key)) w).
Proof. done. Qed.

Lemma release_eq h w : release (Some h) w = if sub_held h w then (Ok tt, w) else SubscribeTrackHandler_destroy h w.
Proof. unfold release. rewrite (bind_ok _ _ w w w) by done. by destruct (sub_held h w). Qed.

Lemma destroy_idle h s w :
  sub_heap (client w) !! h = Some s → subscribers_ s = ∅ →
  SubscribeTrackHandler_destroy h w = (Ok tt, set_client_state (set_sub_heap (delete h)) w).
Proof.
  intros Hs Hempty. unfold SubscribeTrackHandler_destroy. rewrite (bind_ok _ _ w s w) by by apply the_sub_ok.
  rewrite (bind_ok _ _ w (q_ConnectionId (qtrace (client w)) h) w) by done. by rewrite Hempty, entries_empty.
Qed.

(** The state while the entries are erased, written out. *)
Lemma without_publishers_eq l w m : filter (λ e, e.1 ∉ l.*1) (pub_subscribes (state_ w)) = m →
  ∀ w', w' = set_state (set_pub_subscribes (λ _, m)) w →
  ∀ heap, filter (λ e, ¬ (e.1 ∈ the_handler <$> l ∧ sub_held e.1 w' = false)) (sub_heap (client w)) = heap →
  without_publishers l w = set_client_state (set_sub_heap (λ _, heap)) w'.
Proof. intros <- w' -> heap <-. done. Qed.

Lemma erase_one w done e h s :
  pub_subscribes (state_ w) !! e.1 = Some e.2 → e.2 = Some h → e.1 ∉ done.*1 →
  sub_heap (client w) !! h = Some s → subscribers_ s = ∅ →
  erase_pub_subscribe e.1 (without_publishers done w) = (Ok tt, without_publishers (done ++ [e]) w).
Proof.
  intros Hm Hh Hnew Hs Hempty.
  assert (pub_subscribes (state_ (without_publishers done w)) !! e.1 = Some (Some h)) as Hlook.
  { change (pub_subscribes (state_ (without_entries done w)) !! e.1 = Some (Some h)). rewrite entries_left.
    by rewrite decide_False, Hm, Hh. }
  rewrite erase_eq, Hlook. cbn [mjoin option_join]. rewrite release_eq.
  set (m := filter (λ e', e'.1 ∉ (done ++ [e]).*1) (pub_subscribes (state_ w))).
  assert (delete e.1 (pub_subscribes (state_ (without_publishers done w))) = m) as Hdel.
  { apply map_eq. intros key. change (pub_subscribes (state_ (without_publishers done w)))
      with (pub_subscribes (state_ (without_entries done w))).
    change (m !! key) with (pub_subscribes (state_ (without_entries (done ++ [e]) w)) !! key).
    rewrite lookup_delete. rewrite !entries_left, fmap_app. repeat case_decide; set_solver. }
  set (w1 := set_state _ _).
  assert (w1 = set_client_state (set_sub_heap (λ _, sub_heap (client (without_publishers done w))))
                 (set_state (set_pub_subscribes (λ _, m)) w)) as Hw1.
  { unfold w1. rewrite <- Hdel. done. }
  assert (∀ x, sub_held x w1 = sub_held x (without_entries (done ++ [e]) w)) as Hheld.
  { intros x. rewrite Hw1. by apply sub_held_same. }
  assert (∀ x, x ≠ h → sub_held x w1 = sub_held x (without_entries done w)) as Hother.
  { intros x Hx. rewrite Hheld. apply held_other; [done|]. by rewrite Hh; intros [= ->]. }
  assert (sub_held h (without_entries done w) = true) as Hyes.
  { apply sub_held_spec. left. by exists e.1. }
  assert (∀ heap, (∀ x, heap !! x = if decide (x = h ∧ sub_held h w1 = false) then None
                         else sub_heap (client (without_publishers done w)) !! x) →
    without_publishers (done ++ [e]) w = set_client_state (set_sub_heap (λ _, heap)) w1) as Heap.
  { intros heap Hheap. rewrite Hw1. rewrite (without_publishers_eq _ _ m eq_refl _ eq_refl heap); [done|].
    apply map_eq. intros x. rewrite Hheap. cbn. rewrite !map_lookup_filter.
    destruct (sub_heap (client w) !! x) as [sx|]; cbn [mbind option_bind fst]; [|by destruct (decide _)]. clear Hheap.
    change (sub_held x (set_state (set_pub_subscribes (λ _, m)) w)) with (sub_held x (without_entries (done ++ [e]) w)).
    rewrite <- Hheld, fmap_app. assert (the_handler e = h) as He by (unfold the_handler; by rewrite Hh).
    destruct (decide (x = h)) as [->|Hx].
    - rewrite Hyes. destruct (sub_held h w1).
      + rewrite decide_False by (by intros [_ Hf]). rewrite !option_guard_True by (by intros [_ Hf]). done.
      + rewrite decide_True by done. rewrite option_guard_False; [done|]. intros Hn. apply Hn. split; [|done].
        rewrite <- He. apply elem_of_app. right. by apply list_elem_of_singleton.
    - rewrite decide_False by (by intros [Hf _]). rewrite Hother by done. apply option_guard_iff.
      rewrite elem_of_app. cbn [fmap list_fmap]. rewrite list_elem_of_singleton, He. tauto. }
  destruct (sub_held h w1) eqn:E.
  - f_equal. rewrite (Heap (sub_heap (client (without_publishers done w)))); [by rewrite Hw1 at 2|].
    intros x. by rewrite decide_False by naive_solver.
  - rewrite (destroy_idle h s); [|..].
    + f_equal. rewrite (Heap (delete h (sub_heap (client (without_publishers done w))))); [by rewrite Hw1|].
      intros x. destruct (decide (x = h)) as [->|Hx]; [rewrite decide_True by done; apply lookup_delete_eq|].
      rewrite decide_False by naive_solver. by apply lookup_delete_ne.
    + rewrite Hw1. cbn. rewrite map_lookup_filter, Hs. simpl. rewrite option_guard_True; [done|].
      intros [_ Hf]. by rewrite Hyes in Hf.
    + done.
Qed.

(** ** The operation *)

Lemma erase_loop w l done :
  NoDup ((done ++ l).*1) →
  (∀ e, e ∈ l → pub_subscribes (state_ w) !! e.1 = Some e.2 ∧
     ∃ h s, e.2 = Some h ∧ sub_heap (client w) !! h = Some s ∧ subscribers_ s = ∅) →
  for_each l.*1 erase_pub_subscribe (without_publishers done w) = (Ok tt, without_publishers (done ++ l) w).
Proof.
  revert done. induction l as [|e l IH]; intros done Hnd Hl; [by rewrite app_nil_r|].
  destruct (Hl e) as (Hm & h & s & Hh & Hs & Hempty); [by left|]. cbn [fmap list_fmap for_each].
  rewrite (bind_ok _ _ _ tt (without_publishers (done ++ [e]) w)).
  - rewrite IH; [by rewrite <- app_assoc|by rewrite <- app_assoc|]. intros e' He'. apply Hl. by right.
  - eapply erase_one; [done..| |done|done]. rewrite fmap_app in Hnd. apply NoDup_app in Hnd as (_ & Hnd & _).
    intros Hin. apply (Hnd _ Hin). by left.
Qed.

Lemma RemoveOrPause_eq (Hfix : initiated_fixed) hash w :
  entries_live (same_first hash (pub_subscribes (state_ w))) w →
  RemoveOrPausePublisherSubscribe hash w =
    if Manager_HasSubscribers hash w then (Ok tt, w)
    else if someone_stays hash w then (Ok tt, after_leaving hash w)
    else ClientUnsubscribe hash (after_leaving hash w).
Proof.
  intros Hl. unfold RemoveOrPausePublisherSubscribe. rewrite (bind_ok _ _ w w w) by done.
  destruct (Manager_HasSubscribers hash w); [done|].
  rewrite (bind_ok _ _ w (same_first hash (pub_subscribes (state_ w))) w) by done.
  rewrite (bind_ok _ _ _ _ _ (leaving_loop Hfix _ w (false, []) Hl)). cbn [fst snd orb app].
  fold (idle_publishers w hash). set (w1 := with_calls _ w). set (l := given_up w (idle_publishers w hash)).
  rewrite <- (without_none w1).
  assert (∀ e, e ∈ l → e ∈ same_first hash (pub_subscribes (state_ w)) ∧ idle w e = true) as Hin.
  { intros e. unfold l, given_up, idle_publishers. rewrite !list_elem_of_filter. tauto. }
  rewrite (bind_ok _ _ _ tt (after_leaving hash w)).
  - unfold someone_stays. by destruct (existsb _ _).
  - rewrite (erase_loop w1 l []); [done| |].
    + simpl. unfold l, given_up, idle_publishers.
      do 2 apply NoDup_keys_filter. apply same_first_NoDup_keys.
    + intros e [He Hidle]%Hin. destruct (Hl e He) as (h & s & Hh & Hs). split.
      { destruct e as [key p]. by apply elem_of_same_first in He as [? _]. }
      exists h, s. split; [done|]. split; [done|]. unfold idle, the_handler in Hidle. rewrite Hh in Hidle. simpl in Hidle.
      rewrite Hs in Hidle. unfold HasSubscribers_sub in Hidle. destruct (decide (subscribers_ s = ∅)); [done|].
      by rewrite bool_decide_eq_true_2 in Hidle.
Qed.
(** The entries of the table afterwards. *)
Lemma after_leaving_entry hash w e :
  e ∈ same_first hash (pub_subscribes (state_ w)) →
  pub_subscribes (state_ (after_leaving hash w)) !! e.1 = if idle w e && negb (initiated w e) then None else Some e.2.
Proof.
  intros He. set (l := given_up w (idle_publishers w hash)).
  change (pub_subscribes (state_ (without_entries l w)) !! e.1 = if idle w e && negb (initiated w e) then None else Some e.2).
  assert (pub_subscribes (state_ w) !! e.1 = Some e.2) as Hm by (destruct e; by apply elem_of_same_first in He as [? _]).
  assert (e.1 ∈ l.*1 ↔ idle w e = true ∧ initiated w e = false) as Hl.
  { unfold l, given_up, idle_publishers. split.
    - intros (e' & Heq & [Hd [Hi He']%list_elem_of_filter]%list_elem_of_filter)%list_elem_of_fmap.
      assert (e' = e) as ->; [|done]. destruct e as [key p], e' as [key' p']; simpl in *; subst key'.
      apply elem_of_same_first in He' as [Hm' _]. by simplify_eq.
    - intros [Hi Hd]. apply list_elem_of_fmap_2. apply list_elem_of_filter. split; [done|]. by apply list_elem_of_filter. }
  rewrite entries_left, Hm. destruct (idle w e), (initiated w e); simpl; case_decide; naive_solver.
Qed.

(** C9: what happens when subscribers have left a track.  As long as a peer
    subscribes, nothing.  Otherwise exactly the publishers without subscribers
    and namespaces are told: one that offered the track itself is paused and
    keeps its entry, one the relay subscribed to is unsubscribed and its entry is
    erased, the handler with it if nobody owns it; and peering hears that the
    relay no longer wants the track exactly when no publisher has anyone left. *)
Theorem last_subscriber_leaves (Hfix : initiated_fixed) hash w :
  entries_live (same_first hash (pub_subscribes (state_ w))) w →
  let w' := after_leaving hash w in
  RemoveOrPausePublisherSubscribe hash w =
    (if Manager_HasSubscribers hash w then (Ok tt, w)
     else if someone_stays hash w then (Ok tt, w') else ClientUnsubscribe hash w') ∧
  qtrace (client w') = qtrace (client w) ++ (leave_call w <$> idle_publishers w hash) ∧
  ∀ e, e ∈ same_first hash (pub_subscribes (state_ w)) →
    pub_subscribes (state_ w') !! e.1 = if idle w e && negb (initiated w e) then None else Some e.2.
Proof.
  intros Hl w'. split; [by apply RemoveOrPause_eq|]. split; [done|]. apply after_leaving_entry.
Qed.
End publishers.

(** ** Witness *)

Import Quicr.Demo DemoTransport DemoRelay DemoServer DemoCache.

Lemma demo_initiated_fixed : initiated_fixed.
Proof. intros t h h' conn. simpl. by rewrite !existsb_app, !orb_false_r. Qed.

(** Three publishers of a track: one that offered it and one the relay subscribed
    to, which nobody listens to, and one with a subscriber. *)
Definition demo_handler (subs : gmap Z (option Ref)) : SubscribeTrackHandler :=
  mkSubscribeTrackHandler ([[5]], [5]) false false subs ∅ ∅ None ∅ None.
Definition demo_three : World ClientState :=
  set_state (set_pub_subscribes (λ _, {[(101, 31) := Some 1; (101, 32) := Some 2; (101, 33) := Some 3]}))
    (relay_with (mkClientState demo_config ∅ ∅ {[1 := demo_handler ∅; 2 := demo_handler ∅; 3 := demo_handler {[40 := None]}]}
       ∅ 4 ∅ ∅ ∅ [MakeSubscribeTrack 1 ([[5]], [5]) 0 None true] (Some 100) 0 ∅ ∅) InfoBase_empty).

Lemma last_subscriber_leaves_witness :
  (RemoveOrPausePublisherSubscribe 101 demo_three).1 = Ok tt ∧
  qtrace (client (RemoveOrPausePublisherSubscribe 101 demo_three).2) =
    qtrace (client demo_three) ++ [Base_Pause 1; UnsubscribeTrack 32 2] ∧
  dom (sub_heap (client (RemoveOrPausePublisherSubscribe 101 demo_three).2)) = {[1; 3]}.
Proof.
  assert (entries_live (same_first 101 (pub_subscribes (state_ demo_three))) demo_three) as Hl.
  { assert (same_first 101 (pub_subscribes (state_ demo_three)) = [((101, 31), Some 1); ((101, 32), Some 2); ((101, 33), Some 3)])
      as -> by vm_refl.
    intros e. rewrite !elem_of_cons, elem_of_nil. intros [->|[->|[->|[]]]];
      [exists 1, (demo_handler ∅)|exists 2, (demo_handler ∅)|exists 3, (demo_handler {[40 := None]})]; (split; [done|]); vm_refl. }
  destruct (last_subscriber_leaves demo_initiated_fixed 101 demo_three Hl) as (Heq & _ & _). rewrite Heq.
  split_and!; vm_refl.
Defined.
