(* ===== verification/ClientFetchSpec.v ===== *)
(** * What a fetch sends *)

From S2P Require Import Prelude Common Quicr State QuicrServer TrackRanking InfoBase Transport PeerSession PeerSessionEvents PeerWorld ClientState PeerManager SubscribeHandler ClientManager FetchHandler ClientFetch.

Section spec.
Context `{UintVar, TrackNames, MoqMessages, GroupCache, !QuicrServer, Transport, !SubscribeMessages}.
Abbreviation World := (World ClientState).
Implicit Types w : World.

(** [n] steps of the thread of [h], with nothing in between. *)
Fixpoint fetch_steps (n : nat) (h : Ref) : ST World unit :=
  match n with
  | O => mret tt
  | S n => fetch_step h ;; fetch_steps n h
  end.

(** ** The cache *)

(** What the cache promises of a range: groups in ascending order, each with the
    objects of one group, by object id. *)
Definition groups_ok (start_group end_group : Z) (groups : list (gmap Z CacheObject)) : Prop :=
  ∃ ids, StronglySorted Z.lt ids ∧ Forall (λ g, start_group ≤ g ≤ end_group) ids ∧
    Forall2 (λ g objects, map_Forall (λ id o, oh_group_id (co_headers o) = g ∧ oh_object_id (co_headers o) = id) objects)
      ids groups.

Definition all_objects (groups : list (gmap Z CacheObject)) : list CacheObject := groups ≫= λ group, (entries group).*2.

(** The lexicographic order of locations. *)
Definition location_le (a b : Location) : Prop :=
  loc_group a < loc_group b ∨ (loc_group a = loc_group b ∧ loc_object a ≤ loc_object b).
#[global] Instance location_le_dec a b : Decision (location_le a b).
Proof. unfold location_le. apply _. Defined.

(** The objects from the start location up to the end object of the end group,
    or the whole end group. *)
Definition in_fetch (start : Location) (end_group : Z) (end_object : option Z) (o : CacheObject) : Prop :=
  location_le start (object_location o) ∧
  match end_object with
  | Some e => location_le (object_location o) (mkLocation end_group e)
  | None => oh_group_id (co_headers o) ≤ end_group
  end.
#[global] Instance in_fetch_dec start eg eo o : Decision (in_fetch start eg eo o).
Proof. unfold in_fetch. destruct eo; apply _. Defined.

Definition object_lt (a b : CacheObject) : Prop :=
  oh_group_id (co_headers a) < oh_group_id (co_headers b) ∨
  (oh_group_id (co_headers a) = oh_group_id (co_headers b) ∧ oh_object_id (co_headers a) < oh_object_id (co_headers b)).

Lemma entries_objects_sorted g (objects : gmap Z CacheObject) :
  map_Forall (λ id o, oh_group_id (co_headers o) = g ∧ oh_object_id (co_headers o) = id) objects →
  StronglySorted object_lt (entries objects).*2 ∧ Forall (λ o, oh_group_id (co_headers o) = g) (entries objects).*2.
Proof.
  intros Hg.
  assert (∀ e, e ∈ entries objects → oh_group_id (co_headers e.2) = g ∧ oh_object_id (co_headers e.2) = e.1) as Hall.
  { intros [id o] He. apply elem_of_entries in He. by apply Hg in He. }
  pose proof (entries_sorted objects) as Hs. pose proof (NoDup_entries objects) as Hnd.
  assert (NoDup (entries objects).*1) as Hk by (rewrite entries_perm; apply NoDup_fst_map_to_list).
  revert Hall Hs Hk. clear. induction (entries objects) as [|e l IH]; intros Hall Hs Hk; [by repeat constructor|].
  inversion_clear Hs as [|?? Hsl Hle]. inversion_clear Hk as [|?? Hin Hkl].
  destruct IH as [IH1 IH2]; [set_solver|done|done|]. destruct (Hall e) as [Ege Eie]; [set_solver|].
  split; [|by constructor]. simpl. constructor; [done|]. rewrite Forall_fmap, Forall_forall. rewrite Forall_forall in Hle.
  intros e' He'. right. destruct (Hall e') as [Eg Ei]; [set_solver|]. simpl. rewrite Eg, Ei, Ege, Eie. split; [done|].
  specialize (Hle e' He'). assert (e.1 ≠ e'.1) by (intros E; apply Hin; rewrite E; by apply list_elem_of_fmap_2).
  unfold entry_le in Hle. simpl in Hle. lia.
Qed.

Lemma all_objects_sorted sg eg groups :
  groups_ok sg eg groups →
  StronglySorted object_lt (all_objects groups) ∧ Forall (λ o, sg ≤ oh_group_id (co_headers o) ≤ eg) (all_objects groups).
Proof.
  intros (ids & Hs & Hb & Hg). unfold all_objects. revert Hs Hb. induction Hg as [|g objects ids groups Hg Hgs IH];
    intros Hs Hb; [by repeat constructor|].
  inversion_clear Hs as [|?? Hsl Hlt]. inversion_clear Hb as [|?? Hbg Hbl]. destruct IH as [IH1 IH2]; [done..|].
  destruct (entries_objects_sorted _ _ Hg) as [Ho1 Ho2]. cbn [mbind list_bind]. split.
  - apply StronglySorted_app. split_and!; [|done..]. intros a b Ha Hb'. left. rewrite Forall_forall in Ho2. rewrite (Ho2 _ Ha).
    apply list_elem_of_bind in Hb' as (group & Hin & Hgr). apply list_elem_of_lookup in Hgr as [i Hi].
    destruct (Forall2_lookup_r _ _ _ _ _ Hgs Hi) as (g' & Hg' & Hall). destruct (entries_objects_sorted _ _ Hall) as [_ Hu].
    rewrite Forall_forall in Hu. rewrite (Hu _ Hin). rewrite Forall_forall in Hlt. by eapply Hlt, list_elem_of_lookup_2.
  - apply Forall_app. split; [|done]. eapply Forall_impl; [exact Ho2|]. by intros o ->.
Qed.

(** ** Steps *)

Definition stop_flag (r : FetchRequest) w : bool :=
  default false (stop_fetch_ (client w) !! (fr_connection r, fr_request_id r)).

Definition publish_call (r : FetchRequest) (o : CacheObject) : QuicrCall :=
  Base_PublishObject (fr_handler r) (co_headers o) (co_data o) None.

Lemma fetch_step_at r p w :
  fetch_threads (client w) !! fr_handler r = Some (r, p) →
  fetch_step (fr_handler r) w = match p with
    | FetchStart => fetch_start r
    | FetchWait to track pub_conn => fetch_wait r to track pub_conn
    | FetchStream track pub_conn => fetch_stream r track pub_conn
    | FetchLinger track pub_conn => fetch_linger r track pub_conn
    | FetchObjects rest => fetch_object r rest
    end w.
Proof. intros Ht. unfold fetch_step. rewrite (bind_ok get _ w w w eq_refl), Ht. by destruct p. Qed.

Lemma fetch_steps_gone n h w : fetch_threads (client w) !! h = None → fetch_steps n h w = (Ok tt, w).
Proof.
  intros Ht. induction n as [|n IH]; [done|]. cbn [fetch_steps].
  assert (fetch_step h w = (Ok tt, w)) as Hs by (unfold fetch_step; by rewrite (bind_ok get _ w w w eq_refl), Ht).
  by rewrite (bind_ok _ _ _ _ _ Hs).
Qed.

Lemma fetch_done_ok r w :
  ∃ w', fetch_done r w = (Ok tt, w') ∧ fetch_threads (client w') !! fr_handler r = None ∧
    qtrace (client w') = qtrace (client w) ++ [UnbindFetchTrack (fr_connection r) (fr_handler r)].
Proof. eexists. split; [done|]. split; [apply lookup_delete_eq|done]. Qed.

(** One object: skipped, sent, or the end of the fetch. *)
Lemma fetch_object_ok r o rest w :
  stop_flag r w = false →
  if before_start r (co_headers o) then
    ∃ w', fetch_object r (o :: rest) w = (Ok tt, w') ∧ stop_flag r w' = false ∧
      fetch_threads (client w') !! fr_handler r = Some (r, FetchObjects rest) ∧ qtrace (client w') = qtrace (client w)
  else if after_end r (co_headers o) then
    ∃ w', fetch_object r (o :: rest) w = (Ok tt, w') ∧ fetch_threads (client w') !! fr_handler r = None ∧
      qtrace (client w') = qtrace (client w) ++ [UnbindFetchTrack (fr_connection r) (fr_handler r)]
  else
    ∃ w', fetch_object r (o :: rest) w = (Ok tt, w') ∧ stop_flag r w' = false ∧
      fetch_threads (client w') !! fr_handler r = Some (r, FetchObjects rest) ∧
      qtrace (client w') = qtrace (client w) ++ [publish_call r o].
Proof.
  intros Hstop. unfold fetch_object. rewrite (bind_ok get _ w w w eq_refl), (bind_ok (modify _) _ w tt _ eq_refl).
  unfold stop_flag in *. rewrite Hstop. destruct (before_start r (co_headers o)); [|destruct (after_end r (co_headers o))].
  - eexists. split; [done|]. simpl. by rewrite !lookup_insert_eq.
  - match goal with |- context [fetch_done r ?w1] => destruct (fetch_done_ok r w1) as (w' & Hd & Ht & Hq) end.
    by exists w'.
  - rewrite (bind_ok (qcall _) _ _ tt _ eq_refl). eexists. split; [done|]. simpl. by rewrite !lookup_insert_eq.
Qed.

(** The two tests of the loop say whether an object of the range is asked for. *)
Lemma in_fetch_tests r o :
  loc_group (fr_start r) ≤ oh_group_id (co_headers o) ≤ fr_end_group r →
  in_fetch (fr_start r) (fr_end_group r) (fr_end_object r) o ↔
    before_start r (co_headers o) = false ∧ after_end r (co_headers o) = false.
Proof.
  intros Hg. unfold in_fetch, before_start, after_end, location_le. simpl.
  rewrite andb_false_iff, !bool_decide_eq_false. destruct (fr_end_object r) as [e|]; simpl.
  - rewrite andb_false_iff, !bool_decide_eq_false. lia.
  - naive_solver lia.
Qed.

(** After the end object nothing is asked for. *)
Lemma after_end_rest r o rest :
  after_end r (co_headers o) = true → StronglySorted object_lt (o :: rest) →
  filter (in_fetch (fr_start r) (fr_end_group r) (fr_end_object r)) rest = [].
Proof.
  unfold after_end. intros Ha Hs. inversion_clear Hs as [|?? _ Hlt]. rewrite Forall_forall in Hlt.
  apply elem_of_nil_inv. intros o' [Hin Ho']%list_elem_of_filter. specialize (Hlt o' Ho').
  destruct (fr_end_object r) as [e|] eqn:He; [|done]. apply andb_prop in Ha as [Ha1 Ha2].
  rewrite bool_decide_eq_true in Ha1, Ha2. unfold in_fetch, location_le, object_lt, object_location in *.
  rewrite ?He in Hin. simpl in *. lia.
Qed.

Lemma fetch_objects_ok r rest n w :
  fetch_threads (client w) !! fr_handler r = Some (r, FetchObjects rest) → stop_flag r w = false →
  StronglySorted object_lt rest →
  Forall (λ o, loc_group (fr_start r) ≤ oh_group_id (co_headers o) ≤ fr_end_group r) rest →
  (length rest < n)%nat →
  ∃ w', fetch_steps n (fr_handler r) w = (Ok tt, w') ∧ fetch_threads (client w') !! fr_handler r = None ∧
    qtrace (client w') = qtrace (client w) ++
      (publish_call r <$> filter (in_fetch (fr_start r) (fr_end_group r) (fr_end_object r)) rest) ++
      [UnbindFetchTrack (fr_connection r) (fr_handler r)].
Proof.
  revert w n. induction rest as [|o rest IH]; intros w n Ht Hstop Hs Hb Hn; destruct n as [|n]; simpl in Hn; try lia;
    cbn [fetch_steps]; pose proof (fetch_step_at _ _ _ Ht) as Hstep; cbn beta iota in Hstep.
  { destruct (fetch_done_ok r w) as (w' & Hd & Ht' & Hq). exists w'.
    rewrite (bind_ok _ _ _ _ _ (eq_trans Hstep Hd)). split_and!; [by apply fetch_steps_gone|done|done]. }
  inversion_clear Hb as [|?? Hbo Hb']. pose proof (in_fetch_tests r o Hbo) as Htests.
  pose proof (fetch_object_ok r o rest w Hstop) as Hone. inversion Hs as [|?? Hs' _]; subst.
  destruct (before_start r (co_headers o)); [|destruct (after_end r (co_headers o)) eqn:Hae].
  - destruct Hone as (w1 & Hrun & Hstop1 & Ht1 & Hq1). rewrite (bind_ok _ _ _ _ _ (eq_trans Hstep Hrun)).
    rewrite filter_cons_False by (by intros [? ?]%Htests). rewrite <- Hq1. apply IH; [done..|lia].
  - destruct Hone as (w1 & Hrun & Ht1 & Hq1). rewrite (bind_ok _ _ _ _ _ (eq_trans Hstep Hrun)).
    rewrite filter_cons_False by (by intros [? ?]%Htests). rewrite (after_end_rest _ _ _ Hae Hs).
    exists w1. by rewrite fetch_steps_gone.
  - destruct Hone as (w1 & Hrun & Hstop1 & Ht1 & Hq1). rewrite (bind_ok _ _ _ _ _ (eq_trans Hstep Hrun)).
    rewrite filter_cons_True by (by apply Htests). destruct (IH w1 n) as (w' & Hsteps & Hgone & Hq); [done..|lia|].
    exists w'. split_and!; [done..|]. by rewrite Hq, Hq1, <- !app_assoc.
Qed.


(** Cancelling a fetch that is going on does nothing: the entry that
    FetchReceived makes for its thread is the one that FetchCancelReceived takes
    as a reason not to set the flag. *)
Theorem fetch_cancel_ineffective conn req name priority order start end_group end_object w w1 :
  FetchReceived conn req name priority order start end_group end_object w = (Ok tt, w1) →
  FetchCancelReceived conn req w1 = (Ok tt, w1).
Proof.
  intros Hrun. unfold FetchCancelReceived. rewrite (bind_ok get _ w1 w1 w1 eq_refl).
  assert (is_Some (stop_fetch_ (client w1) !! (conn, req))) as [b ->]; [|done].
  injection Hrun as <-. simpl. destruct (stop_fetch_ (client w) !! (conn, req)) eqn:Hs; [by eexists|].
  rewrite lookup_insert_eq. by eexists.
Qed.

(** ** A fetch is answered *)

(** The thread's steps, with other events before each. *)
Fixpoint fetch_steps_with (others : list (World → World)) (h : Ref) : ST World unit :=
  match others with
  | [] => mret tt
  | e :: others => modify e ;; fetch_step h ;; fetch_steps_with others h
  end.

(** Other events leave the thread and the lock to it, and what was sent is sent. *)
Definition other_event (h : Ref) (e : World → World) : Prop :=
  ∀ w, fetch_threads (client (e w)) !! h = fetch_threads (client w) !! h ∧ state_mutex (e w) = state_mutex w ∧
    qtrace (client w) `prefix_of` qtrace (client (e w)).

Definition answered (r : FetchRequest) w : Prop :=
  ∃ rc largest, ResolveFetch (fr_connection r) (fr_request_id r) (fr_priority r) (fr_group_order r) rc largest
    ∈ qtrace (client w).

(** The steps left before the thread must have answered. *)
Definition steps_left (p : FetchProgress) : nat :=
  match p with
  | FetchStart => 402
  | FetchWait to _ _ => Z.to_nat ((2004 - to) / 5) + 1
  | _ => 0
  end.

(** Either the client has its answer or the thread has steps left. *)
Definition answering (r : FetchRequest) (k : nat) w : Prop :=
  state_mutex w = false ∧
  ((answered r w ∧ (fetch_threads (client w) !! fr_handler r = None ∨
      ∃ p, fetch_threads (client w) !! fr_handler r = Some (r, p) ∧ steps_left p = 0%nat)) ∨
   ∃ p, fetch_threads (client w) !! fr_handler r = Some (r, p) ∧ (0 < steps_left p ≤ k)%nat).

Lemma answered_prefix r w w' : qtrace (client w) `prefix_of` qtrace (client w') → answered r w → answered r w'.
Proof. intros [l Hl] (rc & largest & Hin). exists rc, largest. rewrite Hl. set_solver. Qed.

Lemma answering_other r k e w : other_event (fr_handler r) e → answering r k w → answering r k (e w).
Proof.
  intros He (Hm & Hw). destruct (He w) as (Ht & Hm' & Hq). split; [by rewrite Hm'|]. rewrite Ht.
  destruct Hw as [[Ha Hp]|Hp]; [left|by right]. split; [by eapply answered_prefix|done].
Qed.

(** A thread that has answered goes on without asking for more. *)
Lemma settled_step r p w :
  fetch_threads (client w) !! fr_handler r = Some (r, p) → steps_left p = 0%nat →
  ∃ w', fetch_step (fr_handler r) w = (Ok tt, w') ∧ state_mutex w' = state_mutex w ∧
    qtrace (client w) `prefix_of` qtrace (client w') ∧
    (fetch_threads (client w') !! fr_handler r = None ∨
     ∃ p', fetch_threads (client w') !! fr_handler r = Some (r, p') ∧ steps_left p' = 0%nat).
Proof.
  intros Ht Hp. rewrite (fetch_step_at _ _ _ Ht). destruct p as [|to track pub|track pub|track pub|[|o rest]]; simpl in Hp; [lia|lia|..].
  - eexists. split; [reflexivity|]. split; [done|]. split; [done|]. right. eexists. split; [apply lookup_insert_eq|].
    by destruct (decide _).
  - eexists. split; [reflexivity|]. split; [done|]. split; [simpl; rewrite <- app_assoc; apply prefix_app_r; done|].
    left. apply lookup_delete_eq.
  - eexists. split; [reflexivity|]. split; [done|]. split; [by apply prefix_app_r|]. left. apply lookup_delete_eq.
  - unfold fetch_object. rewrite (bind_ok get _ w w w eq_refl), (bind_ok (modify _) _ w tt _ eq_refl).
    destruct (default false _); [|destruct (before_start _ _); [|destruct (after_end _ _)]]; (eexists; split; [reflexivity|];
      split; [done|]; split; [first [done|by apply prefix_app_r]|]).
    + left. apply lookup_delete_eq.
    + right. eexists. split; [apply lookup_insert_eq|done].
    + left. apply lookup_delete_eq.
    + right. eexists. split; [apply lookup_insert_eq|done].
Qed.

Lemma answered_now r rc largest t w :
  qtrace (client w) = t ++ [ResolveFetch (fr_connection r) (fr_request_id r) (fr_priority r) (fr_group_order r) rc largest] →
  answered r w.
Proof. intros Hq. exists rc, largest. rewrite Hq. apply elem_of_app. right. by apply list_elem_of_singleton. Qed.

Lemma start_step r k w :
  state_mutex w = false → (402 ≤ S k)%nat → ∃ w', fetch_start r w = (Ok tt, w') ∧ answering r k w'.
Proof.
  intros Hm Hk. unfold fetch_start. destruct (decide (fr_reason r = kReasonOk)) as [Hok|Hok].
  - eexists. split; [reflexivity|]. split; [done|]. left.
    split; [by eapply answered_now|right; eexists; split; [apply lookup_insert_eq|done]].
  - rewrite (bind_ok (FetchTrackHandler_make _ _ _ _ _ _ _) _ w _ _ eq_refl).
    match goal with |- ∃ w', (with_state_lock (gets ?f) ≫= _) ?w1 = _ ∧ _ =>
      assert (with_state_lock (gets f) w1 = (Ok (f (set_state_mutex true w1)), set_state_mutex false (set_state_mutex true w1)))
        as Hlock by (unfold with_state_lock; simpl; by rewrite Hm) end.
    rewrite (bind_ok _ _ _ _ _ Hlock). destruct (fetch_publisher _ _ _) as [pub rc]. destruct (decide (pub ≠ 0)).
    + eexists. split; [reflexivity|]. split; [done|]. right. eexists. split; [apply lookup_insert_eq|]. simpl. lia.
    + eexists. split; [reflexivity|]. split; [done|]. left.
      split; [by eapply answered_now|right; eexists; split; [apply lookup_insert_eq|done]].
Qed.

Lemma wait_step r to track pub k w :
  state_mutex w = false → (Z.to_nat ((2004 - to) / 5) + 1 ≤ S k)%nat →
  ∃ w', fetch_wait r to track pub w = (Ok tt, w') ∧ answering r k w'.
Proof.
  intros Hm Hk. unfold fetch_wait. rewrite (bind_ok (qget _) _ w _ w eq_refl).
  destruct (decide (to < kFetchUpstreamMaxWaitMs ∧ _)) as [[Hto _]|_].
  - eexists. split; [reflexivity|]. split; [done|]. right. eexists. split; [apply lookup_insert_eq|]. simpl.
    unfold kFetchUpstreamMaxWaitMs in Hto. replace (2004 - to) with ((2004 - (to + 5)) + 1 * 5) in Hk by lia.
    rewrite Z.div_add in Hk by lia. assert (0 ≤ (2004 - (to + 5)) / 5) by (apply Z.div_pos; lia). lia.
  - eexists. split; [reflexivity|]. split; [done|]. left.
    split; [by eapply answered_now|right; eexists; split; [apply lookup_insert_eq|done]].
Qed.

Lemma answering_step r k w :
  answering r (S k) w → ∃ w', fetch_step (fr_handler r) w = (Ok tt, w') ∧ answering r k w'.
Proof.
  intros (Hm & [[Ha [Hgone|(p & Ht & Hp)]]|(p & Ht & Hp)]).
  - exists w. unfold fetch_step. rewrite (bind_ok get _ w w w eq_refl), Hgone. split; [done|]. split; [done|]. left. eauto.
  - destruct (settled_step _ _ _ Ht Hp) as (w' & Hrun & Hm' & Hq & Hw'). exists w'. split; [done|].
    split; [by rewrite Hm'|]. left. split; [by eapply answered_prefix|done].
  - rewrite (fetch_step_at _ _ _ Ht). destruct p as [|to track pub| | |]; simpl in Hp; [..|lia|lia|lia].
    + apply start_step; [done|lia].
    + apply wait_step; [done|lia].
Qed.

(** C14: every fetch is answered.  Whatever else happens between the steps of its
    thread, and whatever the publisher does, the client has its answer after 402
    of them: the publisher is waited for at most 2000 ms in rounds of 5 ms. *)
Theorem fetch_answered r w others :
  fetch_threads (client w) !! fr_handler r = Some (r, FetchStart) → state_mutex w = false →
  Forall (other_event (fr_handler r)) others → (402 ≤ length others)%nat →
  ∃ w', fetch_steps_with others (fr_handler r) w = (Ok tt, w') ∧ answered r w'.
Proof.
  intros Ht Hm Hothers Hlen.
  assert (answering r (length others) w) as Hw by (split; [done|]; right; exists FetchStart; simpl; split; [done|lia]).
  clear Ht Hm Hlen. revert w Hw. induction Hothers as [|e others He Hothers IH]; intros w Hw; cbn [fetch_steps_with].
  - exists w. split; [done|]. destruct Hw as (_ & [[Ha _]|(p & _ & Hp)]); [done|simpl in Hp; lia].
  - rewrite (bind_ok (modify e) _ w tt _ eq_refl).
    destruct (answering_step _ _ _ (answering_other _ _ _ _ He Hw)) as (w' & Hs & Hw').
    rewrite (bind_ok _ _ _ _ _ Hs). by apply IH.
Qed.
End spec.

(** ** The publisher's stream *)

(** What the header's printer prints its parser reads. *)
Class FetchHeaderLaws `{MoqMessages} := {
  fetch_header_read r rest : read_fetch_header (put_fetch_header r ++ rest) = Some (r, rest);
}.

Section stream.
Context `{TrackNames, MoqMessages, GroupCache, !QuicrServer, !FetchHeaderLaws}.
Abbreviation World := (World ClientState).
Implicit Types w : World.

(** The chunks of one stream. *)
Definition fetch_chunks (this : Ref) (stream_id : Z) (first : list Z) (rest : list (list Z)) : ST World unit :=
  Fetch_StreamDataRecv this true stream_id first ;;
  for_each rest (Fetch_StreamDataRecv this false stream_id).

(** The bytes the fetching client is sent. *)
Definition sent_to (h : Ref) (calls : QuicrTrace) : list Z :=
  concat (omap (λ c, match c with
    | Base_ForwardPublishedData h' _ _ _ data => if decide (h' = h) then Some data else None
    | _ => None end) calls).

Lemma fetch_rest_ok this stream_id rest w f :
  fetch_heap (client w) !! this = Some f →
  ∃ w', for_each rest (Fetch_StreamDataRecv this false stream_id) w = (Ok tt, w') ∧
    qtrace (client w') = qtrace (client w) ++
      ((λ data, Base_ForwardPublishedData (publish_fetch_handler_ f) false 0 0 data) <$> rest).
Proof.
  revert w f. induction rest as [|data rest IH]; intros w f Hf; simpl; [exists w; by rewrite app_nil_r|].
  assert (∃ w1, Fetch_StreamDataRecv this false stream_id data w = (Ok tt, w1) ∧
    (∃ f1, fetch_heap (client w1) !! this = Some f1 ∧ publish_fetch_handler_ f1 = publish_fetch_handler_ f) ∧
    qtrace (client w1) = qtrace (client w) ++ [Base_ForwardPublishedData (publish_fetch_handler_ f) false 0 0 data])
    as (w1 & Hrun & (f1 & Hf1 & Hp) & Hq).
  { unfold Fetch_StreamDataRecv, the_fetch.
    rewrite (bind_ok (get ≫= _) _ w f w) by (rewrite (bind_ok get _ w w w eq_refl), Hf; done).
    eexists. split; [reflexivity|]. split; [|done]. eexists. simpl. rewrite lookup_alter_eq, Hf. by split. }
  rewrite (bind_ok _ _ _ _ _ Hrun). destruct (IH w1 f1 Hf1) as (w' & Hrest & Hq'). exists w'. split; [done|].
  by rewrite Hq', Hq, Hp, <- app_assoc.
Qed.

Lemma sent_to_app h t1 t2 : sent_to h (t1 ++ t2) = sent_to h t1 ++ sent_to h t2.
Proof. unfold sent_to. by rewrite omap_app, concat_app. Qed.

Lemma sent_to_chunks h new chunks :
  sent_to h ((λ data, Base_ForwardPublishedData h new 0 0 data) <$> chunks) = concat chunks.
Proof.
  induction chunks as [|c chunks IH]; [done|]. change (sent_to h ([Base_ForwardPublishedData h new 0 0 c] ++
    ((λ data, Base_ForwardPublishedData h new 0 0 data) <$> chunks)) = c ++ concat chunks).
  rewrite sent_to_app, IH. unfold sent_to. simpl. rewrite decide_True by done. simpl. by rewrite ?app_nil_r.
Qed.

(** C38: the stream of a fetch reaches the client with its own request id.  When
    the first chunk has the whole header, what the client reads is the header
    with the id of its own fetch and then the publisher's bytes, unchanged. *)
Theorem fetch_stream_relabelled this stream_id publisher_id own_id payload rest w f :
  fetch_heap (client w) !! this = Some f →
  q_RequestId (qtrace (client w)) (publish_fetch_handler_ f) = Some own_id →
  ∃ w' calls, fetch_chunks this stream_id (put_fetch_header publisher_id ++ payload) rest w = (Ok tt, w') ∧
    qtrace (client w') = qtrace (client w) ++ calls ∧
    read_fetch_header (sent_to (publish_fetch_handler_ f) calls) = Some (own_id, payload ++ concat rest).
Proof.
  intros Hf Hid. unfold fetch_chunks.
  assert (∃ w1, Fetch_StreamDataRecv this true stream_id (put_fetch_header publisher_id ++ payload) w = (Ok tt, w1) ∧
    (∃ f1, fetch_heap (client w1) !! this = Some f1 ∧ publish_fetch_handler_ f1 = publish_fetch_handler_ f) ∧
    qtrace (client w1) = qtrace (client w) ++
      [Base_ForwardPublishedData (publish_fetch_handler_ f) true 0 0 (put_fetch_header own_id ++ payload)])
    as (w1 & Hrun & (f1 & Hf1 & Hp) & Hq).
  { unfold Fetch_StreamDataRecv, the_fetch.
    rewrite (bind_ok (get ≫= _) _ w f w) by (rewrite (bind_ok get _ w w w eq_refl), Hf; done).
    rewrite (bind_ok (set_fetch_buffer _ _ _) _ w tt _ eq_refl), fetch_header_read.
    rewrite (bind_ok (qget _) _ _ (Some own_id) _) by (unfold qget, gets; simpl; by rewrite Hid).
    rewrite (bind_ok (deref (Some own_id)) _ _ own_id _ eq_refl), (bind_ok (set_fetch_buffer _ _ _) _ _ tt _ eq_refl).
    rewrite length_app, Nat.add_sub, drop_app_length.
    eexists. split; [reflexivity|]. split; [|done]. eexists. simpl. rewrite !lookup_alter_eq, Hf. by split. }
  rewrite (bind_ok _ _ _ _ _ Hrun). destruct (fetch_rest_ok this stream_id rest w1 f1 Hf1) as (w' & Hrest & Hq').
  eexists w', _. split; [done|]. split; [by rewrite Hq', Hq, <- app_assoc|]. rewrite Hp, sent_to_app, sent_to_chunks.
  unfold sent_to at 1. simpl. rewrite decide_True by done. simpl. rewrite ?app_nil_r, <- app_assoc. apply fetch_header_read.
Qed.

(** A header that is split over two chunks never reaches the client: the first
    chunk is dropped, and the rest is passed on without a header. *)
Lemma fetch_header_split_lost this stream_id first rest w f :
  fetch_heap (client w) !! this = Some f → read_fetch_header first = None →
  ∃ w' calls, fetch_chunks this stream_id first rest w = (Ok tt, w') ∧
    qtrace (client w') = qtrace (client w) ++ calls ∧ sent_to (publish_fetch_handler_ f) calls = concat rest.
Proof.
  intros Hf Hread. unfold fetch_chunks.
  assert (∃ w1, Fetch_StreamDataRecv this true stream_id first w = (Ok tt, w1) ∧
    (∃ f1, fetch_heap (client w1) !! this = Some f1 ∧ publish_fetch_handler_ f1 = publish_fetch_handler_ f) ∧
    qtrace (client w1) = qtrace (client w)) as (w1 & Hrun & (f1 & Hf1 & Hp) & Hq).
  { unfold Fetch_StreamDataRecv, the_fetch.
    rewrite (bind_ok (get ≫= _) _ w f w) by (rewrite (bind_ok get _ w w w eq_refl), Hf; done).
    rewrite (bind_ok (set_fetch_buffer _ _ _) _ w tt _ eq_refl), Hread.
    eexists. split; [reflexivity|]. split; [|done]. eexists. simpl. rewrite !lookup_alter_eq, Hf. by split. }
  rewrite (bind_ok _ _ _ _ _ Hrun). destruct (fetch_rest_ok this stream_id rest w1 f1 Hf1) as (w' & Hrest & Hq').
  eexists w', _. split; [done|]. split; [by rewrite Hq', Hq|]. by rewrite Hp, sent_to_chunks.
Qed.
End stream.

(** ** Witnesses *)

Import Quicr.Demo DemoTransport DemoRelay DemoServer DemoCache.

#[export] Instance demo_fetch_laws : FetchHeaderLaws.
Proof. by split. Qed.

Definition demo_cached (g id : Z) : CacheObject := mkCacheObject (mkObjectHeaders g id 0 1 0 0 None None None None) [g; id].
Definition demo_name : FullTrackName := ([[5]], [5]).

(** Groups 3 and 4 of the track in the cache. *)
Definition demo_groups : gmap Z (gmap Z CacheObject) :=
  {[3 := {[0 := demo_cached 3 0; 1 := demo_cached 3 1]}; 4 := {[0 := demo_cached 4 0; 1 := demo_cached 4 1]}]}.
Definition demo_fetching : ClientState :=
  mkClientState demo_config ∅ ∅ ∅ ∅ 1 ∅ {[track_fullname_hash (track_hash [[5]] [5]) := demo_groups]} ∅ [] (Some 100) 0 ∅ ∅.

Lemma demo_groups_ok : groups_ok 3 4 (cache_GetRange 100 3 4 demo_groups).
Proof.
  exists [3; 4]. split; [repeat constructor; lia|]. split; [repeat constructor; lia|].
  assert (cache_GetRange 100 3 4 demo_groups = [{[0 := demo_cached 3 0; 1 := demo_cached 3 1]};
    {[0 := demo_cached 4 0; 1 := demo_cached 4 1]}]) as -> by vm_refl.
  repeat apply Forall2_cons_2; [decide_now|decide_now|constructor].
Qed.


(** The fetch is cancelled, and the objects are sent all the same. *)
Definition demo_requested :=
  FetchReceived 40 9 demo_name 1 None (mkLocation 3 1) 4 (Some 0) (relay_with demo_fetching InfoBase_empty).

Lemma fetch_cancel_ineffective_witness :
  demo_requested = (Ok tt, demo_requested.2) ∧ FetchCancelReceived 40 9 demo_requested.2 = (Ok tt, demo_requested.2).
Proof.
  assert (demo_requested = (Ok tt, demo_requested.2)) as Hrun by vm_refl. split; [exact Hrun|].
  exact (fetch_cancel_ineffective 40 9 demo_name 1 None (mkLocation 3 1) 4 (Some 0)
    (relay_with demo_fetching InfoBase_empty) demo_requested.2 Hrun).
Defined.

Definition demo_request : FetchRequest :=
  mkFetch 40 9 demo_name 1 None (mkLocation 0 0) 2 None kReasonNoObjects None 1 [].
Definition demo_thread : ClientState :=
  mkClientState demo_config ∅ ∅ ∅ ∅ 2 ∅ ∅ ∅ [] (Some 100) 0 ∅ {[1 := (demo_request, FetchStart)]}.

(** Time passes between the steps. *)
Lemma fetch_answered_witness :
  ∃ w', fetch_steps_with (replicate 402 (set_client_state (λ s, set_qtrace (qtrace s ++ [Input []]) s))) 1
      (relay_with demo_thread InfoBase_empty) = (Ok tt, w') ∧ answered demo_request w'.
Proof.
  apply (fetch_answered demo_request).
  - vm_refl.
  - vm_refl.
  - apply Forall_replicate. intros w. split; [done|]. split; [done|]. by apply prefix_app_r.
  - by rewrite length_replicate.
Defined.

Definition demo_upstream : ClientState :=
  mkClientState demo_config ∅ ∅ ∅ ∅ 21 ∅ ∅ ∅ [] (Some 100) 0 {[20 := mkFetchTrackHandler 1 ∅]} ∅.

Lemma fetch_stream_relabelled_witness :
  ∃ w' calls, fetch_chunks 20 7 [5; 77; 1; 2] [[3]; [4; 5]] (relay_with demo_upstream InfoBase_empty) = (Ok tt, w') ∧
    qtrace (client w') = calls ∧ read_fetch_header (sent_to 1 calls) = Some (0, [1; 2; 3; 4; 5]).
Proof.
  destruct (fetch_stream_relabelled 20 7 77 0 [1; 2] [[3]; [4; 5]] (relay_with demo_upstream InfoBase_empty)
    (mkFetchTrackHandler 1 ∅)) as (w' & calls & Hrun & Hq & Hread); [vm_refl|vm_refl|].
  exists w', calls. split; [exact Hrun|]. split; [exact Hq|exact Hread].
Defined.
