(* ===== verification/SubscribeHandlerSpec.v ===== *)
(** * What the subscribe track handlers guarantee *)

From S2P Require Import Prelude Common Quicr State QuicrServer DataHeader InfoBase TrackRanking Transport PeerSession PeerSessionEvents PeerSessionControl PeerWorld ClientState PeerManager PeerForwarding PublishHandler NamespaceHandler SubscribeHandler.

Section spec.
Context `{UintVar, TrackNames, MoqMessages, GroupCache, !QuicrServer, Transport}.
Abbreviation World := (World ClientState).
Implicit Types w : World.

(** ** The book-keeping of subscribers *)

Inductive subscriber_op :=
  | OpAddSubscriber (conn request_id priority delivery_timeout : Z) (start : Location)
  | OpRemoveSubscriber (conn : Z)
  | OpAddNamespace (handler : Ref)
  | OpRemoveNamespace (handler : Ref).

Definition run_subscriber_op (this : Ref) (op : subscriber_op) : ST World unit :=
  match op with
  | OpAddSubscriber conn request_id priority timeout start => AddSubscriber this conn request_id priority timeout start
  | OpRemoveSubscriber conn => RemoveSubscriber this conn
  | OpAddNamespace handler => AddSubscribeNamespace this handler
  | OpRemoveNamespace handler => RemoveSubscribeNamespace this handler
  end.

(** The publish handlers bound for each connection, as the calls say. *)
Definition bind_step (m : gmap Z Ref) (c : QuicrCall) : gmap Z Ref :=
  match c with
  | BindPublisherTrack conn _ _ h => <[conn := h]> m
  | UnbindPublisherTrack conn _ (Some h) => if decide (m !! conn = Some h) then delete conn m else m
  | _ => m
  end.
Definition bound (calls : QuicrTrace) : gmap Z Ref := foldl bind_step ∅ calls.

(** Whether the last of Pause and Resume was Pause. *)
Definition pause_step (this : Ref) (b : bool) (c : QuicrCall) : bool :=
  match c with
  | Base_Pause h => if decide (h = this) then true else b
  | Base_Resume h => if decide (h = this) then false else b
  | _ => b
  end.
Definition paused (this : Ref) (calls : QuicrTrace) : bool := foldl (pause_step this) false calls.

Lemma bound_app l1 l2 : bound (l1 ++ l2) = foldl bind_step (bound l1) l2.
Proof. apply foldl_app. Qed.
Lemma paused_app this l1 l2 : paused this (l1 ++ l2) = foldl (pause_step this) (paused this l1) l2.
Proof. apply foldl_app. Qed.

(** The handler's tables and what libquicr was told since [t0] agree. *)
Definition tables_agree (this : Ref) (s : SubscribeTrackHandler) (calls : QuicrTrace) : Prop :=
  (∀ conn, bound calls !! conn = mjoin (subscribers_ s !! conn)) ∧
  (∀ conn h, subscribers_ s !! conn = Some h → h = None ↔ conn = 0) ∧
  (paused this calls = true → subscribers_ s = ∅ ∧ sub_namespaces_ s = ∅).

Definition sub_inv (this : Ref) (t0 : QuicrTrace) (ns : gmap Ref PublishNamespaceHandler) w : Prop :=
  ns_heap (client w) = ns ∧ ∃ s calls, sub_heap (client w) !! this = Some s ∧ qtrace (client w) = t0 ++ calls ∧
    tables_agree this s calls.

Lemma the_sub_inv this t0 ns :
  hoare (sub_inv this t0 ns) (the_sub this) (λ s w, sub_heap (client w) !! this = Some s ∧ sub_inv this t0 ns w) no_throw.
Proof.
  intros w (Hns & s & calls & Hs & Hag). rewrite (the_sub_ok _ _ _ Hs). split; [done|]. split; [done|]. by exists s, calls.
Qed.

(** One call, then one change of the handler. *)
Lemma sub_inv_call this t0 ns w s calls c f :
  ns_heap (client w) = ns → sub_heap (client w) !! this = Some s → qtrace (client w) = t0 ++ calls ->
  tables_agree this (f s) (calls ++ [c]) →
  sub_inv this t0 ns (set_client_state (set_sub_heap (alter f this))
    (set_client_state (λ s, set_qtrace (qtrace s ++ [c]) s) w)).
Proof.
  intros Hns Hs Ht Hag. split; [done|]. exists (f s), (calls ++ [c]). simpl.
  split_and!; [by rewrite lookup_alter_eq, Hs|by rewrite Ht, app_assoc|done].
Qed.

Lemma resume_agree this s calls :
  (∀ conn, bound calls !! conn = mjoin (subscribers_ s !! conn)) →
  (∀ conn h, subscribers_ s !! conn = Some h → h = None ↔ conn = 0) →
  tables_agree this s (calls ++ [Base_Resume this]).
Proof.
  intros Hb Hz. unfold tables_agree. split_and!; [by intros conn; rewrite bound_app|done|].
  rewrite paused_app. simpl. by rewrite decide_True.
Qed.

Lemma RemoveSubscriber_ok this t0 ns conn :
  hoare (sub_inv this t0 ns) (RemoveSubscriber this conn) (λ _, sub_inv this t0 ns) no_throw.
Proof.
  unfold RemoveSubscriber. eapply hoare_bind; [apply the_sub_inv|].
  intros s0. eapply hoare_bind with (R := λ _, sub_inv this t0 ns).
  - intros w (Hs0 & Hns & s & calls & Hs & Ht & Hb & Hz & Hp). rewrite Hs in Hs0. injection Hs0 as <-.
    destruct (subscribers_ s !! conn) as [[h|]|] eqn:Hc.
    + unfold qget. rewrite (bind_ok (gets _ ≫= _) _ w tt _ eq_refl).
      set (c := q_ConnectionId (qtrace (client w)) this).
      apply (sub_inv_call this t0 ns w s calls (UnbindPublisherTrack conn c (Some h)) (set_subscribers (delete conn)));
        [done..|]. unfold tables_agree. split_and!.
      * intros k. rewrite bound_app. simpl. rewrite Hb, Hc. cbn [mjoin option_join]. rewrite decide_True by done.
        destruct (decide (k = conn)) as [->|Hne]; [by rewrite !lookup_delete_eq|by rewrite !lookup_delete_ne by done].
      * intros k h'. simpl. intros [_ Hk]%lookup_delete_Some. by apply Hz.
      * rewrite paused_app. simpl. intros Hpd. destruct (Hp Hpd) as [He _]. by rewrite He in Hc.
    + rewrite (bind_ok (mret tt) _ w tt _ eq_refl). split; [done|]. exists (set_subscribers (delete conn) s), calls. simpl.
      rewrite lookup_alter_eq, Hs. unfold tables_agree. split_and!; [done|done| | |].
      * intros k. rewrite Hb. simpl. destruct (decide (k = conn)) as [->|Hne]; [by rewrite lookup_delete_eq, Hc|by rewrite lookup_delete_ne].
      * intros k h'. simpl. intros [_ Hk]%lookup_delete_Some. by apply Hz.
      * intros Hpd. destruct (Hp Hpd) as [He _]. by rewrite He in Hc.
    + split; [done|]. by exists s, calls.
  - intros []. eapply hoare_bind; [apply the_sub_inv|].
    intros s. case_decide as Hempty; [|by apply hoare_ret; intros w [_ Hw]].
    apply hoare_modify. intros w (Hs0 & Hns & s' & calls & Hs & Ht & Hb & Hz & Hp). rewrite Hs in Hs0. injection Hs0 as ->.
    split; [done|]. exists s, (calls ++ [Base_Pause this]). simpl. unfold tables_agree. split_and!; [done|by rewrite Ht, app_assoc| |done|done].
    intros k. by rewrite bound_app.
Qed.

Lemma PublishTrackHandler_make_ok name mode priority ttl start w :
  PublishTrackHandler_make name mode priority ttl start w =
    (Ok (next_ref (client w)), set_client_state (λ s, set_pub_heap <[next_ref (client w) := mkPublishTrackHandler start]>
       (set_qtrace (qtrace s ++ [MakePublishTrack (next_ref (client w)) name mode (u8 priority) (u32 ttl) start])
          (set_next_ref (next_ref s + 1) s))) w).
Proof. reflexivity. Qed.

Lemma AddSubscriber_ok this t0 ns conn request_id priority timeout start :
  hoare (sub_inv this t0 ns) (AddSubscriber this conn request_id priority timeout start)
        (λ _, sub_inv this t0 ns) no_throw.
Proof.
  unfold AddSubscriber. eapply hoare_bind; [apply the_sub_inv|]. intros s0.
  case_decide as Hdup; [by apply hoare_ret; intros w [_ Hw]|].
  eapply hoare_bind with (R := λ _ w, ns_heap (client w) = ns ∧ ∃ s calls,
    sub_heap (client w) !! this = Some s ∧ qtrace (client w) = t0 ++ calls ∧
    (∀ k, bound calls !! k = mjoin (subscribers_ s !! k)) ∧
    (∀ k h, subscribers_ s !! k = Some h → h = None ↔ k = 0)).
  - intros w (Hs0 & Hns & s & calls & Hs & Ht & Hb & Hz & _). rewrite Hs in Hs0. injection Hs0 as ->.
    assert (subscribers_ s0 !! conn = None) as Hn by by apply eq_None_not_Some.
    case_decide as Hc.
    + unfold qget. rewrite (bind_ok (gets _) _ w _ w eq_refl), (bind_ok (gets _) _ w _ w eq_refl),
        (bind_ok (gets _) _ w _ w eq_refl).
      rewrite (bind_ok _ _ _ _ _ (PublishTrackHandler_make_ok _ _ _ _ _ w)).
      rewrite (bind_ok (gets _) _ _ _ _ eq_refl), (bind_ok (qcall _) _ _ _ _ eq_refl). split; [done|].
      eexists _, (calls ++ [_; _]). cbn [client set_client_state sub_heap set_sub_heap set_qtrace qtrace set_pub_heap set_next_ref].
      rewrite lookup_alter_eq, Hs. split_and!; [done|by rewrite Ht, <- !app_assoc| |].
      * intros k. rewrite bound_app. simpl. destruct (decide (k = conn)) as [->|Hne];
          [by rewrite !lookup_insert_eq|by rewrite !lookup_insert_ne by done].
      * intros k h. simpl. destruct (decide (k = conn)) as [->|Hne]; [rewrite lookup_insert_eq|rewrite lookup_insert_ne by done; apply Hz].
        by intros [= <-].
    + assert (conn = 0) as -> by lia. split; [done|]. eexists _, calls. simpl. rewrite lookup_alter_eq, Hs.
      split_and!; [done|done| |].
      * intros k. simpl. rewrite Hb. destruct (decide (k = 0)) as [->|Hne];
          [by rewrite lookup_insert_eq, Hn|by rewrite lookup_insert_ne by done].
      * intros k h. simpl. destruct (decide (k = 0)) as [->|Hne]; [rewrite lookup_insert_eq|rewrite lookup_insert_ne by done; apply Hz].
        by intros [= <-].
  - intros []. apply hoare_modify. intros w (Hns & s & calls & Hs & Ht & Hb & Hz). split; [done|].
    exists s, (calls ++ [Base_Resume this]). simpl. split_and!; [done|by rewrite Ht, app_assoc|].
    by apply resume_agree.
Qed.

Lemma AddSubscribeNamespace_ok this t0 ns handler :
  is_Some (ns !! handler) →
  hoare (sub_inv this t0 ns) (AddSubscribeNamespace this handler) (λ _, sub_inv this t0 ns) no_throw.
Proof.
  intros [n Hn]. unfold AddSubscribeNamespace, qget.
  eapply hoare_bind with (R := λ _, sub_inv this t0 ns); [by apply hoare_gets|]. intros name.
  eapply hoare_bind with (R := λ _, sub_inv this t0 ns); [by apply hoare_gets|]. intros conn.
  set (hash := track_fullname_hash _). eapply hoare_bind; [apply the_sub_inv|]. intros s0.
  intros w (Hs0 & Hns & s & calls & Hs & Ht & Hb & Hz & Hp). rewrite Hs in Hs0. injection Hs0 as ->.
  rewrite (bind_ok (modify_sub _ _) _ w tt _ eq_refl). case_decide as Hdup.
  - split; [done|]. eexists _, calls. simpl. rewrite lookup_alter_eq, Hs. unfold tables_agree. split_and!; [done|done|done|done|].
    intros Hpd. destruct (Hp Hpd) as [_ He]. unfold namespaces_at in Hdup. rewrite He in Hdup. by destruct Hdup.
  - rewrite (bind_ok (modify_sub _ _) _ _ tt _ eq_refl). unfold the_ns.
    rewrite (bind_ok (get ≫= _) _ _ n _) by (rewrite (bind_ok get _ _ _ _ eq_refl); simpl; by rewrite Hns, Hn).
    rewrite (bind_ok (modify_sub _ _) _ _ tt _ eq_refl). split; [done|].
    eexists _, (calls ++ [Base_Resume this]). simpl. rewrite !lookup_alter_eq, Hs. simpl.
    split_and!; [done|by rewrite Ht, app_assoc|]. by apply resume_agree.
Qed.

Lemma RemoveSubscribeNamespace_ok this t0 ns handler :
  hoare (sub_inv this t0 ns) (RemoveSubscribeNamespace this handler) (λ _, sub_inv this t0 ns) no_throw.
Proof.
  unfold RemoveSubscribeNamespace, qget.
  eapply hoare_bind with (R := λ _, sub_inv this t0 ns); [by apply hoare_gets|]. intros name.
  eapply hoare_bind with (R := λ _, sub_inv this t0 ns); [by apply hoare_gets|]. intros conn.
  set (hash := track_fullname_hash _). eapply hoare_bind; [apply the_sub_inv|]. intros s0.
  intros w (Hs0 & Hns & s & calls & Hs & Ht & Hb & Hz & Hp). rewrite Hs in Hs0. injection Hs0 as ->.
  destruct (sub_namespaces_ s0 !! hash) as [conns|] eqn:Hc; [|split; [done|]; by exists s0, calls].
  split; [done|]. eexists _, calls. simpl. rewrite lookup_alter_eq, Hs. unfold tables_agree. split_and!; [done|done|done|done|].
  intros Hpd. destruct (Hp Hpd) as [_ He]. by rewrite He in Hc.
Qed.

Definition subscriber_op_ok (ns : gmap Ref PublishNamespaceHandler) (op : subscriber_op) : Prop :=
  match op with OpAddNamespace handler => is_Some (ns !! handler) | _ => True end.

Lemma run_subscriber_op_ok this t0 ns op :
  subscriber_op_ok ns op → hoare (sub_inv this t0 ns) (run_subscriber_op this op) (λ _, sub_inv this t0 ns) no_throw.
Proof.
  destruct op; simpl; intros Hop; [apply AddSubscriber_ok|apply RemoveSubscriber_ok|by apply AddSubscribeNamespace_ok|
    apply RemoveSubscribeNamespace_ok].
Qed.

(** C21: the subscribers of a track agree with what libquicr was told.  Whatever
    subscribers and namespaces come and go, a publish handler is bound for
    exactly the connections that have one in the table, peering (connection 0)
    has none, and the track is never left paused while anyone wants it. *)
Theorem subscriber_bookkeeping this ops w s :
  sub_heap (client w) !! this = Some s → subscribers_ s = ∅ → sub_namespaces_ s = ∅ →
  Forall (subscriber_op_ok (ns_heap (client w))) ops →
  ∃ w' s' calls, for_each ops (run_subscriber_op this) w = (Ok tt, w') ∧
    sub_heap (client w') !! this = Some s' ∧ qtrace (client w') = qtrace (client w) ++ calls ∧
    (∀ conn, bound calls !! conn = mjoin (subscribers_ s' !! conn)) ∧
    (∀ conn h, subscribers_ s' !! conn = Some h → h = None ↔ conn = 0) ∧
    (paused this calls = true → HasSubscribers_sub s' = false).
Proof.
  intros Hs Hsub Hns Hops. rewrite Forall_forall in Hops.
  destruct (hoare_run _ _ _ w (hoare_for_each (sub_inv this (qtrace (client w)) (ns_heap (client w))) ops (run_subscriber_op this)
    no_throw (λ op Hop, run_subscriber_op_ok this _ _ op (Hops op Hop)))) as ([] & w' & Hrun & _ & s' & calls & Hs' & Ht & Hb & Hz & Hp).
  - split; [done|]. exists s, []. rewrite app_nil_r. unfold tables_agree. rewrite Hsub. split_and!; [done|done|done| |done].
    intros conn h. by rewrite lookup_empty.
  - exists w', s', calls. split_and!; [done..|]. intros Hpd. destruct (Hp Hpd) as [E1 E2].
    unfold HasSubscribers_sub. by rewrite E1, E2.
Qed.

(** ** The pipeline *)

(** A call that neither starts nor ends a subgroup. *)
Definition quiet (this : Ref) (c : QuicrCall) : Prop :=
  match c with
  | Base_ForwardPublishedData _ _ _ _ _ => True
  | Base_ResetPendingNewGroup h => h = this
  | _ => False
  end.

(** What a publish handler was given to pass on as it is. *)
Definition forwarded (h : Ref) (calls : QuicrTrace) : list (list Z) :=
  omap (λ c, match c with
             | Base_ForwardPublishedData h' _ _ _ data => if decide (h' = h) then Some data else None
             | _ => None
             end) calls.
End spec.

(** Documented behaviour of libquicr: passing bytes on and dropping a pending
    group request change no alias and no open stream. *)
Class PipelineLaws `{TrackNames, MoqMessages, !QuicrServer} := {
  quiet_alias t this c h : quiet this c → q_TrackAlias (t ++ [c]) h = q_TrackAlias t h;
  quiet_streams t this c h : quiet this c → q_StreamInfo (t ++ [c]) h = q_StreamInfo t h;
}.

Section pipeline.
Context `{UintVar, TrackNames, MoqMessages, GroupCache, !QuicrServer, Transport, !PipelineLaws}.
Abbreviation World := (World ClientState).
Implicit Types w : World.
Variables (this : Ref) (stream_id : Z) (t0 : QuicrTrace) (subs : gmap Z (option Ref)) (g sg : Z).

Lemma quiet_calls_alias calls h : Forall (quiet this) calls → q_TrackAlias (t0 ++ calls) h = q_TrackAlias t0 h.
Proof.
  induction calls as [|c calls IH] using rev_ind; intros Hq; [by rewrite app_nil_r|].
  apply Forall_app in Hq as [Hq Hc]. inversion_clear Hc. rewrite app_assoc. by erewrite quiet_alias, IH.
Qed.
Lemma quiet_calls_streams calls h : Forall (quiet this) calls → q_StreamInfo (t0 ++ calls) h = q_StreamInfo t0 h.
Proof.
  induction calls as [|c calls IH] using rev_ind; intros Hq; [by rewrite app_nil_r|].
  apply Forall_app in Hq as [Hq Hc]. inversion_clear Hc. rewrite app_assoc. by erewrite quiet_streams, IH.
Qed.

(** [last_object_id] of the subgroup is known at [t0]. *)
Definition in_pipeline (h : Ref) : Prop :=
  ∃ subgroups id, find_key (u32 g) (q_StreamInfo t0 h) = Some subgroups ∧ find_key (u32 sg) subgroups = Some (Some id).

(** The handler while it works on the stream: its subscribers, none of them
    peering, are past their first object. *)
Definition piping (c : StreamContext) (calls : QuicrTrace) w : Prop :=
  qtrace (client w) = t0 ++ calls ∧ Forall (quiet this) calls ∧ is_Some (q_TrackAlias t0 this) ∧
  (∀ conn h, subs !! conn = Some h → conn ≠ 0 ∧ ∃ h', h = Some h' ∧ is_Some (pub_heap (client w) !! h') ∧ in_pipeline h') ∧
  ∃ s, sub_heap (client w) !! this = Some s ∧ subscribers_ s = subs ∧ sub_namespaces_ s = ∅ ∧
       is_datagram_ s = false ∧ default StreamContext_empty (streams_ s !! stream_id) = c.

Lemma piping_call c calls x w :
  quiet this x → piping c calls w →
  piping c (calls ++ [x]) (set_client_state (λ s, set_qtrace (qtrace s ++ [x]) s) w).
Proof.
  intros Hx (Ht & Hq & Ha & Hs & Hsub). split; [simpl; by rewrite Ht, app_assoc|].
  split; [by apply Forall_app; split; [|constructor]|]. by split_and!.
Qed.

Lemma modify_stream_ok c calls f :
  hoare (piping c calls) (modify_stream this stream_id f) (λ _, piping (f c) calls) no_throw.
Proof.
  apply hoare_modify. intros w (Ht & Hq & Ha & Hs & s & Hsub & Hss & Hns & Hd & Hc). split_and!; [done..|].
  eexists. simpl. rewrite lookup_alter_eq, Hsub. split; [done|]. simpl. rewrite lookup_insert_eq. by subst.
Qed.

Lemma the_stream_ok c calls :
  hoare (piping c calls) (the_stream this stream_id) (λ c' w, c' = c ∧ piping c calls w) no_throw.
Proof.
  intros w Hp. destruct Hp as (Ht & Hq & Ha & Hs & s & Hsub & Hss & Hns & Hd & Hc) eqn:E. clear E.
  unfold the_stream. rewrite (bind_ok _ _ _ _ _ (the_sub_ok _ _ _ Hsub)). split; [done|]. split_and!; [done..|]. by exists s.
Qed.

Lemma sent_ok c calls conn h :
  subs !! conn = Some (Some h) →
  hoare (piping c calls) (SentFirstObject h g sg) (λ b w, b = true ∧ piping c calls w) no_throw.
Proof.
  intros Hh w Hp. pose proof Hp as (Ht & Hq & Ha & Hs & _).
  destruct (Hs conn _ Hh) as (_ & h' & [= <-] & [x Hx] & sgs & id & Hg & Hsg).
  unfold SentFirstObject, the_pub, qget.
  rewrite (bind_ok (get ≫= _) _ w x w) by by rewrite (bind_ok get _ w w w eq_refl), Hx.
  rewrite (bind_ok (gets _) _ w _ w eq_refl). rewrite Ht, quiet_calls_streams, Hg, Hsg by done. done.
Qed.

(** The calls that pass [data] on to every subscriber. *)
Definition pass_on (data : list Z) (l : list (Z * option Ref)) : QuicrTrace :=
  (λ h, Base_ForwardPublishedData h false g sg data) <$> omap snd l.

Lemma forward_to_ok c calls alias d_type data e :
  e ∈ entries subs →
  hoare (piping c calls) (forward_to this alias d_type false g sg data e)
        (λ _, piping c (calls ++ pass_on data [e])) no_throw.
Proof.
  destruct e as [conn o]. intros He%elem_of_entries w Hp. pose proof Hp as (_ & _ & _ & Hs & _).
  destruct (Hs conn _ He) as (Hc & h & -> & _ & _). unfold forward_to. cbn [fst snd].
  rewrite decide_False by done. cbn [deref]. rewrite (bind_ok (mret h) _ w h w eq_refl).
  destruct (hoare_run _ _ _ w (sent_ok c calls conn h He) Hp) as (b & w' & Hrun & -> & Hp').
  rewrite (bind_ok _ _ _ _ _ Hrun). by apply piping_call.
Qed.

Lemma get_alias_ok c calls :
  hoare (piping c calls) (qget (λ t, q_TrackAlias t this))
        (λ a w, a = q_TrackAlias t0 this ∧ piping c calls w) no_throw.
Proof.
  apply hoare_gets. intros w Hp. split; [|done]. destruct Hp as (Ht & Hq & _). by rewrite Ht, quiet_calls_alias.
Qed.

Lemma piping_sub c calls :
  hoare (piping c calls) (the_sub this)
    (λ s w, piping c calls w ∧ subscribers_ s = subs ∧ sub_namespaces_ s = ∅ ∧ is_datagram_ s = false) no_throw.
Proof.
  intros w Hp. pose proof Hp as (_ & _ & _ & _ & s & Hsub & Hss & Hns & Hd & _).
  by rewrite (the_sub_ok _ _ _ Hsub).
Qed.

Lemma namespace_handlers_none s : sub_namespaces_ s = ∅ → namespace_handlers s = [].
Proof. intros Hs. unfold namespace_handlers. by rewrite Hs. Qed.

Lemma ForwardReceivedData_ok c calls data :
  hoare (piping c calls) (ForwardReceivedData this false g sg data)
        (λ _, piping c (calls ++ pass_on data (entries subs))) no_throw.
Proof.
  unfold ForwardReceivedData. eapply hoare_bind; [apply get_alias_ok|]. intros a.
  apply (hoare_pre _ (∃ alias, a = Some alias)).
  { intros w [-> Hp]. destruct Hp as (_ & _ & [alias Ha] & _). by exists alias. }
  intros [alias ->]. eapply hoare_weaken with (Q := λ _, piping c (calls ++ pass_on data (entries subs)));
    [|by intros w [_ Hp]; exact Hp|by intros].
  eapply hoare_bind; [apply piping_sub|]. intros s.
  apply (hoare_pre _ (subscribers_ s = subs ∧ sub_namespaces_ s = ∅ ∧ is_datagram_ s = false)); [by intros w [_ Hw]|].
  intros (Hss & Hns & Hd). unfold qget.
  eapply hoare_bind with (R := λ _, piping c calls); [by apply hoare_gets; intros w [Hp _]|]. intros timeout.
  eapply hoare_bind with (R := λ _, piping c calls); [by apply hoare_gets|]. intros config.
  rewrite Hd, andb_false_r. cbn [andb]. rewrite namespace_handlers_none by done.
  eapply hoare_bind with (R := λ _, piping c calls); [by apply hoare_ret|]. intros [].
  eapply hoare_bind with (R := λ _, piping c calls); [by apply hoare_ret|]. intros []. rewrite Hss.
  pose proof (hoare_for_each_done (λ done, piping c (calls ++ pass_on data done)) (entries subs)
    (forward_to this alias DataType.kExistingStream false g sg data) no_throw) as Hloop.
  eapply hoare_weaken; [apply Hloop| |by intros].
  - intros l1 e rest Hl. eapply hoare_weaken;
      [apply (forward_to_ok c (calls ++ pass_on data l1) alias DataType.kExistingStream data e)|by intros|].
    + rewrite Hl. apply elem_of_app; right; left.
    + intros ? w. unfold pass_on. by rewrite omap_app, fmap_app, app_assoc.
  - intros w. by rewrite app_nil_r.
Qed.

(** ** An object in the pipeline *)

Lemma reset_pending_ok c calls group_id :
  hoare (piping c calls) (reset_pending_group this group_id)
    (λ _ w, ∃ r, piping c (calls ++ r) w ∧ ∀ h, forwarded h r = []) no_throw.
Proof.
  unfold reset_pending_group, qget. eapply hoare_bind with (R := λ _, piping c calls); [by apply hoare_gets|].
  assert (∀ w, piping c calls w → ∃ r, piping c (calls ++ r) w ∧ ∀ h, forwarded h r = []) as Hnone.
  { intros w Hp. exists []. by rewrite app_nil_r. }
  intros [id|]; [|by apply hoare_ret]. case_decide; [|by apply hoare_ret].
  apply hoare_modify. intros w Hp. exists [Base_ResetPendingNewGroup this]. split; [by apply piping_call|done].
Qed.

Lemma piping_cache c calls f w : piping c calls w → piping c calls (set_client_state (set_cache f) w).
Proof. done. Qed.

Lemma publish_to_skips c calls headers data mode e :
  e ∈ entries subs → oh_group_id headers = g → oh_subgroup_id headers = sg →
  hoare (piping c calls) (publish_to this headers data mode e) (λ _, piping c calls) no_throw.
Proof.
  destruct e as [conn o]. intros He%elem_of_entries Hg Hsg w Hp. pose proof Hp as (_ & _ & _ & Hs & _).
  destruct (Hs conn _ He) as (Hc & h & -> & _ & _). unfold publish_to. cbn [fst snd].
  rewrite decide_False by done. cbn [deref]. rewrite (bind_ok (mret h) _ w h w eq_refl).
  destruct (hoare_run _ _ _ w (piping_sub c calls) Hp) as (s & w1 & Hrun & Hp1 & _ & _ & Hd).
  rewrite (bind_ok _ _ _ _ _ Hrun), Hd, Hg, Hsg.
  destruct (hoare_run _ _ _ w1 (sent_ok c calls conn h He) Hp1) as (b & w2 & Hrun2 & -> & Hp2).
  by rewrite (bind_ok _ _ _ _ _ Hrun2).
Qed.

Lemma ObjectReceived_ok c calls headers data mode :
  oh_group_id headers = g → oh_subgroup_id headers = sg → oh_extensions headers = None →
  hoare (piping c calls) (ObjectReceived this headers data mode)
    (λ _ w, ∃ r, piping c (calls ++ r) w ∧ ∀ h, forwarded h r = []) no_throw.
Proof.
  intros Hg Hsg Hext. unfold ObjectReceived, UpdateTrackedProperties. rewrite Hext.
  eapply hoare_bind with (R := λ _, piping c calls).
  { eapply hoare_bind; [apply get_alias_ok|]. intros a w [-> Hp]. pose proof Hp as (_ & _ & [alias Ha] & _).
    rewrite Ha. exact Hp. }
  intros []. eapply hoare_bind; [apply reset_pending_ok|]. intros [].
  intros w (r & Hp & Hr). revert w Hp.
  eapply hoare_weaken with (P := piping c (calls ++ r)) (Q := λ _, piping c (calls ++ r));
    [|by intros|intros; by exists r].
  eapply hoare_bind with (R := λ _, piping c (calls ++ r)); [by apply hoare_gets|]. intros config.
  eapply hoare_bind with (R := λ _, piping c (calls ++ r)).
  { destruct (disable_cache config); [by apply hoare_ret|].
    eapply hoare_bind; [apply get_alias_ok|]. intros a w [-> Hp]. pose proof Hp as (_ & _ & [alias Ha] & _).
    rewrite Ha. cbn [value]. rewrite (bind_ok (mret alias) _ w alias w eq_refl). exact Hp. }
  intros []. eapply hoare_try_catch with (E' := no_throw); [|done].
  eapply hoare_bind; [apply piping_sub|]. intros s.
  apply (hoare_pre _ (subscribers_ s = subs ∧ sub_namespaces_ s = ∅)); [by intros w (_ & ? & ? & _)|].
  intros [Hss Hns]. rewrite namespace_handlers_none, Hss by done.
  eapply hoare_bind with (R := λ _, piping c (calls ++ r)); [by apply hoare_ret; intros w [Hp _]|]. intros [].
  apply hoare_for_each. intros e He. by apply publish_to_skips.
Qed.

(** ** What every subscriber was passed *)

Context (Hinj : ∀ conn conn' h, subs !! conn = Some (Some h) → subs !! conn' = Some (Some h) → conn = conn').

Lemma forwarded_app h l1 l2 : forwarded h (l1 ++ l2) = forwarded h l1 ++ forwarded h l2.
Proof. apply omap_app. Qed.

Lemma forwarded_others h data l : (∀ e, e ∈ l → e.2 ≠ Some h) → forwarded h (pass_on data l) = [].
Proof.
  induction l as [|[conn [h'|]] l IH]; intros Hl; [done| |apply IH; intros e He; apply Hl; by right].
  unfold pass_on, forwarded. simpl. rewrite decide_False by (intros ->; by eapply (Hl (conn, Some h)); [left|]).
  apply IH. intros e He. apply Hl. by right.
Qed.

Lemma forwarded_pass_on conn h data :
  subs !! conn = Some (Some h) → forwarded h (pass_on data (entries subs)) = [data].
Proof using Hinj.
  intros Hh. pose proof (proj2 (elem_of_entries subs conn (Some h)) Hh) as Hin.
  apply list_elem_of_split in Hin as (l1 & l2 & Hl). pose proof (NoDup_entries subs) as Hnd. rewrite Hl in Hnd.
  assert (∀ e, e ∈ l1 ++ l2 → e.2 ≠ Some h) as Hout.
  { intros [conn' o] He. simpl. intros ->. assert ((conn', Some h) ∈ entries subs) as He'.
    { rewrite Hl. apply elem_of_app in He as [He|He]; apply elem_of_app; [by left|right; by right]. }
    apply elem_of_entries in He'. assert (conn' = conn) as -> by by eapply Hinj.
    rewrite fmap_app, fmap_cons in Hnd. apply NoDup_app in Hnd as (_ & Hd & [Hn _]%NoDup_cons).
    apply elem_of_app in He as [He|He].
    - apply (Hd conn); [by apply (list_elem_of_fmap_2 fst) in He|left].
    - apply Hn. by apply (list_elem_of_fmap_2 fst) in He. }
  rewrite Hl. unfold pass_on. rewrite omap_app, fmap_app. fold (pass_on data l1). rewrite forwarded_app.
  rewrite forwarded_others by (intros e He; apply Hout, elem_of_app; by left).
  change (forwarded h (pass_on data ((conn, Some h) :: l2)) = [data]). unfold pass_on, forwarded. simpl.
  rewrite decide_True by done. f_equal. fold (pass_on data l2) (forwarded h (pass_on data l2)).
  apply forwarded_others. intros e He. apply Hout, elem_of_app. by right.
Qed.

(** The handler with [buffer] still to be parsed, after each subscriber was
    passed [given]. *)
Definition passing (buffer : list Z) (given : list (list Z)) w : Prop :=
  ∃ c calls, sc_buffer c = buffer ∧ piping c calls w ∧
    ∀ conn h, subs !! conn = Some (Some h) → forwarded h calls = given.

Lemma passing_modify buffer given f buffer' :
  (∀ c, sc_buffer c = buffer → sc_buffer (f c) = buffer') →
  hoare (passing buffer given) (modify_stream this stream_id f) (λ _, passing buffer' given) no_throw.
Proof.
  intros Hf w (c & calls & Hb & Hp & Hg). destruct (hoare_run _ _ _ w (modify_stream_ok c calls f) Hp) as (u & w' & Hrun & Hp').
  rewrite Hrun. exists (f c), calls. split_and!; [by apply Hf|done|done].
Qed.

Lemma passing_stream buffer given :
  hoare (passing buffer given) (the_stream this stream_id)
    (λ c w, sc_buffer c = buffer ∧ passing buffer given w) no_throw.
Proof.
  intros w (c & calls & Hb & Hp & Hg). destruct (hoare_run _ _ _ w (the_stream_ok c calls) Hp) as (c' & w' & Hrun & -> & Hp').
  rewrite Hrun. split; [done|]. by exists c, calls.
Qed.

Lemma passing_forward buffer given data :
  hoare (passing buffer given) (ForwardReceivedData this false g sg data) (λ _, passing buffer (given ++ [data])) no_throw.
Proof using Type*.
  intros w (c & calls & Hb & Hp & Hg). destruct (hoare_run _ _ _ w (ForwardReceivedData_ok c calls data) Hp) as (u & w' & Hrun & Hp').
  rewrite Hrun. eexists c, _. split_and!; [done|exact Hp'|]. intros conn h Hh.
  by rewrite forwarded_app, (Hg conn h Hh), (forwarded_pass_on conn h data Hh).
Qed.

Lemma passing_silent {A} buffer given (m : ST World A) :
  (∀ c calls, hoare (piping c calls) m (λ _ w, ∃ r, piping c (calls ++ r) w ∧ ∀ h, forwarded h r = []) no_throw) →
  hoare (passing buffer given) m (λ _, passing buffer given) no_throw.
Proof.
  intros Hm w (c & calls & Hb & Hp & Hg). destruct (hoare_run _ _ _ w (Hm c calls) Hp) as (u & w' & Hrun & r & Hp' & Hr).
  rewrite Hrun. eexists c, _. split_and!; [done|exact Hp'|]. intros conn h Hh.
  by rewrite forwarded_app, (Hg conn h Hh), Hr, app_nil_r.
Qed.

Lemma stream_object_ok buffer given hdr obj :
  sh_group_id hdr = g → sh_subgroup_id hdr = Some sg → so_extensions obj = None →
  hoare (passing buffer given) (stream_object this false stream_id hdr obj)
    (λ _, passing buffer (given ++ if decide (buffer = []) then [] else [buffer])) no_throw.
Proof using Type*.
  intros Hg Hsg Hext. unfold stream_object. rewrite Hg, Hsg. cbn [value default option_bind].
  eapply hoare_bind; [apply passing_stream|]. intros c. apply (hoare_pre _ (sc_buffer c = buffer)); [by intros w [? _]|].
  intros Hc. eapply hoare_bind with (R := λ _, passing buffer given).
  { eapply hoare_weaken; [by apply (passing_modify buffer given (set_next_object _) buffer)|by intros w [_ Hp]|by intros]. }
  intros []. eapply hoare_bind; [by apply (passing_modify buffer given _ buffer)|]. intros [].
  eapply hoare_bind with (R := λ sg' w, sg' = sg ∧ passing buffer given w); [by apply hoare_ret|]. intros sg'.
  apply (hoare_pre _ (sg' = sg)); [by intros w [? _]|]. intros ->.
  eapply hoare_bind with (R := λ _, passing buffer given).
  { eapply hoare_weaken; [by apply (passing_modify buffer given (set_current g sg) buffer)|by intros w [_ Hp]|by intros]. }
  intros []. eapply hoare_bind; [apply passing_silent; intros; apply reset_pending_ok|]. intros [].
  rewrite decide_False by done.
  eapply hoare_bind with (R := λ h w, h = hdr ∧ passing buffer given w); [by apply hoare_ret|]. intros h'.
  apply (hoare_pre _ (h' = hdr)); [by intros w [? _]|]. intros ->. rewrite Hg, Hsg. cbn [value].
  eapply hoare_bind with (R := λ sg' w, sg' = sg ∧ passing buffer given w).
  { apply hoare_ret. by intros w [_ Hp]. }
  intros sg'. apply (hoare_pre _ (sg' = sg)); [by intros w [? _]|]. intros ->.
  eapply hoare_bind with (R := λ _, passing buffer given).
  { eapply hoare_weaken; [apply passing_silent; intros; by apply ObjectReceived_ok|by intros w [_ Hp]; exact Hp|by intros]. }
  intros []. eapply hoare_bind; [by apply (passing_modify buffer given _ buffer)|]. intros [].
  eapply hoare_bind; [by apply (passing_modify buffer given _ buffer)|]. intros [].
  eapply hoare_bind; [apply passing_stream|]. intros c'. apply (hoare_pre _ (sc_buffer c' = buffer)); [by intros w [? _]|].
  intros Hc'. rewrite Hc'. case_decide as Hnil.
  - apply hoare_ret. intros w [_ Hp]. by rewrite app_nil_r.
  - eapply hoare_weaken; [apply (passing_forward buffer given buffer)|by intros w [_ Hp]|by intros].
Qed.
End pipeline.

Section pipeline_theorem.
Context `{UintVar, TrackNames, MoqMessages, GroupCache, !QuicrServer, Transport, !PipelineLaws}.
Abbreviation World := (World ClientState).
Implicit Types w : World.

(** C22: bytes of a stream whose first object every subscriber has are passed on
    as they come: each subscriber gets each chunk once and unchanged.  But when
    the chunk completes an object and more bytes follow it, those bytes are
    passed on a second time. *)
Theorem pipeline_chunk this stream_id w s c hdr properties alias data complete obj rest :
  let g := current_group_id c in
  let sg := current_subgroup_id c in
  sub_heap (client w) !! this = Some s → sub_namespaces_ s = ∅ → streams_ s !! stream_id = Some c →
  buf_any c = Some hdr → sh_properties hdr = Some properties →
  sh_group_id hdr = g → sh_subgroup_id hdr = Some sg →
  q_TrackAlias (qtrace (client w)) this = Some alias →
  (∀ conn h, subscribers_ s !! conn = Some h → conn ≠ 0 ∧
     ∃ h', h = Some h' ∧ is_Some (pub_heap (client w) !! h') ∧ in_pipeline (qtrace (client w)) g sg h') →
  (∀ conn conn' h, subscribers_ s !! conn = Some (Some h) → subscribers_ s !! conn' = Some (Some h) → conn = conn') →
  read_subgroup_object (set_properties properties (default subgroup_object_default (buf_any_b c)))
    (sc_buffer c ++ data) = (complete, obj, rest) →
  so_extensions obj = None →
  ∃ w' calls, StreamDataRecv this false stream_id (Some data) w = (Ok tt, w') ∧
    qtrace (client w') = qtrace (client w) ++ calls ∧
    ∀ conn h, subscribers_ s !! conn = Some (Some h) →
      forwarded h calls = data :: (if complete && bool_decide (rest ≠ []) then [rest] else []).
Proof.
  intros g sg Hs Hns Hc Hany Hprops Hg Hsg Halias Hsubs Hinj Hread Hext.
  set (P := piping this stream_id (qtrace (client w)) (subscribers_ s) g sg).
  set (Q := passing this stream_id (qtrace (client w)) (subscribers_ s) g sg).
  set (c1 := set_sc_buffer (sc_buffer c ++ data) c).
  assert (hoare (P c []) (ForwardReceivedData this false g sg data ;;
      modify_stream this stream_id (λ c, set_sc_buffer (sc_buffer c ++ data) c) ;; mret true)
    (λ b w, b = true ∧ P c1 (pass_on g sg data (entries (subscribers_ s))) w) no_throw) as Hgive.
  { eapply hoare_bind; [apply ForwardReceivedData_ok|]. intros [].
    eapply hoare_bind; [apply modify_stream_ok|]. intros []. by apply hoare_ret. }
  assert (hoare (P c1 (pass_on g sg data (entries (subscribers_ s)))) (read_object this false stream_id)
    (λ _, Q rest ([data] ++ if complete then if decide (rest = []) then [] else [rest] else [])) no_throw) as Hreads.
  { unfold read_object. eapply hoare_bind; [apply the_stream_ok|]. intros c'.
    apply (hoare_pre _ (c' = c1)); [by intros w' [? _]|]. intros ->. unfold stream_header.
    change (buf_any c1) with (buf_any c). rewrite Hany. eapply hoare_bind with (R := λ h w, h = hdr ∧ P c1 (pass_on g sg data (entries (subscribers_ s))) w).
    { apply hoare_ret. by intros w' [_ Hp]. }
    intros h. apply (hoare_pre _ (h = hdr)); [by intros w' [? _]|]. intros ->.
    eapply hoare_bind.
    { eapply hoare_weaken; [apply modify_stream_ok|by intros w' [_ Hp]; exact Hp|by intros]. }
    intros []. rewrite Hprops. cbn [deref].
    set (c2 := set_any_object (Some (default subgroup_object_default (buf_any_b c1))) c1).
    eapply hoare_bind with (R := λ p w, p = properties ∧ P c2 (pass_on g sg data (entries (subscribers_ s))) w);
      [by apply hoare_ret|].
    intros p. apply (hoare_pre _ (p = properties)); [by intros w' [? _]|]. intros ->.
    change (sc_buffer c1) with (sc_buffer c ++ data). unfold c2. change (buf_any_b c1) with (buf_any_b c). rewrite Hread.
    eapply hoare_bind with (R := λ _, Q rest [data]).
    { eapply hoare_weaken; [apply modify_stream_ok|by intros w' [_ Hp]; exact Hp|].
      intros [] w' Hp. eexists _, _. split_and!; [|exact Hp|]; [done|]. intros conn h Hh. by eapply forwarded_pass_on. }
    intros []. destruct complete; [|by apply hoare_ret]. by apply stream_object_ok. }
  unfold StreamDataRecv. rewrite (bind_ok (modify_sub _ _) _ w tt _ eq_refl).
  rewrite (bind_ok (modify_stream _ _ _) _ _ tt _ eq_refl).
  match goal with |- ∃ w' calls, _ ?w2 = _ ∧ _ => assert (P c [] w2) as Hp end.
  { split; [simpl; by rewrite app_nil_r|]. split; [done|]. split; [by eexists|]. split; [exact Hsubs|].
    eexists. simpl. rewrite !lookup_alter_eq, Hs. split; [done|]. split_and!; [done|done|done|].
    simpl. by rewrite lookup_insert_eq, Hc. }
  match type of Hp with P c [] ?w2 => revert Hp; generalize w2; intros w3 Hp end.
  destruct (hoare_run _ _ _ w3 (the_stream_ok _ _ _ _ _ _ c []) Hp) as (c' & w4 & Hr4 & -> & Hp4).
  destruct (hoare_run _ _ _ w4 Hgive Hp4) as (b & w5 & Hr5 & -> & Hp5).
  destruct (hoare_run _ _ _ w5 Hreads Hp5) as ([] & w6 & Hr6 & c6 & calls & _ & (Ht & _) & Hf).
  exists w6, calls. split_and!; [|exact Ht|].
  - rewrite (bind_ok (_ ≫= _) _ w3 true w5) by by rewrite (bind_ok _ _ _ _ _ Hr4). exact Hr6.
  - intros conn h Hh. rewrite (Hf conn h Hh). destruct complete; [|done]. simpl. f_equal.
    case_decide as Hnil; [by rewrite bool_decide_eq_false_2 by auto|by rewrite bool_decide_eq_true_2].
Qed.

(** A subscriber that starts in the middle of a group does not get the first
    objects of later groups. *)
Theorem later_group_dropped this headers data mode conn h w s p :
  sub_heap (client w) !! this = Some s → is_datagram_ s = true → pub_heap (client w) !! h = Some p → conn ≠ 0 →
  loc_group (start_location_ p) < oh_group_id headers → oh_object_id headers < loc_object (start_location_ p) →
  ∃ w', publish_to this headers data mode (conn, Some h) w = (Ok tt, w') ∧
    qtrace (client w') = qtrace (client w) ++ [Base_SetDefaultTrackMode h kDatagramMode].
Proof.
  intros Hs Hd Hp Hconn Hg Ho. unfold publish_to. cbn [fst snd]. rewrite decide_False by done. cbn [deref].
  rewrite (bind_ok (mret h) _ w h w eq_refl), (bind_ok _ _ _ _ _ (the_sub_ok _ _ _ Hs)), Hd.
  rewrite (bind_ok (mret false) _ w false w eq_refl), (bind_ok (qcall _) _ w tt _ eq_refl). unfold the_pub.
  rewrite (bind_ok (get ≫= _) _ _ p _) by (rewrite (bind_ok get _ _ _ _ eq_refl); simpl; by rewrite Hp).
  unfold after_start. rewrite (bool_decide_eq_false_2 (_ ≤ oh_object_id _)) by lia. rewrite andb_false_r.
  by eexists.
Qed.
End pipeline_theorem.

(** ** Witnesses *)

Import Quicr.Demo DemoTransport DemoRelay DemoServer DemoCache.

#[export] Instance demo_pipeline_laws : PipelineLaws.
Proof.
  split; intros t this c h Hq; simpl.
  - rewrite last_of_snoc. by destruct c.
  - rewrite foldl_app. by destruct c.
Qed.

Definition demo_headers : ObjectHeaders := mkObjectHeaders 3 0 0 1 0 0 None (Some kStreamMode) None None.

Definition demo_fixed : @StreamHeaderProperties messages := false.
Definition demo_header : SubgroupHeader := mkSubgroupHeader _ 101 3 (Some 0) 0 (Some false).
Definition demo_object : SubgroupObject := mkSubgroupObject _ 0 (Some false) 0 None None [8].
Definition demo_stream : StreamContext := mkStreamContext [] (Some demo_header) None (Some 1) 3 0.

(** The track 101 with two subscribers that have the first object of group 3;
    its second object has just been received. *)
Definition demo_subscribed : SubscribeTrackHandler :=
  mkSubscribeTrackHandler ([[5]], [5]) false false {[31 := Some 1; 32 := Some 2]} ∅ {[12 := mkPropertyValue 0 0]} None
    {[4 := demo_stream]} None.

Definition demo_receiving (s : SubscribeTrackHandler) : ClientState :=
  mkClientState demo_config
    {[1 := mkPublishTrackHandler (mkLocation 0 0); 2 := mkPublishTrackHandler (mkLocation 2 7)]} ∅ {[20 := s]} ∅ 21 ∅ ∅ ∅
    [Base_SetTrackAlias 20 101; BindPublisherTrack 31 0 1 1; BindPublisherTrack 32 0 2 2;
     Base_PublishObject 1 demo_headers [7] None; Base_PublishObject 2 demo_headers [7] None] (Some 100) 0 ∅ ∅.

(** Two objects in one chunk: the second one is sent twice. *)
Lemma pipeline_chunk_witness :
  ∃ w' calls, StreamDataRecv 20 false 4 (Some [0; 1; 8; 0; 1; 9]) (relay_with (demo_receiving demo_subscribed) InfoBase_empty)
      = (Ok tt, w') ∧ qtrace (client w') = qtrace (demo_receiving demo_subscribed) ++ calls ∧
    forwarded 2 calls = [[0; 1; 8; 0; 1; 9]; [0; 1; 9]].
Proof.
  destruct (pipeline_chunk 20 4 (relay_with (demo_receiving demo_subscribed) InfoBase_empty) demo_subscribed
    demo_stream
    demo_header demo_fixed 101 [0; 1; 8; 0; 1; 9] true
    demo_object [0; 1; 9]) as (w' & calls & Hrun & Hq & Hf).
  - vm_refl.
  - vm_refl.
  - vm_refl.
  - vm_refl.
  - vm_refl.
  - vm_refl.
  - vm_refl.
  - vm_refl.
  - assert (map_Forall (λ conn h, conn ≠ 0 ∧ is_Some (h ≫= λ h', pub_heap (demo_receiving demo_subscribed) !! h') ∧
      (λ h', find_key 3 (q_StreamInfo (qtrace (demo_receiving demo_subscribed)) h')) <$> h = Some (Some [(0, Some 0)]))
      (subscribers_ demo_subscribed)) as Hall by decide_now.
    intros conn o Ho. destruct (Hall conn o Ho) as (Hc & Hp & Hf). split; [done|]. destruct o as [h'|]; [|by destruct Hp].
    exists h'. split; [done|]. split; [apply Hp|]. exists [(0, Some 0)], 0. injection Hf as Hf. split; [exact Hf|vm_refl].
  - assert (map_Forall (λ conn h, h = Some (conn - 30)) (subscribers_ demo_subscribed)) as Hall by decide_now.
    intros conn conn' h Ho Ho'. pose proof (Hall conn _ Ho) as [= E]. pose proof (Hall conn' _ Ho') as [= E']. lia.
  - vm_refl.
  - vm_refl.
  - exists w', calls. split_and!; [exact Hrun|exact Hq|]. rewrite (Hf 32 2); vm_refl.
Defined.

Lemma subscriber_bookkeeping_witness :
  ∃ w' s' calls, for_each [OpAddSubscriber 40 1 0 0 (mkLocation 0 0); OpAddSubscriber 0 0 10 0 (mkLocation 0 0); OpRemoveSubscriber 40]
      (run_subscriber_op 20) (relay_with (demo_receiving (set_subscribers (λ _, ∅) demo_subscribed)) InfoBase_empty) = (Ok tt, w') ∧
    sub_heap (client w') !! 20 = Some s' ∧ (paused 20 calls = true → HasSubscribers_sub s' = false).
Proof.
  destruct (subscriber_bookkeeping 20 [OpAddSubscriber 40 1 0 0 (mkLocation 0 0); OpAddSubscriber 0 0 10 0 (mkLocation 0 0); OpRemoveSubscriber 40]
    (relay_with (demo_receiving (set_subscribers (λ _, ∅) demo_subscribed)) InfoBase_empty)
    (set_subscribers (λ _, ∅) demo_subscribed)) as (w' & s' & calls & Hrun & Hs' & _ & _ & _ & Hp).
  - vm_refl.
  - vm_refl.
  - vm_refl.
  - repeat constructor.
  - by exists w', s', calls.
Defined.
