(* ===== verification/PeerEvents.v ===== *)
(** * Events of the peer manager (src/peering/peer_manager.cc)

    The manager as the interface its sessions call, the events of the
    transport, the reconnection round and the constructor. *)

From S2P Require Import Prelude Common Quicr State NodeInfo DataHeader SubscribeInfo SubscribeNodeSet AnnounceInfo InfoBase Transport PeerSession PeerSessionEvents PeerSessionControl PeerWorld PeerManager PeerForwarding.

Section events.
Context `{UintVar, TrackNames, Transport, !SubscribeMessages, Rand} {C : Type} `{!ClientManagerI C}.
Abbreviation World := (World C).

#[global] Instance manager_callbacks : PeerManagerI World := {|
  m_NodeReceived := NodeReceived;
  m_SessionChanged := SessionChanged;
  m_InfoBaseSyncPeer := InfoBaseSyncPeer;
  m_SnsReceived := SnsReceived;
  m_SubscribeInfoReceived := SubscribeInfoReceived;
  m_AnnounceInfoReceived := AnnounceInfoReceived;
  m_ForwardPeerData := ForwardPeerData;
  m_CloseStream := Manager_CloseStream;
|}.

(** [std::make_shared<PeerSession>(...)], at an address that is not in use. *)
Definition new_session (garbage : Z * Z) (is_inbound : bool) (conn_id : Z) (remote : TransportRemote) :
    ST World SessRef :=
  w ← get;
  let r := fresh (dom (sessions w)) in
  modify (set_sessions <[r := PeerSession_make garbage is_inbound conn_id (pm_node_info_ w) remote]>) ;;
  mret r.

Definition try_emplace {A} (k : Z) (a : A) (m : gmap Z A) : gmap Z A :=
  match m !! k with Some _ => m | None => <[k := a]> m end.

(** [CreatePeerSession(peer_config)] *)
Definition CreatePeerSession (garbage : Z * Z) (peer_config : TransportRemote) : ST World unit :=
  r ← new_session garbage false 0 peer_config;
  on_session r Session_Connect ;;
  s ← the_session r;
  modify (set_client (try_emplace (GetSessionId s) r)) ;;
  modify collect.

(** The status the manager derives for a server session. *)
Definition server_status (status : TransportStatus) : StatusValue :=
  match status with
  | kReady | kConnecting | kOtherStatus => kStatusConnected
  | _ => kStatusDisconnected
  end.

(** [OnConnectionStatus(conn_id, status)]: the session is erased whatever the
    status. *)
Definition Manager_OnConnectionStatus (conn_id : Z) (status : TransportStatus) : ST World unit :=
  w ← get;
  match server_peer_sessions_ w !! conn_id with
  | None => mret tt
  | Some r =>
      s ← the_session r;
      SessionChanged (GetSessionId s) (server_status status) (remote_node_info_ s) ;;
      modify (set_server (delete conn_id)) ;;
      modify collect
  end.

(** [OnNewConnection(conn_id, remote)] *)
Definition Manager_OnNewConnection (garbage : Z * Z) (conn_id : Z) (remote : TransportRemote) : ST World unit :=
  w ← get;
  match server_peer_sessions_ w !! conn_id with
  | Some _ => mret tt
  | None =>
      r ← new_session garbage true conn_id remote;
      modify (set_server <[conn_id := r]>) ;;
      on_session r (modify_self (set_transport true)) ;;
      on_session r Session_Connect
  end.

(** The events that are passed on to the server session of the connection. *)
Definition to_server_session (conn_id : Z) (m : SessRef → ST World unit) : ST World unit :=
  w ← get;
  match server_peer_sessions_ w !! conn_id with
  | Some r => m r
  | None => mret tt
  end.

Definition Manager_OnRecvStream (conn_id stream_id : Z) (data_ctx_id : option Z) (is_bidir : bool) : ST World unit :=
  to_server_session conn_id (λ r, Session_OnRecvStream r conn_id stream_id data_ctx_id is_bidir).

Definition Manager_OnRecvDgram (conn_id : Z) (dgrams : list (list Z)) : ST World unit :=
  to_server_session conn_id (λ r, Session_OnRecvDgram r dgrams).

Definition Manager_OnStreamClosed (conn_id stream_id : Z) (flag : StreamClosedFlag) : ST World unit :=
  to_server_session conn_id (λ r, Session_OnStreamClosed r conn_id stream_id flag).

(** One session of the reconnection round; the ids to remove are collected. *)
Definition check_session (remove_peer_sess : list Z) (e : Z * SessRef) : ST World (list Z) :=
  s ← the_session e.2;
  if decide (Status s = kStatusDisconnected) then
    on_session e.2 Session_Connect ;;
    s ← the_session e.2;
    modify (set_client (try_emplace (GetSessionId s) e.2)) ;;
    mret (remove_peer_sess ++ [e.1])
  else mret remove_peer_sess.

(** A round of CheckThread whose interval has elapsed. *)
Definition check_round : ST World unit :=
  w ← get;
  remove_peer_sess ← fold_each (entries (client_peer_sessions_ w)) [] check_session;
  for_each remove_peer_sess (λ id, modify (set_client (delete id))) ;;
  modify collect.

(** The interval the thread uses. *)
Definition check_interval (interval_ms : Z) : Z := if decide (interval_ms < 2000) then 2000 else interval_ms.

(** A turn of the loop of [CheckThread(interval_ms)], [elapsed] milliseconds
    after the last round; [false] when the thread ends. *)
Definition CheckThread (interval_ms elapsed : Z) : ST World bool :=
  w ← get;
  if stop_ w then mret false
  else (if decide (check_interval interval_ms ≤ elapsed) then check_round else mret tt) ;; mret true.

(** The constructor, after the server transport has become ready: the node's
    own info and a session per configured peer.  [std_hash] is
    [std::hash<std::string>]. *)
Definition PeerManager_node (std_hash : list Z → Z) (relay_id : list Z) (node_type : Z) : NodeInfo :=
  mkNodeInfo (std_hash relay_id) node_type relay_id 0 0 [].

Definition PeerManager_make (garbage : Z * Z) (node : NodeInfo) (ib : InfoBase) (st : RelayState)
    (peers : list TransportRemote) (t : Trace) (c : C) : outcome unit * World :=
  for_each peers (CreatePeerSession garbage)
    (mkWorld ∅ ∅ t ib ∅ ∅ node false false false st false 0 c).

(** The destructor, up to the join of the check thread.  A session that goes
    gives up its transport, which closes the connection. *)
Definition PeerManager_destroy : ST World unit :=
  modify (set_stop true) ;;
  modify (set_client (λ _, ∅)) ;;
  modify (set_server (λ _, ∅)) ;;
  modify collect.

(** The destructor leaves no session behind, every pointer to one is null from
    then on, and the thread it joins ends without another round. *)
Lemma PeerManager_destroy_ok w :
  ∃ w', PeerManager_destroy w = (Ok tt, w') ∧ sessions w' = ∅ ∧ trace w' = trace w ∧
    info_base_ w' = info_base_ w ∧ (∀ p, lock_ptr p w' = (Ok None, w')) ∧
    ∀ interval_ms elapsed, CheckThread interval_ms elapsed w' = (Ok false, w').
Proof.
  eexists. split; [reflexivity|]. cbn [sessions trace info_base_ collect set_sessions set_server set_client set_stop].
  assert (∀ m : gmap SessRef PeerSession, filter (λ e, e.1 ∈ (map_to_list (∅ : gmap Z SessRef)).*2 ++
    (map_to_list (∅ : gmap Z SessRef)).*2) m = ∅) as Hnone.
  { intros m. apply map_empty. intros r. apply map_lookup_filter_None. right. intros s _. apply not_elem_of_nil. }
  split_and!; [apply Hnone|done|done| |done].
  intros [r|]; [|done]. unfold lock_ptr, gets, collect. cbn. rewrite Hnone, lookup_empty, decide_False; [done|by intros []].
Qed.

(** ** Runs *)

(** What the threads of the process do with the peering state, one event at a
    time: the transport's events, on the sessions that dialled out and on those
    that were accepted, the reconnection round and the client manager's
    requests. *)
Inductive PeerEvent :=
  | ev_new_connection (garbage : Z * Z) (conn_id : Z) (remote : TransportRemote)
  | ev_server_status (conn_id : Z) (status : TransportStatus)
  | ev_session_status (r : SessRef) (status : TransportStatus)
  | ev_recv_stream (r : SessRef) (conn_id stream_id : Z) (data_ctx_id : option Z) (is_bidir : bool)
  | ev_recv_dgram (r : SessRef) (dgrams : list (list Z))
  | ev_stream_closed (r : SessRef) (conn_id stream_id : Z) (flag : StreamClosedFlag)
  | ev_metrics (r : SessRef) (srtt_us : Z)
  | ev_check_round
  | ev_client_subscribe (tfn : FullTrackName) (subscribe_data : list Z)
  | ev_client_subscribe_update (tfn : FullTrackName) (new_group_request_id : option Z)
  | ev_client_unsubscribe (track_fullname_hash : Z)
  | ev_client_announce (tfn : FullTrackName) (withdraw publish_namespace : bool)
  | ev_client_data (track_full_name_hash priority ttl type group_id subgroup_id : Z) (data : list Z)
  | ev_end_subgroup (track_full_name_hash group_id subgroup_id : Z) (reset : bool).

Definition run_event (ev : PeerEvent) : ST World unit :=
  match ev with
  | ev_new_connection g conn remote => Manager_OnNewConnection g conn remote
  | ev_server_status conn status => Manager_OnConnectionStatus conn status
  | ev_session_status r status => Session_OnConnectionStatus r status
  | ev_recv_stream r conn stream ctx bidir => Session_OnRecvStream r conn stream ctx bidir
  | ev_recv_dgram r dgrams => Session_OnRecvDgram r dgrams
  | ev_stream_closed r conn stream flag => Session_OnStreamClosed r conn stream flag
  | ev_metrics r srtt => Session_OnConnectionMetricsSampled r srtt
  | ev_check_round => check_round
  | ev_client_subscribe tfn data => ClientSubscribe tfn data
  | ev_client_subscribe_update tfn ngr => ClientSubscribeUpdate tfn ngr
  | ev_client_unsubscribe h => ClientUnsubscribe h
  | ev_client_announce tfn w p => ClientAnnounce tfn w p
  | ev_client_data h p ttl ty g sg data => ClientDataRecv h p ttl ty g sg data
  | ev_end_subgroup h g sg reset => EndSubgroup h g sg reset
  end.
End events.
