(* ===== verification/PeerFrames.v ===== *)
(** * What peering leaves alone

    The peer manager works on its own part of the relay: sessions, the
    transport, the information base and its locks.  The client's part changes
    only through the client manager's interface.  For any preorder on the
    relay's states that ignores the peer manager's part and that the client
    manager's operations respect, every event of peering respects it. *)

From S2P Require Import Prelude Common Quicr State NodeInfo DataHeader SubscribeInfo SubscribeNodeSet AnnounceInfo InfoBase Transport PeerSession PeerSessionEvents PeerSessionControl PeerWorld PeerManager PeerForwarding PeerEvents.

Section frames.
Context `{TrackNames} {C : Type}.
Abbreviation World := (World C).

(** The relation does not look at the peer manager's part. *)
Class PeerFrame (R : World → World → Prop) := {
  pf_sessions f w : R w (set_sessions f w);
  pf_rx f w : R w (set_rx_contexts f w);
  pf_trace t w : R w (set_trace t w);
  pf_info_base ib w : R w (set_info_base ib w);
  pf_server f w : R w (set_server f w);
  pf_client f w : R w (set_client f w);
  pf_pm_mutex b w : R w (set_pm_mutex b w);
  pf_state_mutex b w : R w (set_state_mutex b w);
  pf_rand n w : R w (set_rand_calls n w);
}.

(** The client's state and the relay's tables. *)
Definition client_part (w : World) : RelayState * C := (state_ w, client w).
#[global] Instance client_part_frame : PeerFrame (same client_part).
Proof. by split. Qed.

Section rules.
Context (R : World → World → Prop) `{!PreOrder R, !PeerFrame R}.

Lemma always_on_session {A} r (m : ST Sess A) : always R (on_session r m).
Proof.
  intros w. unfold leaves, on_session. simpl. destruct (sessions w !! r) as [s|]; simpl; [|done].
  destruct (m (s, trace w)) as [[a|e|] [s' t']]; simpl; [| |done]; (etrans; [apply (pf_trace t')|apply pf_sessions]).
Qed.
Lemma always_the_session r : always R (the_session r).
Proof. apply always_on_session. Qed.
Lemma always_on_ib {A} (m : ST InfoBase A) : always R (on_ib m).
Proof. apply always_zoom. intros; apply pf_info_base. Qed.
Lemma always_on_nodes {A} (m : (SessRef → option Z) → ST InfoBase A) : always R (on_nodes m).
Proof. intros w. apply always_on_ib. Qed.
Lemma always_with_pm_lock {A} (m : ST World A) : always R m → always R (with_pm_lock m).
Proof.
  intros Hm w. unfold leaves, with_pm_lock. destruct (pm_mutex_ w); [done|].
  by apply (always_bracket R m (set_pm_mutex true) (set_pm_mutex false) w); [apply pf_pm_mutex..|].
Qed.
Lemma always_with_ib_lock {A} (m : ST World A) : always R m → always R (with_ib_lock m).
Proof.
  intros Hm w. unfold leaves, with_ib_lock. destruct (mutex_ _); [done|].
  by apply (always_bracket R m (λ w, set_info_base (set_mutex true (info_base_ w)) w)
    (λ w, set_info_base (set_mutex false (info_base_ w)) w) w); [intros; apply pf_info_base..|].
Qed.
Lemma always_with_state_lock {A} (m : ST World A) : always R m → always R (with_state_lock m).
Proof.
  intros Hm w. unfold leaves, with_state_lock. destruct (state_mutex w); [done|].
  by apply (always_bracket R m (set_state_mutex true) (set_state_mutex false) w); [apply pf_state_mutex..|].
Qed.
Lemma always_next_rand `{Rand} : always R next_rand.
Proof. intros w. apply pf_rand. Qed.
Lemma always_lock_ptr p : always R (lock_ptr p).
Proof. apply always_gets, _. Qed.
Lemma always_lift_outcome {A} (o : outcome A) : always R (lift_outcome o).
Proof. intros w. unfold leaves, lift_outcome. by destruct o. Qed.
Lemma always_set_sessions f : always R (modify (set_sessions f)).
Proof. apply always_modify. apply pf_sessions. Qed.
Lemma always_set_client f : always R (modify (set_client f)).
Proof. apply always_modify. apply pf_client. Qed.
Lemma always_set_server f : always R (modify (set_server f)).
Proof. apply always_modify. apply pf_server. Qed.
Lemma always_collect : always R (modify collect).
Proof. apply always_modify. intros w. apply pf_sessions. Qed.
Lemma always_get_any key : always R (get_any key).
Proof. unfold get_any. frame. Qed.
Lemma always_set_any key a : always R (set_any key a).
Proof.
  unfold set_any. frame. apply always_modify. intros w. apply pf_rx.
Qed.
Lemma always_set_rx key rx : always R (modify (w_set_rx key rx)).
Proof. apply always_modify. intros w. apply pf_rx. Qed.
Lemma always_cast_header a : always R (cast_header (W := World) a).
Proof. unfold cast_header. frame. Qed.
End rules.
End frames.

#[export] Hint Extern 0 (PeerFrame _) => typeclasses eauto : frame.
#[export] Hint Resolve always_on_session always_the_session always_on_ib always_on_nodes always_with_pm_lock
  always_with_ib_lock always_with_state_lock always_next_rand always_lock_ptr always_lift_outcome
  always_set_sessions always_set_client always_set_server always_collect always_get_any always_set_any
  always_set_rx always_cast_header : frame.

(** ** Operations that do not call the client manager *)

Section peer_ops.
Context `{UintVar, TrackNames, Transport, !SubscribeMessages, Rand} {C : Type}.
Context (R : World C → World C → Prop) `{!PreOrder R, !PeerFrame R}.

Lemma always_GetPeerSession id : always R (GetPeerSession id).
Proof. unfold GetPeerSession. frame. Qed.
Hint Resolve always_GetPeerSession : frame.
Lemma always_PropagateNodeInfo ni wd : always R (PropagateNodeInfo ni wd).
Proof. unfold PropagateNodeInfo. apply always_with_pm_lock; frame. Qed.
Hint Resolve always_PropagateNodeInfo : frame.
Lemma always_NodeReceived id ni wd : always R (NodeReceived id ni wd).
Proof. unfold NodeReceived, ignore_exceptions. frame. Qed.
Lemma always_broadcast_subscribe skip si wd : always R (broadcast_subscribe skip si wd).
Proof. unfold broadcast_subscribe. frame. Qed.
Hint Resolve always_broadcast_subscribe : frame.
Lemma always_client_fib_try_emplace key e : always R (client_fib_try_emplace key e).
Proof. unfold client_fib_try_emplace. frame. Qed.
Hint Resolve always_client_fib_try_emplace : frame.
Lemma always_add_best_source ref si priority key : always R (add_best_source ref si priority key).
Proof. unfold add_best_source. frame. Qed.
Lemma always_ClientUnsubscribe hash : always R (ClientUnsubscribe hash).
Proof. unfold ClientUnsubscribe. frame. Qed.
Lemma always_update_subscribe_data ngr data : always R (update_subscribe_data ngr data).
Proof. unfold update_subscribe_data. frame. Qed.
Hint Resolve always_update_subscribe_data : frame.
Lemma always_ClientSubscribeUpdate name ngr : always R (ClientSubscribeUpdate name ngr).
Proof. unfold ClientSubscribeUpdate. frame. Qed.
Lemma always_ClientSubscribe name data : always R (ClientSubscribe name data).
Proof. unfold ClientSubscribe. frame. Qed.
Lemma always_broadcast_announce skip ai wd : always R (broadcast_announce skip ai wd).
Proof. unfold broadcast_announce. frame. Qed.

Lemma always_set_fib key out e : always R (set_fib key out e).
Proof. unfold set_fib. frame. Qed.
Hint Resolve always_set_fib : frame.
Lemma always_SnsReceived r sns wd : always R (SnsReceived r sns wd).
Proof.
  unfold SnsReceived. frame. apply always_with_pm_lock; [done..|]. unfold sns_withdraw, sns_remove_stale, sns_node, log_sns_update, sns_stale. frame.
Qed.
Lemma always_set_client_streams key f : always R (set_client_streams key f).
Proof. unfold set_client_streams. frame. Qed.
Hint Resolve always_set_client_streams : frame.
Lemma always_EndSubgroup hash g sg reset : always R (EndSubgroup hash g sg reset).
Proof. unfold EndSubgroup, end_entry. frame. Qed.
Lemma always_ClientDataRecv hash priority ttl type g sg data :
  always R (ClientDataRecv hash priority ttl type g sg data).
Proof. unfold ClientDataRecv, client_entry. frame. Qed.
Lemma always_InfoBaseSyncPeer r : always R (InfoBaseSyncPeer r).
Proof.
  unfold InfoBaseSyncPeer. apply always_with_pm_lock; [done..|]. unfold sync_node, sync_announce, sync_subscribe. frame.
Qed.
End peer_ops.

#[export] Hint Resolve always_NodeReceived always_broadcast_subscribe always_add_best_source always_ClientUnsubscribe
  always_ClientSubscribeUpdate always_ClientSubscribe always_broadcast_announce always_SnsReceived always_EndSubgroup
  always_ClientDataRecv always_InfoBaseSyncPeer always_GetPeerSession always_PropagateNodeInfo
  always_client_fib_try_emplace always_set_client_streams : frame.

(** ** Operations that do *)

Section client_ops.
Context `{UintVar, TrackNames, Transport, !SubscribeMessages, Rand} {C : Type}.
Context (R : World C → World C → Prop) `{!PreOrder R, !PeerFrame R}.

Class ProcessFrame `{!ClientProcessI C} := {
  process_frame th name priority ngr : always R (cm_ProcessSubscribe th name priority ngr);
}.

Lemma always_ClientAnnounce `{!ClientProcessI C, !ProcessFrame} name wd ns : always R (ClientAnnounce name wd ns).
Proof. unfold ClientAnnounce, ignore_exceptions, announce_matching. frame; apply process_frame. Qed.

Class ClientFrame `{!ClientManagerI C} := {
  client_process_frame :: ProcessFrame;
  frame_PeerUnsubscribeTrack hash : always R (cm_PeerUnsubscribeTrack hash);
  frame_RemoveOrPause hash : always R (cm_RemoveOrPausePublisherSubscribe hash);
  frame_PublishNamespaceReceived ns req : always R (cm_PublishNamespaceReceived ns req);
  frame_PublishNamespaceDoneReceived req : always R (cm_PublishNamespaceDoneReceived req);
  frame_PublishReceived attrs : always R (cm_PublishReceived attrs);
  frame_PublishDoneReceived : always R cm_PublishDoneReceived;
  frame_PeerDataReceived hash new stream data : always R (cm_PeerDataReceived hash new stream data);
  frame_PeerStreamClosed hash stream reset : always R (cm_PeerStreamClosed hash stream reset);
}.

Context `{!ClientManagerI C, !ClientFrame}.
Hint Resolve process_frame frame_PeerUnsubscribeTrack frame_RemoveOrPause frame_PublishNamespaceReceived
  frame_PublishNamespaceDoneReceived frame_PublishReceived frame_PublishDoneReceived frame_PeerDataReceived
  frame_PeerStreamClosed always_ClientAnnounce : frame.
Hint Extern 0 ClientFrame => typeclasses eauto : frame.
Hint Extern 0 ProcessFrame => typeclasses eauto : frame.

Lemma always_call_client {A} (m : ST (World C) A) : always R m → always R (call_client m).
Proof. intros Hm. unfold call_client. frame. Qed.
Hint Resolve always_call_client : frame.

Lemma always_SubscribeInfoReceived id si wd : always R (SubscribeInfoReceived id si wd).
Proof.
  unfold SubscribeInfoReceived, ignore_exceptions, subscribe_removed, subscribe_added. frame.
  apply always_with_state_lock; frame.
Qed.
Hint Resolve always_SubscribeInfoReceived : frame.

Lemma always_AnnounceInfoReceived id ai wd : always R (AnnounceInfoReceived id ai wd).
Proof. unfold AnnounceInfoReceived, ignore_exceptions, tell_client. frame; apply always_call_client; frame. Qed.

Lemma always_SessionChanged id status ni : always R (SessionChanged id status ni).
Proof.
  unfold SessionChanged. frame. apply always_with_ib_lock; [done..|]. unfold collect_subs, reroute. frame.
Qed.
Hint Resolve always_SessionChanged : frame.

Lemma always_ForwardPeerData id new stream dh data off flags :
  always R (ForwardPeerData id new stream dh data off flags).
Proof.
  unfold ForwardPeerData. apply always_with_ib_lock; [done..|].
  unfold forward_entry, forward_to_client, add_peer_stream. frame; apply always_call_client; frame.
Qed.

Lemma always_Manager_CloseStream id sns stream hash flag : always R (Manager_CloseStream id sns stream hash flag).
Proof.
  unfold Manager_CloseStream, close_client_entry. frame. apply always_with_pm_lock; [done..|]. unfold close_entry. frame.
Qed.
Hint Resolve always_AnnounceInfoReceived always_ForwardPeerData always_Manager_CloseStream : frame.

(** ** Events *)

Lemma always_session_changed r : always R (session_changed r).
Proof. unfold session_changed. frame. Qed.
Hint Resolve always_session_changed : frame.

Lemma always_ProcessControlMessage r : always R (ProcessControlMessage r).
Proof. unfold ProcessControlMessage, dispatch. frame; simpl; frame. Qed.
Hint Resolve always_ProcessControlMessage : frame.

Lemma always_ProcessReceivedData r st key data : always R (ProcessReceivedData r st key data).
Proof. unfold ProcessReceivedData. frame. Qed.
Hint Resolve always_ProcessReceivedData : frame.

Lemma always_recv_loop fuel r conn st ctx bidir i : always R (recv_loop fuel r conn st ctx bidir i).
Proof. revert i. induction fuel as [|fuel IH]; intros i; cbn [recv_loop]; frame. Qed.

Lemma always_Session_OnRecvStream r conn st ctx bidir : always R (Session_OnRecvStream r conn st ctx bidir).
Proof. unfold Session_OnRecvStream. frame. apply always_recv_loop. Qed.

Lemma always_new_session garbage inbound conn remote : always R (new_session garbage inbound conn remote).
Proof. unfold new_session. frame. Qed.
Hint Resolve always_new_session : frame.

(** Every event of peering respects what the client manager respects. *)
Lemma always_run_event ev : always R (run_event ev).
Proof.
  destruct ev; simpl.
  - unfold Manager_OnNewConnection. frame.
  - unfold Manager_OnConnectionStatus. frame.
  - unfold Session_OnConnectionStatus. frame.
  - apply always_Session_OnRecvStream.
  - unfold Session_OnRecvDgram. frame.
  - unfold Session_OnStreamClosed. frame.
  - unfold Session_OnConnectionMetricsSampled. frame.
  - unfold check_round, check_session. frame.
  - frame.
  - frame.
  - frame.
  - frame.
  - frame.
  - frame.
Qed.
End client_ops.
#[export] Hint Resolve always_ClientAnnounce always_run_event : frame.
#[export] Hint Extern 0 (ProcessFrame _) => typeclasses eauto : frame.
#[export] Hint Extern 0 (ClientFrame _) => typeclasses eauto : frame.
