(* ===== verification/SubscribeReject.v ===== *)
(** * Streams that leave their subgroup id to their first object
    (src/subscribe_handler.cc, SubscribeTrackHandler::StreamDataRecv)

    What becomes of the chunk that completes the first object of such a stream:
    its bytes are forwarded before they are parsed, and parsing throws. *)

From S2P Require Import Prelude Common Quicr State QuicrServer DataHeader InfoBase TrackRanking Transport PeerSession PeerSessionEvents PeerSessionControl PeerWorld ClientState PeerManager PeerForwarding PublishHandler NamespaceHandler SubscribeHandler ClientPublishers SubscribeHandlerSpec PeerFrames.

(** Documented behaviour of libquicr: a delivery timeout opens and closes no
    stream. *)
Class TimeoutLaw `{TrackNames, MoqMessages, !QuicrServer} := {
  timeout_streams t this ms h : q_StreamInfo (t ++ [Base_SetDeliveryTimeout this ms]) h = q_StreamInfo t h;
}.

Section reject.
Context `{UintVar, TrackNames, MoqMessages, GroupCache, !QuicrServer, Transport, !TimeoutLaw}.
Abbreviation World := (World ClientState).
Implicit Types w : World.
Variables (this : Ref) (stream_id : Z).

(** ** Forwarding to subscribers that wait for their first object *)

(** A subscriber's handler that has not been given an object of the subgroup. *)
Definition waits_for (t : QuicrTrace) (heap : gmap Ref PublishTrackHandler) (g sg : Z) (e : Z * option Ref) : Prop :=
  e.1 ≠ 0 → ∃ h, e.2 = Some h ∧ is_Some (heap !! h) ∧ ¬ in_pipeline t g sg h.

(** Peering, the subscriber 0, gets the bytes. *)
Definition to_peering (subs : gmap Z (option Ref)) (alias d_type g sg : Z) (data : list Z) : ST World unit :=
  if decide (is_Some (subs !! 0)) then send_to_peers this alias d_type g sg data else mret tt.

Lemma not_sent g sg h w :
  is_Some (pub_heap (client w) !! h) → ¬ in_pipeline (qtrace (client w)) g sg h →
  SentFirstObject h g sg w = (Ok false, w).
Proof.
  intros [p Hp] Hn. unfold SentFirstObject, the_pub, qget.
  rewrite (bind_ok (get ≫= _) _ w p w) by by rewrite (bind_ok get _ w w w eq_refl), Hp.
  rewrite (bind_ok (gets _) _ w _ w eq_refl). unfold mret, st_ret.
  destruct (find_key (u32 g) _) as [sgs|] eqn:Hg; [|done]. destruct (find_key (u32 sg) sgs) as [[id|]|] eqn:Hsg; [|done..].
  destruct Hn. by exists sgs, id.
Qed.

Lemma forward_to_waiting alias d_type new g sg data e w :
  e.1 ≠ 0 → waits_for (qtrace (client w)) (pub_heap (client w)) g sg e →
  forward_to this alias d_type new g sg data e w = (Ok tt, w).
Proof.
  intros Hc Hw. destruct (Hw Hc) as (h & Hh & Hl & Hn). unfold forward_to. rewrite decide_False by done. rewrite Hh.
  cbn [deref]. rewrite (bind_ok (mret h) _ w h w eq_refl). by rewrite (bind_ok _ _ _ _ _ (not_sent g sg h w Hl Hn)).
Qed.

(** Peering works on its own part of the relay. *)
Lemma send_to_peers_client alias d_type g sg data w o w' :
  send_to_peers this alias d_type g sg data w = (o, w') → o ≠ UB → client w' = client w.
Proof.
  intros Hrun Ho. assert (always (same client_part) (send_to_peers this alias d_type g sg data)) as Ha
    by (unfold send_to_peers, qget; frame).
  specialize (Ha w). unfold leaves in Ha. rewrite Hrun in Ha. by destruct o; [injection Ha..|].
Qed.

Lemma forward_all alias d_type new g sg data l w :
  NoDup l.*1 → (∀ e, e ∈ l → waits_for (qtrace (client w)) (pub_heap (client w)) g sg e) →
  for_each l (forward_to this alias d_type new g sg data) w =
  (if decide (0 ∈ l.*1) then send_to_peers this alias d_type g sg data else mret tt) w.
Proof.
  induction l as [|e l IH]; intros Hnd Hl; [done|]. rewrite fmap_cons in Hnd |- *. apply NoDup_cons in Hnd as [He Hnd].
  cbn [for_each]. destruct (decide (e.1 = 0)) as [Hz|Hz].
  - rewrite decide_True by (rewrite Hz; left).
    assert (forward_to this alias d_type new g sg data e = send_to_peers this alias d_type g sg data) as ->
      by (unfold forward_to; by rewrite decide_True).
    unfold mbind, st_bind. destruct (send_to_peers _ _ _ _ _ _ w) as [[[]|e'|] w1] eqn:Hrun; [|done..].
    pose proof (send_to_peers_client _ _ _ _ _ _ _ _ Hrun ltac:(done)) as Hc.
    apply for_each_skip. intros e' He'. apply forward_to_waiting.
    + intros Hz'. apply He. rewrite Hz, <- Hz'. by apply (list_elem_of_fmap_2 fst).
    + rewrite Hc. apply Hl. by right.
  - rewrite (bind_ok _ _ _ _ _ (forward_to_waiting alias d_type new g sg data e w Hz (Hl e ltac:(left)))).
    rewrite IH by (done || intros e' He'; apply Hl; by right).
    destruct (decide (0 ∈ l.*1)) as [Hin|Hin]; [by rewrite decide_True by (by right)|].
    rewrite decide_False; [done|]. by intros [|]%elem_of_cons.
Qed.
(** The delivery timeout that a new stream of a track without one sets. *)
Definition timeout_calls (new : bool) w : QuicrTrace :=
  if new && bool_decide (default kDefaultObjectTtl (q_DeliveryTimeout (qtrace (client w)) this) = 0)
  then [Base_SetDeliveryTimeout this (object_ttl_ (config_ (client w)))] else [].

Definition stream_type (new : bool) : Z := if new then DataType.kNewStream else DataType.kExistingStream.

Lemma timeout_waits new w t heap g sg e :
  waits_for t heap g sg e → waits_for (t ++ timeout_calls new w) heap g sg e.
Proof.
  intros Hw Hc. destruct (Hw Hc) as (h & Hh & Hl & Hn). exists h. split_and!; [done..|]. contradict Hn.
  unfold timeout_calls in Hn. case_match; [|by rewrite app_nil_r in Hn].
  destruct Hn as (sgs & id & Hn). exists sgs, id. by rewrite timeout_streams in Hn.
Qed.

Lemma forward_waiting new g sg data w s alias :
  sub_heap (client w) !! this = Some s → is_datagram_ s = false → sub_namespaces_ s = ∅ →
  q_TrackAlias (qtrace (client w)) this = Some alias →
  (∀ e, e ∈ entries (subscribers_ s) → waits_for (qtrace (client w)) (pub_heap (client w)) g sg e) →
  ForwardReceivedData this new g sg data w =
  to_peering (subscribers_ s) alias (stream_type new) g sg data (with_calls (timeout_calls new w) w).
Proof.
  intros Hs Hd Hns Ha Hall. unfold ForwardReceivedData.
  rewrite (bind_ok (qget _) _ w (Some alias) w) by (unfold qget, gets; by rewrite Ha).
  rewrite (bind_ok _ _ _ _ _ (the_sub_ok _ _ _ Hs)), (bind_ok (qget _) _ w _ w eq_refl), (bind_ok (gets _) _ w _ w eq_refl).
  rewrite Hd. cbn [negb andb].
  rewrite (bind_ok _ _ w tt (with_calls (timeout_calls new w) w)).
  2: { unfold timeout_calls. case_match; [done|]. by rewrite with_calls_nil. }
  rewrite namespace_handlers_none by done. rewrite (bind_ok (for_each [] _) _ _ tt _ eq_refl).
  rewrite forward_all.
  - unfold to_peering, stream_type. destruct (decide (is_Some (subscribers_ s !! 0))) as [[h Hh]|Hn].
    + rewrite decide_True; [done|]. apply list_elem_of_fmap. exists (0, h). split; [done|]. by apply elem_of_entries.
    + rewrite decide_False; [done|]. intros ([c h] & Hz & He)%list_elem_of_fmap. apply elem_of_entries in He.
      cbn in Hz. subst c. apply Hn. by exists h.
  - apply NoDup_entries.
  - intros e He. apply (timeout_waits new w (qtrace (client w))). by apply Hall.
Qed.
Lemma to_peering_client subs alias d_type g sg data w w' :
  to_peering subs alias d_type g sg data w = (Ok tt, w') → client w' = client w.
Proof.
  unfold to_peering. case_decide; [|by intros [= <-]]. intros Hrun. by apply (send_to_peers_client _ _ _ _ _ _ _ _ Hrun).
Qed.

(** ** The handler between the steps of a call *)

(** [w] is [w0] but for the handler, whose context of the stream is [c]. *)
Definition receiving (w0 : World) (subs : gmap Z (option Ref)) (c : StreamContext) w : Prop :=
  ∃ f s, w = set_client_state f w0 ∧ sub_heap (client w) !! this = Some s ∧
    qtrace (client w) = qtrace (client w0) ∧ pub_heap (client w) = pub_heap (client w0) ∧
    config_ (client w) = config_ (client w0) ∧ cache_ (client w) = cache_ (client w0) ∧
    subscribers_ s = subs ∧ sub_namespaces_ s = ∅ ∧ is_datagram_ s = false ∧ streams_ s !! stream_id = Some c.

Lemma receiving_modify w0 subs c f w : receiving w0 subs c w →
  ∃ w', modify_stream this stream_id f w = (Ok tt, w') ∧ receiving w0 subs (f c) w'.
Proof.
  intros (f0 & s & -> & Hs & Ht & Hp & Hcf & Hca & Hss & Hns & Hd & Hc). eexists. split; [reflexivity|].
  eexists (λ st, set_sub_heap _ (f0 st)), _. split; [reflexivity|]. simpl. rewrite lookup_alter_eq. simpl in Hs. rewrite Hs.
  split; [reflexivity|]. simpl. rewrite lookup_insert_eq, Hc. by split_and!.
Qed.

Lemma receiving_start w s : sub_heap (client w) !! this = Some s → sub_namespaces_ s = ∅ →
  ∃ w', (∀ B (m : ST World B), (modify_sub this (set_is_datagram false) ;; modify_stream this stream_id id ;; m) w = m w') ∧
    receiving w (subscribers_ s) (default StreamContext_empty (streams_ s !! stream_id)) w'.
Proof.
  intros Hs Hns. eexists. split; [reflexivity|]. eexists (λ st, set_sub_heap _ (set_sub_heap _ st)), _.
  split; [reflexivity|]. simpl. rewrite !lookup_alter_eq, Hs. split; [reflexivity|]. simpl. rewrite lookup_insert_eq.
  by split_and!.
Qed.

Lemma receiving_stream w0 subs c w : receiving w0 subs c w → the_stream this stream_id w = (Ok c, w).
Proof.
  intros (f0 & s & _ & Hs & _ & _ & _ & _ & _ & _ & _ & Hc). unfold the_stream.
  rewrite (bind_ok _ _ _ _ _ (the_sub_ok _ _ _ Hs)). by rewrite Hc.
Qed.

(** The next change of the stream's context. *)
Ltac modify_step Hw :=
  match goal with |- context [(modify_stream this stream_id ?f ≫= _) _] =>
    let w' := fresh "w" in let Hr := fresh "Hr" in let Hw' := fresh "Hw" in
    destruct (receiving_modify _ _ _ f _ Hw) as (w' & Hr & Hw'); rewrite (bind_ok _ _ _ _ _ Hr); clear Hr Hw; rename Hw' into Hw
  end.

(** ** Reading the object *)

(** Nobody was sent anything, and nothing was cached. *)
Definition nothing_sent w w' : Prop :=
  qtrace (client w') = qtrace (client w) ∧ trace w' = trace w ∧ cache_ (client w') = cache_ (client w).

Lemma read_object_rejects is_start w0 subs w c hdr properties obj rest :
  receiving w0 subs c w → buf_any c = Some hdr → sh_properties hdr = Some properties → sh_subgroup_id hdr = None →
  read_subgroup_object (set_properties properties (default subgroup_object_default (buf_any_b c))) (sc_buffer c)
    = (true, obj, rest) →
  ∃ w', read_object this is_start stream_id w = (Throw bad_optional_access, w') ∧ nothing_sent w0 w'.
Proof.
  intros Hr Hany Hprops Hsg Hread. unfold read_object. rewrite (bind_ok _ _ _ _ _ (receiving_stream _ _ _ _ Hr)).
  unfold stream_header. rewrite Hany. rewrite (bind_ok (mret hdr) _ w hdr w eq_refl).
  pose proof Hr as Hw. modify_step Hw. rewrite Hprops. cbn [deref]. rewrite (bind_ok (mret properties) _ _ properties _ eq_refl), Hread.
  modify_step Hw. unfold stream_object. rewrite (bind_ok _ _ _ _ _ (receiving_stream _ _ _ _ Hw)). cbv zeta.
  modify_step Hw. modify_step Hw. rewrite Hsg. eexists. split; [by apply bind_throw|].
  destruct Hr as (f & s & -> & _ & Ht & _ & _ & Hca & _), Hw as (f4 & s4 & -> & _ & Ht4 & _ & _ & Hca4 & _).
  unfold nothing_sent. by rewrite Ht4, Hca4.
Qed.
(** ** The whole call *)

(** The header of the stream and the bytes to parse, once the chunk is in the
    buffer. *)
Definition arrives (is_start : bool) (c : StreamContext) (data : list Z) (hdr : SubgroupHeader) (buffer : list Z) : Prop :=
  if is_start then read_subgroup_header subgroup_header_default data = (true, hdr, buffer)
  else buf_any c = Some hdr ∧ buffer = sc_buffer c ++ data.

(** The object that the parser goes on with. *)
Definition stored_object (is_start : bool) (c : StreamContext) : SubgroupObject :=
  default subgroup_object_default (if is_start && negb clear_keeps_object then None else buf_any_b c).

(** The group and the subgroup that the chunk is forwarded for; a subgroup that
    is not known yet counts as 0. *)
Definition forwarded_for (is_start : bool) (c : StreamContext) (hdr : SubgroupHeader) : Z * Z :=
  if is_start then (sh_group_id hdr, 0) else (current_group_id c, current_subgroup_id c).

(** The bytes that are forwarded: the chunk, with the header rewritten when the
    alias of the publisher is not the relay's. *)
Definition forwarded_bytes (t : QuicrTrace) (is_start : bool) (hdr : SubgroupHeader) (buffer data : list Z) (alias : Z) : list Z :=
  if is_start && bool_decide (default 0 (q_ReceivedTrackAlias t this) ≠ alias)
  then put_subgroup_header (set_track_alias alias hdr) ++ drop (length data - length buffer) data else data.

Lemma receiving_after w0 subs c w w1 calls : receiving w0 subs c w → client w1 = client (with_calls calls w) →
  receiving w1 subs c w1.
Proof.
  intros (f & s & _ & Hs & _ & _ & _ & _ & Hrest) Hc. exists id, s. split; [by destruct w1|]. rewrite Hc. split; [exact Hs|]. by split_and!; try apply Hrest.
Qed.

Lemma receiving_forward w0 subs c w new g sg data alias :
  receiving w0 subs c w → q_TrackAlias (qtrace (client w0)) this = Some alias →
  (∀ e, e ∈ entries subs → waits_for (qtrace (client w0)) (pub_heap (client w0)) g sg e) →
  ForwardReceivedData this new g sg data w =
    to_peering subs alias (stream_type new) g sg data (with_calls (timeout_calls new w0) w) ∧
  ∀ w1, to_peering subs alias (stream_type new) g sg data (with_calls (timeout_calls new w0) w) = (Ok tt, w1) →
    receiving w1 subs c w1.
Proof.
  intros Hr Ha Hall. split.
  - destruct Hr as (f & s & _ & Hs & Ht & Hp & Hcf & _ & Hss & Hns & Hd & _). subst subs.
    rewrite (forward_waiting new g sg data w s alias); [|done..|by rewrite Ht|by rewrite Ht, Hp].
    unfold timeout_calls. by rewrite Ht, Hcf.
  - intros w1 Hrun. apply (receiving_after w0 subs c w w1 (timeout_calls new w0) Hr). by apply to_peering_client in Hrun.
Qed.

(** Where the handler is when it has forwarded the chunk and has it in the
    buffer. *)
Definition ready_to_parse (is_start : bool) (c : StreamContext) (hdr : SubgroupHeader) (buffer : list Z)
    (c' : StreamContext) : Prop :=
  (∃ hdr', buf_any c' = Some hdr' ∧ sh_properties hdr' = sh_properties hdr ∧ sh_subgroup_id hdr' = sh_subgroup_id hdr) ∧
  sc_buffer c' = buffer ∧ default subgroup_object_default (buf_any_b c') = stored_object is_start c.

(** [m] forwards the chunk to peering and nobody else, and is ready to parse it
    when peering is done. *)
Definition forwards (w0 : World) subs is_start c hdr buffer data alias (m : ST World bool) w : Prop :=
  let '(g, sg) := forwarded_for is_start c hdr in
  ∃ f, qtrace (f (client w0)) = qtrace (client w0) ++ timeout_calls is_start w0 ∧ cache_ (f (client w0)) = cache_ (client w0) ∧
    ∀ w1, to_peering subs alias (stream_type is_start) g sg
        (forwarded_bytes (qtrace (client w0)) is_start hdr buffer data alias) (set_client_state f w0) = (Ok tt, w1) →
      ∃ c' w2, m w = (Ok true, w2) ∧ receiving w1 subs c' w2 ∧ ready_to_parse is_start c hdr buffer c'.

Lemma receiving_calls w0 subs c w calls : receiving w0 subs c w → ∃ f, with_calls calls w = set_client_state f w0 ∧
  qtrace (f (client w0)) = qtrace (client w0) ++ calls ∧ cache_ (f (client w0)) = cache_ (client w0).
Proof.
  intros (f & s & -> & _ & Ht & _ & _ & Hca & _). simpl in Ht, Hca.
  exists (λ st, set_qtrace (qtrace (f st) ++ calls) (f st)). split; [done|]. simpl. by rewrite Ht.
Qed.

Lemma forward_then w0 subs c w new g sg data alias h :
  receiving w0 subs c w → q_TrackAlias (qtrace (client w0)) this = Some alias →
  (∀ e, e ∈ entries subs → waits_for (qtrace (client w0)) (pub_heap (client w0)) g sg e) →
  ∃ f, qtrace (f (client w0)) = qtrace (client w0) ++ timeout_calls new w0 ∧ cache_ (f (client w0)) = cache_ (client w0) ∧
    ∀ w1, to_peering subs alias (stream_type new) g sg data (set_client_state f w0) = (Ok tt, w1) →
      ∃ w2, (ForwardReceivedData this new g sg data ;; modify_stream this stream_id h ;; mret true) w = (Ok true, w2) ∧
        receiving w1 subs (h c) w2.
Proof.
  intros Hr Ha Hall. destruct (receiving_calls _ _ _ _ (timeout_calls new w0) Hr) as (f & Hf & Hq & Hca).
  exists f. split_and!; [done..|]. intros w1. rewrite <- Hf. intros Hrun.
  destruct (receiving_forward w0 subs c w new g sg data alias Hr Ha Hall) as [Heq Hafter].
  specialize (Hafter w1 Hrun). rewrite (bind_ok _ _ w tt w1) by (by rewrite Heq). modify_step Hafter. by eexists.
Qed.

Lemma continue_forwards w0 subs c w hdr buffer data alias :
  receiving w0 subs c w → arrives false c data hdr buffer → q_TrackAlias (qtrace (client w0)) this = Some alias →
  (∀ e, e ∈ entries subs → waits_for (qtrace (client w0)) (pub_heap (client w0)) (current_group_id c) (current_subgroup_id c) e) →
  forwards w0 subs false c hdr buffer data alias
    (c ← the_stream this stream_id;
     ForwardReceivedData this false (current_group_id c) (current_subgroup_id c) data ;;
     modify_stream this stream_id (λ c, set_sc_buffer (sc_buffer c ++ data) c) ;;
     mret true) w.
Proof.
  intros Hr [Hany ->] Ha Hall. unfold forwards. cbn [forwarded_for].
  destruct (forward_then w0 subs c w false _ _ data alias (λ c, set_sc_buffer (sc_buffer c ++ data) c) Hr Ha Hall)
    as (f & Hq & Hca & Hf).
  exists f. split_and!; [done..|]. intros w1 Hrun. destruct (Hf w1 Hrun) as (w2 & Hr2 & Hw2).
  rewrite (bind_ok _ _ _ _ _ (receiving_stream _ _ _ _ Hr)). eexists _, w2. split_and!; [exact Hr2|exact Hw2|].
  split; [by exists hdr|done].
Qed.

Lemma start_forwards w0 subs c w hdr buffer data alias :
  receiving w0 subs c w → arrives true c data hdr buffer → sh_subgroup_id hdr = None →
  q_TrackAlias (qtrace (client w0)) this = Some alias →
  (∀ e, e ∈ entries subs → waits_for (qtrace (client w0)) (pub_heap (client w0)) (sh_group_id hdr) 0 e) →
  forwards w0 subs true c hdr buffer data alias (start_stream this stream_id data) w.
Proof.
  intros Hr Hhdr Hsg Ha Hall. unfold forwards, start_stream. cbn [forwarded_for]. cbn [arrives] in Hhdr.
  modify_step Hr. rewrite Hhdr. modify_step Hr. cbn [negb]. rename w2 into w3.
  match type of Hr with receiving _ _ ?c0 ?w2 =>
    assert (qtrace (client w2) = qtrace (client w0)) as Ht by (by destruct Hr as (? & ? & _ & _ & ? & _)); set (c3 := c0) in Hr end.
  unfold qget. rewrite !(bind_ok (gets _) _ _ _ _ eq_refl), Ht, Ha. cbn [value]. rewrite (bind_ok (mret alias) _ _ alias _ eq_refl).
  rewrite Hsg. cbn [default from_option]. unfold forwarded_bytes. cbn [andb]. set (h := set_current (sh_group_id hdr) 0).
  assert (∀ hdr', sh_subgroup_id hdr' = sh_subgroup_id hdr → sh_properties hdr' = sh_properties hdr →
    ready_to_parse true c hdr buffer (h (set_any_header (Some hdr') c3))) as Hready
    by (intros hdr' ??; split; [by exists hdr'|]; split; [done|]; unfold stored_object; cbn; by destruct clear_keeps_object).
  destruct (decide (default 0 (q_ReceivedTrackAlias (qtrace (client w0)) this) ≠ alias)) as [Hne|Heq].
  - rewrite bool_decide_eq_true_2 by done. set (set_hdr := set_any_header (Some (set_track_alias alias hdr))).
    destruct (receiving_modify _ _ _ set_hdr _ Hr) as (w4 & Hr4 & Hw4).
    destruct (forward_then w0 subs (set_hdr c3) w4 true (sh_group_id hdr) 0
      (put_subgroup_header (set_track_alias alias hdr) ++ drop (length data - length buffer) data) alias h Hw4 Ha Hall)
      as (f & Hq & Hca & Hf).
    exists f. split_and!; [done..|]. intros w1' Hrun. destruct (Hf w1' Hrun) as (w5 & Hr5 & Hw5).
    exists (h (set_hdr c3)), w5. split_and!; [|done|by apply Hready].
    etrans; [|exact Hr5]. unfold mbind, st_bind. by rewrite Hr4.
  - rewrite bool_decide_eq_false_2 by done.
    destruct (forward_then w0 subs c3 w3 true (sh_group_id hdr) 0 data alias h Hr Ha Hall) as (f & Hq & Hca & Hf).
    exists f. split_and!; [done..|]. intros w1' Hrun. destruct (Hf w1' Hrun) as (w5 & Hr5 & Hw5).
    exists (h c3), w5. split_and!; [exact Hr5|done|by apply (Hready hdr)].
Qed.
(** C36: the objects of a stream whose header leaves the subgroup id to the first
    object reach no client and no cache, only peering.  Take a call of
    StreamDataRecv whose chunk completes an object, with the header in it or
    before it, for a handler that no namespace has subscribed to and whose client
    subscribers have not been given an object of the group and subgroup that the
    chunk is forwarded for (subgroup 0 on a new stream).  The call forwards the
    raw bytes before it parses them: peering gets them when it is subscribed (as
    connection 0), the clients do not.  When peering has taken them, the call
    parses the object and throws bad_optional_access, since it takes the subgroup
    id before it would set it; from there on libquicr is not called, peers are
    sent nothing and nothing is cached.  The one call to libquicr in all is the
    delivery timeout of a new stream of a track without one. *)
Theorem first_object_subgroup_rejected is_start w s hdr buffer data alias properties obj rest :
  let c := default StreamContext_empty (streams_ s !! stream_id) in
  let '(g, sg) := forwarded_for is_start c hdr in
  sub_heap (client w) !! this = Some s → sub_namespaces_ s = ∅ → q_TrackAlias (qtrace (client w)) this = Some alias →
  (∀ conn h, subscribers_ s !! conn = Some h → waits_for (qtrace (client w)) (pub_heap (client w)) g sg (conn, h)) →
  arrives is_start c data hdr buffer → sh_properties hdr = Some properties → sh_subgroup_id hdr = None →
  read_subgroup_object (set_properties properties (stored_object is_start c)) buffer = (true, obj, rest) →
  ∃ f, qtrace (f (client w)) = qtrace (client w) ++ timeout_calls is_start w ∧ cache_ (f (client w)) = cache_ (client w) ∧
    ∀ w1, to_peering (subscribers_ s) alias (stream_type is_start) g sg
        (forwarded_bytes (qtrace (client w)) is_start hdr buffer data alias) (set_client_state f w) = (Ok tt, w1) →
      client w1 = f (client w) ∧
      ∃ w2, StreamDataRecv this is_start stream_id (Some data) w = (Throw bad_optional_access, w2) ∧ nothing_sent w1 w2.
Proof.
  intros c. destruct (forwarded_for is_start c hdr) as [g sg] eqn:Hfor.
  intros Hs Hns Ha Hall Harr Hprops Hsg Hread. destruct (receiving_start w s Hs Hns) as (w0 & Hstart & Hr).
  assert (∃ m, (∀ w, StreamDataRecv this is_start stream_id (Some data) w =
      (modify_sub this (set_is_datagram false) ;; modify_stream this stream_id id ;;
       go_on ← m; if (go_on : bool) then read_object this is_start stream_id else mret tt) w) ∧
    forwards w (subscribers_ s) is_start c hdr buffer data alias m w0) as (m & Hm & Hf).
  { assert (∀ e, e ∈ entries (subscribers_ s) → waits_for (qtrace (client w)) (pub_heap (client w)) g sg e) as Hall'
      by (intros [conn h] He%elem_of_entries; by apply Hall).
    destruct is_start; injection Hfor as <- <-.
    - exists (start_stream this stream_id data). split; [done|by apply start_forwards].
    - eexists. split; [|by apply continue_forwards]. done. }
  unfold forwards in Hf. rewrite Hfor in Hf. destruct Hf as (f & Hq & Hca & Hf). exists f. split_and!; [done..|].
  intros w1 Hrun. split; [by apply to_peering_client in Hrun|].
  destruct (Hf w1 Hrun) as (c' & w2 & Hr2 & Hw2 & (hdr' & Hany & Hp' & Hs') & Hbuf & Hobj).
  rewrite Hm, Hstart, (bind_ok _ _ _ _ _ Hr2).
  apply (read_object_rejects is_start w1 (subscribers_ s) w2 c' hdr' properties obj rest Hw2 Hany); [congruence..|].
  by rewrite Hobj, Hbuf.
Qed.
End reject.

(** ** Witness *)

Import Quicr.Demo DemoTransport DemoRelay DemoServer DemoCache.

#[export] Instance demo_timeout_law : TimeoutLaw.
Proof. split. intros t this ms h. simpl. by rewrite foldl_app. Qed.

(** The track 101 with peering and a subscriber, and a new stream for group 5
    with an object of one byte. *)
Definition demo_peered : SubscribeTrackHandler := set_subscribers (λ _, {[0 := None; 32 := Some 2]}) demo_subscribed.
Definition demo_data : list Z := [101; 5; 255; 0; 0; 1; 8].

(** No peer has asked for the track. *)
Lemma nobody_listens this alias d_type g sg data w h t :
  qtrace (client w) = t → client_fib_ (info_base_ w) = ∅ →
  DataHeader_Serialize (client_header alias (u8 (q_Priority t this)) (u32 (default kDefaultObjectTtl (q_DeliveryTimeout t this))) d_type)
    = Ok h →
  send_to_peers this alias d_type g sg data w = (Ok tt, w).
Proof.
  intros <- Hfib Hh. unfold send_to_peers, qget. rewrite !(bind_ok (gets _) _ w _ w eq_refl). unfold ClientDataRecv.
  rewrite Hh. rewrite (bind_ok (lift_outcome _) _ w h w eq_refl), (bind_ok get _ w w w eq_refl), Hfib. reflexivity.
Qed.

Lemma first_object_subgroup_rejected_witness :
  ∃ w2, StreamDataRecv 20 true 8 (Some demo_data) (relay_with (demo_receiving demo_peered) InfoBase_empty) =
      (Throw bad_optional_access, w2).
Proof.
  destruct (first_object_subgroup_rejected 20 8 true (relay_with (demo_receiving demo_peered) InfoBase_empty) demo_peered
    (mkSubgroupHeader _ 101 5 None 0 (Some true)) [0; 1; 8] demo_data 101 true
    (mkSubgroupObject _ 0 (Some true) 0 None None [8]) []) as (f & Hq & _ & Hf).
  - vm_refl.
  - vm_refl.
  - vm_refl.
  - assert (map_Forall (λ conn h, conn ≠ 0 → is_Some (h ≫= λ h', pub_heap (demo_receiving demo_peered) !! h') ∧
      (λ h', find_key 5 (q_StreamInfo (qtrace (demo_receiving demo_peered)) h')) <$> h = Some None)
      (subscribers_ demo_peered)) as Hall by decide_now.
    intros conn o Ho Hc. destruct (Hall conn o Ho Hc) as [Hp Hn]. destruct o as [h'|]; [|by destruct Hp].
    exists h'. split_and!; [done|exact Hp|]. intros (sgs & id & Hg & _). injection Hn as Hn.
    by pose proof (eq_trans (eq_sym Hn) Hg).
  - unfold arrives. vm_refl.
  - vm_refl.
  - vm_refl.
  - vm_refl.
  - edestruct Hf as (_ & w2 & Hrun & _); [|by exists w2].
    eapply nobody_listens; [exact Hq|reflexivity|vm_compute; reflexivity].
Defined.
