(* ===== verification/RelayEvents.v ===== *)
(** * The relay: events of clients, peers and threads

    Everything that happens to the relay, one event at a time: what libquicr
    tells the client manager and its handlers, the steps of the fetch threads,
    the clock, and the events of peering, which call the client manager through
    the interface it implements.  When libquicr gives up a subscribe handler, the
    handler is destroyed unless the tables of the relay still own it. *)

From S2P Require Import Prelude Common Quicr State QuicrServer DataHeader TrackRanking InfoBase Transport PeerSession PeerSessionEvents PeerWorld ClientState PeerManager PeerForwarding PublishHandler NamespaceHandler SubscribeHandler ClientManager ClientPublish FetchHandler ClientFetch PeerEvents.

Section relay.
Context `{UintVar, TrackNames, MoqMessages, GroupCache, !QuicrServer, Transport, !SubscribeMessages, Rand}.
Abbreviation World := (World ClientState).

Inductive RelayEvent :=
  (* the client manager *)
  | ev_subscribe (conn request_id : Z) (name : FullTrackName) (attrs : SubscribeAttributes)
  | ev_unsubscribe (conn request_id : Z)
  | ev_publish (conn request_id : Z) (attrs : PublishAttributes) (start : Location)
  | ev_publish_done (conn request_id : Z)
  | ev_publish_namespace (conn : Z) (track_namespace : TrackNamespace) (request_id : Z)
  | ev_publish_namespace_done (conn request_id : Z)
  | ev_subscribe_namespace (conn data_ctx_id : Z) (prefix : TrackNamespace) (request_id : Z) (filter : option TrackFilter)
  | ev_unsubscribe_namespace (conn : Z) (prefix : TrackNamespace)
  | ev_connection_status (conn : Z) (status : ConnectionStatus)
  | ev_track_status (conn request_id : Z) (name : FullTrackName)
  | ev_new_group (name : FullTrackName) (group_id : Z)
  | ev_standalone_fetch (conn request_id : Z) (name : FullTrackName) (priority : Z) (group_order : option Z)
      (start : Location) (end_group : Z) (end_object : option Z)
  | ev_joining_fetch (conn request_id : Z) (name : FullTrackName) (priority : Z) (group_order : option Z)
      (relative : bool) (joining_start : Z)
  | ev_fetch_cancel (conn request_id : Z)
  (* the handlers of received tracks and fetches *)
  | ev_sub_stream (h : Ref) (is_start : bool) (stream_id : Z) (data : option (list Z))
  | ev_sub_datagram (h : Ref) (data : list Z)
  | ev_sub_stream_closed (h : Ref) (stream_id : Z) (use_reset : bool)
  | ev_sub_status (h : Ref) (status : SubscribeStatus)
  | ev_fetch_stream (h : Ref) (is_start : bool) (stream_id : Z) (data : list Z)
  | ev_fetch_status (h : Ref) (status : FetchStatus)
  | ev_pub_status (h : Ref) (status : PublishStatus)
  | ev_let_go (h : Ref)     (* libquicr gives up a subscribe handler *)
  (* threads, time and the network *)
  | ev_fetch_step (h : Ref)
  | ev_time (ms : Z)
  | ev_input (what : list Z)
  | ev_peer (ev : PeerEvent).

(** Time passes, for the tick service and for the steady clock. *)
Definition advance (ms : Z) (s : ClientState) : ClientState :=
  mkClientState (config_ s) (pub_heap s) (ns_heap s) (sub_heap s) (rank_heap s) (next_ref s) (track_rankings_ s)
    (cache_ s) (stop_fetch_ s) (qtrace s) ((λ t, t + ms) <$> tick_service_ s) (steady_clock s + ms)
    (fetch_heap s) (fetch_threads s).

Definition run_relay_event (ev : RelayEvent) : ST World unit :=
  match ev with
  | ev_subscribe conn req name attrs => SubscribeReceived conn req name attrs
  | ev_unsubscribe conn req => UnsubscribeReceived conn req
  | ev_publish conn req attrs start => PublishReceived conn req attrs start
  | ev_publish_done conn req => PublishDoneReceived conn req
  | ev_publish_namespace conn ns req => PublishNamespaceReceived conn ns req
  | ev_publish_namespace_done conn req => _ ← PublishNamespaceDoneReceived conn req; mret tt
  | ev_subscribe_namespace conn ctx prefix req filter => SubscribeNamespaceReceived conn ctx prefix req filter
  | ev_unsubscribe_namespace conn prefix => UnsubscribeNamespaceReceived conn prefix
  | ev_connection_status conn status => ConnectionStatusChanged conn status
  | ev_track_status conn req name => TrackStatusReceived conn req name
  | ev_new_group name group_id => NewGroupRequested name group_id
  | ev_standalone_fetch conn req name priority order start end_group end_object =>
      StandaloneFetchReceived conn req name priority order start end_group end_object
  | ev_joining_fetch conn req name priority order relative start =>
      JoiningFetchReceived conn req name priority order relative start
  | ev_fetch_cancel conn req => FetchCancelReceived conn req
  | ev_sub_stream h is_start stream data => StreamDataRecv h is_start stream data
  | ev_sub_datagram h data => DgramDataRecv h data
  | ev_sub_stream_closed h stream reset => Sub_StreamClosed h stream reset
  | ev_sub_status h status => Sub_StatusChanged h status
  | ev_fetch_stream h is_start stream data => Fetch_StreamDataRecv h is_start stream data
  | ev_fetch_status h status => Fetch_StatusChanged h status
  | ev_pub_status h status => Pub_StatusChanged h status
  | ev_let_go h => release (Some h)
  | ev_fetch_step h => fetch_step h
  | ev_time ms => modify (set_client_state (advance ms))
  | ev_input what => qcall (Input what)
  | ev_peer ev => run_event ev
  end.

(** A run; an exception that leaves a handler ends the event, undefined behaviour
    the run. *)
Fixpoint run_events (evs : list RelayEvent) (w : World) : option World :=
  match evs with
  | [] => Some w
  | ev :: evs => match run_relay_event ev w with
                 | (UB, _) => None
                 | (_, w') => run_events evs w'
                 end
  end.

Definition runs (evs : list RelayEvent) (w : World) : bool :=
  match run_events evs w with Some _ => true | None => false end.

(** The state a run ends in. *)
Definition after (evs : list RelayEvent) (w : World) : World := default w (run_events evs w).
Lemma run_after evs w : runs evs w = true → run_events evs w = Some (after evs w).
Proof. unfold runs, after. by destruct (run_events evs w). Qed.

(** What every event respects a run respects. *)
Lemma run_events_ind (I : World → Prop) evs w w' :
  (∀ ev w, I w → leaves (run_relay_event ev) w I) → I w → run_events evs w = Some w' → I w'.
Proof.
  intros Hev. revert w. induction evs as [|ev evs IH]; intros w Hw; simpl; [by intros [= <-]|].
  specialize (Hev ev w Hw). unfold leaves in Hev. destruct (run_relay_event ev w) as [[] w1]; [by apply IH..|done].
Qed.

(** A condition on each event, in the state it meets. *)
Fixpoint all_along (c : World → RelayEvent → bool) (evs : list RelayEvent) (w : World) : bool :=
  match evs with
  | [] => true
  | ev :: evs => c w ev && match run_relay_event ev w with (UB, _) => true | (_, w') => all_along c evs w' end
  end.

Lemma run_events_along (I : World → Prop) c evs w w' :
  (∀ ev w, I w → c w ev = true → leaves (run_relay_event ev) w I) →
  I w → all_along c evs w = true → run_events evs w = Some w' → I w'.
Proof.
  intros Hev. revert w. induction evs as [|ev evs IH]; intros w Hw; simpl; [by intros _ [= <-]|].
  intros [Hc Hcs]%andb_prop. specialize (Hev ev w Hw Hc). unfold leaves in Hev.
  destruct (run_relay_event ev w) as [[] w1]; [by apply IH..|done].
Qed.
End relay.
