(* ===== verification/ClientFrames.v ===== *)
(** * What the handlers leave alone

    The handlers of tracks, namespaces and fetches work on their own objects,
    call libquicr and hand data to peering.  A relation that ignores those
    parts is respected by all they do; [StateFrame] says which parts of the
    relay's tables a relation may look at besides. *)

From S2P Require Import Prelude Common Quicr State QuicrServer DataHeader TrackRanking InfoBase Transport PeerSession PeerSessionEvents PeerWorld ClientState PeerManager PeerForwarding PublishHandler NamespaceHandler SubscribeHandler ClientManager ClientPublish FetchHandler ClientFetch PeerEvents PeerFrames RelayEvents.

Section frames.
Context `{TrackNames, MoqMessages, GroupCache, !QuicrServer}.
Abbreviation World := (World ClientState).

(** A change of the client's objects that destroys no subscribe handler. *)
Definition keeps_handlers (f : ClientState → ClientState) : Prop :=
  ∀ s, dom (sub_heap s) ⊆ dom (sub_heap (f s)).

Class HandlerFrame (R : World → World → Prop) := {
  hf_peer :: PeerFrame R;
  hf_client f w : keeps_handlers f → R w (set_client_state f w);
}.

Section rules.
Context (R : World → World → Prop) `{!PreOrder R, !HandlerFrame R}.

Lemma always_client_state f : keeps_handlers f → always R (modify (set_client_state f)).
Proof. intros Hf. apply always_modify. intros w. by apply hf_client. Qed.
Lemma always_qcall c : always R (qcall c).
Proof. apply always_client_state. intros s. reflexivity. Qed.
Lemma always_qget {A} (f : QuicrTrace → A) : always R (qget f).
Proof. unfold qget. frame. Qed.
Lemma always_value {A} (o : option A) : always R (value o).
Proof. unfold value. frame. Qed.
Lemma always_alloc : always R alloc.
Proof. intros w. unfold alloc. simpl. apply hf_client. intros s. reflexivity. Qed.
Lemma always_the_pub h : always R (the_pub h).
Proof. unfold the_pub. frame. Qed.
Lemma always_the_ns h : always R (the_ns h).
Proof. unfold the_ns. frame. Qed.
Lemma always_the_sub h : always R (the_sub h).
Proof. unfold the_sub. frame. Qed.
Lemma always_the_fetch h : always R (the_fetch h).
Proof. unfold the_fetch. frame. Qed.
Lemma always_modify_ns n f : always R (modify_ns n f).
Proof. apply always_client_state. intros s. reflexivity. Qed.
Lemma always_modify_sub h f : always R (modify_sub h f).
Proof. apply always_client_state. intros s. simpl. by rewrite dom_alter_L. Qed.
Lemma always_cur_tick : always R cur_tick.
Proof. unfold cur_tick. frame. Qed.
Lemma always_pub_subs hash : always R (pub_subs hash).
Proof. unfold pub_subs. frame. Qed.
Lemma always_stream_header c : always R (stream_header c).
Proof. unfold stream_header. frame. Qed.
End rules.
(** The relation on the state that a ranking works on. *)
#[global] Instance on_world_preorder (R : World → World → Prop) `{!PreOrder R} :
  PreOrder (λ s s' : TrackRanking * World, R s.2 s'.2).
Proof. split; [by intros []|]. intros [] [] [] ??. by etrans. Qed.
End frames.

#[export] Hint Extern 0 (HandlerFrame _) => typeclasses eauto : frame.
#[export] Hint Resolve always_qcall always_qget always_value always_alloc always_the_pub always_the_ns always_the_sub
  always_the_fetch always_modify_ns always_modify_sub always_cur_tick always_pub_subs always_stream_header : frame.

(** A change of the objects in place. *)
Ltac client_change :=
  apply always_client_state; [typeclasses eauto|];
  intros ?; simpl; rewrite ?dom_insert_L; first [reflexivity | set_solver].

Section handlers.
Context `{UintVar, TrackNames, MoqMessages, GroupCache, !QuicrServer, Transport}.
Abbreviation World := (World ClientState).
Context (R : World → World → Prop) `{!PreOrder R, !HandlerFrame R}.

(** ** Publish and namespace handlers *)

Lemma always_PublishTrackHandler_make name mode priority ttl start :
  always R (PublishTrackHandler_make name mode priority ttl start).
Proof. unfold PublishTrackHandler_make. frame. client_change. Qed.
Lemma always_SentFirstObject h g sg : always R (SentFirstObject h g sg).
Proof. unfold SentFirstObject. frame. Qed.
Lemma always_Pub_EndSubgroup h g sg c : always R (Pub_EndSubgroup h g sg c).
Proof. unfold Pub_EndSubgroup. frame. Qed.
Hint Resolve always_PublishTrackHandler_make always_SentFirstObject always_Pub_EndSubgroup : frame.
Lemma always_AbruptCloseAllSubgroups h : always R (AbruptCloseAllSubgroups h).
Proof. unfold AbruptCloseAllSubgroups. frame. Qed.
Lemma always_PublishTrack n h : always R (PublishTrack n h).
Proof. unfold PublishTrack. frame. Qed.
Hint Resolve always_AbruptCloseAllSubgroups always_PublishTrack : frame.
Lemma always_Ns_PublishObject n hash hd data mode : always R (Ns_PublishObject n hash hd data mode).
Proof. unfold Ns_PublishObject. frame. Qed.
Lemma always_Ns_ForwardPublishedData n hash new g sg data : always R (Ns_ForwardPublishedData n hash new g sg data).
Proof. unfold Ns_ForwardPublishedData. frame. Qed.
Lemma always_Ns_EndSubgroup n g sg c : always R (Ns_EndSubgroup n g sg c).
Proof. unfold Ns_EndSubgroup. frame. Qed.
Lemma always_select_tracks n max ranked active : always R (select_tracks n max ranked active).
Proof.
  revert active. induction ranked as [|e ranked IH]; intros active; cbn [select_tracks]; unfold select_track; frame.
Qed.
Hint Resolve always_Ns_PublishObject always_Ns_ForwardPublishedData always_Ns_EndSubgroup always_select_tracks : frame.
Lemma always_UpdateTrackRanking n ranked : always R (UpdateTrackRanking n ranked).
Proof. unfold UpdateTrackRanking, pause_track. frame. Qed.
Lemma always_PublishNamespaceHandler_make prefix : always R (PublishNamespaceHandler_make prefix).
Proof. unfold PublishNamespaceHandler_make. frame. client_change. Qed.
Hint Resolve always_UpdateTrackRanking always_PublishNamespaceHandler_make : frame.

(** ** The ranking *)


Lemma always_on_ranking r (m : ST (TrackRanking * World) unit) :
  always (λ s s', R s.2 s'.2) m → always R (on_ranking r m).
Proof.
  intros Hm w. unfold leaves, on_ranking in *. destruct (rank_heap _ !! r) as [ranking|]; simpl; [|done].
  specialize (Hm (ranking, w)). unfold leaves in Hm. destruct (m (ranking, w)) as [[a|e|] [ranking' w']]; simpl in *; [| |done];
    (etrans; [exact Hm|]; apply hf_client; intros s; reflexivity).
Qed.

Lemma always_UpdateValue alias prop v tick conn :
  always (λ s s' : TrackRanking * World, R s.2 s'.2) (UpdateValue alias prop v tick conn).
Proof.
  unfold UpdateValue, notify_namespace, notify_handler. frame; try (apply always_modify; done).
  intros [r w]. unfold leaves, zoom. simpl.
  match goal with |- context [UpdateTrackRanking ?n ?l w] =>
    pose proof (always_UpdateTrackRanking n l w) as Hu; unfold leaves in Hu; by destruct (UpdateTrackRanking n l w) as [[] ?] end.
Qed.

Lemma always_ranking_handlers `{NamespaceHandler World} n :
  always (λ s s' : TrackRanking * World, R s.2 s'.2) (AddNamespaceHandler n) ∧
  always (λ s s' : TrackRanking * World, R s.2 s'.2) (RemoveNamespaceHandler n).
Proof. unfold AddNamespaceHandler, RemoveNamespaceHandler. split; frame; by apply always_modify. Qed.

(** ** Subscribe handlers *)

Lemma always_SubscribeTrackHandler_make name priority order init :
  always R (SubscribeTrackHandler_make name priority order init).
Proof.
  unfold SubscribeTrackHandler_make. frame. client_change.
Qed.
Lemma always_AddSubscribeNamespace h n : always R (AddSubscribeNamespace h n).
Proof. unfold AddSubscribeNamespace. frame. Qed.
Lemma always_RemoveSubscribeNamespace h n : always R (RemoveSubscribeNamespace h n).
Proof. unfold RemoveSubscribeNamespace. frame. Qed.
Lemma always_AddSubscriber h conn req priority timeout start : always R (AddSubscriber h conn req priority timeout start).
Proof. unfold AddSubscriber. frame. Qed.
Lemma always_RemoveSubscriber h conn : always R (RemoveSubscriber h conn).
Proof. unfold RemoveSubscriber. frame. Qed.
Lemma always_SetTrackRanking h r : always R (SetTrackRanking h r).
Proof. unfold SetTrackRanking. frame. Qed.
Lemma always_SetFromPeer h : always R (SetFromPeer h).
Proof. unfold SetFromPeer. frame. Qed.
Lemma always_update_property h alias prop tracked v : always R (update_property h alias prop tracked v).
Proof. unfold update_property. frame. apply always_on_ranking, always_UpdateValue. Qed.
Hint Resolve always_update_property : frame.
Lemma always_property_value prop e m : property_value prop e = Some m → always R m.
Proof.
  unfold property_value. destruct (e !! prop) as [values|]; simpl; [|done]. intros [= <-]. frame.
Qed.
Lemma always_UpdateTrackedProperties h ext imm : always R (UpdateTrackedProperties h ext imm).
Proof.
  unfold UpdateTrackedProperties. do 2 (always_structure; [done|frame|]). destruct ext as [ext|]; [|frame].
  always_structure; [done|frame|]. apply always_for_each; [done|]. intros e.
  destruct (decide _); [frame|]. destruct (property_value _ ext) as [m|] eqn:E.
  - apply always_property_value in E. frame.
  - destruct (imm ≫= _) as [m|] eqn:E'; [|frame]. destruct imm as [imm|]; [|done].
    apply always_property_value in E'. frame.
Qed.
Hint Resolve always_AddSubscribeNamespace always_RemoveSubscribeNamespace always_AddSubscriber always_RemoveSubscriber
  always_SubscribeTrackHandler_make always_SetTrackRanking always_SetFromPeer always_UpdateTrackedProperties : frame.

Lemma always_reset_pending_group h g : always R (reset_pending_group h g).
Proof. unfold reset_pending_group. frame. Qed.
Lemma always_cache_object alias o : always R (cache_object alias o).
Proof. unfold cache_object. frame. client_change. Qed.
Hint Resolve always_reset_pending_group always_cache_object : frame.
Lemma always_ObjectReceived h hd data mode : always R (ObjectReceived h hd data mode).
Proof. unfold ObjectReceived, publish_to. frame. Qed.
Lemma always_send_to_peers h alias type g sg data : always R (send_to_peers h alias type g sg data).
Proof. unfold send_to_peers. frame. Qed.
Hint Resolve always_ObjectReceived always_send_to_peers : frame.
Lemma always_ForwardReceivedData h new g sg data : always R (ForwardReceivedData h new g sg data).
Proof. unfold ForwardReceivedData, forward_to. frame. Qed.
Lemma always_modify_stream h st f : always R (modify_stream h st f).
Proof. unfold modify_stream. frame. Qed.
Lemma always_the_stream h st : always R (the_stream h st).
Proof. unfold the_stream. frame. Qed.
Hint Resolve always_ForwardReceivedData always_modify_stream always_the_stream : frame.
Lemma always_StreamDataRecv h start st data : always R (StreamDataRecv h start st data).
Proof. unfold StreamDataRecv, start_stream, read_object, stream_object. frame. Qed.
Lemma always_DgramDataRecv h data : always R (DgramDataRecv h data).
Proof. unfold DgramDataRecv. frame. Qed.
Lemma always_Sub_StreamClosed h st reset : always R (Sub_StreamClosed h st reset).
Proof. unfold Sub_StreamClosed. frame. Qed.

(** ** Fetch handlers *)

Lemma always_FetchTrackHandler_make h name priority order start eg eo :
  always R (FetchTrackHandler_make h name priority order start eg eo).
Proof. unfold FetchTrackHandler_make. frame. client_change. Qed.
Lemma always_set_fetch_buffer h st b : always R (set_fetch_buffer h st b).
Proof. unfold set_fetch_buffer. client_change. Qed.
Hint Resolve always_set_fetch_buffer : frame.
Lemma always_Fetch_StreamDataRecv h start st data : always R (Fetch_StreamDataRecv h start st data).
Proof. unfold Fetch_StreamDataRecv. frame. Qed.
Lemma always_Fetch_StatusChanged h status : always R (Fetch_StatusChanged h status).
Proof. unfold Fetch_StatusChanged. frame. Qed.
End handlers.

#[export] Hint Resolve always_PublishTrackHandler_make always_PublishTrack always_PublishNamespaceHandler_make
  always_AddSubscribeNamespace always_RemoveSubscribeNamespace always_AddSubscriber always_RemoveSubscriber
  always_SubscribeTrackHandler_make always_SetTrackRanking always_SetFromPeer always_StreamDataRecv
  always_DgramDataRecv always_Sub_StreamClosed always_FetchTrackHandler_make always_Fetch_StreamDataRecv
  always_Fetch_StatusChanged : frame.

(** ** Operations of the client manager that write no table of [State] *)

Section manager.
Context `{UintVar, TrackNames, MoqMessages, GroupCache, !QuicrServer, Transport, !SubscribeMessages}.
Abbreviation World := (World ClientState).
Context (R : World → World → Prop) `{!PreOrder R, !HandlerFrame R}.

Lemma always_GetLargestAvailable name : always R (GetLargestAvailable name).
Proof. unfold GetLargestAvailable. frame. Qed.
Lemma always_Dampen h new : always R (DampenOrUpdateTrackSubscription h new).
Proof. unfold DampenOrUpdateTrackSubscription. frame. Qed.
Lemma always_PeerUnsubscribeTrack hash : always R (PeerUnsubscribeTrack hash).
Proof. unfold PeerUnsubscribeTrack. frame. Qed.
Lemma always_PeerDataReceived hash new st data : always R (PeerDataReceived hash new st data).
Proof. unfold PeerDataReceived, on_peer_track. frame. Qed.
Lemma always_PeerStreamClosed hash st reset : always R (PeerStreamClosed hash st reset).
Proof. unfold PeerStreamClosed, on_peer_track. frame. Qed.
Hint Resolve always_GetLargestAvailable always_Dampen : frame.
Lemma always_join_publisher conn req attrs e : always R (join_publisher conn req attrs e).
Proof. unfold join_publisher. frame. Qed.
Lemma always_TrackStatusReceived conn req name : always R (TrackStatusReceived conn req name).
Proof. unfold TrackStatusReceived. frame. Qed.
Lemma always_NewGroupRequested name g : always R (NewGroupRequested name g).
Proof. unfold NewGroupRequested. frame. Qed.
Lemma always_publish_in_namespace conn attrs start n : always R (publish_in_namespace conn attrs start n).
Proof. unfold publish_in_namespace. frame. Qed.

Lemma always_apply_filter ranking handler filter : always R (apply_filter ranking handler filter).
Proof. unfold apply_filter. frame. apply always_on_ranking; [typeclasses eauto..|]. by apply always_modify. Qed.
Lemma always_publish_existing conn prefix n ranking e : always R (publish_existing conn prefix n ranking e).
Proof. unfold publish_existing. frame. Qed.
Lemma always_rank_add `{NamespaceHandler World} r n : always R (on_ranking r (AddNamespaceHandler n)).
Proof. apply always_on_ranking; [typeclasses eauto..|]. apply (always_ranking_handlers R n). Qed.
Lemma always_rank_remove `{NamespaceHandler World} r n : always R (on_ranking r (RemoveNamespaceHandler n)).
Proof. apply always_on_ranking; [typeclasses eauto..|]. apply (always_ranking_handlers R n). Qed.

(** Changes of the client's own fields. *)
Hint Extern 1 (always _ (modify (set_client_state _))) => client_change : frame.
Lemma always_FetchReceived conn req name priority order start eg eo :
  always R (FetchReceived conn req name priority order start eg eo).
Proof. unfold FetchReceived, set_thread. frame. Qed.
Hint Resolve always_FetchReceived : frame.
Lemma always_JoiningFetchReceived conn req name priority order relative start :
  always R (JoiningFetchReceived conn req name priority order relative start).
Proof. unfold JoiningFetchReceived. frame. Qed.
Lemma always_FetchCancelReceived conn req : always R (FetchCancelReceived conn req).
Proof. unfold FetchCancelReceived. frame. Qed.
Lemma always_fetch_step h : always R (fetch_step h).
Proof.
  unfold fetch_step, fetch_start, fetch_wait, fetch_stream, fetch_linger, fetch_object, fetch_done, resolve_fetch,
    set_thread.
  frame. apply always_with_state_lock; frame.
Qed.
End manager.

#[export] Hint Resolve always_GetLargestAvailable always_Dampen always_PeerUnsubscribeTrack always_PeerDataReceived
  always_PeerStreamClosed always_join_publisher always_TrackStatusReceived always_NewGroupRequested
  always_publish_in_namespace always_apply_filter always_publish_existing always_FetchReceived
  always_JoiningFetchReceived always_FetchCancelReceived always_fetch_step : frame.
#[export] Hint Extern 1 (always _ (on_ranking _ (AddNamespaceHandler _))) =>
  notypeclasses refine (always_rank_add _ _ _); typeclasses eauto : frame.
#[export] Hint Extern 1 (always _ (on_ranking _ (RemoveNamespaceHandler _))) =>
  notypeclasses refine (always_rank_remove _ _ _); typeclasses eauto : frame.

Section release.
Context `{UintVar, TrackNames, MoqMessages, GroupCache, !QuicrServer}.
Abbreviation World := (World ClientState).

(** [release] does not write the tables. *)
Lemma release_tables p : always (same (λ w, state_ w)) (release p).
Proof.
  assert (∀ f w, same (λ w, state_ w) w (set_client_state f w)) as Hc by done.
  assert (HandlerFrame (same (λ w : World, state_ w))) by (split; [by split|done]).
  unfold release, SubscribeTrackHandler_destroy. frame. apply always_modify. apply Hc.
Qed.
End release.
