(* ===== verification/ClientTables.v ===== *)
(** * The subscription tables of the client manager

    Three tables of [State] describe the clients' subscriptions: [subscribes] by
    track and connection, [subscribe_alias_req_id] by connection and request,
    [subscribe_active_] by name.  Only ProcessSubscribe and UnsubscribeReceived
    write them, and they stay in step. *)

From S2P Require Import Prelude Common Quicr State QuicrServer DataHeader TrackRanking InfoBase Transport PeerSession PeerSessionEvents PeerWorld ClientState PeerManager PeerForwarding PublishHandler NamespaceHandler SubscribeHandler ClientManager ClientPublish FetchHandler ClientFetch PeerEvents PeerFrames RelayEvents ClientFrames.

(** ** The operations that leave the three tables alone *)

Section tables.
Context `{UintVar, TrackNames, MoqMessages, GroupCache, !QuicrServer, Transport, !SubscribeMessages, Rand}.
Abbreviation World := (World ClientState).

Definition sub_tables (st : RelayState) :=
  (subscribes st, subscribe_alias_req_id st, subscribe_active_ st).

(** A relation that looks at no more of the client's side than the three
    tables. *)
Class TableFrame (R : World → World → Prop) := {
  tf_handler :: HandlerFrame R;
  tf_client f w : R w (set_client_state f w);
  tf_state f w : sub_tables (f (state_ w)) = sub_tables (state_ w) → R w (set_state f w);
}.

Context (R : World → World → Prop) `{!PreOrder R, !TableFrame R}.

Lemma always_state f : (∀ st, sub_tables (f st) = sub_tables st) → always R (modify (set_state f)).
Proof. intros Hf. apply always_modify. intros w. by apply tf_state. Qed.
Hint Extern 1 (always _ (modify (set_state _))) => apply always_state; done : frame.
Hint Extern 0 (HandlerFrame _) => apply tf_handler : frame.

Lemma always_client f : always R (modify (set_client_state f)).
Proof. apply always_modify. intros w. apply tf_client. Qed.
Hint Resolve always_client : frame.

Lemma always_destroy h : always R (SubscribeTrackHandler_destroy h).
Proof. unfold SubscribeTrackHandler_destroy. frame. Qed.
Hint Resolve always_destroy : frame.
Lemma always_release p : always R (release p).
Proof. unfold release. frame. Qed.
Hint Resolve always_release : frame.
Lemma always_erase_pub_subscribe key : always R (erase_pub_subscribe key).
Proof. unfold erase_pub_subscribe. frame. Qed.
Lemma always_assign_pub_subscribe key h : always R (assign_pub_subscribe key h).
Proof. unfold assign_pub_subscribe. frame. Qed.
Lemma always_erase_by_req_id key : always R (erase_by_req_id key).
Proof. unfold erase_by_req_id. frame. Qed.
Lemma always_assign_by_req_id key h : always R (assign_by_req_id key h).
Proof. unfold assign_by_req_id. frame. Qed.
Hint Resolve always_erase_pub_subscribe always_assign_pub_subscribe always_erase_by_req_id always_assign_by_req_id : frame.

Lemma always_RemoveOrPause hash : always R (RemoveOrPausePublisherSubscribe hash).
Proof. unfold RemoveOrPausePublisherSubscribe, remove_or_pause. frame. Qed.
Hint Resolve always_RemoveOrPause : frame.

(** The part of ProcessSubscribe after the tables. *)
Lemma always_subscribe_announcer conn req hash name attrs e : always R (subscribe_announcer conn req hash name attrs e).
Proof. unfold subscribe_announcer. frame. Qed.
Hint Resolve always_subscribe_announcer : frame.

#[global] Instance process_subscribe_frame : @ProcessFrame _ _ R client_process.
Proof. split. intros th name priority ngr. simpl. unfold ProcessSubscribe. rewrite decide_True by done. frame. Qed.

Lemma always_PublishNamespaceReceived conn ns req : always R (PublishNamespaceReceived conn ns req).
Proof.
  unfold PublishNamespaceReceived, subscribe_to_publisher, subscribe_to_publisher_one. frame.
Qed.
Lemma always_PublishNamespaceDoneReceived conn req : always R (PublishNamespaceDoneReceived conn req).
Proof. unfold PublishNamespaceDoneReceived, drop_announced, ClientUnannounce. frame. Qed.
Lemma always_PurgePublishState conn : always R (PurgePublishState conn).
Proof. unfold PurgePublishState. apply always_with_state_lock; [typeclasses eauto..|]. frame. Qed.
Lemma always_PublishReceived conn req attrs start : always R (PublishReceived conn req attrs start).
Proof. unfold PublishReceived. frame. Qed.
Hint Resolve always_PublishNamespaceReceived always_PublishNamespaceDoneReceived always_PurgePublishState
  always_PublishReceived : frame.

Lemma always_SubscribeNamespaceReceived conn ctx prefix req filter :
  always R (SubscribeNamespaceReceived conn ctx prefix req filter).
Proof.
  unfold SubscribeNamespaceReceived. frame.
Qed.
Lemma always_UnsubscribeNamespaceReceived conn prefix : always R (UnsubscribeNamespaceReceived conn prefix).
Proof. unfold UnsubscribeNamespaceReceived, for_pub_subscribes, leave_track. frame. Qed.
Lemma always_Sub_StatusChanged h status : always R (Sub_StatusChanged h status).
Proof. unfold Sub_StatusChanged. frame. Qed.
End tables.

(** ** All events *)

Section events.
Context `{UintVar, TrackNames, MoqMessages, GroupCache, !QuicrServer, Transport, !SubscribeMessages, Rand}.
Abbreviation World := (World ClientState).
Context (R : World → World → Prop) `{!PreOrder R, !TableFrame R}.
Hypothesis unsubscribe_frame : ∀ conn req, always R (UnsubscribeReceived conn req).

Hint Resolve unsubscribe_frame : frame.
Hint Resolve always_erase_pub_subscribe always_erase_by_req_id always_RemoveOrPause always_PublishNamespaceReceived
  always_PublishNamespaceDoneReceived always_PurgePublishState always_PublishReceived always_UnsubscribeNamespaceReceived
  always_SubscribeNamespaceReceived always_Sub_StatusChanged always_client always_release : frame.

Lemma always_PublishDoneReceived conn req : always R (PublishDoneReceived conn req).
Proof. unfold PublishDoneReceived. frame; apply always_with_state_lock; frame. Qed.
Lemma always_ConnectionStatusChanged conn status : always R (ConnectionStatusChanged conn status).
Proof. unfold ConnectionStatusChanged. frame. Qed.
Hint Resolve always_PublishDoneReceived always_ConnectionStatusChanged : frame.

#[local] Instance client_frame : ClientFrame R.
Proof. split; [by apply process_subscribe_frame|intros; simpl; frame..]. Qed.

(** Any event but a subscribe. *)
Lemma always_other_event ev :
  match ev with ev_subscribe _ _ _ _ => False | _ => True end → always R (run_relay_event ev).
Proof. destruct ev; intros Hev; [done|..]; cbn [run_relay_event]; unfold Pub_StatusChanged; frame. Qed.
End events.
