(* ===== verification/ClientTablesSpec.v ===== *)
(** * The subscription tables stay in step *)

From S2P Require Import Prelude Common Quicr State QuicrServer DataHeader TrackRanking InfoBase Transport PeerSession PeerSessionEvents PeerWorld ClientState PeerManager PeerForwarding PublishHandler NamespaceHandler SubscribeHandler ClientManager ClientPublish FetchHandler ClientFetch PeerEvents PeerFrames RelayEvents ClientFrames ClientTables.

Section spec.
Context `{UintVar, TrackNames, MoqMessages, GroupCache, !QuicrServer, Transport, !SubscribeMessages, Rand}.
Abbreviation World := (World ClientState).
Implicit Types w : World.
Implicit Types st : RelayState.

Abbreviation hash_of name := (track_hash name.1 name.2).

(** Every subscription has its request and its entry by name, and the other two
    tables have nothing else. *)
Definition subs_ok st : Prop :=
  (∀ alias conn info, subscribes st !! (alias, conn) = Some info →
     track_fullname_hash (hash_of (shi_track_full_name info)) = alias ∧
     subscribe_alias_req_id st !! (conn, shi_request_id info) = Some alias ∧
     ∃ actives act, subscribe_active_ st !! ((shi_track_full_name info).1, track_name_hash (hash_of (shi_track_full_name info)))
                      = Some actives ∧ actives !! (conn, shi_request_id info) = Some act) ∧
  (∀ conn req alias, subscribe_alias_req_id st !! (conn, req) = Some alias →
     ∃ info, subscribes st !! (alias, conn) = Some info ∧ shi_request_id info = req) ∧
  (∀ key actives, subscribe_active_ st !! key = Some actives → actives ≠ ∅ ∧
     ∀ conn req act, actives !! (conn, req) = Some act →
       ∃ info, subscribes st !! (act_track_alias act, conn) = Some info ∧ shi_request_id info = req ∧
         key = ((shi_track_full_name info).1, track_name_hash (hash_of (shi_track_full_name info)))).

Lemma subs_ok_tables st st' : sub_tables st' = sub_tables st → subs_ok st → subs_ok st'.
Proof. unfold sub_tables, subs_ok. by intros [= -> -> ->]. Qed.

#[export] Instance subs_ok_frame : TableFrame (stays (λ w, subs_ok (state_ w))).
Proof. split; [split; [split; by intros ???|by intros ????]|by intros ???|]. intros f w Hf Hw. simpl. by eapply subs_ok_tables. Qed.
#[export] Instance same_tables_frame : TableFrame (same (λ w, sub_tables (state_ w))).
Proof. split; [split; [by split|by intros]|by intros|]. by intros f w Hf. Qed.

(** ** Subscribe *)

Lemma record_subscribe_ok conn req name attrs st :
  subs_ok st → subscribe_alias_req_id st !! (conn, req) = None →
  subscribes st !! (track_fullname_hash (hash_of name), conn) = None →
  subs_ok (record_subscribe conn req (hash_of name) name attrs st).
Proof.
  intros (Hsub & Hreq & Hact) Hfresh Hdup. set (alias := track_fullname_hash (hash_of name)) in *.
  set (key := (name.1, track_name_hash (hash_of name))).
  assert (default ∅ (subscribe_active_ st !! key) !! (conn, req) = None) as Hnew.
  { destruct (subscribe_active_ st !! key) as [actives|] eqn:Ha; [|apply lookup_empty]. simpl.
    destruct (actives !! (conn, req)) as [act|] eqn:He; [|done].
    destruct (proj2 (Hact _ _ Ha) _ _ _ He) as (info & Hi & <- & _).
    apply Hsub in Hi as (_ & Hi & _). by rewrite Hfresh in Hi. }
  unfold record_subscribe, add_subscribe, add_active, subs_ok. cbn -[lookup insert]. fold alias key. rewrite Hdup, Hnew. split_and!.
  - intros alias' conn' info [[[= <- <-] <-]|[Hne Hi]]%lookup_insert_Some; cbn [shi_track_full_name shi_request_id].
    + split; [done|]. rewrite lookup_insert_eq. split; [done|]. fold key. rewrite lookup_insert_eq. eexists _, _.
      split; [done|]. apply lookup_insert_eq.
    + destruct (Hsub _ _ _ Hi) as (Hh & Hr & actives & act & Ha & He). split; [done|]. split.
      { rewrite lookup_insert_ne; [done|]. intros E. rewrite <- E in Hr. by rewrite Hfresh in Hr. }
      destruct (decide (key = ((shi_track_full_name info).1, track_name_hash (hash_of (shi_track_full_name info))))) as [Hk|Hk].
      * rewrite <- Hk, lookup_insert_eq. rewrite <- Hk in Ha. eexists _, act. split; [done|]. rewrite Ha. simpl.
        rewrite lookup_insert_ne; [done|]. intros E. rewrite <- E in Hr. by rewrite Hfresh in Hr.
      * rewrite lookup_insert_ne by done. by exists actives, act.
  - intros conn' req' alias' [[[= <- <-] <-]|[Hne Hr]]%lookup_insert_Some.
    + eexists. by rewrite lookup_insert_eq.
    + destruct (Hreq _ _ _ Hr) as (info & Hi & Hq). exists info. split; [|done].
      rewrite lookup_insert_ne; [done|]. intros E. rewrite <- E in Hi. by rewrite Hdup in Hi.
  - intros key' actives [[<- <-]|[Hne Ha]]%lookup_insert_Some.
    + split; [apply insert_non_empty|]. intros conn' req' act [[[= <- <-] <-]|[Hne He]]%lookup_insert_Some.
      * eexists. simpl. rewrite lookup_insert_eq. done.
      * destruct (subscribe_active_ st !! key) as [actives|] eqn:Ha; [|cbn in He; by apply lookup_empty_Some in He].
        destruct (proj2 (Hact _ _ Ha) _ _ _ He) as (info & Hi & Hq & Hk). exists info. split; [|done].
        rewrite lookup_insert_ne; [done|]. intros E. rewrite <- E in Hi. by rewrite Hdup in Hi.
    + split; [apply (Hact _ _ Ha)|]. intros conn' req' act He.
      destruct (proj2 (Hact _ _ Ha) _ _ _ He) as (info & Hi & Hq & Hk). exists info. split; [|done].
      rewrite lookup_insert_ne; [done|]. intros E. rewrite <- E in Hi. by rewrite Hdup in Hi.
Qed.

Lemma GetLargestAvailable_ok name w :
  GetLargestAvailable name w = (Ok (object_location <$> latest_object (default 0 (tick_service_ (client w)))
    (track_fullname_hash (hash_of name)) (client w)), w).
Proof. reflexivity. Qed.

Lemma SubscribeReceived_ok conn req name attrs w :
  subs_ok (state_ w) → subscribe_alias_req_id (state_ w) !! (conn, req) = None →
  leaves (SubscribeReceived conn req name attrs) w (λ w', subs_ok (state_ w')).
Proof.
  intros Hw Hfresh. unfold SubscribeReceived. apply (leaves_ok get _ w w w); [done|].
  destruct (subscribes (state_ w) !! _) as [info|] eqn:Hdup; [done|].
  eapply leaves_ok; [apply GetLargestAvailable_ok|]. eapply leaves_ok; [done|]. unfold ProcessSubscribe.
  eapply (leaves_bind _ _ _ (λ w', subs_ok (state_ w'))); [|done|].
  - destruct (decide _) as [_|_]; [done|]. eapply leaves_ok; [done|].
    eapply leaves_stays; [frame|]. by apply record_subscribe_ok.
  - intros [] w' Hw'. eapply leaves_stays; [|done].
    pose proof (always_subscribe_announcer (stays (λ w, subs_ok (state_ w)))). frame; eauto.
Qed.

(** ** Unsubscribe *)

(** The tables without a subscription. *)
Definition without (alias conn req : Z) (name : FullTrackName) st :=
  let key := (name.1, track_name_hash (hash_of name)) in
  let actives := delete (conn, req) (default ∅ (subscribe_active_ st !! key)) in
  (delete (alias, conn) (subscribes st), delete (conn, req) (subscribe_alias_req_id st),
   if decide (actives = ∅) then delete key (subscribe_active_ st) else <[key := actives]> (subscribe_active_ st)).

Lemma without_ok alias conn req info st st' :
  subs_ok st → subscribes st !! (alias, conn) = Some info → subscribe_alias_req_id st !! (conn, req) = Some alias →
  sub_tables st' = without alias conn req (shi_track_full_name info) st → subs_ok st'.
Proof.
  intros (Hsub & Hreq & Hact) Hi Hr. unfold sub_tables, without.
  set (name := shi_track_full_name info). set (key := (name.1, track_name_hash (hash_of name))).
  set (actives := delete (conn, req) (default ∅ (subscribe_active_ st !! key))). intros [= E1 E2 E3].
  assert (shi_request_id info = req) as Hq.
  { destruct (Hreq _ _ _ Hr) as (info' & Hi' & Hq). by rewrite Hi in Hi'; injection Hi' as <-. }
  (* an entry by name that is left was there before, for another request *)
  assert (∀ key' actives', subscribe_active_ st' !! key' = Some actives' →
    actives' ≠ ∅ ∧ ∃ old, subscribe_active_ st !! key' = Some old ∧
      (key' ≠ key → actives' = old) ∧ (key' = key → actives' = delete (conn, req) old)) as Hleft.
  { intros key' actives'. rewrite E3. destruct (decide (actives = ∅)) as [He|He].
    - intros [Hne Ha]%lookup_delete_Some. split; [apply (Hact _ _ Ha)|]. exists actives'.
      split; [done|]. split; [done|]. intros ->. done.
    - intros [[<- <-]|[Hne Ha]]%lookup_insert_Some.
      + split; [done|]. unfold actives in *. destruct (subscribe_active_ st !! key) as [old|]; [by exists old|].
        destruct He. by apply delete_empty.
      + split; [apply (Hact _ _ Ha)|]. exists actives'. by split; [|split; [|intros ->]]. }
  unfold subs_ok. rewrite E1, E2. split_and!.
  - intros alias' conn' info' [Hne Hi']%lookup_delete_Some.
    destruct (Hsub _ _ _ Hi') as (Hh & Hr' & old & act & Ha & He). split; [done|].
    assert ((conn, req) ≠ (conn', shi_request_id info')) as Hother.
    { intros E. rewrite <- E in Hr'. rewrite Hr in Hr'. injection Hr' as ->. injection E as -> _. done. }
    split; [by rewrite lookup_delete_ne|]. rewrite E3.
    destruct (decide (key = ((shi_track_full_name info').1, track_name_hash (hash_of (shi_track_full_name info'))))) as [Hk|Hk].
    + rewrite <- Hk in *. assert (actives !! (conn', shi_request_id info') = Some act) as Hstill.
      { unfold actives. rewrite Ha. simpl. by rewrite lookup_delete_ne. }
      rewrite decide_False by (intros Hempty; by rewrite Hempty in Hstill). rewrite lookup_insert_eq. by exists actives, act.
    + exists old, act. split; [|done]. by destruct (decide _); [rewrite lookup_delete_ne|rewrite lookup_insert_ne].
  - intros conn' req' alias' [Hne Hr']%lookup_delete_Some. destruct (Hreq _ _ _ Hr') as (info' & Hi' & Hq').
    exists info'. split; [|done]. rewrite lookup_delete_ne; [done|]. intros E. rewrite <- E in Hi'.
    rewrite Hi in Hi'. injection Hi' as <-. injection E as -> ->. by rewrite Hq in Hq'; subst req'.
  - intros key' actives' Ha. destruct (Hleft _ _ Ha) as (Hne & old & Hold & Hsame & Hdel). split; [done|].
    intros conn' req' act He.
    assert (old !! (conn', req') = Some act ∧ (key' = key → (conn, req) ≠ (conn', req'))) as [Ho Hother].
    { destruct (decide (key' = key)) as [Hk|Hk].
      - rewrite (Hdel Hk) in He. apply lookup_delete_Some in He as [??]. done.
      - rewrite (Hsame Hk) in He. done. }
    destruct (proj2 (Hact _ _ Hold) _ _ _ Ho) as (info' & Hi' & Hq' & Hk'). exists info'. split; [|done].
    rewrite lookup_delete_ne; [done|]. intros E. rewrite <- E in Hi'. rewrite Hi in Hi'. injection Hi' as <-.
    apply Hother; [done|]. injection E as _ ->. by rewrite <- Hq, <- Hq'.
Qed.

Lemma RemoveSubscriber_never_throws h conn : never_throws (RemoveSubscriber h conn).
Proof.
  unfold RemoveSubscriber, the_sub.
  repeat first [apply never_throws_bind; [|intros ?] | apply never_throws_deref | by intros ??? | case_match].
Qed.

Lemma leaves_state_lock {A} (m : ST World A) w Q :
  leaves m (set_state_mutex true w) (λ w', Q (set_state_mutex false w')) → leaves (with_state_lock m) w Q.
Proof.
  unfold leaves, with_state_lock. destruct (state_mutex w); [done|].
  by destruct (m (set_state_mutex true w)) as [[] w'].
Qed.

(** The tables that an unsubscribe leaves. *)
Definition unsubscribed (conn req : Z) st :=
  match subscribe_alias_req_id st !! (conn, req) with
  | Some alias =>
      match subscribes st !! (alias, conn) with
      | Some info => without alias conn req (shi_track_full_name info) st
      | None => sub_tables st
      end
  | None => sub_tables st
  end.

Lemma UnsubscribeReceived_tables conn req w :
  leaves (UnsubscribeReceived conn req) w (λ w', sub_tables (state_ w') = unsubscribed conn req (state_ w)).
Proof.
  unfold UnsubscribeReceived, unsubscribed. apply (leaves_ok get _ w w w); [done|].
  destruct (subscribe_alias_req_id (state_ w) !! (conn, req)) as [alias|]; [|done].
  apply leaves_state_lock. eapply leaves_ok; [done|]. simpl.
  destruct (subscribes (state_ w) !! (alias, conn)) as [info|]; [|done].
  eapply leaves_ok; [done|]. eapply leaves_ok; [done|].
  set (w1 := set_state _ (set_state_mutex true w)). set (removals := for_each _ _).
  assert (always (same (λ w, sub_tables (state_ w))) removals) as Hsame.
  { unfold removals. frame. }
  assert (never_throws removals) as Hnt.
  { unfold removals. apply never_throws_for_each. intros e.
    apply never_throws_bind; [apply never_throws_deref|intros h; apply RemoveSubscriber_never_throws]. }
  eapply leaves_then; [exact Hsame|exact Hnt|]. intros [] w2 [= E1 E2 E3].
  eapply leaves_ok; [done|]. eapply leaves_ok; [done|]. apply (leaves_always (same (λ w, sub_tables (state_ w)))).
  { pose proof (always_RemoveOrPause (same (λ w, sub_tables (state_ w)))). frame. }
  intros w3 ->. unfold sub_tables, without. cbn -[lookup insert delete]. by rewrite E1, E2, E3.
Qed.

Lemma unsubscribed_ok conn req st st' : subs_ok st → sub_tables st' = unsubscribed conn req st → subs_ok st'.
Proof.
  unfold unsubscribed. intros Hok Ht. destruct (subscribe_alias_req_id st !! (conn, req)) as [alias|] eqn:Hr; [|by eapply subs_ok_tables].
  destruct (subscribes st !! (alias, conn)) as [info|] eqn:Hi; [|by eapply subs_ok_tables]. by eapply without_ok.
Qed.

Lemma UnsubscribeReceived_ok conn req w :
  subs_ok (state_ w) → leaves (UnsubscribeReceived conn req) w (λ w', subs_ok (state_ w')).
Proof. intros Hw. eapply leaves_weaken; [apply UnsubscribeReceived_tables|]. intros w'. by apply unsubscribed_ok. Qed.

(** ** Runs *)

(** A subscribe uses a request id that no live subscription of its connection
    has. *)
Definition event_fresh w (ev : RelayEvent) : bool :=
  match ev with
  | ev_subscribe conn req _ _ => bool_decide (subscribe_alias_req_id (state_ w) !! (conn, req) = None)
  | _ => true
  end.

Lemma event_subs_ok ev w :
  subs_ok (state_ w) → event_fresh w ev = true → leaves (run_relay_event ev) w (λ w', subs_ok (state_ w')).
Proof.
  assert (∀ conn req, always (stays (λ w, subs_ok (state_ w))) (UnsubscribeReceived conn req)) as Hun
    by (intros; apply stays_leaves; intros; by apply UnsubscribeReceived_ok).
  intros Hw Hf. destruct ev; [apply SubscribeReceived_ok; [done|by apply bool_decide_eq_true in Hf]|..];
    (eapply leaves_stays; [apply always_other_event; [typeclasses eauto|typeclasses eauto|exact Hun|done]|done]).
Qed.

(** C7: the three subscription tables stay in step as long as no client subscribes
    with a request id that a live subscription of its connection has ([event_fresh]
    of each event): whatever else clients, peers, libquicr and the threads do, each
    subscription has exactly one request and one entry by name, and nothing else is
    in the tables.  ([reused_request_breaks_tables] shows that the condition is
    needed: the code does not check it.) *)
Theorem subscription_tables_in_step evs w w' :
  subs_ok (state_ w) → all_along event_fresh evs w = true → run_events evs w = Some w' → subs_ok (state_ w').
Proof. apply (run_events_along (λ w, subs_ok (state_ w))). apply event_subs_ok. Qed.
End spec.

(** ** Witness *)

Import Quicr.Demo DemoTransport DemoRelay DemoServer DemoCache.

(** The relay without clients, two of which then come. *)
Definition demo_clients : World ClientState :=
  relay_with (mkClientState demo_config ∅ ∅ ∅ ∅ 1 ∅ ∅ ∅ [] (Some 100) 0 ∅ ∅) InfoBase_empty.
Definition demo_attributes : SubscribeAttributes := mkSubscribeAttributes 1 None 0 (mkLocation 0 0) None false.
Definition demo_events : list RelayEvent :=
  [ev_publish 31 7 (mkPublish ([[5]], [5]) 0 true true true 1 5000) (mkLocation 0 0);
   ev_subscribe 40 1 ([[5]], [5]) demo_attributes; ev_subscribe 41 1 ([[5]], [5]) demo_attributes;
   ev_unsubscribe 40 1].

Lemma subscription_tables_in_step_witness :
  run_events demo_events demo_clients = Some (after demo_events demo_clients) ∧
  subs_ok (state_ (after demo_events demo_clients)).
Proof.
  assert (run_events demo_events demo_clients = Some (after demo_events demo_clients)) as Hrun by (apply run_after; vm_refl).
  split; [exact Hrun|]. apply (subscription_tables_in_step demo_events demo_clients); [|vm_refl|exact Hrun].
  split; [done|]. split; done.
Defined.

Lemma unrequested_subscription st alias conn req :
  shi_request_id <$> subscribes st !! (alias, conn) = Some req → subscribe_alias_req_id st !! (conn, req) ≠ Some alias →
  ¬ subs_ok st.
Proof.
  intros (info & Hinfo & ->)%fmap_Some Hno (Hsubs & _). by destruct (Hsubs _ _ _ Hinfo) as (_ & Hq & _).
Qed.

(** A client subscribes to two tracks with one request id: the second request
    replaces the first in the table of requests, whose subscription stays. *)
Definition demo_name : FullTrackName := ([[5]], [5]).
Definition demo_reuse : list RelayEvent :=
  [ev_subscribe 40 1 demo_name demo_attributes; ev_subscribe 40 1 ([[5]], [6]) demo_attributes].

Lemma reused_request_breaks_tables :
  run_events demo_reuse demo_clients = Some (after demo_reuse demo_clients) ∧
  ¬ subs_ok (state_ (after demo_reuse demo_clients)).
Proof.
  split; [apply run_after; vm_refl|].
  apply (unrequested_subscription _ (track_fullname_hash (track_hash demo_name.1 demo_name.2)) 40 1); [vm_refl|].
  apply (proj1 (bool_decide_eq_false _)). vm_refl.
Qed.
