(* ===== verification/ClientCleanup.v ===== *)
(** * What a client leaves behind

    The end of a namespace subscription and of a connection. *)

From S2P Require Import Prelude Common Quicr State QuicrServer DataHeader SubscribeInfo TrackRanking InfoBase Transport PeerSession PeerSessionEvents PeerWorld ClientState PeerManager PeerForwarding PublishHandler NamespaceHandler SubscribeHandler ClientManager ClientPublish ClientPublishers FetchHandler ClientFetch PeerEvents PeerFrames RelayEvents ClientFrames ClientTables ClientTablesSpec.

(** ** What does not throw *)

Section calm.
Context `{UintVar, TrackNames, MoqMessages, GroupCache, !QuicrServer, Transport, !SubscribeMessages}.
Abbreviation World := (World ClientState).
Implicit Types w : World.

Lemma calm_with_lock {A} (m : ST InfoBase A) : never_throws m → never_throws (with_lock m).
Proof.
  intros Hm ib e ib'. unfold with_lock. destruct (mutex_ ib); [done|]. specialize (Hm (set_mutex true ib)).
  destruct (m _) as [[a|e'|] t]; [done| |done]. by destruct (Hm e' t).
Qed.
Lemma calm_on_session {A} r (m : ST Sess A) : never_throws m → never_throws (on_session (W := World) r m).
Proof.
  intros Hm w e w'. unfold on_session. destruct (w_session r w) as [s|]; [|done]. specialize (Hm (s, w_trace w)).
  destruct (m _) as [[a|e'|] [s' t']]; [done| |done]. by destruct (Hm e' (s', t')).
Qed.
Lemma calm_on_ib {A} (m : ST InfoBase A) : never_throws m → never_throws (on_ib (C := ClientState) m).
Proof. apply never_throws_zoom. Qed.
Hint Resolve calm_with_lock calm_on_session calm_on_ib : calm.

Lemma calm_call c : never_throws (call c).
Proof. intros s e s'. unfold call. by destruct (transport_ s.1). Qed.
Hint Resolve calm_call : calm.
Lemma calm_SendSubscribeInfo si wd : never_throws (SendSubscribeInfo si wd).
Proof.
  unfold SendSubscribeInfo, enqueue_control, self. calm.
Qed.
Hint Resolve calm_SendSubscribeInfo : calm.
Lemma calm_GetSubscribe h src : never_throws (GetSubscribe h src).
Proof. apply calm_with_lock. unfold subscribes_at. calm. Qed.
Lemma calm_RemoveSubscribe si : never_throws (RemoveSubscribe si).
Proof. apply calm_with_lock. calm. Qed.
Hint Resolve calm_GetSubscribe calm_RemoveSubscribe : calm.
Lemma calm_ClientUnsubscribe hash : never_throws (ClientUnsubscribe (C := ClientState) hash).
Proof. unfold ClientUnsubscribe, broadcast_subscribe. calm. Qed.
Hint Resolve calm_ClientUnsubscribe : calm.

Lemma calm_qcall c : never_throws (qcall c).
Proof. by intros ???. Qed.
Lemma calm_qget {A} (f : QuicrTrace → A) : never_throws (qget f).
Proof. by intros ???. Qed.
Lemma calm_the_sub h : never_throws (the_sub h).
Proof. unfold the_sub. calm. Qed.
Hint Resolve calm_qcall calm_qget calm_the_sub : calm.
Lemma calm_erase_pub_subscribe key : never_throws (erase_pub_subscribe key).
Proof. unfold erase_pub_subscribe, release, SubscribeTrackHandler_destroy. calm. Qed.
Hint Resolve calm_erase_pub_subscribe : calm.
Lemma calm_RemoveOrPause hash : never_throws (RemoveOrPausePublisherSubscribe hash).
Proof. unfold RemoveOrPausePublisherSubscribe, remove_or_pause, pub_subs. calm. Qed.
Lemma calm_RemoveSubscribeNamespace h n : never_throws (RemoveSubscribeNamespace h n).
Proof. unfold RemoveSubscribeNamespace, modify_sub. calm. Qed.
Lemma calm_on_ranking r m : never_throws m → never_throws (on_ranking r m).
Proof.
  intros Hm w e w'. unfold on_ranking. destruct (rank_heap _ !! r) as [ranking|]; [|done]. specialize (Hm (ranking, w)).
  destruct (m _) as [[a|e'|] [r' w1]]; [done| |done]. by destruct (Hm e' (r', w1)).
Qed.
Hint Resolve calm_RemoveOrPause calm_RemoveSubscribeNamespace calm_on_ranking : calm.
Lemma calm_RemoveNamespaceHandler `{NamespaceHandler World} n : never_throws (RemoveNamespaceHandler n).
Proof. unfold RemoveNamespaceHandler. calm. Qed.
Hint Resolve calm_RemoveNamespaceHandler : calm.
Lemma calm_leave_track conn prefix n key p : never_throws (leave_track conn prefix n key p).
Proof. unfold leave_track. calm. Qed.
End calm.
#[export] Hint Resolve calm_leave_track : calm.

(** ** A namespace is left while its last track goes *)

Section namespaces.
Context `{UintVar, TrackNames, MoqMessages, GroupCache, !QuicrServer, Transport, !SubscribeMessages}.
Abbreviation World := (World ClientState).
Implicit Types w : World.

(** The namespaces that want a track, without those of a handler that leaves. *)
Definition only_interest (s : SubscribeTrackHandler) (n : Ref) (t : QuicrTrace) : Prop :=
  ∃ x, sub_namespaces_ s =
    {[track_fullname_hash (track_hash (q_NamespaceName t n).1 (q_NamespaceName t n).2) := {[q_ConnectionId t n := x]}]}.

Definition namespace_key (n : Ref) (t : QuicrTrace) : Z :=
  track_fullname_hash (track_hash (q_NamespaceName t n).1 (q_NamespaceName t n).2).

Lemma RemoveSubscribeNamespace_last h n s w :
  sub_heap (client w) !! h = Some s → only_interest s n (qtrace (client w)) →
  RemoveSubscribeNamespace h n w =
    (Ok tt, set_client_state (set_sub_heap (alter (set_sub_namespaces (delete (namespace_key n (qtrace (client w))))) h)) w).
Proof.
  intros Hs [x Hx]. unfold RemoveSubscribeNamespace. rewrite !qget_bind.
  rewrite (bind_ok _ _ _ _ _ (the_sub_ok _ _ _ Hs)). rewrite Hx, lookup_singleton_eq.
  by rewrite delete_singleton_eq, decide_True by done.
Qed.

(** What a ranking that loses a handler leaves. *)
Definition but_rankings w := (state_ w, info_base_ w, sub_heap (client w), qtrace (client w)).
Lemma RemoveNamespaceHandler_keeps r n : always (same but_rankings) (on_ranking r (RemoveNamespaceHandler n)).
Proof.
  intros w. unfold leaves, on_ranking, RemoveNamespaceHandler. destruct (rank_heap (client w) !! r); [|done].
  rewrite gets_bind. by destruct (h_alive _ _).
Qed.

Lemma leave_track_erases (Hfix : initiated_fixed) conn prefix n key h s w :
  entries_live (same_first key.1 (pub_subscribes (state_ w))) w → 0 ≤ key.2 →
  pub_subscribes (state_ w) !! key = Some (Some h) → sub_heap (client w) !! h = Some s →
  allow_self (config_ (client w)) = true ∨ key.2 ≠ conn → HasSamePrefix prefix (sub_full_name s).1 = true →
  subscribers_ s = ∅ → only_interest s n (qtrace (client w)) → q_IsPublisherInitiated (qtrace (client w)) h = false →
  Manager_HasSubscribers key.1 w = false →
  returns (leave_track conn prefix n key (Some h)) w (λ _ w', pub_subscribes (state_ w') !! key = None).
Proof.
  intros Hlive Hconn Hkey Hs Hself Hpre Hsubs Hns Hinit Hpeer. unfold leave_track.
  eapply returns_ok; [reflexivity|].
  assert (negb (allow_self (config_ (client w))) && bool_decide (key.2 = conn) = false) as ->.
  { destruct Hself as [->|Hne]; [done|]. rewrite bool_decide_eq_false_2 by done. apply andb_false_r. }
  eapply returns_ok; [by apply (the_sub_ok _ s)|]. rewrite Hpre.
  eapply returns_ok; [by apply (RemoveSubscribeNamespace_last h n s)|].
  set (s1 := set_sub_namespaces (delete (namespace_key n (qtrace (client w)))) s). set (w1 := set_client_state _ w).
  assert (sub_heap (client w1) !! h = Some s1) as Hs1 by (cbn; by rewrite lookup_alter_eq, Hs).
  assert (HasSubscribers_sub s1 = false) as Hidle.
  { unfold HasSubscribers_sub, s1. cbn. destruct Hns as [x ->]. unfold namespace_key. rewrite Hsubs, delete_singleton_eq.
    by rewrite !bool_decide_eq_false_2 by naive_solver. }
  eapply returns_ok; [reflexivity|].
  eapply returns_bind; [apply returns_deref|]. intros ranking w' [_ ->].
  eapply returns_bind; [apply returns_always, RemoveNamespaceHandler_keeps|]. intros [] w2 [= E1 E2 E3 E4].
  cbn in E1, E2, E4.
  assert (entries_live (same_first key.1 (pub_subscribes (state_ w2))) w2) as Hlive2.
  { intros e. rewrite E1, E3. intros He. destruct (Hlive e He) as (h' & s' & Hh' & Hs'). exists h'. cbn.
    destruct (decide (h' = h)) as [->|Hne]; [exists s1; split; [done|exact Hs1]|exists s'; split; [done|]].
    by rewrite lookup_alter_ne. }
  assert (Manager_HasSubscribers key.1 w2 = false) as Hpeer2 by (unfold Manager_HasSubscribers; by rewrite E2).
  unfold returns. rewrite (RemoveOrPause_eq Hfix) by done. rewrite Hpeer2.
  assert (pub_subscribes (state_ (after_leaving key.1 w2)) !! key = None) as Hgone.
  { rewrite (after_leaving_entry key.1 w2 (key, Some h)).
    - unfold idle, initiated. change (the_handler (key, Some h)) with h.
      assert (sub_heap (client w2) !! h = Some s1) as -> by (rewrite E3; exact Hs1). by rewrite Hidle, E4, Hinit.
    - destruct key as [k1 k2]. apply elem_of_same_first. rewrite E1. by split_and!. }
  destruct (someone_stays _ _); [exact Hgone|].
  pose proof (always_ClientUnsubscribe (same client_part) key.1 (after_leaving key.1 w2)) as Hun. unfold leaves in Hun.
  destruct (ClientUnsubscribe _ _) as [[[]|e|] w3]; [|done..]. injection Hun as Hst _. by rewrite Hst.
Qed.

(** C37: undefined behaviour when a client leaves a namespace.  If the first
    entry of the table of publishers is one the relay subscribed to and only the
    namespace wants it, the loop over the table unsubscribes it and erases the
    entry it stands on, and then goes on from there. *)
Theorem unsubscribe_namespace_invalidates (Hfix : initiated_fixed) conn prefix conns n key h s rest w :
  subscribes_namespaces (state_ w) !! prefix = Some conns → conns !! conn = Some n →
  entries (pub_subscribes (state_ w)) = (key, Some h) :: rest →
  entries_live (entries (pub_subscribes (state_ w))) w → 0 ≤ key.2 →
  sub_heap (client w) !! h = Some s →
  allow_self (config_ (client w)) = true ∨ key.2 ≠ conn → HasSamePrefix prefix (sub_full_name s).1 = true →
  subscribers_ s = ∅ → only_interest s n (qtrace (client w)) → q_IsPublisherInitiated (qtrace (client w)) h = false →
  Manager_HasSubscribers key.1 w = false →
  (UnsubscribeNamespaceReceived conn prefix w).1 = UB.
Proof.
  intros Hns Hconn Hentries Hlive Hk Hs Hself Hpre Hsubs Hint Hinit Hpeer.
  assert (pub_subscribes (state_ w) !! key = Some (Some h)) as Hkey.
  { apply elem_of_entries. rewrite Hentries. by left. }
  unfold UnsubscribeNamespaceReceived. rewrite get_bind, Hns, Hconn.
  assert (returns (leave_track conn prefix n key (Some h)) w (λ _ w', pub_subscribes (state_ w') !! key = None)) as Hret.
  { apply (leave_track_erases Hfix conn prefix n key h s); try done. intros [k p] He. apply Hlive.
    apply elem_of_entries. by apply elem_of_same_first in He as [? _]. }
  pose proof (calm_leave_track conn prefix n key (Some h) w) as Hcalm.
  unfold for_pub_subscribes. unfold mbind at 1, st_bind at 1. rewrite get_bind, Hentries. cbn [for_each].
  unfold mbind at 1, st_bind at 1. rewrite get_bind. cbn [fst]. rewrite Hkey.
  unfold mbind at 1, st_bind at 1. unfold returns in Hret.
  destruct (leave_track _ _ _ _ _ w) as [[[]|e|] w']; [|by destruct (Hcalm e w')|done].
  rewrite get_bind, decide_False by by rewrite Hret; intros []. done.
Qed.

End namespaces.

(** ** The end of a connection *)

Section closing.
Context `{UintVar, TrackNames, MoqMessages, GroupCache, !QuicrServer, Transport, !SubscribeMessages, Rand}.
Abbreviation World := (World ClientState).
Implicit Types w : World.

(** The tables that only a namespace subscription and a publish write. *)
Definition namespace_tables (st : RelayState) := (subscribes_namespaces st, pub_subscribes_by_req_id st).
Abbreviation R := (same (λ w : World, namespace_tables (state_ w))).

#[local] Instance namespace_frame : HandlerFrame R.
Proof. split; [by split|by intros]. Qed.

Lemma always_state_ns f : (∀ st, namespace_tables (f st) = namespace_tables st) → always R (modify (set_state f)).
Proof. intros Hf. apply always_modify. intros w. unfold same. simpl. apply Hf. Qed.
Hint Extern 1 (always _ (modify (set_state _))) => apply always_state_ns; done : frame.
Hint Extern 1 (always _ (modify (set_client_state _))) => by apply always_modify : frame.

Lemma ns_erase_pub_subscribe key : always R (erase_pub_subscribe key).
Proof. unfold erase_pub_subscribe, release, SubscribeTrackHandler_destroy. frame. Qed.
Hint Resolve ns_erase_pub_subscribe : frame.
Lemma ns_RemoveOrPause hash : always R (RemoveOrPausePublisherSubscribe hash).
Proof. unfold RemoveOrPausePublisherSubscribe, remove_or_pause. frame. Qed.
Hint Resolve ns_RemoveOrPause : frame.
Lemma ns_UnsubscribeReceived conn req : always R (UnsubscribeReceived conn req).
Proof. unfold UnsubscribeReceived. frame. apply always_with_state_lock; frame. Qed.
Lemma ns_leave_tracks conn prefix n : always R (for_pub_subscribes (leave_track conn prefix n)).
Proof. unfold for_pub_subscribes, leave_track. frame. Qed.
Lemma ns_PurgePublishState conn : always R (PurgePublishState conn).
Proof. unfold PurgePublishState. apply always_with_state_lock; frame. Qed.

(** *** Namespaces *)

(** No prefix has the connection among its subscribers. *)
Definition in_namespace (conn : Z) (prefix : TrackNamespace) (st : RelayState) : Prop :=
  ∃ conns, subscribes_namespaces st !! prefix = Some conns ∧ is_Some (conns !! conn).

Lemma UnsubscribeNamespace_leaves conn prefix w :
  returns (UnsubscribeNamespaceReceived conn prefix) w (λ _ w',
    pub_subscribes_by_req_id (state_ w') = pub_subscribes_by_req_id (state_ w) ∧
    ∀ prefix', in_namespace conn prefix' (state_ w') → in_namespace conn prefix' (state_ w) ∧ prefix' ≠ prefix).
Proof.
  unfold UnsubscribeNamespaceReceived. eapply returns_ok; [reflexivity|].
  destruct (subscribes_namespaces (state_ w) !! prefix) as [conns|] eqn:Hp; last first.
  { split; [done|]. intros prefix' Hin. split; [done|]. intros ->. destruct Hin as (conns & Hc & _). by rewrite Hp in Hc. }
  destruct (conns !! conn) as [n|] eqn:Hc; last first.
  { assert (∀ prefix', in_namespace conn prefix' (state_ w) → prefix' ≠ prefix) as Hne.
    { intros prefix' (conns' & Hc' & Hs) ->. rewrite Hp in Hc'. injection Hc' as <-. rewrite Hc in Hs. by destruct Hs. }
    case_decide; (split; [done|]); intros prefix' Hin; [|by auto].
    destruct Hin as (conns' & Hc' & Hs). cbn in Hc'. apply lookup_delete_Some in Hc' as [? Hc']. split; [|done]. by exists conns'. }
  eapply returns_bind; [apply returns_always, ns_leave_tracks|]. intros [] w1 [= E1 E2].
  eapply returns_ok; [reflexivity|]. eapply returns_ok; [reflexivity|].
  assert (∀ prefix', in_namespace conn prefix' (set_subscribes_namespaces (alter (delete conn) prefix) (state_ w1)) →
    in_namespace conn prefix' (state_ w) ∧ prefix' ≠ prefix) as Hleft.
  { intros prefix' (conns' & Hc' & Hs). cbn in Hc'. rewrite E1 in Hc'. destruct (decide (prefix' = prefix)) as [->|Hne].
    - rewrite lookup_alter_eq, Hp in Hc'. injection Hc' as <-. rewrite lookup_delete_eq in Hs. by destruct Hs.
    - rewrite lookup_alter_ne in Hc' by done. split; [|done]. by exists conns'. }
  case_decide; [|by split].
  eapply returns_ok; [reflexivity|]. split; [done|]. intros prefix' (conns' & Hc' & Hs). apply Hleft.
  cbn in Hc'. apply lookup_delete_Some in Hc' as [_ Hc']. by exists conns'.
Qed.

(** *** Publishers *)

Lemma returns_state_lock {A} (m : ST World A) w (Q : A → World → Prop) :
  returns m (set_state_mutex true w) (λ a w', Q a (set_state_mutex false w')) → returns (with_state_lock m) w Q.
Proof.
  unfold returns, with_state_lock. destruct (state_mutex w); [done|].
  by destruct (m (set_state_mutex true w)) as [[] w'].
Qed.

Lemma erase_deletes key w :
  returns (erase_pub_subscribe key) w (λ _ w', state_ w' = set_pub_subscribes (delete key) (state_ w)).
Proof.
  eapply returns_ok; [reflexivity|]. eapply returns_ok; [reflexivity|].
  eapply returns_weaken; [apply returns_always, release_tables|]. by intros [] w' ->.
Qed.

Lemma Purge_forgets conn w :
  returns (PurgePublishState conn) w (λ _ w',
    (∀ alias, pub_subscribes (state_ w') !! (alias, conn) = None) ∧
    (∀ ns, pub_namespace_active (state_ w') !! (ns, conn) = None)).
Proof.
  apply returns_state_lock. eapply returns_ok; [reflexivity|]. cbn [state_ set_state_mutex].
  eapply returns_bind.
  - apply (returns_for_each (λ rest w, ∀ alias p, pub_subscribes (state_ w) !! (alias, conn) = Some p → (alias, conn) ∈ rest)).
    + intros key rest w1 Hrest. eapply returns_weaken; [apply erase_deletes|]. intros [] w2 -> alias p Hp.
      cbn in Hp. apply lookup_delete_Some in Hp as [Hne Hp]. apply Hrest in Hp. set_solver.
    + intros alias p Hp. apply list_elem_of_filter. split; [done|].
      apply (list_elem_of_fmap_2' fst _ ((alias, conn), p)); [by apply elem_of_entries|done].
  - intros [] w1 Hnone. split.
    + intros alias. cbn. destruct (pub_subscribes (state_ w1) !! (alias, conn)) eqn:E; [|done].
      apply Hnone in E. by apply elem_of_nil in E.
    + intros ns. cbn. apply map_lookup_filter_None. right. by intros ? _ [].
Qed.

(** *** Subscriptions *)

Lemma unsubscribed_requests conn req (st : RelayState) :
  subs_ok st → (unsubscribed conn req st).1.2 = delete (conn, req) (subscribe_alias_req_id st).
Proof.
  intros (_ & Hreq & _). unfold unsubscribed. destruct (subscribe_alias_req_id st !! (conn, req)) as [alias|] eqn:Hr.
  - destruct (Hreq _ _ _ Hr) as (info & -> & _). done.
  - cbn. by rewrite delete_id.
Qed.

(** *** The connection *)

Definition connection_ended (status : ConnectionStatus) : bool :=
  match status with kConnConnected | kConnConnecting => false | _ => true end.

(** What is left to do when the namespaces are gone. *)
Definition no_namespace (conn : Z) (by_req : gmap (Z * Z) (option Ref)) w : Prop :=
  pub_subscribes_by_req_id (state_ w) = by_req ∧ ∀ prefix, ¬ in_namespace conn prefix (state_ w).

Lemma no_namespace_same conn by_req w w' :
  namespace_tables (state_ w') = namespace_tables (state_ w) → no_namespace conn by_req w → no_namespace conn by_req w'.
Proof. unfold namespace_tables, no_namespace, in_namespace. intros [= -> ->]. done. Qed.

Lemma leave_namespaces conn w :
  returns (for_each (filter (λ e, is_Some (e.2 !! conn)) (entries (subscribes_namespaces (state_ w)))).*1
             (UnsubscribeNamespaceReceived conn)) w
    (λ _ w', no_namespace conn (pub_subscribes_by_req_id (state_ w)) w' ∧ sub_tables (state_ w') = sub_tables (state_ w)).
Proof.
  set (by_req := pub_subscribes_by_req_id (state_ w)).
  apply returns_and; [|apply (returns_always (same (λ w, sub_tables (state_ w))))].
  - eapply returns_weaken; [apply (returns_for_each (λ rest w, pub_subscribes_by_req_id (state_ w) = by_req ∧
      ∀ prefix, in_namespace conn prefix (state_ w) → prefix ∈ rest))|].
    + intros prefix rest w1 [Hby Hrest]. eapply returns_weaken; [apply UnsubscribeNamespace_leaves|].
      intros [] w2 [Hby2 Hsub]. split; [by rewrite Hby2|]. intros prefix' Hin. apply Hsub in Hin as [Hin Hne].
      apply Hrest in Hin. set_solver.
    + split; [done|]. intros prefix (conns & Hp & Hs). apply (list_elem_of_fmap_2' fst _ (prefix, conns)); [|done].
      apply list_elem_of_filter. split; [done|]. by apply elem_of_entries.
    + intros [] w' [Hby Hnone]. split; [done|]. intros prefix Hin. apply Hnone in Hin. by apply elem_of_nil in Hin.
  - apply always_for_each; [typeclasses eauto|]. intros prefix. apply always_UnsubscribeNamespaceReceived; typeclasses eauto.
Qed.

Lemma leave_tracks conn by_req w :
  subs_ok (state_ w) → no_namespace conn by_req w →
  (∀ req alias, subscribe_alias_req_id (state_ w) !! (conn, req) = Some alias → 0 ≤ req) →
  returns (for_each (same_first conn (subscribe_alias_req_id (state_ w))) (λ e, UnsubscribeReceived e.1.1 e.1.2)) w
    (λ _ w', subs_ok (state_ w') ∧ no_namespace conn by_req w' ∧ ∀ req, subscribe_alias_req_id (state_ w') !! (conn, req) = None).
Proof.
  intros Hok Hns Hun.
  eapply returns_weaken; [apply (returns_for_each (λ rest w, subs_ok (state_ w) ∧ no_namespace conn by_req w ∧
    ∀ req alias, subscribe_alias_req_id (state_ w) !! (conn, req) = Some alias → ((conn, req), alias) ∈ rest))|].
  - intros [[c req] alias] rest w1 (Hok1 & Hns1 & Hrest). cbn [fst snd].
    eapply returns_weaken; [apply returns_and; [apply returns_leaves, UnsubscribeReceived_tables|
      apply returns_always, ns_UnsubscribeReceived]|].
    intros [] w2 [Ht Hsame]. split; [by eapply unsubscribed_ok|]. split; [exact (no_namespace_same _ _ _ _ Hsame Hns1)|].
    intros req' alias' Hr. assert (subscribe_alias_req_id (state_ w2) = delete (c, req) (subscribe_alias_req_id (state_ w1))) as E.
    { rewrite <- unsubscribed_requests, <- Ht by done. done. }
    rewrite E in Hr. apply lookup_delete_Some in Hr as [Hne Hr]. apply Hrest in Hr. apply elem_of_cons in Hr as [[= -> -> ->]|Hr]; done.
  - split; [done|]. split; [done|]. intros req alias Hr. apply elem_of_same_first. split_and!; [done..|]. by eapply Hun.
  - intros [] w' (Hok' & Hns' & Hnone). split; [done|]. split; [done|]. intros req.
    destruct (subscribe_alias_req_id (state_ w') !! (conn, req)) eqn:E; [|done]. apply Hnone in E. by apply elem_of_nil in E.
Qed.

End closing.




(** ** Witnesses *)

Import Quicr.Demo DemoTransport DemoRelay DemoServer DemoCache.

(** A client publishes a namespace; another subscribes to a track of it, a third
    to the namespace; the second leaves. *)
Definition demo_empty : World ClientState :=
  relay_with (mkClientState demo_config ∅ ∅ ∅ ∅ 1 ∅ ∅ ∅ [] (Some 100) 0 ∅ ∅) InfoBase_empty.
Definition demo_attrs : SubscribeAttributes := mkSubscribeAttributes 1 None 0 (mkLocation 0 0) None false.
Definition demo_namespace_events : list RelayEvent :=
  [ev_publish_namespace 31 [[5]] 7; ev_subscribe 40 1 ([[5]], [5]) demo_attrs;
   ev_subscribe_namespace 41 1 [[5]] 2 None; ev_unsubscribe 40 1].
Definition demo_namespace : World ClientState := after demo_namespace_events demo_empty.
Definition demo_lonely : SubscribeTrackHandler :=
  mkSubscribeTrackHandler ([[5]], [5]) false false ∅ {[namespace_key 3 (qtrace (client demo_namespace)) := {[41 := 3]}]}
    {[0 := mkPropertyValue 0 0; 12 := mkPropertyValue 0 0]} (Some 4) ∅ None.

Lemma unsubscribe_namespace_invalidates_witness :
  run_events demo_namespace_events demo_empty = Some demo_namespace ∧
  (UnsubscribeNamespaceReceived 41 [[5]] demo_namespace).1 = UB.
Proof.
  split; [apply run_after; vm_refl|].
  assert (entries (pub_subscribes (state_ demo_namespace)) = [((19000076, 31), Some 1)]) as Hentries by vm_refl.
  assert (sub_heap (client demo_namespace) !! 1 = Some demo_lonely) as Hs by vm_refl.
  apply (unsubscribe_namespace_invalidates demo_initiated_fixed 41 [[5]] {[41 := 3]} 3 (19000076, 31) 1 demo_lonely []
           demo_namespace); [vm_refl|vm_refl|exact Hentries| |done|exact Hs|by right|vm_refl|vm_refl| |vm_refl|vm_refl].
  - rewrite Hentries. intros e ->%list_elem_of_singleton. exists 1, demo_lonely. split; [reflexivity|exact Hs].
  - exists 3. reflexivity.
Defined.

(** A client that publishes a track, subscribes to another and to a namespace. *)
Definition demo_client_events : list RelayEvent :=
  [ev_publish 40 7 (mkPublish ([[5]], [5]) 0 true true true 1 5000) (mkLocation 0 0);
   ev_subscribe 40 1 ([[6]], [6]) demo_attrs; ev_subscribe_namespace 40 1 [[8]] 2 None].
Definition demo_client : World ClientState := after demo_client_events demo_empty.

