(* ===== verification/ClientHandles.v ===== *)
(** * The handlers behind the tables of publishers

    [pub_subscribes] and [pub_subscribes_by_req_id] hold shared pointers to the
    subscribe handlers, which the client manager dereferences without a test.
    Every pointer in them is valid: no operation leaves a null one or one to a
    handler that was destroyed. *)

From S2P Require Import Prelude Common Quicr State QuicrServer DataHeader TrackRanking InfoBase Transport PeerSession PeerSessionEvents PeerWorld ClientState PeerManager PeerForwarding PublishHandler NamespaceHandler SubscribeHandler ClientManager ClientPublish FetchHandler ClientFetch PeerEvents PeerFrames RelayEvents ClientFrames ClientTables.

Section handles.
Context `{UintVar, TrackNames, MoqMessages, GroupCache, !QuicrServer, Transport, !SubscribeMessages, Rand}.
Abbreviation World := (World ClientState).
Implicit Types w : World.

Definition pub_tables (st : RelayState) := (pub_subscribes st, pub_subscribes_by_req_id st).

(** A pointer of one of the two tables. *)
Definition pointer_in (p : option Ref) (st : RelayState) : Prop :=
  ∃ key, pub_subscribes st !! key = Some p ∨ pub_subscribes_by_req_id st !! key = Some p.

Definition allocated (h : Ref) w : Prop := h ∈ dom (sub_heap (client w)).

(** The store typing. *)
Definition handles_ok w : Prop := ∀ p, pointer_in p (state_ w) → ∃ h, p = Some h ∧ allocated h w.

(** The invariant while a new handler [h] is about to be stored, and while one
    that is in no table is destroyed. *)
Definition with_new (h : Ref) w : Prop := handles_ok w ∧ allocated h w.
Definition with_unused (h : Ref) w : Prop := handles_ok w ∧ ¬ pointer_in (Some h) (state_ w).

Lemma handles_grow w w' :
  pub_tables (state_ w') = pub_tables (state_ w) → dom (sub_heap (client w)) ⊆ dom (sub_heap (client w')) →
  handles_ok w → handles_ok w'.
Proof.
  unfold pub_tables, handles_ok, pointer_in, allocated. intros [= -> ->] Hdom Hw p Hp.
  destruct (Hw p Hp) as (h & -> & Hh). exists h. set_solver.
Qed.

(** Changes that respect the three invariants. *)
Class HandleInv (I : World → Prop) := {
  hi_grow w w' : pub_tables (state_ w') = pub_tables (state_ w) →
    dom (sub_heap (client w)) ⊆ dom (sub_heap (client w')) → I w → I w';
}.
#[local] Instance handles_ok_inv : HandleInv handles_ok.
Proof. split. apply handles_grow. Qed.
#[local] Instance with_new_inv h : HandleInv (with_new h).
Proof. split. intros w w' Ht Hd [Hw Hh]. split; [by eapply handles_grow|]. unfold allocated in *. set_solver. Qed.
#[local] Instance with_unused_inv h : HandleInv (with_unused h).
Proof.
  split. intros w w' Ht Hd [Hw Hh]. split; [by eapply handles_grow|]. unfold pub_tables, pointer_in in *.
  by injection Ht as -> ->.
Qed.

#[local] Instance handle_frame I : HandleInv I → HandlerFrame (stays I).
Proof.
  intros HI. split.
  - split; intros f w Hw; (apply (hi_grow w); [done|reflexivity|exact Hw]).
  - intros f w Hf Hw. apply (hi_grow w); [done|apply Hf|exact Hw].
Qed.

Lemma always_other_tables I `{!HandleInv I} f :
  (∀ st, pub_tables (f st) = pub_tables st) → always (stays I) (modify (set_state f)).
Proof. intros Hf. apply always_modify. intros w Hw. apply (hi_grow w); [apply Hf|reflexivity|exact Hw]. Qed.
Hint Extern 1 (always _ (modify (set_state _))) => apply always_other_tables; [typeclasses eauto|done] : frame.

Lemma always_client_same I `{!HandleInv I} f :
  (∀ s, sub_heap (f s) = sub_heap s) → always (stays I) (modify (set_client_state f)).
Proof. intros Hf. apply always_modify. intros w Hw. apply (hi_grow w); [done| |exact Hw]. simpl. by rewrite Hf. Qed.
Hint Extern 1 (always _ (modify (set_client_state _))) => apply always_client_same; [typeclasses eauto|done] : frame.

(** ** Ownership *)

Lemma pointer_held h w : pointer_in (Some h) (state_ w) → sub_held h w = true.
Proof. intros [key Hk]. apply sub_held_spec. destruct Hk; eauto. Qed.

Lemma release_ok p : always (stays handles_ok) (release p).
Proof.
  destruct p as [h|]; [|apply always_ret, _]. apply stays_leaves. intros w Hw. unfold release.
  apply (leaves_ok get _ w w w); [done|]. destruct (sub_held h w) eqn:Hheld; [done|].
  assert (with_unused h w) as Hun.
  { split; [done|]. intros Hp. apply pointer_held in Hp. by rewrite Hp in Hheld. }
  unfold SubscribeTrackHandler_destroy.
  eapply (leaves_bind _ _ _ (with_unused h)); [eapply leaves_stays; [frame|done]|by intros ? []|].
  intros s w1 Hw1. eapply (leaves_bind _ _ _ (with_unused h)); [eapply leaves_stays; [frame|done]|by intros ? []|].
  intros conn w2 Hw2. eapply (leaves_bind _ _ _ (with_unused h)); [eapply leaves_stays; [frame|done]|by intros ? []|].
  intros [] w3 [Hw3 Hno]. unfold leaves, modify. intros p Hp. destruct (Hw3 p Hp) as (h' & -> & Hh'). exists h'. split; [done|].
  unfold allocated in *. simpl. rewrite dom_delete_L. assert (h' ≠ h) by (intros ->; by apply Hno). set_solver.
Qed.
Hint Resolve release_ok : frame.

Lemma erase_ok key :
  always (stays handles_ok) (erase_pub_subscribe key) ∧ always (stays handles_ok) (erase_by_req_id key).
Proof.
  unfold erase_pub_subscribe, erase_by_req_id. split; frame; apply always_modify; intros w Hw p [key' Hp]; apply Hw;
    exists key'; simpl in Hp; rewrite ?lookup_delete_Some in Hp; tauto.
Qed.
Definition erase_pub_ok key := proj1 (erase_ok key).
Definition erase_req_ok key := proj2 (erase_ok key).
Hint Resolve erase_pub_ok erase_req_ok : frame.

(** Storing a handler: it is in a table afterwards, so it stays allocated. *)
Lemma pub_insert_pointers key h p st :
  pointer_in p (set_pub_subscribes <[key := Some h]> st) → p = Some h ∨ pointer_in p st.
Proof.
  intros [key' [Hp|Hp]]; simpl in Hp; [|right; exists key'; by right].
  apply lookup_insert_Some in Hp as [[_ <-]|[_ Hp]]; [by left|right; exists key'; by left].
Qed.
Lemma req_insert_pointers key h p st :
  pointer_in p (set_pub_subscribes_by_req_id <[key := Some h]> st) → p = Some h ∨ pointer_in p st.
Proof.
  intros [key' [Hp|Hp]]; simpl in Hp; [right; exists key'; by left|].
  apply lookup_insert_Some in Hp as [[_ <-]|[_ Hp]]; [by left|right; exists key'; by right].
Qed.

Lemma assign_pub_ok key h w : with_new h w → leaves (assign_pub_subscribe key h) w (with_new h).
Proof.
  intros Hw. unfold assign_pub_subscribe. apply (leaves_ok get _ w w w); [done|]. eapply leaves_ok; [done|].
  set (w1 := set_state _ w). assert (handles_ok w1) as Hw1.
  { destruct Hw as [Hw Hh]. intros p [->|Hold]%pub_insert_pointers; [by exists h|by apply Hw]. }
  pose proof (release_ok (mjoin (pub_subscribes (state_ w) !! key)) w1) as Hok.
  pose proof (release_tables (mjoin (pub_subscribes (state_ w) !! key)) w1) as Hsame.
  unfold leaves in *. destruct (release _ w1) as [[[]|e|] w2]; [..|done]; (split; [by apply Hok|]);
    (destruct (Hok Hw1 (Some h)) as (h' & [= <-] & Hh'); [|done]); exists key; left; rewrite Hsame; apply lookup_insert_eq.
Qed.
Lemma assign_req_ok key h w : with_new h w → leaves (assign_by_req_id key h) w (with_new h).
Proof.
  intros Hw. unfold assign_by_req_id. apply (leaves_ok get _ w w w); [done|]. eapply leaves_ok; [done|].
  set (w1 := set_state _ w). assert (handles_ok w1) as Hw1.
  { destruct Hw as [Hw Hh]. intros p [->|Hold]%req_insert_pointers; [by exists h|by apply Hw]. }
  pose proof (release_ok (mjoin (pub_subscribes_by_req_id (state_ w) !! key)) w1) as Hok.
  pose proof (release_tables (mjoin (pub_subscribes_by_req_id (state_ w) !! key)) w1) as Hsame.
  unfold leaves in *. destruct (release _ w1) as [[[]|e|] w2]; [..|done]; (split; [by apply Hok|]);
    (destruct (Hok Hw1 (Some h)) as (h' & [= <-] & Hh'); [|done]); exists key; right; rewrite Hsame; apply lookup_insert_eq.
Qed.

(** A new handler, used by the rest of an operation. *)
Lemma make_ok {B} name priority order init (k : Ref → ST World B) w :
  handles_ok w → (∀ h w, with_new h w → leaves (k h) w handles_ok) →
  leaves (SubscribeTrackHandler_make name priority order init ≫= k) w handles_ok.
Proof.
  intros Hw Hk. unfold leaves.
  assert (∃ h w1, SubscribeTrackHandler_make name priority order init w = (Ok h, w1) ∧ with_new h w1) as (h & w1 & Hrun & Hw1).
  { eexists _, _. split; [reflexivity|]. split.
    - apply (handles_grow w); [done| |done]. simpl. rewrite dom_insert_L. set_solver.
    - unfold allocated. simpl. rewrite dom_insert_L. set_solver. }
  rewrite (bind_ok _ _ _ _ _ Hrun). by apply Hk.
Qed.

(** [frame] up to the point where a handler is made. *)
Ltac frame_to_make :=
  intros; repeat lazymatch goal with
  | |- always _ (mbind _ (SubscribeTrackHandler_make _ _ _ _)) => fail
  | |- _ => first [assumption | always_structure | solve [eauto 4 with frame]]
  end;
  try (apply stays_leaves; intros w Hw; apply make_ok; [done|]; clear w Hw; intros h w Hw).

(** A step that keeps the new handler. *)
Lemma with_new_step {A B} h (m : ST World A) (k : A → ST World B) w :
  always (stays (with_new h)) m → with_new h w → (∀ a w, with_new h w → leaves (k a) w handles_ok) →
  leaves (m ≫= k) w handles_ok.
Proof.
  intros Hm Hw Hk. eapply (leaves_bind _ _ _ (with_new h)); [by eapply leaves_stays|by intros ? []|]. intros a w1 Hw1. by apply Hk.
Qed.
Lemma with_new_done {A} h (m : ST World A) w : always (stays handles_ok) m → with_new h w → leaves m w handles_ok.
Proof. intros Hm [Hw _]. by eapply leaves_stays. Qed.
Lemma with_new_assign {B} h (m : ST World unit) (k : unit → ST World B) w :
  leaves m w (with_new h) → (∀ a w, with_new h w → leaves (k a) w handles_ok) → leaves (m ≫= k) w handles_ok.
Proof. intros Hm Hk. eapply leaves_bind; [exact Hm|by intros ? []|]. intros a w1 Hw1. by apply Hk. Qed.

(** The next step keeps the new handler, or is the last one. *)
Ltac keep := eapply with_new_step; [|eassumption|]; [frame|];
  match goal with Hw : with_new _ ?w |- _ => clear w Hw end; intros ? w Hw.

(** ** The operations *)

Abbreviation safe m := (always (stays handles_ok) m).

Lemma RemoveOrPause_safe hash : safe (RemoveOrPausePublisherSubscribe hash).
Proof. unfold RemoveOrPausePublisherSubscribe, remove_or_pause. frame. Qed.
Hint Resolve RemoveOrPause_safe : frame.

Lemma subscribe_announcer_safe conn req hash name attrs e : safe (subscribe_announcer conn req hash name attrs e).
Proof.
  unfold subscribe_announcer. frame_to_make.
  keep.
  keep.
  keep.
  keep.
  eapply (with_new_assign h); [by apply assign_req_ok|]. clear w Hw. intros _ w Hw.
  eapply (with_new_assign h); [by apply assign_pub_ok|]. clear w Hw. intros _ w Hw.
  eapply (with_new_done h); [frame|done].
Qed.
Hint Resolve subscribe_announcer_safe : frame.

Lemma ProcessSubscribe_safe conn req th name attrs : safe (ProcessSubscribe conn req th name attrs).
Proof. unfold ProcessSubscribe. frame. Qed.
Hint Resolve ProcessSubscribe_safe : frame.
#[local] Instance process_safe : @ProcessFrame _ _ (stays handles_ok) client_process.
Proof. split. intros. simpl. apply ProcessSubscribe_safe. Qed.

Lemma subscribe_to_publisher_one_safe conn ns e : safe (subscribe_to_publisher_one conn ns e).
Proof.
  unfold subscribe_to_publisher_one. frame_to_make.
  keep.
  keep.
  unfold leaves. pose proof (assign_pub_ok (act_track_alias p.2, conn) h w Hw) as Ha. unfold leaves in Ha.
  destruct (assign_pub_subscribe _ _ w) as [[] w2]; [apply Ha|apply Ha|done].
Qed.
Hint Resolve subscribe_to_publisher_one_safe : frame.
Lemma PublishNamespaceReceived_safe conn ns req : safe (PublishNamespaceReceived conn ns req).
Proof. unfold PublishNamespaceReceived, subscribe_to_publisher. frame. Qed.
Lemma PublishNamespaceDoneReceived_safe conn req : safe (PublishNamespaceDoneReceived conn req).
Proof. unfold PublishNamespaceDoneReceived, drop_announced, ClientUnannounce. frame. Qed.
Lemma PurgePublishState_safe conn : safe (PurgePublishState conn).
Proof. unfold PurgePublishState. apply always_with_state_lock; frame. Qed.
Hint Resolve PublishNamespaceReceived_safe PublishNamespaceDoneReceived_safe PurgePublishState_safe : frame.

Lemma PublishReceived_safe conn req attrs start : safe (PublishReceived conn req attrs start).
Proof.
  unfold PublishReceived. frame_to_make.
  keep.
  keep.
  eapply (with_new_assign h); [by apply assign_pub_ok|]. clear w Hw. intros _ w Hw.
  eapply (leaves_bind _ _ _ handles_ok); [|done|intros; eapply leaves_stays; [frame|done]].
  destruct (bool_decide _ && bool_decide _); [by destruct Hw|].
  eapply (with_new_assign h); [by apply assign_req_ok|]. clear w Hw. intros _ w Hw. eapply (with_new_done h); [frame|done].
Qed.
Lemma SubscribeNamespaceReceived_safe conn ctx prefix req filter :
  safe (SubscribeNamespaceReceived conn ctx prefix req filter).
Proof. unfold SubscribeNamespaceReceived. frame. Qed.
Lemma UnsubscribeNamespaceReceived_safe conn prefix : safe (UnsubscribeNamespaceReceived conn prefix).
Proof. unfold UnsubscribeNamespaceReceived, for_pub_subscribes, leave_track. frame. Qed.
Lemma UnsubscribeReceived_safe conn req : safe (UnsubscribeReceived conn req).
Proof. unfold UnsubscribeReceived. frame. apply always_with_state_lock; frame. Qed.
Hint Resolve PublishReceived_safe SubscribeNamespaceReceived_safe UnsubscribeNamespaceReceived_safe
  UnsubscribeReceived_safe : frame.
Lemma PublishDoneReceived_safe conn req : safe (PublishDoneReceived conn req).
Proof. unfold PublishDoneReceived. frame; apply always_with_state_lock; frame. Qed.
Lemma ConnectionStatusChanged_safe conn status : safe (ConnectionStatusChanged conn status).
Proof. unfold ConnectionStatusChanged. frame. Qed.
Lemma SubscribeReceived_safe conn req name attrs : safe (SubscribeReceived conn req name attrs).
Proof. unfold SubscribeReceived. frame. Qed.
Lemma Sub_StatusChanged_safe h status : safe (Sub_StatusChanged h status).
Proof.
  unfold Sub_StatusChanged. frame. apply always_modify. intros w Hw p [key Hp]. apply Hw. exists key. simpl in Hp.
  rewrite lookup_delete_Some in Hp. tauto.
Qed.
Hint Resolve PublishDoneReceived_safe ConnectionStatusChanged_safe SubscribeReceived_safe Sub_StatusChanged_safe : frame.
#[local] Instance client_safe : ClientFrame (stays handles_ok).
Proof. split; [by apply process_safe|intros; simpl; frame..]. Qed.

Lemma event_safe ev : safe (run_relay_event ev).
Proof. destruct ev; cbn [run_relay_event]; unfold Pub_StatusChanged; frame. Qed.

(** C1: no dangling handlers.  Whatever happens to the relay, every pointer in
    the two tables of publishers is neither null nor to a destroyed handler:
    handlers are destroyed only when both tables and libquicr have let go of
    them, and a table never gets a pointer to anything else. *)
Theorem publisher_handles_valid evs w w' :
  handles_ok w → run_events evs w = Some w' →
  ∀ key p, (pub_subscribes (state_ w') !! key = Some p ∨ pub_subscribes_by_req_id (state_ w') !! key = Some p) →
    ∃ h, p = Some h ∧ is_Some (sub_heap (client w') !! h).
Proof.
  intros Hw Hrun. assert (handles_ok w') as Hw'.
  { eapply run_events_ind; [|exact Hw|exact Hrun]. intros ev w1. apply leaves_stays, event_safe. }
  intros key p Hp. destruct (Hw' p) as (h & -> & Hh); [by exists key|]. exists h. split; [done|].
  by apply elem_of_dom.
Qed.
End handles.

(** ** Witness *)

Import Quicr.Demo DemoTransport DemoRelay DemoServer DemoCache.

(** The publisher 31 has a handler, and its second publish replaces it. *)
Definition demo_publishes : list RelayEvent :=
  [ev_publish 31 7 (mkPublish ([[5]], [5]) 0 true true true 1 5000) (mkLocation 0 0);
   ev_publish 31 8 (mkPublish ([[5]], [5]) 0 true true true 1 5000) (mkLocation 0 0); ev_publish_done 31 7; ev_let_go 1].
Definition demo_publishers : World ClientState :=
  relay_with (mkClientState demo_config ∅ ∅ ∅ ∅ 1 ∅ ∅ ∅ [] (Some 100) 0 ∅ ∅) InfoBase_empty.
Lemma demo_no_pointer p : pointer_in p (state_ demo_publishers) → ∃ h, p = Some h ∧ allocated h demo_publishers.
Proof.
  intros [key [Hp|Hp]]; by change ((∅ : gmap (Z * Z) (option Ref)) !! key = Some p) in Hp.
Qed.

Lemma publisher_handles_valid_witness :
  ∃ h, pub_subscribes_by_req_id (state_ (after demo_publishes demo_publishers)) !! (8, 31) = Some (Some h) ∧
    is_Some (sub_heap (client (after demo_publishes demo_publishers)) !! h).
Proof.
  assert (run_events demo_publishes demo_publishers = Some (after demo_publishes demo_publishers)) as Hrun
    by (apply run_after; vm_refl).
  destruct (publisher_handles_valid demo_publishes demo_publishers _ (λ p, demo_no_pointer p) Hrun (8, 31) (Some 2))
    as (h & [= <-] & Hh).
  - right. vm_refl.
  - exists 2. split; [vm_refl|exact Hh].
Defined.
