(* ===== verification/PeerFlooding.v ===== *)
(** * How the peer manager floods information

    Which control messages leave, to whom, when node information, a
    subscription or an announcement is received or made. *)

From S2P Require Import Prelude Common Quicr State NodeInfo DataHeader SubscribeInfo SubscribeNodeSet AnnounceInfo InfoBase InfoBaseNodes InfoBaseTables Transport PeerSession PeerSessionEvents PeerSessionControl PeerWorld PeerManager PeerForwarding.

(** A message on a session's control stream. *)
Definition control_call (s : PeerSession) (bytes : list Z) : TransportCall :=
  Enqueue (t_conn_id_ s) (control_data_ctx_id_ s) (control_stream_id_ s) bytes 0 1000 None.

Section flooding.
Context `{UintVar, TrackNames, Transport, !SubscribeMessages, Rand} {C : Type} `{!ClientManagerI C}.
Abbreviation World := (World C).
Implicit Types w : World.

(** ** Sound states *)

(** Every session of the maps is alive, and a connected session has its
    transport. *)
Record world_ok w : Prop := {
  ok_alive id r : server_peer_sessions_ w !! id = Some r ∨ client_peer_sessions_ w !! id = Some r →
    is_Some (sessions w !! r);
  ok_transport r s : sessions w !! r = Some s → status_ s = kStatusConnected → transport_ s = true;
}.

(** No lock is held. *)
Definition unlocked w : Prop :=
  pm_mutex_ w = false ∧ mutex_ (info_base_ w) = false ∧ state_mutex w = false.

Lemma elem_of_all_sessions w e :
  e ∈ all_sessions w ↔ client_peer_sessions_ w !! e.1 = Some e.2 ∨ server_peer_sessions_ w !! e.1 = Some e.2.
Proof. destruct e. unfold all_sessions. by rewrite elem_of_app, !elem_of_entries. Qed.

Lemma all_sessions_alive w e : world_ok w → e ∈ all_sessions w → is_Some (sessions w !! e.2).
Proof. intros Hok He%elem_of_all_sessions. apply (ok_alive w Hok e.1). tauto. Qed.

(** ** Sending on a session of the state *)

Lemma world_session_ok w r s : sessions w !! r = Some s → the_session r w = (Ok s, w).
Proof. exact (the_session_ok r s w). Qed.

(** The calls of a message that is sent when the session is connected. *)
Definition if_sent (s : PeerSession) (bytes : list Z) : list TransportCall :=
  if decide (status_ s = kStatusConnected) then [control_call s bytes] else [].

Lemma send_control_ok w r s bytes :
  world_ok w → sessions w !! r = Some s →
  on_session r (if_connected (enqueue_control bytes)) w = (Ok tt, set_trace (trace w ++ if_sent s bytes) w).
Proof.
  intros Hok Hs. apply on_session_calls with s; [done|]. unfold if_sent, if_connected, self, mbind, st_bind, gets. simpl.
  case_decide as Hst; [|by rewrite app_nil_r].
  unfold enqueue_control, self, call, mbind, st_bind, gets. simpl. by rewrite (ok_transport w Hok r s).
Qed.

Lemma world_ok_trace w t : world_ok w → world_ok (set_trace t w).
Proof. intros [??]. by split. Qed.

Lemma set_trace_trace w t t' : set_trace t' (set_trace t w) = set_trace t' w.
Proof. done. Qed.

(** A loop over sessions whose rounds only send. *)
Lemma for_each_sends {A} (l : list A) (f : A → ST World unit) (calls : A → list TransportCall) w :
  (∀ t x, x ∈ l → f x (set_trace t w) = (Ok tt, set_trace (t ++ calls x) w)) →
  for_each l f w = (Ok tt, set_trace (trace w ++ (l ≫= calls)) w).
Proof.
  intros Hf. rewrite <- (set_trace_same w) at 1. generalize (trace w). revert Hf.
  induction l as [|x l IH]; intros Hf t; [by rewrite app_nil_r|].
  cbn [for_each]. rewrite (bind_ok _ _ _ _ _ (Hf t x ltac:(left))).
  rewrite IH by (intros t' y Hy; apply Hf; by right). rewrite bind_cons, <- app_assoc. done.
Qed.

(** Running under a mutex of the manager, for code that only sends. *)
Lemma with_pm_lock_sends (m : ST World unit) w t :
  pm_mutex_ w = false → m (set_pm_mutex true w) = (Ok tt, set_trace t (set_pm_mutex true w)) →
  with_pm_lock m w = (Ok tt, set_trace t w).
Proof. intros Hm Hrun. unfold with_pm_lock. rewrite Hm, Hrun. destruct w; simpl in *. by subst. Qed.

(** ** Node information *)

(** The calls of PropagateNodeInfo: one for each session of the maps that is
    connected and not skipped, in the order of the maps. *)
Definition node_calls w (ni : NodeInfo) (withdraw : bool) (e : Z * SessRef) : list TransportCall :=
  match sessions w !! e.2 with
  | Some s => if skip_node ni (remote_node_info_ s) then [] else if_sent s (NodeInfo_Serialize true withdraw ni)
  | None => []
  end.

Lemma propagate_ok w ni withdraw :
  world_ok w → pm_mutex_ w = false →
  PropagateNodeInfo ni withdraw w =
    (Ok tt, set_trace (trace w ++ (all_sessions w ≫= node_calls w ni withdraw)) w).
Proof.
  intros Hok Hm. apply with_pm_lock_sends; [done|]. set (w1 := set_pm_mutex true w).
  assert (world_ok w1) as Hok1 by by destruct Hok; split.
  rewrite (bind_ok get _ w1 w1 w1) by done.
  change (trace w) with (trace w1). apply (for_each_sends (all_sessions w1)).
  intros t e He. destruct (all_sessions_alive w1 e Hok1 He) as [s Hs].
  rewrite (bind_ok _ _ _ _ _ (world_session_ok (set_trace t w1) e.2 s Hs)).
  unfold node_calls. change (sessions w) with (sessions w1). rewrite Hs.
  destruct (skip_node ni (remote_node_info_ s)); [by rewrite app_nil_r|].
  exact (send_control_ok (set_trace t w1) e.2 s _ (world_ok_trace _ _ Hok1) Hs).
Qed.

Definition node_sends w (ni : NodeInfo) (withdraw : bool) : list TransportCall :=
  all_sessions w ≫= node_calls w ni withdraw.

(** A neighbour that may be told about a node: it is connected and known, and
    it neither is the node nor occurs on the path. *)
Definition node_recipient (ni : NodeInfo) (s : PeerSession) : Prop :=
  status_ s = kStatusConnected ∧ ni_id ni ≠ 0 ∧ ni_id (remote_node_info_ s) ≠ 0 ∧
  ni_id (remote_node_info_ s) ∉ ni_id ni :: (item_id <$> ni_path ni).

Lemma skip_node_false ni remote :
  skip_node ni remote = false ↔
  ni_id ni ≠ 0 ∧ ni_id remote ≠ 0 ∧ ni_id remote ∉ ni_id ni :: (item_id <$> ni_path ni).
Proof.
  unfold skip_node. rewrite !orb_false_iff, !bool_decide_eq_false, not_elem_of_cons.
  assert (existsb (λ npi, bool_decide (item_id npi = ni_id remote)) (ni_path ni) = false ↔
          ni_id remote ∉ item_id <$> ni_path ni) as ->.
  { rewrite <- not_true_iff_false, existsb_exists. split; intros Hn Hin; apply Hn.
    - apply list_elem_of_fmap in Hin as (x & Hx & Hin). exists x. split; [by apply list_elem_of_In|].
      by apply bool_decide_eq_true.
    - destruct Hin as (x & Hin%list_elem_of_In & Hx%bool_decide_eq_true). apply list_elem_of_fmap. eauto. }
  naive_solver.
Qed.

Lemma elem_of_node_sends w ni withdraw c :
  c ∈ node_sends w ni withdraw ↔
  ∃ e s, e ∈ all_sessions w ∧ sessions w !! e.2 = Some s ∧ node_recipient ni s ∧
         c = control_call s (NodeInfo_Serialize true withdraw ni).
Proof.
  unfold node_sends. rewrite list_elem_of_bind. unfold node_calls, if_sent, node_recipient.
  split.
  - intros (e & Hc & He). destruct (sessions w !! e.2) as [s|] eqn:Hs; [|by apply not_elem_of_nil in Hc].
    destruct (skip_node ni (remote_node_info_ s)) eqn:Hsk; [by apply not_elem_of_nil in Hc|].
    apply skip_node_false in Hsk. case_decide; [|by apply not_elem_of_nil in Hc].
    apply list_elem_of_singleton in Hc as ->. exists e, s. tauto.
  - intros (e & s & He & Hs & (Hst & Hsk) & ->). apply skip_node_false in Hsk.
    exists e. split; [|done]. rewrite Hs, Hsk, decide_True by done. left.
Qed.

(** ** Running a method of the information base *)

Lemma on_ib_ok {A} (m : ST InfoBase A) w o ib :
  m (info_base_ w) = (o, ib) → on_ib m w = (o, set_info_base ib w).
Proof. intros Hm. unfold on_ib, zoom. by rewrite Hm. Qed.

Definition peer_at w (id : Z) : option SessRef :=
  match server_peer_sessions_ w !! id with Some r => Some r | None => client_peer_sessions_ w !! id end.

Lemma GetPeerSession_ok w id :
  GetPeerSession id w = (match peer_at w id with Some r => Ok r | None => Throw invalid_argument end, w).
Proof.
  unfold GetPeerSession, peer_at. rewrite (bind_ok get _ w w w) by done.
  destruct (server_peer_sessions_ w !! id); [done|]. by destruct (client_peer_sessions_ w !! id).
Qed.

Lemma world_ok_ib w ib : world_ok w → world_ok (set_info_base ib w).
Proof. intros [??]. by split. Qed.

(** ** NodeReceived *)

Definition advertised (ni : NodeInfo) (s : PeerSession) : NodeInfo :=
  path_push ni (mkNodePathItem (ni_id ni) (metrics_srtt_us s)).
Definition withdrawn (ni : NodeInfo) (s : PeerSession) : NodeInfo :=
  path_push ni (mkNodePathItem (ni_id (node_info_ s)) (metrics_srtt_us s)).

Section node_received.
Context w (id : Z) (r : SessRef) (s : PeerSession) (ni : NodeInfo) (Hok : world_ok w) (Hun : unlocked w) (Hwf : nodes_wf (session_id w) (info_base_ w)).
Context (Hs : sessions w !! r = Some s) (Hid : t_conn_id_ s = id) (Hpos : 0 ≤ id) (Hp : peer_at w id = Some r).

Lemma session_lock : session_id w r = Some id.
Proof using Hs Hid. unfold session_id. rewrite Hs. by simpl; rewrite <- Hid. Qed.

Lemma NodeReceived_advertise : ∃ updated ib,
  AddNode (session_id w) r ni (info_base_ w) = (Ok updated, ib) ∧ nodes_wf (session_id w) ib ∧
  NodeReceived id ni false w =
    (Ok tt, set_trace (trace w ++ if updated then node_sends w (advertised ni s) false else []) (set_info_base ib w)).
Proof using All.
  destruct Hun as (Hpm & Hib & _).
  destruct (AddNode_ok (session_id w) (info_base_ w) r ni id Hwf Hib session_lock Hpos) as (updated & best & Hadd & Hwf').
  set (ib := add_node_tables r id ni best (info_base_ w)) in *. exists updated, ib. split_and!; [done|done|].
  unfold NodeReceived, ignore_exceptions, try_catch.
  rewrite (bind_ok _ _ w r w) by by rewrite GetPeerSession_ok, Hp.
  rewrite (bind_ok _ _ w updated (set_info_base ib w)) by by apply on_ib_ok.
  destruct updated; [|by rewrite app_nil_r; destruct w].
  rewrite (bind_ok _ _ _ _ _ (world_session_ok (set_info_base ib w) r s Hs)).
  fold (advertised ni s). by rewrite (propagate_ok (set_info_base ib w) _ false (world_ok_ib _ _ Hok) Hpm).
Qed.

Lemma NodeReceived_withdraw : ∃ ib,
  RemoveNode (session_id w) id (ni_id ni) (info_base_ w) = (Ok tt, ib) ∧ nodes_wf (session_id w) ib ∧
  NodeReceived id ni true w =
    (Ok tt, set_trace (trace w ++ node_sends w (withdrawn ni s) true) (set_info_base ib w)).
Proof using All.
  destruct Hun as (Hpm & Hib & _).
  destruct (RemoveNode_ok (session_id w) (info_base_ w) id (ni_id ni) Hwf Hib) as (best & Hrem & Hwf').
  set (ib := remove_node_tables id (ni_id ni) best (info_base_ w)) in *. exists ib. split_and!; [done|done|].
  unfold NodeReceived, ignore_exceptions, try_catch.
  rewrite (bind_ok _ _ w r w) by by rewrite GetPeerSession_ok, Hp.
  rewrite (bind_ok _ _ w tt (set_info_base ib w)) by by apply on_ib_ok.
  rewrite (bind_ok _ _ _ _ _ (world_session_ok (set_info_base ib w) r s Hs)).
  fold (withdrawn ni s). by rewrite (propagate_ok (set_info_base ib w) _ true (world_ok_ib _ _ Hok) Hpm).
Qed.
End node_received.

(** C17: what a node message does.  An advertisement is recorded for its
    session; when that changed the best way to the node, and for every
    withdrawal, it is passed on, with one entry added to its path, to exactly
    the connected neighbours that are known, are not the node and are not on
    that path.  From an unknown session it is ignored. *)
Theorem node_received_spec w id r s ni :
  world_ok w → unlocked w → nodes_wf (session_id w) (info_base_ w) →
  sessions w !! r = Some s → t_conn_id_ s = id → 0 ≤ id →
  (peer_at w id = None → ∀ withdraw, NodeReceived id ni withdraw w = (Ok tt, w)) ∧
  (peer_at w id = Some r → ∃ updated ib calls,
      AddNode (session_id w) r ni (info_base_ w) = (Ok updated, ib) ∧ nodes_wf (session_id w) ib ∧
      NodeReceived id ni false w = (Ok tt, set_trace (trace w ++ calls) (set_info_base ib w)) ∧
      ∀ c, c ∈ calls ↔ updated = true ∧ ∃ e s', e ∈ all_sessions w ∧ sessions w !! e.2 = Some s' ∧
        node_recipient (advertised ni s) s' ∧ c = control_call s' (NodeInfo_Serialize true false (advertised ni s))) ∧
  (peer_at w id = Some r → ∃ ib calls,
      RemoveNode (session_id w) id (ni_id ni) (info_base_ w) = (Ok tt, ib) ∧ nodes_wf (session_id w) ib ∧
      NodeReceived id ni true w = (Ok tt, set_trace (trace w ++ calls) (set_info_base ib w)) ∧
      ∀ c, c ∈ calls ↔ ∃ e s', e ∈ all_sessions w ∧ sessions w !! e.2 = Some s' ∧
        node_recipient (withdrawn ni s) s' ∧ c = control_call s' (NodeInfo_Serialize true true (withdrawn ni s))).
Proof.
  intros Hok Hun Hwf Hs Hid Hpos. split_and!.
  - intros Hp withdraw. unfold NodeReceived, ignore_exceptions, try_catch.
    by rewrite (bind_throw _ _ w invalid_argument w) by by rewrite GetPeerSession_ok, Hp.
  - intros Hp. destruct (NodeReceived_advertise w id r s ni Hok Hun Hwf Hs Hid Hpos Hp) as (u & ib & Hadd & Hwf' & Hrun).
    eexists u, ib, _. split_and!; [done|done|exact Hrun|]. intros c.
    destruct u; [by rewrite elem_of_node_sends; split; [|intros [_ ?]]|].
    split; [by intros ?%not_elem_of_nil|by intros [? _]].
  - intros Hp. destruct (NodeReceived_withdraw w id r s ni Hok Hun Hwf Hs Hid Hpos Hp) as (ib & Hrem & Hwf' & Hrun).
    eexists ib, _. split_and!; [done|done|exact Hrun|]. intros c. apply elem_of_node_sends.
Qed.

(** C33: when NodeReceived passes an advertisement on, it does not put the relay
    on the path: the entry it adds names the advertised node.  (InfoBaseSyncPeer,
    which sends the known nodes to a new neighbour, adds the relay itself.)  So an
    advertisement that changes the best session goes back to the very neighbour
    it came from, when that one is connected, unless it is the node itself or is
    on the path already. *)
Theorem advertisement_returns_to_sender w id r s ni ib :
  world_ok w → unlocked w → nodes_wf (session_id w) (info_base_ w) →
  sessions w !! r = Some s → t_conn_id_ s = id → 0 ≤ id → peer_at w id = Some r →
  AddNode (session_id w) r ni (info_base_ w) = (Ok true, ib) →
  status_ s = kStatusConnected → ni_id ni ≠ 0 → ni_id (remote_node_info_ s) ≠ 0 →
  ni_id (remote_node_info_ s) ∉ ni_id ni :: (item_id <$> ni_path ni) →
  item_id <$> ni_path (advertised ni s) = (item_id <$> ni_path ni) ++ [ni_id ni] ∧
  ∃ calls, NodeReceived id ni false w = (Ok tt, set_trace (trace w ++ calls) (set_info_base ib w)) ∧
    control_call s (NodeInfo_Serialize true false (advertised ni s)) ∈ calls.
Proof.
  intros Hok Hun Hwf Hs Hid Hpos Hp Hadd Hst Hn Hr Hnot.
  split; [simpl; by rewrite fmap_app|].
  destruct (NodeReceived_advertise w id r s ni Hok Hun Hwf Hs Hid Hpos Hp) as (u & ib' & Hadd' & _ & Hrun).
  rewrite Hadd in Hadd'. injection Hadd' as <- <-. eexists. split; [exact Hrun|].
  apply elem_of_node_sends. exists (id, r), s. split_and!; [|done| |done].
  - apply elem_of_all_sessions. simpl. unfold peer_at in Hp.
    destruct (server_peer_sessions_ w !! id) as [r'|]; [right; congruence|by left].
  - split_and!; try done. simpl. rewrite fmap_app. simpl. set_solver.
Qed.

(** ** Subscriptions *)

(** The sessions a broadcast reaches, in its order. *)
Definition recipient w (skip : option Z) (e : Z * SessRef) : option PeerSession :=
  if decide (skip = Some e.1) then None
  else s ← sessions w !! e.2; if decide (status_ s = kStatusConnected) then Some s else None.
Definition recipients w (skip : option Z) : list PeerSession := omap (recipient w skip) (all_sessions w).

(** The subscription in the [i]-th message of a broadcast. *)
Definition with_seq (seq : Z) (si : SubscribeInfo) : SubscribeInfo :=
  mkSubscribeInfo seq (si_source_node_id si) (si_track_hash si) (si_subscribe_data si).
Definition sent_si (origin : bool) (i : nat) (si : SubscribeInfo) : SubscribeInfo :=
  if origin then with_seq (u16 (si_seq si + Z.of_nat i)) si else si.

Definition subscribe_bytes (withdraw : bool) (si : SubscribeInfo) : list Z :=
  (SubscribeInfo_Serialize true withdraw false si).1.

Definition subscribe_calls (rs : list PeerSession) (origin : bool) (si : SubscribeInfo) (withdraw : bool) :
    list TransportCall :=
  imap (λ i s, control_call s (subscribe_bytes withdraw (sent_si origin (S i) si))) rs.

Lemma bump_seq_with si : in_range 16 (si_seq si) → bump_seq si = with_seq (u16 (si_seq si + 1)) si.
Proof.
  intros Hr. unfold bump_seq, with_seq. f_equal. unfold in_range in Hr. case_decide.
  - symmetry. apply wrap_small. unfold in_range. lia.
  - replace (si_seq si) with 65535 by lia. done.
Qed.

Lemma sent_si_range origin i si : in_range 16 (si_seq si) → in_range 16 (si_seq (sent_si origin i si)).
Proof. intros Hr. destruct origin; [|done]. simpl. apply wrap_range. lia. Qed.

Lemma sent_si_zero origin si : in_range 16 (si_seq si) → sent_si origin 0 si = si.
Proof.
  intros Hr. destruct origin; [|done]. unfold sent_si, with_seq. rewrite Z.add_0_r, wrap_small by done.
  by destruct si.
Qed.

Lemma sent_si_source origin i si : si_source_node_id (sent_si origin i si) = si_source_node_id si.
Proof. by destruct origin. Qed.

Lemma sent_si_data origin i si : si_subscribe_data (sent_si origin i si) = si_subscribe_data si.
Proof. by destruct origin. Qed.
Lemma sent_si_hash origin i si : si_hash (sent_si origin i si) = si_hash si.
Proof. by destruct origin. Qed.

(** One message of an origin follows the one before. *)
Lemma sent_si_next (origin : bool) i si :
  in_range 16 (si_seq si) →
  (if origin then bump_seq (sent_si origin i si) else sent_si origin i si) = sent_si origin (S i) si.
Proof.
  intros Hr. destruct origin; [|done]. rewrite bump_seq_with by by apply (sent_si_range true).
  unfold sent_si, with_seq. simpl. f_equal. unfold wrap. rewrite Zplus_mod_idemp_l. f_equal. lia.
Qed.

(** The relay's own id is the same in all its sessions. *)
Definition self_known w : Prop := ∀ e s, e ∈ all_sessions w → sessions w !! e.2 = Some s →
  ni_id (node_info_ s) = ni_id (pm_node_info_ w).

Lemma send_subscribe_ok w r s si withdraw :
  world_ok w → sessions w !! r = Some s →
  let origin := bool_decide (ni_id (node_info_ s) = si_source_node_id si) in
  let si' := if origin then bump_seq si else si in
  on_session r (SendSubscribeInfo si withdraw) w =
    (if decide (status_ s = kStatusConnected)
     then (Ok si', set_trace (trace w ++ [control_call s (subscribe_bytes withdraw si')]) w)
     else (Ok si, set_trace (trace w ++ []) w)).
Proof.
  intros Hok Hs origin si'.
  case_decide as Hst; apply on_session_calls with s; try done; unfold SendSubscribeInfo, self, mbind, st_bind, gets; simpl.
  - rewrite decide_True by done. unfold enqueue_control, self, call, mbind, st_bind, gets, SubscribeInfo_Serialize. simpl.
    by rewrite (ok_transport w Hok r s).
  - rewrite decide_False by done. by rewrite app_nil_r.
Qed.

Lemma broadcast_loop w skip si withdraw l : ∀ n t,
  world_ok w → in_range 16 (si_seq si) →
  (∀ e, e ∈ l → ∃ s, sessions w !! e.2 = Some s ∧ ni_id (node_info_ s) = ni_id (pm_node_info_ w)) →
  let origin := bool_decide (ni_id (pm_node_info_ w) = si_source_node_id si) in
  let rs := omap (recipient w skip) l in
  fold_each l (sent_si origin n si) (λ si e,
    if decide (skip = Some e.1) then mret si else on_session e.2 (SendSubscribeInfo si withdraw)) (set_trace t w) =
  (Ok (sent_si origin (n + length rs) si),
   set_trace (t ++ imap (λ i s, control_call s (subscribe_bytes withdraw (sent_si origin (n + S i) si))) rs) w).
Proof.
  induction l as [|e l IH]; intros n t Hok Hr Hl origin rs.
  - cbn [fold_each]. subst rs. simpl. rewrite app_nil_r, Nat.add_0_r. done.
  - cbn [fold_each]. destruct (Hl e ltac:(left)) as (s & Hs & Hself).
    assert (∀ x, x ∈ l → ∃ s, sessions w !! x.2 = Some s ∧ ni_id (node_info_ s) = ni_id (pm_node_info_ w)) as Hl'
      by (intros x Hx; apply Hl; by right).
    pose proof (λ n t, IH n t Hok Hr Hl') as IH'. cbv zeta in IH'. fold origin in IH'. clear IH.
    assert (rs = match recipient w skip e with Some s => s :: omap (recipient w skip) l | None => omap (recipient w skip) l end)
      as Hrs by (subst rs; simpl; by destruct (recipient w skip e)).
    unfold recipient in Hrs. rewrite Hrs. clear Hrs. destruct (decide (skip = Some e.1)) as [Hsk|Hsk].
    { rewrite (bind_ok _ _ _ (sent_si origin n si) (set_trace t w)) by done. apply IH'. }
    rewrite Hs. cbn [mbind option_bind].
    pose proof (send_subscribe_ok (set_trace t w) e.2 s (sent_si origin n si) withdraw (world_ok_trace _ _ Hok) Hs) as Hsend.
    cbv zeta in Hsend. rewrite Hself in Hsend.
    rewrite sent_si_source in Hsend. fold origin in Hsend. rewrite sent_si_next in Hsend by done. cbn [trace set_trace] in Hsend.
    destruct (decide (status_ s = kStatusConnected)) as [Hst|Hst].
    + rewrite (bind_ok _ _ _ _ _ Hsend). rewrite set_trace_trace, IH'. cbn [length imap].
      rewrite Nat.add_succ_comm, <- app_assoc, Nat.add_1_r. do 3 f_equal. cbn [app]. f_equal.
      apply imap_ext. intros i x _. simpl. by rewrite (Nat.add_succ_r n (S i)).
    + rewrite (bind_ok _ _ _ _ _ Hsend), app_nil_r. apply IH'.
Qed.

Lemma broadcast_subscribe_ok w skip si withdraw :
  world_ok w → self_known w → in_range 16 (si_seq si) →
  let origin := bool_decide (ni_id (pm_node_info_ w) = si_source_node_id si) in
  broadcast_subscribe skip si withdraw w =
  (Ok (sent_si origin (length (recipients w skip)) si),
   set_trace (trace w ++ subscribe_calls (recipients w skip) origin si withdraw) w).
Proof.
  intros Hok Hself Hr origin. unfold broadcast_subscribe. rewrite (bind_ok get _ w w w) by done.
  pose proof (broadcast_loop w skip si withdraw (all_sessions w) 0 (trace w) Hok Hr) as Hloop. cbv zeta in Hloop.
  fold origin in Hloop. rewrite sent_si_zero, set_trace_same in Hloop by done. apply Hloop.
  intros e He. destruct (all_sessions_alive w e Hok He) as [s Hs]. exists s. split; [done|]. by apply (Hself e).
Qed.

(** Whether a subscription is news: unknown, or with another sequence number. *)
Definition subscribe_news (m : gmap (Z * Z) SubscribeInfo) (si : SubscribeInfo) : bool :=
  match m !! sub_key si with Some old => bool_decide (si_seq old ≠ si_seq si) | None => true end.
Definition record_subscribe (m : gmap (Z * Z) SubscribeInfo) (si : SubscribeInfo) : gmap (Z * Z) SubscribeInfo :=
  if subscribe_news m si then <[sub_key si := si]> m else m.

Lemma AddSubscribe_ok ib m si : subs_rel ib m → mutex_ ib = false →
  ∃ ib', AddSubscribe si ib = (Ok (subscribe_news m si), ib') ∧ subs_rel ib' (record_subscribe m si) ∧ mutex_ ib' = false.
Proof.
  intros Hrel Hm. destruct (SubAdd_refines si ib m Hrel Hm) as (ib' & Hrun & Hrel' & Hm').
  simpl in Hrun. unfold mbind, st_bind in Hrun. destruct (AddSubscribe si ib) as [[b|e|] ib''] eqn:Hadd; try done.
  simpl in Hrun. exists ib'. unfold subscribe_news, record_subscribe, subscribe_news. simpl in Hrel', Hrun.
  destruct (m !! sub_key si) as [old|]; [destruct (decide (si_seq old = si_seq si)) as [Heq|Heq]|];
    cbn [fst snd] in *; injection Hrun as -> ->.
  - by rewrite bool_decide_eq_false_2 by (by intros []).
  - by rewrite bool_decide_eq_true_2 by done.
  - done.
Qed.

(** A subscription received by a relay without a matching publisher; one of the
    relay's own is renumbered for each neighbour. *)
Lemma subscribe_received_runs w m id si fields ngr priority :
  world_ok w → unlocked w → self_known w → subs_rel (info_base_ w) m → is_Some (peer_at w id) →
  in_range 16 (si_seq si) →
  ParseSubscribe (si_subscribe_data si) = Ok fields →
  GetPriority fields.2 = Ok priority → GetNewGroup fields.2 = Ok ngr →
  announce_matches (si_hash si) fields.1.1.2 (state_ w) = false →
  let origin := bool_decide (ni_id (pm_node_info_ w) = si_source_node_id si) in
  let calls := if subscribe_news m si then subscribe_calls (recipients w (Some id)) origin si false else [] in
  ∃ ib, subs_rel ib (record_subscribe m si) ∧ mutex_ ib = false ∧
    SubscribeInfoReceived id si false w =
      (Ok tt, set_rand_calls (S (rand_calls w)) (set_trace (trace w ++ calls) (set_info_base ib w))).
Proof.
  intros Hok (Hpm & Hib & Hst) Hself Hrel [r Hp] Hr Hparse Hprio Hngr Hann origin calls.
  destruct (AddSubscribe_ok (info_base_ w) m si Hrel Hib) as (ib & Hadd & Hrel' & Hm').
  exists ib. split_and!; [done..|]. unfold SubscribeInfoReceived, ignore_exceptions, try_catch.
  rewrite (bind_ok _ _ w r w) by by rewrite GetPeerSession_ok, Hp.
  rewrite (bind_ok _ _ w (subscribe_news m si) (set_info_base ib w)) by by apply on_ib_ok.
  set (w1 := set_info_base ib w).
  set (n := if subscribe_news m si then length (recipients w (Some id)) else 0%nat).
  rewrite (bind_ok _ _ w1 (sent_si origin n si) (set_trace (trace w ++ calls) w1)).
  2: { subst calls n. destruct (subscribe_news m si).
       - exact (broadcast_subscribe_ok w1 (Some id) si false (world_ok_ib _ _ Hok) Hself Hr).
       - rewrite sent_si_zero, app_nil_r by done. by destruct w. }
  set (w2 := set_trace _ w1). unfold subscribe_added.
  rewrite (bind_ok next_rand _ w2 (u64 (rand (rand_calls w))) (set_rand_calls (S (rand_calls w)) w2)) by done.
  set (w3 := set_rand_calls _ w2). unfold lift_outcome.
  rewrite (bind_ok _ _ w3 fields w3) by by rewrite sent_si_data, Hparse.
  destruct fields as [[[rid ns] name] ps]. cbn [fst snd] in Hprio, Hngr, Hann.
  rewrite (bind_ok _ _ w3 priority w3) by by rewrite Hprio.
  rewrite (bind_ok _ _ w3 ngr w3) by by rewrite Hngr.
  unfold with_state_lock. cbn [state_mutex w3 w2 w1 set_rand_calls set_trace set_info_base]. rewrite Hst.
  rewrite (bind_ok get _ _ _ _ eq_refl). cbn [state_ set_state_mutex w3 w2 w1 set_rand_calls set_trace set_info_base].
  rewrite sent_si_hash, Hann. unfold mret, st_ret. f_equal. unfold w3, w2, w1. destruct w. simpl in *. by subst.
Qed.

(** A subscription received from a neighbour is recorded and passed on
    unchanged, once to every other connected neighbour, exactly when it is
    news: the source had none for the track or had one with another sequence
    number.  A relay without a matching publisher does nothing else. *)
Theorem subscribe_received_floods w m id si fields ngr priority :
  world_ok w → unlocked w → self_known w → subs_rel (info_base_ w) m → is_Some (peer_at w id) →
  in_range 16 (si_seq si) → si_source_node_id si ≠ ni_id (pm_node_info_ w) →
  ParseSubscribe (si_subscribe_data si) = Ok fields →
  GetPriority fields.2 = Ok priority → GetNewGroup fields.2 = Ok ngr →
  announce_matches (si_hash si) fields.1.1.2 (state_ w) = false →
  let calls := if subscribe_news m si
               then (λ s, control_call s (subscribe_bytes false si)) <$> recipients w (Some id) else [] in
  ∃ ib, subs_rel ib (record_subscribe m si) ∧
    SubscribeInfoReceived id si false w =
      (Ok tt, set_rand_calls (S (rand_calls w)) (set_trace (trace w ++ calls) (set_info_base ib w))).
Proof.
  intros Hok Hun Hself Hrel Hp Hr Hsrc Hparse Hprio Hngr Hann calls.
  destruct (subscribe_received_runs w m id si fields ngr priority) as (ib & Hrel' & _ & Hrun); try done.
  exists ib. split; [done|]. rewrite Hrun. subst calls. destruct (subscribe_news m si); [|done].
  rewrite bool_decide_eq_false_2 by congruence. unfold subscribe_calls, sent_si.
  by rewrite (imap_const (λ s, control_call s (subscribe_bytes false si))).
Qed.

(** A client's subscription goes to every connected neighbour, each time
    with the next sequence number, so that no two neighbours get the same one;
    the stored subscription keeps number zero. *)
Theorem client_subscribe_numbers w m tfn data :
  world_ok w → unlocked w → self_known w → subs_rel (info_base_ w) m → data ≠ [] →
  let si := mkSubscribeInfo 0 (ni_id (pm_node_info_ w)) (track_hash tfn.1 tfn.2) data in
  ∃ ib, subs_rel ib (record_subscribe m si) ∧ mutex_ ib = false ∧
    ClientSubscribe tfn data w =
      (Ok tt, set_trace (trace w ++ imap (λ i s, control_call s (subscribe_bytes false
                (with_seq (u16 (Z.of_nat i + 1)) si))) (recipients w None)) (set_info_base ib w)).
Proof.
  intros Hok (_ & Hib & _) Hself Hrel Hdata si.
  destruct (AddSubscribe_ok (info_base_ w) m si Hrel Hib) as (ib & Hadd & Hrel' & Hm').
  exists ib. split; [done|]. split; [done|]. unfold ClientSubscribe. rewrite decide_False by done.
  rewrite (bind_ok get _ w w w) by done. cbv zeta. fold si.
  rewrite (bind_ok _ _ w (subscribe_news m si) (set_info_base ib w)) by by apply on_ib_ok.
  rewrite (bind_ok _ _ _ _ _ (broadcast_subscribe_ok (set_info_base ib w) None si false
    (world_ok_ib _ _ Hok) Hself (ltac:(decide_now)))).
  cbn [pm_node_info_ set_info_base si_source_node_id si]. rewrite bool_decide_eq_true_2 by done.
  unfold mret, st_ret, subscribe_calls, sent_si. do 3 f_equal. apply imap_ext. intros i s _.
  do 3 f_equal. simpl si_seq. f_equal. lia.
Qed.

(** ** Announcements *)

Definition announce_calls w (skip : option Z) (ai : AnnounceInfo) (withdraw : bool) : list TransportCall :=
  (λ s, control_call s (AnnounceInfo_Serialize true withdraw ai)) <$> recipients w skip.

Lemma broadcast_announce_ok w skip ai withdraw :
  world_ok w → broadcast_announce skip ai withdraw w =
    (Ok tt, set_trace (trace w ++ announce_calls w skip ai withdraw) w).
Proof.
  intros Hok. unfold broadcast_announce. rewrite (bind_ok get _ w w w) by done.
  rewrite (for_each_sends _ _ (λ e, match recipient w skip e with
    | Some s => [control_call s (AnnounceInfo_Serialize true withdraw ai)] | None => [] end)).
  - do 3 f_equal. unfold announce_calls, recipients. induction (all_sessions w) as [|e l IH]; [done|].
    cbn [omap list_omap]. rewrite bind_cons, IH. by destruct (recipient w skip e).
  - intros t e He. destruct (all_sessions_alive w e Hok He) as [s Hs]. unfold recipient.
    case_decide; [by rewrite app_nil_r|]. rewrite Hs. cbn [mbind option_bind].
    unfold SendAnnounceInfo. rewrite (send_control_ok (set_trace t w) e.2 s _ (world_ok_trace _ _ Hok) Hs).
    unfold if_sent. by case_decide.
Qed.

(** C34: an announcement is passed on only when it is new, to every connected
    neighbour but the one it came from, and then told to the client manager;
    one that is known already sends nothing. *)
Theorem announce_received_floods w id ai :
  world_ok w → unlocked w → is_Some (peer_at w id) →
  ∃ ib, let is_new := bool_decide (announces_ (info_base_ w) !! ai_fullname_hash ai ≫= (.!! ai_source_node_id ai) = None) in
    (∀ f n x, announced ib f n x ↔
       if decide (is_new = true ∧ f = ai_fullname_hash ai ∧ n = ai_source_node_id ai)
       then x = ai else announced (info_base_ w) f n x) ∧
    AnnounceInfoReceived id ai false w =
      if is_new
      then ignore_exceptions (tell_client ai false)
             (set_trace (trace w ++ announce_calls w (Some id) ai false) (set_info_base ib w))
      else (Ok tt, set_info_base ib w).
Proof.
  intros Hok (_ & Hib & _) [r Hp].
  destruct (AddAnnounce_ok (info_base_ w) ai Hib) as (ib & Hadd & _ & Han & _). exists ib. split; [exact Han|].
  unfold AnnounceInfoReceived, ignore_exceptions, try_catch.
  rewrite (bind_ok _ _ w r w) by by rewrite GetPeerSession_ok, Hp.
  rewrite (bind_ok _ _ w _ (set_info_base ib w)) by (apply on_ib_ok; exact Hadd).
  destruct (bool_decide _); [|done].
  by rewrite (bind_ok _ _ _ _ _ (broadcast_announce_ok (set_info_base ib w) (Some id) ai false (world_ok_ib _ _ Hok))).
Qed.

(** ** Loss of a session *)

(** A loop that does nothing but maybe end in undefined behaviour. *)
Lemma fold_each_stuck {A B} (l : list A) (f : B → A → ST World B) w x0 : ∀ b,
  (∀ b x, x ∈ l → (∃ b', f b x w = (Ok b', w)) ∨ ∃ w', f b x w = (UB, w')) →
  x0 ∈ l → (∀ b, ∃ w', f b x0 w = (UB, w')) → ∃ w', fold_each l b f w = (UB, w').
Proof.
  induction l as [|x l IH]; intros b Hf Hin Hx0; [by apply not_elem_of_nil in Hin|].
  cbn [fold_each]. destruct (Hf b x ltac:(left)) as [[b' Hb]|[w' Hb]].
  - rewrite (bind_ok _ _ _ _ _ Hb). apply elem_of_cons in Hin as [<-|Hin].
    + destruct (Hx0 b) as [w' Hub]. rewrite Hub in Hb. done.
    + apply IH; [|done..]. intros b'' y Hy. apply Hf. by right.
  - exists w'. by apply bind_ub.
Qed.

Lemma with_ib_lock_ub {A} (m : ST World A) w w' :
  mutex_ (info_base_ w) = false → m (set_info_base (set_mutex true (info_base_ w)) w) = (UB, w') →
  ∃ w'', with_ib_lock m w = (UB, w'').
Proof. intros Hm Hub. unfold with_ib_lock. rewrite Hm, Hub. by eexists. Qed.

Lemma reroute_locked id acc si w :
  mutex_ (info_base_ w) = true →
  match client_fib_ (info_base_ w) !! (si_hash si, id) with
  | None => reroute id acc si w = (Ok acc, w)
  | Some _ => ∃ w', reroute id acc si w = (UB, w')
  end.
Proof.
  intros Hm. unfold reroute. destruct acc as [rm up]. rewrite (bind_ok get _ w w w) by done.
  destruct (client_fib_ (info_base_ w) !! (si_hash si, id)); [|done].
  eexists. unfold on_ib, zoom, modify, GetBestPeerSession, with_lock, mbind, st_bind. simpl.
  rewrite Hm. reflexivity.
Qed.

Lemma collect_subs_locked id remote acc subs w :
  mutex_ (info_base_ w) = true →
  (∃ acc', collect_subs id remote acc subs w = (Ok acc', w)) ∨ ∃ w', collect_subs id remote acc subs w = (UB, w').
Proof.
  intros Hm. unfold collect_subs. destruct (subs.2 !! remote); [by left; eexists|].
  generalize (entries subs.2).*2 as l. intros l. revert acc. induction l as [|si l IH]; intros acc; [by left; eexists|].
  cbn [fold_each]. pose proof (reroute_locked id acc si w Hm) as Hr.
  destruct (client_fib_ (info_base_ w) !! (si_hash si, id)).
  - right. destruct Hr as [w' Hr]. exists w'. by apply bind_ub.
  - rewrite (bind_ok _ _ _ _ _ Hr). apply IH.
Qed.

(** The loop over the subscriptions, entered with the mutex free, locks it and
    does not get past a subscription that is fed through the lost session. *)
Lemma collect_deadlocks w id remote h inner src si :
  mutex_ (info_base_ w) = false →
  subscribes_ (info_base_ w) !! h = Some inner → inner !! remote = None → inner !! src = Some si →
  is_Some (client_fib_ (info_base_ w) !! (si_hash si, id)) →
  ∃ w', with_ib_lock (w ← get; fold_each (entries (subscribes_ (info_base_ w))) ([], []) (collect_subs id remote)) w
    = (UB, w').
Proof.
  intros Hib Hsubs Hrem Hsi [fe Hfe]. set (w2 := set_info_base (set_mutex true (info_base_ w)) w).
  assert (∃ w', fold_each (entries (subscribes_ (info_base_ w2))) ([], []) (collect_subs id remote) w2 = (UB, w')) as [w' Hub].
  { apply (fold_each_stuck _ _ _ (h, inner)).
    - intros b x _. by apply collect_subs_locked.
    - by apply elem_of_entries.
    - intros acc. unfold collect_subs. cbn [snd]. rewrite Hrem.
      apply (fold_each_stuck _ _ _ si).
      + intros b x _. pose proof (reroute_locked id b x w2 eq_refl) as Hr.
        destruct (client_fib_ (info_base_ w2) !! (si_hash x, id)); [by right|left; eauto].
      + apply list_elem_of_fmap. exists (src, si). split; [done|]. by apply elem_of_entries.
      + intros b. pose proof (reroute_locked id b si w2 eq_refl) as Hr.
        change (client_fib_ (info_base_ w2)) with (client_fib_ (info_base_ w)) in Hr. by rewrite Hfe in Hr. }
  apply (with_ib_lock_ub _ w w'); [exact Hib|by rewrite (bind_ok get _ _ w2 w2 eq_refl)].
Qed.

(** C35: losing a session through which a local publisher feeds a subscription of
    some other node deadlocks, whether the manager is stopping or not: it holds
    the mutex of the information base when it asks it for the best session, which
    locks the same mutex again.  The subscription is to a track (a full name
    hash) that the lost neighbour itself has not subscribed to; for a track that
    it has subscribed to, its subscription is dropped and nothing is asked. *)
Theorem session_loss_deadlocks w id remote h inner src si :
  world_ok w → unlocked w → nodes_wf (session_id w) (info_base_ w) →
  subscribes_ (info_base_ w) !! h = Some inner → inner !! ni_id remote = None → inner !! src = Some si →
  is_Some (client_fib_ (info_base_ w) !! (si_hash si, id)) →
  ∃ w', SessionChanged id kStatusDisconnected remote w = (UB, w').
Proof.
  intros Hok (Hpm & Hib & _) Hwf Hsubs Hrem Hsi Hfe. unfold SessionChanged.
  rewrite (bind_ok _ _ _ _ _ (propagate_ok w remote true Hok Hpm)).
  set (w1 := set_trace _ w). rewrite (bind_ok get _ w1 w1 w1) by done.
  change (stop_ w1) with (stop_ w). destruct (stop_ w).
  - rewrite (bind_ok _ _ w1 tt w1) by done.
    destruct (collect_deadlocks w1 id (ni_id remote) h inner src si) as [w' Hub]; [done..|]. exists w'. by apply bind_ub.
  - destruct (PurgePeerSessionInfo_ok (session_id w) (info_base_ w) id Hwf Hib) as (best & Hpurge & _).
    set (ib := purge_tables id best (info_base_ w)) in *.
    rewrite (bind_ok _ _ w1 tt (set_info_base ib w1)) by (apply on_ib_ok; exact Hpurge).
    destruct (collect_deadlocks (set_info_base ib w1) id (ni_id remote) h inner src si) as [w' Hub]; [done..|].
    exists w'. by apply bind_ub.
Qed.
End flooding.

(** ** Witnesses *)

Import Quicr.Demo DemoTransport DemoRelay.

Lemma demo_relay_ok ib : world_ok (relay ib).
Proof.
  assert (map_Forall (λ _ r, is_Some (sessions (relay ib) !! r)) (server_peer_sessions_ (relay ib))) as Hs by decide_now.
  assert (map_Forall (λ _ r, is_Some (sessions (relay ib) !! r)) (client_peer_sessions_ (relay ib))) as Hc by decide_now.
  assert (map_Forall (λ _ s, transport_ s = true) (sessions (relay ib))) as Ht by decide_now.
  split.
  - intros id r [H|H]; [exact (Hs id r H)|exact (Hc id r H)].
  - intros r s Hr _. exact (Ht r s Hr).
Qed.

Lemma demo_unlocked ib : mutex_ ib = false → unlocked (relay ib).
Proof. done. Qed.

Lemma demo_self_known ib : self_known (relay ib).
Proof.
  intros e s _ Hs.
  assert (map_Forall (λ _ s, ni_id (node_info_ s) = 5) (sessions (relay ib))) as Hall by decide_now.
  exact (Hall e.2 s Hs).
Qed.

(** Node 71 advertises node 99, which it reaches directly. *)
Definition demo_advert : NodeInfo := path_push (relay_node_of 99) (mkNodePathItem 99 40).

Lemma node_received_spec_witness :
  ∃ ib calls, NodeReceived 11 demo_advert false (relay InfoBase_empty) =
      (Ok tt, set_trace calls (set_info_base ib (relay InfoBase_empty))) ∧
    control_call (neighbour 12 72) (NodeInfo_Serialize true false (advertised demo_advert (neighbour 11 71))) ∈ calls.
Proof.
  destruct (node_received_spec (relay InfoBase_empty) 11 1 (neighbour 11 71) demo_advert
    (demo_relay_ok _) (demo_unlocked InfoBase_empty eq_refl) (nodes_wf_empty _) eq_refl eq_refl (ltac:(lia)))
    as (_ & Hadv & _).
  destruct (Hadv eq_refl) as (updated & ib & calls & Hadd & _ & Hrun & Hcalls).
  eexists ib, _. split; [exact Hrun|]. apply elem_of_app. right. apply Hcalls. split.
  - apply (f_equal fst) in Hadd. vm_compute in Hadd. by injection Hadd as <-.
  - exists (12, 2), (neighbour 12 72). split_and!; [decide_now|vm_refl|repeat split; decide_now|done].
Defined.

Lemma advertisement_returns_to_sender_witness :
  ∃ ib calls, NodeReceived 11 demo_advert false (relay InfoBase_empty) =
      (Ok tt, set_trace calls (set_info_base ib (relay InfoBase_empty))) ∧
    control_call (neighbour 11 71) (NodeInfo_Serialize true false (advertised demo_advert (neighbour 11 71))) ∈ calls.
Proof.
  destruct (advertisement_returns_to_sender (relay InfoBase_empty) 11 1 (neighbour 11 71) demo_advert
    (AddNode (session_id (relay InfoBase_empty)) 1 demo_advert InfoBase_empty).2) as (_ & calls & Hrun & Hin).
  - apply demo_relay_ok.
  - by apply demo_unlocked.
  - apply nodes_wf_empty.
  - vm_refl.
  - vm_refl.
  - lia.
  - vm_refl.
  - vm_refl.
  - vm_refl.
  - decide_now.
  - decide_now.
  - decide_now.
  - eexists _, _. split; [exact Hrun|]. by apply elem_of_app; right.
Defined.

Definition demo_name : FullTrackName := ([[5]], [5]).
Definition demo_subscribe : SubscribeInfo :=
  mkSubscribeInfo 4 99 (track_hash demo_name.1 demo_name.2) [1; 128; 255; 5].

Definition demo_fields : Z * TrackNamespace * list Z * Parameters := (1, [[5]], [5], (128, [] : list Z)).

Lemma subscribe_received_floods_witness :
  ∃ ib, subs_rel ib {[sub_key demo_subscribe := demo_subscribe]} ∧
    SubscribeInfoReceived 11 demo_subscribe false (relay InfoBase_empty) =
      (Ok tt, set_rand_calls 1 (set_trace ((λ s, control_call s (subscribe_bytes false demo_subscribe)) <$>
         [neighbour 21 81; neighbour 12 72]) (set_info_base ib (relay InfoBase_empty)))).
Proof.
  destruct (subscribe_received_floods (relay InfoBase_empty) ∅ 11 demo_subscribe demo_fields None 128)
    as (ib & Hrel & Hrun).
  - apply demo_relay_ok.
  - by apply demo_unlocked.
  - apply demo_self_known.
  - apply subs_rel_empty.
  - decide_now.
  - decide_now.
  - decide_now.
  - vm_refl.
  - vm_refl.
  - vm_refl.
  - vm_refl.
  - exists ib. split; [exact Hrel|exact Hrun].
Defined.

Lemma client_subscribe_numbers_witness :
  ∃ ib, ClientSubscribe demo_name [1; 128; 255; 5] (relay InfoBase_empty) =
      (Ok tt, set_trace [
         control_call (neighbour 21 81) (subscribe_bytes false (mkSubscribeInfo 1 5 (si_track_hash demo_subscribe) [1; 128; 255; 5]));
         control_call (neighbour 11 71) (subscribe_bytes false (mkSubscribeInfo 2 5 (si_track_hash demo_subscribe) [1; 128; 255; 5]));
         control_call (neighbour 12 72) (subscribe_bytes false (mkSubscribeInfo 3 5 (si_track_hash demo_subscribe) [1; 128; 255; 5]))]
         (set_info_base ib (relay InfoBase_empty))).
Proof.
  destruct (client_subscribe_numbers (relay InfoBase_empty) ∅ demo_name [1; 128; 255; 5]) as (ib & _ & _ & Hrun).
  - apply demo_relay_ok.
  - by apply demo_unlocked.
  - apply demo_self_known.
  - apply subs_rel_empty.
  - done.
  - exists ib. exact Hrun.
Defined.

Definition demo_announce : AnnounceInfo := mkAnnounceInfo 99 [[5]] [] 77 0.

(** The announcement of a namespace reaches the other two neighbours and the
    client manager. *)
Lemma announce_received_floods_witness :
  ∃ ib, announced ib 77 99 demo_announce ∧
    AnnounceInfoReceived 11 demo_announce false (relay InfoBase_empty) =
      ignore_exceptions (tell_client demo_announce false)
        (set_trace ((λ s, control_call s (AnnounceInfo_Serialize true false demo_announce)) <$>
          [neighbour 21 81; neighbour 12 72]) (set_info_base ib (relay InfoBase_empty))).
Proof.
  destruct (announce_received_floods (relay InfoBase_empty) 11 demo_announce) as (ib & Han & Hrun).
  - apply demo_relay_ok.
  - by apply demo_unlocked.
  - decide_now.
  - exists ib. split; [by apply Han|exact Hrun].
Defined.

(** Node 99 subscribed through session 11 to a track this relay publishes. *)
Definition demo_fed : InfoBase :=
  set_client_fib (λ _, {[(si_hash demo_subscribe, 11) := mkFibEntry 0 ∅ 1 (Some 1) 0]})
    (set_subscribes (λ _, {[si_hash demo_subscribe := {[99 := demo_subscribe]}]}) InfoBase_empty).

Lemma session_loss_deadlocks_witness :
  ∃ w', SessionChanged 11 kStatusDisconnected (relay_node_of 71) (relay demo_fed) = (UB, w').
Proof.
  apply (session_loss_deadlocks (relay demo_fed) 11 (relay_node_of 71) (si_hash demo_subscribe)
    {[99 := demo_subscribe]} 99 demo_subscribe).
  - apply demo_relay_ok.
  - by apply demo_unlocked.
  - exact (nodes_wf_empty _).
  - vm_refl.
  - vm_refl.
  - vm_refl.
  - decide_now.
Defined.
