(* ===== verification/PeerData.v ===== *)
(** * Data that crosses relays

    A stream of a local publisher on its way through the mesh: the relay that
    has the publisher, the relays in between, and the relay that has a subscriber. *)

From S2P Require Import Prelude Common Quicr State NodeInfo DataHeader SubscribeInfo SubscribeNodeSet AnnounceInfo InfoBase Transport PeerSession PeerSessionEvents PeerSessionControl PeerWorld PeerManager PeerForwarding PeerEvents PeerFlooding.

Section data.
Context `{UintVarLaws, TrackNamesLaws, Transport, !SubscribeMessages, Rand} {C : Type} `{!ClientManagerI C}.
Abbreviation World := (World C).
Implicit Types w : World.

(** ** The bytes *)

(** What the start of a stream looks like between two relays. *)
Definition stream_header (sns h priority ttl : Z) : list Z :=
  [19; DataType.kNewStream] ++ put 4 sns ++ put 8 h ++ [priority] ++ put 4 ttl.
Definition header_of (sns h priority ttl : Z) : DataHeader := mkDataHeader 19 DataType.kNewStream sns h priority ttl.

Lemma stream_header_length sns h priority ttl : length (stream_header sns h priority ttl) = 19%nat.
Proof. reflexivity. Qed.

Lemma client_header_new h priority ttl :
  DataHeader_Serialize (client_header h priority ttl DataType.kNewStream) = Ok (stream_header 0 h priority ttl).
Proof. done. Qed.
Lemma client_header_existing h priority ttl :
  DataHeader_Serialize (client_header h priority ttl DataType.kExistingStream) = Ok [].
Proof. done. Qed.

Lemma patch_stream_header sns0 sns h priority ttl data :
  patch_sns_id sns (stream_header sns0 h priority ttl ++ data) = Some (stream_header sns h priority ttl ++ data).
Proof.
  unfold patch_sns_id. rewrite decide_False by (rewrite length_app, stream_header_length; lia). reflexivity.
Qed.

Definition data_wf (sns h priority ttl : Z) : Prop :=
  in_range 32 sns ∧ in_range 64 h ∧ in_range 8 priority ∧ in_range 32 ttl.

Lemma deserialize_stream_header sns h priority ttl data :
  data_wf sns h priority ttl →
  Deserialize (stream_header sns h priority ttl ++ data) DataHeader_default = (Ok true, header_of sns h priority ttl).
Proof.
  intros (Hs & Hh & Hp & Ht).
  destruct (data_header_roundtrip (mkDataHeader 0 DataType.kNewStream sns h priority ttl) data) as (bytes & Hser & _ & Hdes);
    [split_and!; [decide_now|decide_now|done..]|done|by right|].
  change (DataHeader_Serialize _) with (Ok (stream_header sns h priority ttl)) in Hser. injection Hser as <-. exact Hdes.
Qed.

(** ** Sending on a session *)

Definition data_call (s : PeerSession) (sns out : Z) (priority ttl : Z) (data : list Z) : TransportCall :=
  Enqueue (t_conn_id_ s) sns out data priority ttl (Some (0, stream_flags)).

Lemma create_stream_ok w r s sns priority :
  sessions w !! r = Some s → transport_ s = true →
  on_session r (Session_CreateStream sns priority) w =
    (Ok (answer_CreateStream (trace w)), set_trace (trace w ++ [CreateStream (t_conn_id_ s) sns priority]) w).
Proof.
  intros Hs Ht. apply on_session_calls with s; [done|]. unfold Session_CreateStream, self, call_answer, mbind, st_bind, gets.
  cbn. by rewrite Ht.
Qed.

Lemma send_data_ok w r s sns out priority ttl data :
  sessions w !! r = Some s → transport_ s = true → status_ s = kStatusConnected →
  on_session r (SendData priority ttl sns out stream_flags data) w =
    (Ok tt, set_trace (trace w ++ [data_call s sns out priority ttl data]) w).
Proof.
  intros Hs Ht Hst. apply on_session_calls with s; [done|]. unfold SendData, if_connected, self, mbind, st_bind, gets. cbn.
  rewrite decide_True by done. unfold call. cbn. by rewrite Ht.
Qed.

Lemma lock_ptr_ok w r s : sessions w !! r = Some s → lock_ptr (Some r) w = (Ok (Some r), w).
Proof. intros Hs. unfold lock_ptr, gets. cbn. rewrite decide_True; [done|]. by rewrite Hs. Qed.

(** ** The relay with the publisher *)

(** One neighbour wants the track: entry [fe], under its session id [k]. *)
Definition sole_entry w (h k : Z) (fe : FibEntry) : Prop :=
  0 ≤ k ∧ client_fib_ (info_base_ w) !! (h, k) = Some fe ∧
  ∀ k', 0 ≤ k' → is_Some (client_fib_ (info_base_ w) !! (h, k')) → k' = k.

Lemma sole_entry_first w h k fe : sole_entry w h k fe → same_first h (client_fib_ (info_base_ w)) = [((h, k), fe)].
Proof.
  intros (Hk & Hfe & Hsole). set (l := same_first h _).
  assert (∀ e, e ∈ l ↔ e = ((h, k), fe)) as Hl.
  { intros [[h' k'] fe']. unfold l. rewrite elem_of_same_first. cbn. split.
    - intros (He & -> & Hk'). assert (k' = k) as -> by (apply Hsole; [done|by eexists]). rewrite Hfe in He. by injection He as ->.
    - by intros [= -> -> ->]. }
  assert (NoDup l) as Hnd by apply same_first_NoDup.
  pose proof (proj2 (Hl ((h, k), fe)) eq_refl) as Hin.
  destruct l as [|e1 l']; [by apply not_elem_of_nil in Hin|].
  assert (e1 = ((h, k), fe)) as -> by (apply Hl; left). f_equal.
  destruct l' as [|e2 l'']; [done|]. assert (e2 = ((h, k), fe)) as -> by (apply Hl; right; left).
  apply NoDup_cons in Hnd as [Hn _]. by destruct Hn; left.
Qed.

Definition with_stream (in_stream out_stream : Z) (e : FibEntry) : FibEntry :=
  mkFibEntry (update_ref e) (<[in_stream := out_stream]> (streams e)) (out_sns_id e) (fe_peer_session e)
    (fe_track_fullname_hash e).

Section source.
Context (h k : Z) (fe : FibEntry) (r : SessRef) (s : PeerSession) (priority ttl g sg : Z).
Context (Hr : fe_peer_session fe = Some r) (Ht : transport_ s = true) (Hst : status_ s = kStatusConnected).
Abbreviation sns := (out_sns_id fe).
Abbreviation in_id := (subgroup_stream_id g sg).

(** A subgroup starts: a stream is created and remembered. *)
Definition started w (data : list Z) : World :=
  let out := answer_CreateStream (trace w) in
  set_trace (trace w ++ [CreateStream (t_conn_id_ s) sns priority;
                         data_call s sns out priority ttl (stream_header sns h priority ttl ++ data)])
    (set_info_base (set_client_fib (alter (with_stream in_id out) (h, k)) (info_base_ w)) w).

Lemma source_starts w data :
  sole_entry w h k fe → sessions w !! r = Some s → streams fe !! in_id = None →
  ClientDataRecv h priority ttl DataType.kNewStream g sg data w = (Ok tt, started w data).
Proof.
  intros Hsole Hs Hno. unfold ClientDataRecv. rewrite client_header_new.
  rewrite (bind_ok (lift_outcome _) _ w (stream_header 0 h priority ttl) w) by done.
  rewrite (bind_ok get _ w w w) by done. rewrite (sole_entry_first w h k fe Hsole). cbn [for_while].
  assert (client_entry priority ttl DataType.kNewStream in_id (stream_header 0 h priority ttl ++ data) (h, k, fe) w =
    (Ok true, started w data)) as Hentry; [|by rewrite (bind_ok _ _ w true (started w data) Hentry)].
  unfold client_entry. cbn [snd fst]. rewrite Hr, (bind_ok _ _ w (Some r) w (lock_ptr_ok w r s Hs)).
  change (sets_sns_id DataType.kNewStream) with true. cbv iota. rewrite patch_stream_header.
  rewrite (bind_ok (deref _) _ w (stream_header sns h priority ttl ++ data) w) by done. cbv zeta.
  change (client_flags DataType.kNewStream) with stream_flags. change (use_reliable stream_flags) with true. cbv iota.
  rewrite Hno, decide_True by done. rewrite (bind_ok _ _ _ _ _ (create_stream_ok w r s sns priority Hs Ht)).
  set (w1 := set_trace _ w). set (out := answer_CreateStream (trace w)).
  rewrite (bind_ok _ _ w1 tt (set_info_base (set_client_fib (alter (with_stream in_id out) (h, k)) (info_base_ w1)) w1)) by done.
  set (w2 := set_info_base _ w1).
  rewrite (bind_ok _ _ w2 tt _ (send_data_ok w2 r s sns out priority ttl _ Hs Ht Hst)).
  unfold started, mret, st_ret, w2, w1, set_trace, set_info_base. cbn -[stream_header]. by rewrite <- app_assoc.
Qed.

(** It goes on: the bytes follow as they are. *)
Lemma source_goes_on w data out :
  sole_entry w h k fe → sessions w !! r = Some s → streams fe !! in_id = Some out →
  ClientDataRecv h priority ttl DataType.kExistingStream g sg data w =
    (Ok tt, set_trace (trace w ++ [data_call s sns out priority ttl data]) w).
Proof.
  intros Hsole Hs Hout. unfold ClientDataRecv. rewrite client_header_existing.
  rewrite (bind_ok (lift_outcome _) _ w [] w) by done.
  rewrite (bind_ok get _ w w w) by done. rewrite (sole_entry_first w h k fe Hsole). cbn [for_while app].
  set (w' := set_trace _ w).
  assert (client_entry priority ttl DataType.kExistingStream in_id data (h, k, fe) w = (Ok true, w')) as Hentry;
    [|by rewrite (bind_ok _ _ w true w' Hentry)].
  unfold client_entry. cbn [snd fst]. rewrite Hr, (bind_ok _ _ w (Some r) w (lock_ptr_ok w r s Hs)).
  change (sets_sns_id DataType.kExistingStream) with false. cbv iota.
  rewrite (bind_ok (mret data) _ w data w eq_refl). cbv zeta.
  change (client_flags DataType.kExistingStream) with stream_flags. change (use_reliable stream_flags) with true. cbv iota.
  rewrite Hout. by rewrite (bind_ok _ _ w tt w' (send_data_ok w r s sns out priority ttl data Hs Ht Hst)).
Qed.

Lemma started_entry w data :
  sole_entry w h k fe → sole_entry (started w data) h k (with_stream in_id (answer_CreateStream (trace w)) fe).
Proof.
  intros (Hk & Hfe & Hsole). split; [done|]. cbn. rewrite lookup_alter_eq, Hfe. split; [done|].
  intros k' Hk' [x Hx]. apply Hsole; [done|]. apply lookup_alter_Some in Hx as [(_ & y & Hy & _)|[_ Hx]]; eauto.
Qed.

Lemma source_goes_on_all w chunks out :
  sole_entry w h k fe → sessions w !! r = Some s → streams fe !! in_id = Some out →
  for_each chunks (ClientDataRecv h priority ttl DataType.kExistingStream g sg) w =
    (Ok tt, set_trace (trace w ++ (data_call s sns out priority ttl <$> chunks)) w).
Proof.
  intros Hsole Hs Hout. revert w Hsole Hs. induction chunks as [|d chunks IH]; intros w Hsole Hs.
  - cbn. by rewrite app_nil_r, set_trace_same.
  - cbn [for_each]. rewrite (bind_ok _ _ _ _ _ (source_goes_on w d out Hsole Hs Hout)).
    rewrite IH by done. cbn. by rewrite <- app_assoc.
Qed.
End source.

(** ** A relay on the way *)

(** Running under the lock of the information base, for code that sends and
    changes the table of egress entries. *)
Lemma with_ib_lock_sends (m : ST World unit) w f t :
  mutex_ (info_base_ w) = false →
  (∀ w', w' = set_info_base (set_mutex true (info_base_ w)) w →
    m w' = (Ok tt, set_trace t (set_info_base (set_peer_fib f (info_base_ w')) w'))) →
  with_ib_lock m w = (Ok tt, set_trace t (set_info_base (set_peer_fib f (info_base_ w)) w)).
Proof.
  intros Hm Hrun. unfold with_ib_lock. rewrite Hm, (Hrun _ eq_refl). destruct w as [? ? ? ib]. cbn in *. do 2 f_equal.
  unfold set_info_base. cbn. f_equal. destruct ib. cbn in *. by subst.
Qed.

Section transit.
Context (conn sid sns h priority ttl k2 : Z) (fe : FibEntry) (r2 : SessRef) (s2 : PeerSession).
Context (Hr : fe_peer_session fe = Some r2) (Ht : transport_ s2 = true) (Hst : status_ s2 = kStatusConnected).
Context (Hk : k2 ≠ 0) (Hback : k2 ≠ conn).
Abbreviation sns2 := (out_sns_id fe).

Definition passed_on w (data : list Z) : World :=
  let out := answer_CreateStream (trace w) in
  set_trace (trace w ++ [CreateStream (t_conn_id_ s2) sns2 priority;
                         data_call s2 sns2 out priority ttl (stream_header sns2 h priority ttl ++ data)])
    (set_info_base (set_peer_fib (alter (alter (with_stream sid out) k2) (conn, sns)) (info_base_ w)) w).

Lemma entry_starts w data all off :
  sessions w !! r2 = Some s2 → streams fe !! sid = None →
  forward_entry conn true sid (header_of sns h priority ttl) all off stream_flags (stream_header sns h priority ttl ++ data)
    (k2, fe) w = (Ok (stream_header sns2 h priority ttl ++ data), passed_on w data).
Proof.
  intros Hs Hno. unfold forward_entry. rewrite !decide_False by done. rewrite patch_stream_header.
  change (true || negb (use_reliable stream_flags)) with true. cbv iota.
  set (data' := stream_header sns2 h priority ttl ++ data). rewrite (bind_ok (deref (Some data')) _ w data' w) by done.
  rewrite Hr, (bind_ok _ _ w (Some r2) w (lock_ptr_ok w r2 s2 Hs)). cbv zeta.
  change (use_reliable stream_flags) with true. cbv iota. rewrite Hno.
  rewrite (bind_ok (deref (Some r2)) _ w r2 w) by done.
  rewrite (bind_ok _ _ _ _ _ (create_stream_ok w r2 s2 sns2 priority Hs Ht)).
  set (w1 := set_trace _ w). set (out := answer_CreateStream (trace w)).
  set (w2 := set_info_base (set_peer_fib (alter (alter (with_stream sid out) k2) (conn, sns)) (info_base_ w1)) w1).
  rewrite (bind_ok _ _ w1 tt w2) by done. rewrite (bind_ok (deref (Some r2)) _ w2 r2 w2) by done.
  rewrite (bind_ok _ _ w2 tt _ (send_data_ok w2 r2 s2 sns2 out priority ttl data' Hs Ht Hst)).
  unfold passed_on, mret, st_ret, w2, w1, set_trace, set_info_base. cbn -[stream_header]. by rewrite <- app_assoc.
Qed.

Lemma entry_goes_on w data all off out :
  sessions w !! r2 = Some s2 → streams fe !! sid = Some out →
  forward_entry conn false sid (header_of sns h priority ttl) all off stream_flags data (k2, fe) w =
    (Ok data, set_trace (trace w ++ [data_call s2 sns2 out priority ttl data]) w).
Proof.
  intros Hs Hout. unfold forward_entry. rewrite !decide_False by done.
  change (false || negb (use_reliable stream_flags)) with false. cbv iota. rewrite (bind_ok (mret data) _ w data w) by done.
  rewrite Hr, (bind_ok _ _ w (Some r2) w (lock_ptr_ok w r2 s2 Hs)). cbv zeta.
  change (use_reliable stream_flags) with true. cbv iota. rewrite Hout.
  rewrite (bind_ok (deref (Some r2)) _ w r2 w) by done.
  by rewrite (bind_ok _ _ w tt _ (send_data_ok w r2 s2 sns2 out priority ttl data Hs Ht Hst)).
Qed.

Lemma forward_starts w data :
  mutex_ (info_base_ w) = false → sessions w !! r2 = Some s2 →
  peer_fib_ (info_base_ w) !! (conn, sns) = Some {[k2 := fe]} → streams fe !! sid = None →
  ForwardPeerData conn true sid (header_of sns h priority ttl) (stream_header sns h priority ttl ++ data) 19 stream_flags w =
    (Ok tt, passed_on w data).
Proof.
  intros Hm Hs Hfib Hno. unfold ForwardPeerData, passed_on. apply with_ib_lock_sends; [done|]. intros w' Hw'.
  assert (peer_fib_ (info_base_ w') !! (conn, sns) = Some {[k2 := fe]}) as Hfib' by by rewrite Hw'.
  assert (sessions w' !! r2 = Some s2) as Hs' by by rewrite Hw'.
  assert (trace w' = trace w) as <- by by rewrite Hw'. clear Hw'.
  rewrite (bind_ok get _ w' w' w') by done. change (dh_sns_id (header_of sns h priority ttl)) with sns.
  rewrite Hfib', entries_singleton. cbn [fold_each].
  rewrite (bind_ok _ _ w' (stream_header sns2 h priority ttl ++ data) (passed_on w' data)); [done|].
  by rewrite (bind_ok _ _ _ _ _ (entry_starts w' data _ _ Hs' Hno)).
Qed.

Lemma forward_goes_on w data out :
  mutex_ (info_base_ w) = false → sessions w !! r2 = Some s2 →
  peer_fib_ (info_base_ w) !! (conn, sns) = Some {[k2 := fe]} → streams fe !! sid = Some out →
  ForwardPeerData conn false sid (header_of sns h priority ttl) data 0 stream_flags w =
    (Ok tt, set_trace (trace w ++ [data_call s2 sns2 out priority ttl data]) w).
Proof.
  intros Hm Hs Hfib Hout. unfold ForwardPeerData.
  assert (∀ t w, set_trace t w = set_trace t (set_info_base (set_peer_fib (λ m, m) (info_base_ w)) w)) as Hsame
    by by intros ? [? ? ? []].
  rewrite Hsame. apply with_ib_lock_sends; [done|]. intros w' Hw'.
  assert (peer_fib_ (info_base_ w') !! (conn, sns) = Some {[k2 := fe]}) as Hfib' by by rewrite Hw'.
  assert (sessions w' !! r2 = Some s2) as Hs' by by rewrite Hw'.
  assert (trace w' = trace w) as <- by by rewrite Hw'. clear Hw'.
  rewrite (bind_ok get _ w' w' w') by done. change (dh_sns_id (header_of sns h priority ttl)) with sns.
  rewrite Hfib', entries_singleton. cbn [fold_each].
  rewrite <- Hsame.
  rewrite (bind_ok _ _ w' data (set_trace (trace w' ++ [data_call s2 sns2 out priority ttl data]) w')); [done|].
  by rewrite (bind_ok _ _ _ _ _ (entry_goes_on w' data data 0 out Hs' Hout)).
Qed.

(** The session the stream comes in at. *)
Context (this : SessRef) (s1 : PeerSession) (Hconn : t_conn_id_ s1 = conn).

(** A piece of the stream arrives. *)
Definition piece (data : list Z) : ST World unit := _ ← ProcessReceivedData this (Some sid) (conn, sid) data; mret tt.

Lemma piece_starts w q data :
  data_wf sns h priority ttl → mutex_ (info_base_ w) = false → sessions w !! this = Some s1 → sessions w !! r2 = Some s2 →
  rx_contexts w !! (conn, sid) = Some (mkRx q any_empty) →
  peer_fib_ (info_base_ w) !! (conn, sns) = Some {[k2 := fe]} → streams fe !! sid = None →
  piece (stream_header sns h priority ttl ++ data) w =
    (Ok tt, passed_on (set_rx_contexts <[(conn, sid) := mkRx q (any_header (header_of sns h priority ttl))]> w) data).
Proof.
  intros Hwf Hm Hin Hout2 Hrx Hfib Hno. unfold piece, mbind, st_bind.
  rewrite (received_new this sid (conn, sid) _ (header_of sns h priority ttl) q s1 w);
    [|exact Hin|exact Hrx|by apply deserialize_stream_header].
  unfold GetSessionId. rewrite Hconn. change (m_ForwardPeerData (W := World)) with (ForwardPeerData (C := C)).
  change (dh_header_len (header_of sns h priority ttl)) with 19.
  set (w1 := w_set_rx _ _ w). unfold mbind, st_bind. by rewrite (forward_starts w1 data Hm Hout2 Hfib Hno).
Qed.

Lemma piece_goes_on w q data out :
  mutex_ (info_base_ w) = false → sessions w !! this = Some s1 → sessions w !! r2 = Some s2 →
  rx_contexts w !! (conn, sid) = Some (mkRx q (any_header (header_of sns h priority ttl))) →
  peer_fib_ (info_base_ w) !! (conn, sns) = Some {[k2 := fe]} → streams fe !! sid = Some out →
  piece data w = (Ok tt, set_trace (trace w ++ [data_call s2 sns2 out priority ttl data]) w).
Proof.
  intros Hm Hin Hout2 Hrx Hfib Hout. unfold piece, mbind, st_bind.
  rewrite (received_existing this sid (conn, sid) data (header_of sns h priority ttl) q s1 w); [|exact Hin|exact Hrx].
  unfold GetSessionId. rewrite Hconn. change (m_ForwardPeerData (W := World)) with (ForwardPeerData (C := C)).
  unfold mbind, st_bind. by rewrite (forward_goes_on w data out Hm Hout2 Hfib Hout).
Qed.

Lemma passed_on_fib w data :
  peer_fib_ (info_base_ w) !! (conn, sns) = Some {[k2 := fe]} →
  peer_fib_ (info_base_ (passed_on w data)) !! (conn, sns) =
    Some {[k2 := with_stream sid (answer_CreateStream (trace w)) fe]}.
Proof. intros Hfib. cbn. rewrite lookup_alter_eq, Hfib. cbn. f_equal. apply alter_singleton_eq. Qed.

Lemma piece_goes_on_all w q chunks out :
  mutex_ (info_base_ w) = false → sessions w !! this = Some s1 → sessions w !! r2 = Some s2 →
  rx_contexts w !! (conn, sid) = Some (mkRx q (any_header (header_of sns h priority ttl))) →
  peer_fib_ (info_base_ w) !! (conn, sns) = Some {[k2 := fe]} → streams fe !! sid = Some out →
  for_each chunks piece w = (Ok tt, set_trace (trace w ++ (data_call s2 sns2 out priority ttl <$> chunks)) w).
Proof.
  intros Hm Hin Hout2 Hrx Hfib Hout. revert w Hm Hin Hout2 Hrx Hfib.
  induction chunks as [|d chunks IH]; intros w Hm Hin Hout2 Hrx Hfib; [cbn; by rewrite app_nil_r, set_trace_same|].
  cbn [for_each]. rewrite (bind_ok _ _ _ _ _ (piece_goes_on w q d out Hm Hin Hout2 Hrx Hfib Hout)).
  rewrite IH by done. cbn. by rewrite <- app_assoc.
Qed.
End transit.

(** ** The relay with the subscriber *)

Lemma with_ib_lock_ext {A} (m1 m2 : ST World A) w :
  (∀ w', w' = set_info_base (set_mutex true (info_base_ w)) w → m1 w' = m2 w') → with_ib_lock m1 w = with_ib_lock m2 w.
Proof. intros Hm. unfold with_ib_lock. by rewrite (Hm _ eq_refl). Qed.

Section sink.
Context (conn sid : Z) (hdr : DataHeader) (x : FibEntry) (subs : gmap Z SubscribeInfo) (si : SubscribeInfo).
Context (Hself : conn ≠ 0).

(** Only the clients of this relay want the data, and one of them subscribes. *)
Definition wanted_here w : Prop :=
  peer_fib_ (info_base_ w) !! (conn, dh_sns_id hdr) = Some {[0 := x]} ∧
  subscribes_ (info_base_ w) !! dh_track_full_name_hash hdr = Some subs ∧
  subs !! ni_id (pm_node_info_ w) = Some si ∧ client_manager_ w = true.

Lemma forward_delivers w is_new data off :
  wanted_here w → 0 ≤ off ≤ Z.of_nat (length data) →
  ForwardPeerData conn is_new sid hdr data off stream_flags w =
    with_ib_lock (cm_PeerDataReceived (si_hash si) is_new (Some sid) (drop (Z.to_nat off) data)) w.
Proof.
  intros (Hfib & Hsubs & Hsi & Hcm) Hoff. unfold ForwardPeerData. apply with_ib_lock_ext. intros w' Hw'.
  assert (wanted_here w') as (Hfib' & Hsubs' & Hsi' & Hcm') by by rewrite Hw'. clear Hw'.
  rewrite (bind_ok get _ w' w' w') by done. rewrite Hfib', entries_singleton. cbn [fold_each].
  unfold forward_entry, forward_to_client. rewrite decide_False, decide_True by done.
  unfold mbind, st_bind, get, call_client. rewrite Hsubs', Hsi', decide_False by lia. cbn.
  rewrite (bind_ok get _ w' w' w') by done. rewrite Hcm'.
  by destruct (cm_PeerDataReceived _ _ _ _ w') as [[[]|e|] w''].
Qed.
End sink.

(** ** The way of a stream *)

(** What a relay sends: a new stream, its header, and the pieces as they come. *)
Definition stream_calls (s : PeerSession) (sns out h priority ttl : Z) (data : list Z) (chunks : list (list Z)) : list TransportCall :=
  CreateStream (t_conn_id_ s) sns priority ::
  (data_call s sns out priority ttl <$> (stream_header sns h priority ttl ++ data) :: chunks).

(** The pieces that a relay put on the new stream [out] to [conn]. *)
Definition carried (conn out : Z) (t : Trace) : list (list Z) :=
  omap (λ c, match c with
             | Enqueue conn' _ out' bytes _ _ _ => if decide (conn' = conn ∧ out' = out) then Some bytes else None
             | _ => None
             end) t.

Lemma carried_stream_calls s sns out h priority ttl data chunks :
  carried (t_conn_id_ s) out (stream_calls s sns out h priority ttl data chunks) =
    (stream_header sns h priority ttl ++ data) :: chunks.
Proof.
  unfold carried, stream_calls. cbn -[stream_header]. rewrite decide_True by done. f_equal.
  induction chunks as [|d chunks IH]; [done|]. cbn. rewrite decide_True by done. by f_equal.
Qed.

(** What [m] sends on the stream it creates to the session [next]. *)
Definition sends (m : ST World unit) (next : SessRef) w : option (list (list Z)) :=
  match m w with
  | (Ok _, w') => Some (carried (from_option t_conn_id_ 0 (sessions w !! next)) (answer_CreateStream (trace w))
                          (drop (length (trace w)) (trace w')))
  | _ => None
  end.

Lemma sends_stream m next w w' s sns h priority ttl data chunks :
  sessions w !! next = Some s → m w = (Ok tt, w') →
  trace w' = trace w ++ stream_calls s sns (answer_CreateStream (trace w)) h priority ttl data chunks →
  sends m next w = Some ((stream_header sns h priority ttl ++ data) :: chunks).
Proof.
  intros Hs Hm Ht. unfold sends. rewrite Hm, Ht, Hs, drop_app_length. cbn [from_option]. by rewrite carried_stream_calls.
Qed.

Section way.
Context (h priority ttl : Z).

(** The relay of the publisher publishes a subgroup, as a start and chunks. *)
Definition publish (g sg : Z) (data : list Z) (chunks : list (list Z)) : ST World unit :=
  ClientDataRecv h priority ttl DataType.kNewStream g sg data ;;
  for_each chunks (ClientDataRecv h priority ttl DataType.kExistingStream g sg).

Definition can_send w (next : SessRef) (s : PeerSession) : Prop :=
  sessions w !! next = Some s ∧ transport_ s = true ∧ status_ s = kStatusConnected.

Lemma publish_sends w k fe r s g sg data chunks :
  sole_entry w h k fe → fe_peer_session fe = Some r → can_send w r s → streams fe !! subgroup_stream_id g sg = None →
  sends (publish g sg data chunks) r w = Some ((stream_header (out_sns_id fe) h priority ttl ++ data) :: chunks).
Proof.
  intros Hsole Hr (Hs & Ht & Hst) Hno. pose proof (started_entry h k fe s priority ttl g sg w data Hsole) as Hsole'.
  eapply sends_stream with (s := s); [exact Hs| |]; unfold publish.
  - rewrite (bind_ok _ _ _ _ _ (source_starts h k fe r s priority ttl g sg Hr Ht Hst w data Hsole Hs Hno)).
    apply (source_goes_on_all h k (with_stream (subgroup_stream_id g sg) (answer_CreateStream (trace w)) fe) r s priority
      ttl g sg Hr Ht Hst _ chunks _ Hsole' Hs (lookup_insert_eq _ _ _)).
  - cbn -[stream_header]. by rewrite <- app_assoc.
Qed.

(** A relay on the way: the connection and stream the data comes in on, the
    session of that connection, and the entry for the neighbour it goes to. *)
Record Hop := mkHop {
  hop_world : World;
  hop_conn : Z;
  hop_stream : Z;
  hop_this : SessRef;
  hop_key : Z;
  hop_entry : FibEntry;
  hop_next : SessRef;
}.

(** It has no data of the stream yet, and sends what comes under [sns] to one
    neighbour, other than the one it comes from. *)
Definition hop_ok (sns : Z) (p : Hop) : Prop :=
  let w := hop_world p in
  in_range 32 sns ∧ mutex_ (info_base_ w) = false ∧
  (∃ s1 s2 q, sessions w !! hop_this p = Some s1 ∧ t_conn_id_ s1 = hop_conn p ∧
     rx_contexts w !! (hop_conn p, hop_stream p) = Some (mkRx q any_empty) ∧ can_send w (hop_next p) s2) ∧
  peer_fib_ (info_base_ w) !! (hop_conn p, sns) = Some {[hop_key p := hop_entry p]} ∧
  hop_key p ≠ 0 ∧ hop_key p ≠ hop_conn p ∧
  fe_peer_session (hop_entry p) = Some (hop_next p) ∧ streams (hop_entry p) !! hop_stream p = None.

Definition pass_on (pieces : list (list Z)) (p : Hop) : option (list (list Z)) :=
  sends (for_each pieces (piece (hop_conn p) (hop_stream p) (hop_this p))) (hop_next p) (hop_world p).

Fixpoint along (pieces : list (list Z)) (hops : list Hop) : option (list (list Z)) :=
  match hops with
  | [] => Some pieces
  | p :: hops => out ← pass_on pieces p; along out hops
  end.

Fixpoint hops_ok (sns : Z) (hops : list Hop) : Prop :=
  match hops with
  | [] => True
  | p :: hops => hop_ok sns p ∧ hops_ok (out_sns_id (hop_entry p)) hops
  end.

(** The node set the stream has after these relays. *)
Definition sns_after (sns : Z) (hops : list Hop) : Z := foldl (λ _ p, out_sns_id (hop_entry p)) sns hops.

Context (Hh : in_range 64 h) (Hp : in_range 8 priority) (Httl : in_range 32 ttl).

Lemma hop_passes_on sns p data chunks :
  hop_ok sns p →
  pass_on ((stream_header sns h priority ttl ++ data) :: chunks) p =
    Some ((stream_header (out_sns_id (hop_entry p)) h priority ttl ++ data) :: chunks).
Proof using Hh Hp Httl.
  destruct p as [w conn sid this k2 fe r2]. intros (Hsns & Hm & (s1 & s2 & q & Hthis & Hconn & Hrx & Hs & Ht & Hst) & Hfib & Hk & Hback & Hr & Hno).
  cbn [hop_world hop_conn hop_stream hop_this hop_key hop_entry hop_next] in *.
  set (w1 := set_rx_contexts <[(conn, sid) := mkRx q (any_header (header_of sns h priority ttl))]> w).
  pose proof (passed_on_fib conn sid sns h priority ttl k2 fe s2 w1 data Hfib) as Hfib'.
  set (fe' := with_stream sid (answer_CreateStream (trace w1)) fe) in *.
  eapply sends_stream with (s := s2); [exact Hs| |]; cbn [for_each hop_world hop_conn hop_stream hop_this].
  - rewrite (bind_ok _ _ _ _ _ (piece_starts conn sid sns h priority ttl k2 fe r2 s2 Hr Ht Hst Hk Hback this s1 Hconn
      w q data (conj Hsns (conj Hh (conj Hp Httl))) Hm Hthis Hs Hrx Hfib Hno)).
    apply (piece_goes_on_all conn sid sns h priority ttl k2 fe' r2 s2 Hr Ht Hst Hk Hback this s1 Hconn
      (passed_on conn sid sns h priority ttl k2 fe s2 w1 data) q chunks _ Hm Hthis Hs (lookup_insert_eq _ _ _) Hfib' (lookup_insert_eq _ _ _)).
  - cbn -[stream_header]. by rewrite <- app_assoc.
Qed.

Lemma hops_pass_on hops sns data chunks :
  hops_ok sns hops →
  along ((stream_header sns h priority ttl ++ data) :: chunks) hops =
    Some ((stream_header (sns_after sns hops) h priority ttl ++ data) :: chunks).
Proof using Hh Hp Httl.
  revert sns. induction hops as [|p hops IH]; intros sns; [done|]. intros [Hok Hoks]. cbn [along].
  rewrite (hop_passes_on sns p data chunks Hok). by apply IH.
Qed.

Lemma sink_delivers w conn sid sns this s1 q x subs si data :
  in_range 32 sns → sessions w !! this = Some s1 → t_conn_id_ s1 = conn → conn ≠ 0 →
  rx_contexts w !! (conn, sid) = Some (mkRx q any_empty) →
  wanted_here conn (header_of sns h priority ttl) x subs si w →
  piece conn sid this (stream_header sns h priority ttl ++ data) w =
    with_ib_lock (cm_PeerDataReceived (si_hash si) true (Some sid) data)
      (set_rx_contexts <[(conn, sid) := mkRx q (any_header (header_of sns h priority ttl))]> w).
Proof using Hh Hp Httl.
  intros Hsns Hthis Hconn Hne Hrx Hwant. set (w1 := set_rx_contexts _ w). unfold piece, mbind, st_bind.
  rewrite (received_new this sid (conn, sid) _ (header_of sns h priority ttl) q s1 w);
    [|exact Hthis|exact Hrx|by apply deserialize_stream_header].
  unfold GetSessionId. rewrite Hconn. unfold mbind, st_bind.
  change (m_ForwardPeerData (W := World)) with (ForwardPeerData (C := C)).
  rewrite (forward_delivers conn sid (header_of sns h priority ttl) x subs si Hne w1 true _ 19 Hwant)
    by (rewrite length_app, stream_header_length; lia).
  rewrite (drop_app_length' _ _ (Z.to_nat 19)) by done.
  by destruct (with_ib_lock _ w1) as [[[]|e|] w2].
Qed.

Lemma sink_goes_on w conn sid sns this s1 q x subs si data :
  sessions w !! this = Some s1 → t_conn_id_ s1 = conn → conn ≠ 0 →
  rx_contexts w !! (conn, sid) = Some (mkRx q (any_header (header_of sns h priority ttl))) →
  wanted_here conn (header_of sns h priority ttl) x subs si w →
  piece conn sid this data w = with_ib_lock (cm_PeerDataReceived (si_hash si) false (Some sid) data) w.
Proof.
  intros Hthis Hconn Hne Hrx Hwant. unfold piece, mbind, st_bind.
  rewrite (received_existing this sid (conn, sid) data (header_of sns h priority ttl) q s1 w); [|exact Hthis|exact Hrx].
  unfold GetSessionId. rewrite Hconn. unfold mbind, st_bind.
  change (m_ForwardPeerData (W := World)) with (ForwardPeerData (C := C)).
  rewrite (forward_delivers conn sid (header_of sns h priority ttl) x subs si Hne w false _ 0 Hwant) by lia.
  rewrite drop_0. by destruct (with_ib_lock _ w) as [[[]|e|] w2].
Qed.

(** C5: a stream crosses the mesh unchanged.  A publisher starts a subgroup at
    its relay and goes on with it; the bytes go over any number of relays, each of
    which sends them to the neighbour that wants the track.  What comes to the
    relay of the subscriber is the same pieces, behind a header that names its own
    node set; the relay hands its client manager exactly the publisher's bytes, the
    first piece marked as the start of the stream. *)
Theorem stream_crosses_relays w0 k fe r s g sg data chunks hops :
  sole_entry w0 h k fe → fe_peer_session fe = Some r → can_send w0 r s →
  streams fe !! subgroup_stream_id g sg = None → hops_ok (out_sns_id fe) hops →
  let sns := sns_after (out_sns_id fe) hops in
  (pieces ← sends (publish g sg data chunks) r w0; along pieces hops) =
    Some ((stream_header sns h priority ttl ++ data) :: chunks) ∧
  ∀ w conn sid this s1 q x subs si,
    in_range 32 sns → sessions w !! this = Some s1 → t_conn_id_ s1 = conn → conn ≠ 0 →
    wanted_here conn (header_of sns h priority ttl) x subs si w →
    (rx_contexts w !! (conn, sid) = Some (mkRx q any_empty) →
     piece conn sid this (stream_header sns h priority ttl ++ data) w =
       with_ib_lock (cm_PeerDataReceived (si_hash si) true (Some sid) data)
         (set_rx_contexts <[(conn, sid) := mkRx q (any_header (header_of sns h priority ttl))]> w)) ∧
    (rx_contexts w !! (conn, sid) = Some (mkRx q (any_header (header_of sns h priority ttl))) →
     ∀ chunk, chunk ∈ chunks →
       piece conn sid this chunk w = with_ib_lock (cm_PeerDataReceived (si_hash si) false (Some sid) chunk) w).
Proof using Hh Hp Httl.
  intros Hsole Hr Hsend Hno Hhops sns. split.
  - rewrite (publish_sends w0 k fe r s g sg data chunks) by done. by apply hops_pass_on.
  - intros w conn sid this s1 q x subs si Hsns Hthis Hconn Hne Hwant. split.
    + intros Hrx. by apply (sink_delivers w conn sid sns this s1 q x subs si).
    + intros Hrx chunk _. by apply (sink_goes_on w conn sid sns this s1 q x subs si).
Qed.
End way.
End data.

(** ** A way over four relays *)

Import Quicr.Demo DemoTransport DemoRelay.

(** The neighbour behind session 2 wants the track of hash 7, under number 5. *)
Definition demo_source : World nat :=
  relay (set_client_fib (λ _, {[(7, 12) := mkFibEntry 0 ∅ 5 (Some 2) 0]}) InfoBase_empty).

(** What comes in at session 1 under number [sns] goes to session 2 under [out_sns]. *)
Definition demo_transit (sns out_sns : Z) : Hop (C := nat) :=
  let fe := mkFibEntry 0 ∅ out_sns (Some 2) 0 in
  mkHop (set_rx_contexts (λ _, {[(11, 0) := mkRx [] any_empty]})
      (relay (set_peer_fib (λ _, {[(11, sns) := {[12 := fe]}]}) InfoBase_empty))) 11 0 1 12 fe 2.

(** What comes in at session 1 under number 9 is for the clients. *)
Definition demo_subscription : SubscribeInfo := mkSubscribeInfo 1 5 (Build_TrackHash 3 4 7) [].
Definition demo_sink : World nat :=
  set_rx_contexts (λ _, {[(11, 0) := mkRx [] any_empty]})
    (relay (set_subscribes (λ _, {[7 := {[5 := demo_subscription]}]})
      (set_peer_fib (λ _, {[(11, 9) := {[0 := mkFibEntry 0 ∅ 0 None 0]}]}) InfoBase_empty))).

Lemma demo_transit_ok sns out_sns : in_range 32 sns → hop_ok sns (demo_transit sns out_sns).
Proof.
  intros Hsns. split; [exact Hsns|]. split; [done|]. split; [|split; [apply lookup_singleton_eq|done]].
  by exists (neighbour 11 71), (neighbour 12 72), [].
Qed.

Lemma stream_crosses_relays_witness :
  let hops := [demo_transit 5 6; demo_transit 6 9] in
  (pieces ← sends (publish 7 1 200 0 0 [1; 2] [[3]; [4]]) 2 demo_source; along pieces hops) =
    Some [stream_header 9 7 1 200 ++ [1; 2]; [3]; [4]] ∧
  piece 11 0 1 (stream_header 9 7 1 200 ++ [1; 2]) demo_sink =
    with_ib_lock (cm_PeerDataReceived 7 true (Some 0) [1; 2])
      (set_rx_contexts <[(11, 0) := mkRx [] (any_header (header_of 9 7 1 200))]> demo_sink).
Proof.
  cbv zeta.
  destruct (stream_crosses_relays (C := nat) 7 1 200 (ltac:(decide_now)) (ltac:(decide_now)) (ltac:(decide_now))
    demo_source 12 (mkFibEntry 0 ∅ 5 (Some 2) 0) 2 (neighbour 12 72) 0 0 [1; 2] [[3]; [4]]
    [demo_transit 5 6; demo_transit 6 9]) as [Hsent Hsink].
  - split; [done|split; [done|]]. intros k' _ [x Hx]. cbn in Hx. by apply lookup_singleton_Some in Hx as [[= ->] _].
  - done.
  - done.
  - done.
  - split; [apply demo_transit_ok; decide_now|]. split; [apply demo_transit_ok; decide_now|done].
  - change (sns_after _ _) with 9 in Hsent, Hsink. split; [exact Hsent|].
    assert (wanted_here 11 (header_of 9 7 1 200) (mkFibEntry 0 ∅ 0 None 0) {[5 := demo_subscription]} demo_subscription demo_sink)
      as Hwant by (split; [vm_refl|split; [vm_refl|split; vm_refl]]).
    apply (Hsink demo_sink 11 0 1 (neighbour 11 71) [] (mkFibEntry 0 ∅ 0 None 0) {[5 := demo_subscription]} demo_subscription
      (ltac:(decide_now)) eq_refl eq_refl (ltac:(done)) Hwant).
    vm_refl.
Defined.
