(* ===== verification/Flood.v ===== *)
(** * Flooding through a mesh of relays, abstractly

    What the relays of a mesh make of one subscription.  Each relay holds at most
    one sequence number; a note that carries another one is recorded and passed
    on through every other port.  [Mesh] shows that relays running the code do
    exactly this. *)

From stdpp Require Import relations.
From S2P Require Import Prelude.

(** A connection of a relay. *)
Abbreviation Port := (Z * Z)%type.

Record Note := mkNote { n_at : Port; n_seq : Z }.
Record Flood := mkFlood { seqs : gmap Z Z; notes : list Note }.

(** The number in the [k]-th message, counted from one, of a relay that passes
    [seq] on; the subscription's own relay numbers its messages. *)
Definition renumbered (own : bool) (seq : Z) (k : nat) : Z := if own then u16 (seq + Z.of_nat k) else seq.

Lemma length_omap_le {A B} (g : A → option B) (l : list A) : (length (omap g l) ≤ length l)%nat.
Proof. induction l as [|x l IH]; csimpl; [done|]. destruct (g x); csimpl; lia. Qed.

Lemma sum_with_ext {A} (g h : A → nat) (l : list A) :
  (∀ x, x ∈ l → g x = h x) → sum_list_with g l = sum_list_with h l.
Proof.
  intros Hgh. induction l as [|x l IH]; simpl; [done|]. rewrite Hgh by by left. f_equal. apply IH.
  intros y Hy. apply Hgh. by right.
Qed.

Section flood.
Context (ports : Z → list Z) (wire : Port → option Port) (origin : Z → bool).
Implicit Types f : Flood.

(** The notes a relay makes of what came in at a port. *)
Definition note_at (i : Z) (seq : Z) (k : nat) (c : Z) : option Note :=
  (λ e, mkNote e (renumbered (origin i) seq (S k))) <$> wire (i, c).
Definition forward (p : Port) (seq : Z) : list Note :=
  omap id (imap (note_at p.1 seq) (filter (.≠ p.2) (ports p.1))).

(** The [k]-th note arrives. *)
Definition take_note (k : nat) f : option Flood :=
  n ← notes f !! k;
  let rest := delete k (notes f) in
  Some (if decide (seqs f !! (n_at n).1 = Some (n_seq n)) then mkFlood (seqs f) rest
        else mkFlood (<[(n_at n).1 := n_seq n]> (seqs f)) (rest ++ forward (n_at n) (n_seq n))).

Definition takes f f' : Prop := ∃ k, take_note k f = Some f'.

Lemma takes_inv f f' : takes f f' → ∃ k n, notes f !! k = Some n ∧
  ((seqs f !! (n_at n).1 = Some (n_seq n) ∧ f' = mkFlood (seqs f) (delete k (notes f))) ∨
   (seqs f !! (n_at n).1 ≠ Some (n_seq n) ∧
    f' = mkFlood (<[(n_at n).1 := n_seq n]> (seqs f)) (delete k (notes f) ++ forward (n_at n) (n_seq n)))).
Proof.
  intros (k & Hk). unfold take_note in Hk. destruct (notes f !! k) as [n|] eqn:Hn; [|done]. simpl in Hk.
  exists k, n. split; [done|]. case_decide; simplify_eq; auto.
Qed.

Lemma elem_of_forward p seq n :
  n ∈ forward p seq ↔ ∃ k c e, filter (.≠ p.2) (ports p.1) !! k = Some c ∧ wire (p.1, c) = Some e ∧
    n = mkNote e (renumbered (origin p.1) seq (S k)).
Proof.
  unfold forward. rewrite list_elem_of_omap. split.
  - intros (o & Ho & Hid). apply elem_of_lookup_imap in Ho as (k & c & -> & Hc). unfold id, note_at in Hid.
    destruct (wire (p.1, c)) as [e|] eqn:He; simplify_eq/=. eauto 10.
  - intros (k & c & e & Hc & He & ->). eexists. split; [|reflexivity].
    apply elem_of_lookup_imap. exists k, c. split; [|done]. unfold note_at. by rewrite He.
Qed.

Lemma forward_length p seq : (length (forward p seq) ≤ length (ports p.1))%nat.
Proof.
  unfold forward. rewrite length_omap_le, length_imap. apply length_filter.
Qed.

(** ** One subscription from outside

    The subscription's own relay is not one of the mesh, so that every note
    carries the same number [q]. *)
Section one.
Context (relays : list Z) (q : Z).
Context (Hnodup : NoDup relays) (Hwire : ∀ p e, wire p = Some e → e.1 ∈ relays).
Context (Hforeign : ∀ i, i ∈ relays → origin i = false).

Definition informed f (i : Z) : Prop := seqs f !! i = Some q.
#[global] Instance informed_dec f i : Decision (informed f i).
Proof. unfold informed. apply _. Defined.

Definition of_one f : Prop := ∀ n, n ∈ notes f → n_seq n = q ∧ (n_at n).1 ∈ relays.

(** What is left to do at most: the notes in flight, and those of the relays
    that have not heard of it. *)
Definition left_to_send f (i : Z) : nat := if decide (informed f i) then 0%nat else length (ports i).
Definition work f : nat := (length (notes f) + sum_list_with (left_to_send f) relays)%nat.

Lemma forward_one p n : p.1 ∈ relays → n ∈ forward p q → n_seq n = q ∧ (n_at n).1 ∈ relays.
Proof using Hwire Hforeign.
  intros Hp (k & c & e & _ & He & ->)%elem_of_forward. simpl. rewrite (Hforeign _ Hp). split; [done|]. by apply (Hwire _ _ He).
Qed.

Lemma takes_of_one f f' : of_one f → takes f f' → of_one f'.
Proof using Hwire Hforeign.
  intros Hone (k & n & Hn & Hcase)%takes_inv. destruct (Hone n) as [Hq Hin]; [by eapply list_elem_of_lookup_2|].
  assert (∀ x, x ∈ delete k (notes f) → x ∈ notes f) as Hdel by (intros x; apply list_elem_of_delete_inv).
  destruct Hcase as [[_ ->]|[_ ->]]; intros x Hx; simpl in Hx; [by apply Hone, Hdel|].
  apply elem_of_app in Hx as [Hx|Hx]; [by apply Hone, Hdel|]. rewrite Hq in Hx. by apply (forward_one (n_at n)).
Qed.

(** A relay that hears of it has nothing left to send. *)
Lemma left_after f i l p :
  NoDup l → i ∈ l → ¬ informed f i →
  (sum_list_with (left_to_send (mkFlood (<[i := q]> (seqs f)) p)) l + length (ports i) =
   sum_list_with (left_to_send f) l)%nat.
Proof.
  intros Hnd Hi Hno. induction Hnd as [|x l Hx Hnd IH]; [by apply not_elem_of_nil in Hi|]. simpl.
  assert (∀ y, y ≠ i → left_to_send (mkFlood (<[i := q]> (seqs f)) p) y = left_to_send f y) as Hsame.
  { intros y Hy. apply decide_ext. unfold informed. simpl. by rewrite lookup_insert_ne. }
  apply elem_of_cons in Hi as [->|Hi].
  - assert (sum_list_with (left_to_send (mkFlood (<[x := q]> (seqs f)) p)) l = sum_list_with (left_to_send f) l) as ->.
    { apply sum_with_ext. intros y Hy. apply Hsame. by intros ->. }
    unfold left_to_send at 1 3. rewrite decide_True, decide_False by (done || apply lookup_insert_eq). lia.
  - rewrite Hsame by (by intros ->). specialize (IH Hi). lia.
Qed.

Lemma takes_work f f' : of_one f → takes f f' → (work f' < work f)%nat.
Proof using Hnodup.
  intros Hone (k & n & Hn & Hcase)%takes_inv. destruct (Hone n) as [Hq Hin]; [by eapply list_elem_of_lookup_2|].
  pose proof (lookup_lt_Some _ _ _ Hn) as Hlt. pose proof (length_delete (notes f) k ltac:(eauto)) as Hlen.
  unfold work. destruct Hcase as [[_ ->]|[Hnew ->]]; cbn [notes seqs].
  - change (left_to_send (mkFlood (seqs f) (delete k (notes f)))) with (left_to_send f). lia.
  - rewrite Hq in *. rewrite length_app. pose proof (forward_length (n_at n) q) as Hfwd.
    pose proof (left_after f _ relays (delete k (notes f) ++ forward (n_at n) q) Hnodup Hin Hnew). lia.
Qed.

Lemma nsteps_work n f f' : of_one f → nsteps takes n f f' → of_one f' ∧ (n + work f' ≤ work f)%nat.
Proof using Hnodup Hwire Hforeign.
  intros Hone Hn. revert Hone. induction Hn as [f|n f f1 f' Hf Hn IH]; intros Hone; [split; [done|lia]|].
  pose proof (takes_work f f1 Hone Hf). destruct (IH (takes_of_one f f1 Hone Hf)) as [Hone' Hle]. split; [done|lia].
Qed.

(** ** Everyone hears of it *)

Context (Hsym : ∀ p e, wire p = Some e → wire e = Some p).

(** Relays with a connection between them. *)
Definition linked (i j : Z) : Prop := ∃ c d, c ∈ ports i ∧ wire (i, c) = Some (j, d).

Definition addressed f (i : Z) : Prop := informed f i ∨ ∃ n, n ∈ notes f ∧ (n_at n).1 = i.

(** A note comes from a relay that has recorded it, or from outside; and a relay
    that has recorded it has told its neighbours, or heard it from them. *)
Definition covered f : Prop :=
  (∀ n e, n ∈ notes f → wire (n_at n) = Some e → informed f e.1) ∧
  (∀ i j, informed f i → linked i j → addressed f j).

Lemma left_elem f k n x : notes f !! k = Some n → x ∈ notes f ↔ x = n ∨ x ∈ delete k (notes f).
Proof.
  intros Hn. pose proof (delete_Permutation _ _ _ Hn) as Hp. rewrite <- elem_of_cons.
  split; apply elem_of_Permutation_proper; [done|by symmetry].
Qed.

Lemma takes_informed f f' i : of_one f → takes f f' → informed f i → informed f' i.
Proof.
  intros Hone (k & n & Hn & Hcase)%takes_inv Hi. destruct (Hone n) as [Hq _]; [by eapply list_elem_of_lookup_2|].
  destruct Hcase as [[_ ->]|[_ ->]]; [done|]. unfold informed in *. simpl. rewrite Hq.
  destruct (decide ((n_at n).1 = i)) as [->|Hne]; [by rewrite lookup_insert_eq|by rewrite lookup_insert_ne].
Qed.

Lemma takes_addressed f f' i : of_one f → takes f f' → addressed f i → addressed f' i.
Proof.
  intros Hone Ht [Hi|(x & Hx & Hi)]; [left; by eapply takes_informed|].
  apply takes_inv in Ht as (k & n & Hn & Hcase). destruct (Hone n) as [Hq _]; [by eapply list_elem_of_lookup_2|].
  apply (left_elem f k n x Hn) in Hx as [->|Hx]; subst i.
  - left. unfold informed. destruct Hcase as [[Hs ->]|[_ ->]]; simpl; [by rewrite Hs, Hq|by rewrite Hq, lookup_insert_eq].
  - right. exists x. split; [|done]. destruct Hcase as [[_ ->]|[_ ->]]; simpl; [done|]. apply elem_of_app. by left.
Qed.

Lemma takes_covered f f' : of_one f → takes f f' → covered f → covered f'.
Proof using Hsym.
  intros Hone Ht [Hfrom Hto]. pose proof Ht as (k & n & Hn & Hcase)%takes_inv.
  destruct (Hone n) as [Hq _]; [by eapply list_elem_of_lookup_2|].
  assert (n ∈ notes f) as Hin by by eapply list_elem_of_lookup_2.
  assert (∀ x e, x ∈ delete k (notes f) → wire (n_at x) = Some e → informed f' e.1) as Hrest.
  { intros x e Hx He. apply (takes_informed f); [done..|]. apply (Hfrom x); [|done]. apply (left_elem f k n x Hn). by right. }
  destruct Hcase as [[_ ->]|[Hnew ->]].
  - split; [done|]. intros i j Hi Hij. by apply (takes_addressed f), (Hto i).
  - split.
    + intros x e [Hx|(k' & c & e' & Hc & Hw & ->)%elem_of_forward]%elem_of_app He; [by apply (Hrest x)|]. simpl in *.
      apply Hsym in Hw. rewrite He in Hw. injection Hw as ->. unfold informed. simpl. by rewrite Hq, lookup_insert_eq.
    + intros i j Hi Hij. destruct (decide ((n_at n).1 = i)) as [Heq|Hne].
      2: { apply (takes_addressed f); [done..|]. apply (Hto i); [|done]. unfold informed in *. simpl in Hi.
           by rewrite lookup_insert_ne in Hi. }
      destruct Hij as (c & d & Hc & Hw). destruct (decide (c = (n_at n).2)) as [->|Hother].
      * left. apply (takes_informed f); [done..|]. apply (Hfrom n (j, d) Hin). rewrite <- Heq in Hw. by destruct (n_at n).
      * right. assert (c ∈ filter (.≠ (n_at n).2) (ports (n_at n).1)) as [k' Hk']%list_elem_of_lookup
          by (apply list_elem_of_filter; by rewrite Heq).
        eexists. split; [apply elem_of_app; right; apply elem_of_forward; exists k', c, (j, d)|].
        -- rewrite Heq. by rewrite Heq in Hk'.
        -- done.
Qed.

Lemma rtc_covered f f' i : of_one f → covered f → rtc takes f f' → addressed f i → of_one f' ∧ covered f' ∧ addressed f' i.
Proof using Hsym Hwire Hforeign.
  intros Hone Hc Hr Hi. induction Hr as [|f f1 f' Ht Hr IH]; [done|].
  apply IH; [by eapply takes_of_one|by eapply takes_covered|by eapply takes_addressed].
Qed.

(** When nothing is in flight any more, every relay that is connected to one
    that was addressed has recorded the subscription. *)
Lemma flood_reaches f f' i j :
  of_one f → covered f → rtc takes f f' → notes f' = [] → addressed f i → rtc linked i j → informed f' j.
Proof using Hsym Hwire Hforeign.
  intros Hone Hc Hr Hend Hi Hij. destruct (rtc_covered f f' i Hone Hc Hr Hi) as (_ & [_ Hto] & Hi').
  assert (∀ x, addressed f' x → informed f' x) as Hdone.
  { intros x [Hx|(n & Hn & _)]; [done|]. rewrite Hend in Hn. by apply not_elem_of_nil in Hn. }
  apply Hdone in Hi'. clear Hi. induction Hij as [|x y z Hxy _ IH]; [done|]. by apply IH, Hdone, (Hto x).
Qed.
End one.

(** The oldest note arrives, [n] times. *)
Fixpoint fifo (n : nat) f : option Flood :=
  match n with O => Some f | S n => f' ← take_note 0 f; fifo n f' end.

(** ** A ring of three relays, one of them the subscription's own

    [a] numbers its messages anew; what comes around to it is news again. *)
Section ring.
Context (a b c ab ac ba bc ca cb : Z).
Context (Hdistinct : a ≠ b ∧ a ≠ c ∧ b ≠ c) (Hports : ab ≠ ac ∧ ba ≠ bc ∧ ca ≠ cb).
Context (Ha : ports a = [ab; ac]) (Hb : ports b = [ba; bc]) (Hc : ports c = [ca; cb]).
Context (Hab : wire (a, ab) = Some (b, ba)) (Hba : wire (b, ba) = Some (a, ab)).
Context (Hac : wire (a, ac) = Some (c, ca)) (Hca : wire (c, ca) = Some (a, ac)).
Context (Hbc : wire (b, bc) = Some (c, cb)) (Hcb : wire (c, cb) = Some (b, bc)).
Context (Hoa : origin a = true) (Hob : origin b = false) (Hoc : origin c = false).

Ltac ring_forward Hp Hw Ho :=
  unfold forward; cbn [fst snd]; rewrite Hp;
  repeat first [rewrite filter_cons_True by intuition | rewrite filter_cons_False by intuition];
  rewrite filter_nil; cbn; unfold note_at; rewrite Hw, Ho; reflexivity.

Lemma forward_a_ab q : forward (a, ab) q = [mkNote (c, ca) (u16 (q + 1))].
Proof using All. ring_forward Ha Hac Hoa. Qed.
Lemma forward_a_ac q : forward (a, ac) q = [mkNote (b, ba) (u16 (q + 1))].
Proof using All. ring_forward Ha Hab Hoa. Qed.
Lemma forward_b_ba q : forward (b, ba) q = [mkNote (c, cb) q].
Proof using All. ring_forward Hb Hbc Hob. Qed.
Lemma forward_b_bc q : forward (b, bc) q = [mkNote (a, ab) q].
Proof using All. ring_forward Hb Hba Hob. Qed.
Lemma forward_c_ca q : forward (c, ca) q = [mkNote (b, bc) q].
Proof using All. ring_forward Hc Hcb Hoc. Qed.
Lemma forward_c_cb q : forward (c, cb) q = [mkNote (a, ac) q].
Proof using All. ring_forward Hc Hca Hoc. Qed.

(** A note that is news is passed on; the queue moves up. *)
Lemma take_news m p q rest :
  m !! p.1 ≠ Some q → take_note 0 (mkFlood m (mkNote p q :: rest)) = Some (mkFlood (<[p.1 := q]> m) (rest ++ forward p q)).
Proof. intros Hm. unfold take_note. simpl. by rewrite decide_False. Qed.
Lemma take_known m p q rest :
  m !! p.1 = Some q → take_note 0 (mkFlood m (mkNote p q :: rest)) = Some (mkFlood m rest).
Proof. intros Hm. unfold take_note. simpl. by rewrite decide_True. Qed.

(** One note goes round: it is about to reach [c], [b] or [a], and the relays it
    has yet to reach have another number. *)
Definition going_round f : Prop := ∃ q m, in_range 16 q ∧ (
  (f = mkFlood m [mkNote (c, ca) q] ∧ m !! a ≠ Some q ∧ m !! b ≠ Some q ∧ m !! c ≠ Some q) ∨
  (f = mkFlood m [mkNote (b, bc) q] ∧ m !! a ≠ Some q ∧ m !! b ≠ Some q ∧ m !! c = Some q) ∨
  (f = mkFlood m [mkNote (a, ab) q] ∧ m !! a ≠ Some q ∧ m !! b = Some q ∧ m !! c = Some q)).

Lemma next_differs q : in_range 16 q → u16 (q + 1) ≠ q.
Proof.
  unfold in_range, wrap. intros Hq. destruct (decide (q = 65535)) as [->|]; [decide_now|]. rewrite Z.mod_small by lia. lia.
Qed.

Lemma round_step f : going_round f → ∃ f', take_note 0 f = Some f' ∧ going_round f'.
Proof using All.
  destruct Hdistinct as (Hnab & Hnac & Hnbc).
  intros (q & m & Hq & [(-> & Hma & Hmb & Hmc)|[(-> & Hma & Hmb & Hmc)|(-> & Hma & Hmb & Hmc)]]);
    (eexists; split; [by apply take_news|]); cbn [app fst].
  - rewrite forward_c_ca. exists q, (<[c := q]> m). split; [done|]. right. left.
    by rewrite lookup_insert_eq, !lookup_insert_ne by done.
  - rewrite forward_b_bc. exists q, (<[b := q]> m). split; [done|]. right. right.
    by rewrite lookup_insert_eq, !lookup_insert_ne by done.
  - rewrite forward_a_ab. exists (u16 (q + 1)), (<[a := q]> m). split; [apply wrap_range; lia|]. left.
    rewrite lookup_insert_eq, !lookup_insert_ne, Hmb, Hmc by done.
    split; [done|]. by split_and!; intros [= Heq]; apply (next_differs q).
Qed.

(** However many notes have arrived, there is one in flight. *)
Definition never_ends f : Prop := ∀ n, ∃ f', fifo n f = Some f' ∧ notes f' ≠ [].

Lemma never_ends_step f f' : notes f ≠ [] → take_note 0 f = Some f' → never_ends f' → never_ends f.
Proof. intros Hne Hf Hf' [|n]; [by exists f|]. simpl. rewrite Hf. apply Hf'. Qed.

Lemma round_never_ends f : going_round f → never_ends f.
Proof using All.
  intros Hf n. revert f Hf. induction n as [|n IH]; intros f Hf.
  - exists f. split; [done|]. destruct Hf as (q & m & _ & [(-> & _)|[(-> & _)|(-> & _)]]); done.
  - destruct (round_step f Hf) as (f1 & H1 & Hf1). simpl. rewrite H1. by apply IH.
Qed.

(** What the relay's own client starts: number 1 to [b] and number 2 to [c],
    while [a] keeps number 0. *)
Definition ring_start (m : gmap Z Z) : Flood := mkFlood (<[a := 0]> m) [mkNote (b, ba) 1; mkNote (c, ca) 2].

Ltac look := cbn [fst snd n_at n_seq]; repeat first [rewrite lookup_insert_eq | rewrite lookup_insert_ne by congruence].
Ltac next take := eapply never_ends_step; [done|apply take; look; congruence|]; cbn [app fst].

Lemma ring_never_ends m : m !! b = None → m !! c = None → never_ends (ring_start m).
Proof using All.
  intros Hmb Hmc. destruct Hdistinct as (Hnab & Hnac & Hnbc). unfold ring_start.
  next take_news. rewrite forward_b_ba. cbn [app].
  next take_news. rewrite forward_c_ca. cbn [app].
  next take_news. rewrite forward_c_cb. cbn [app].
  next take_news. rewrite forward_b_bc. cbn [app].
  next take_news. rewrite forward_a_ac. change (u16 (1 + 1)) with 2. cbn [app].
  next take_news. rewrite forward_a_ab. change (u16 (2 + 1)) with 3. cbn [app].
  next take_known.
  apply round_never_ends. eexists 3, _. split; [decide_now|]. left. split; [done|]. by look.
Qed.
End ring.
End flood.
