(* ===== verification/PathFlood.v ===== *)
(** * Withdrawals through a mesh of relays, abstractly

    What the relays of a mesh make of the withdrawal of a node.  A notice carries
    the path it has taken, and a relay passes every notice on to every neighbour
    that is not on its path.  [NodeMesh] shows that relays running the code do
    exactly this. *)

From stdpp Require Import relations.
From Stdlib Require Import Factorial.
From S2P Require Import Prelude NodeInfo Flood.

(** A notice on its way to a connection of a relay. *)
Record Notice := mkNotice { w_at : Port; w_path : list NodePathItem }.
Abbreviation ids path := (item_id <$> path).

Lemma sum_with_least {A} (g : A → nat) b (l : list A) :
  (∀ y, y ∈ l → b ≤ g y)%nat → (length l * b ≤ sum_list_with g l)%nat.
Proof.
  induction l as [|y l IH]; intros Hg; cbn; [done|].
  apply Nat.add_le_mono; [apply Hg; left|apply IH; intros z Hz; apply Hg; by right].
Qed.

Lemma filter_ext_in {A} (P Q : A → Prop) `{!∀ y, Decision (P y), !∀ y, Decision (Q y)} (l : list A) :
  (∀ y, y ∈ l → P y ↔ Q y) → filter P l = filter Q l.
Proof.
  induction l as [|y l IH]; intros Hpq; [done|]. rewrite !filter_cons, IH by (intros z Hz; apply Hpq; by right).
  assert (P y ↔ Q y) as Hy by (apply Hpq; left). by apply decide_ext.
Qed.

Lemma filter_all {A} (P : A → Prop) `{!∀ y, Decision (P y)} (l : list A) : Forall P l → filter P l = l.
Proof. induction 1 as [|y l Hy _ IH]; [done|]. by rewrite filter_cons, decide_True, IH. Qed.

(** An element more on the path is one less that is not on it. *)
Lemma filter_snoc_same (r l : list Z) i : i ∉ r → filter (.∉ l ++ [i]) r = filter (.∉ l) r.
Proof. intros Hi. apply filter_ext_in. intros j Hj. set_solver. Qed.

Lemma filter_snoc_le (r l : list Z) i : (length (filter (.∉ l ++ [i]) r) ≤ length (filter (.∉ l) r))%nat.
Proof. induction r as [|j r IH]; [done|]. rewrite !filter_cons. repeat case_decide; cbn; try lia. set_solver. Qed.

Lemma filter_snoc_shorter (r l : list Z) i :
  i ∈ r → i ∉ l → (length (filter (.∉ l ++ [i]) r) < length (filter (.∉ l) r))%nat.
Proof.
  intros Hi Hl. pose proof (filter_snoc_le r l i) as Hle. induction r as [|j r IH]; [by apply not_elem_of_nil in Hi|].
  pose proof (filter_snoc_le r l i) as Hle'. rewrite !filter_cons in Hle |- *. apply elem_of_cons in Hi as [<-|Hi].
  - rewrite decide_False, decide_True by set_solver. cbn. lia.
  - specialize (IH Hi Hle'). repeat case_decide; cbn; try lia. set_solver.
Qed.

Lemma filter_snoc_length (r l : list Z) i :
  NoDup r → i ∈ r → i ∉ l → length (filter (.∉ l) r) = S (length (filter (.∉ l ++ [i]) r)).
Proof.
  intros Hr Hi Hl. induction Hr as [|j r Hj Hr IH]; [by apply not_elem_of_nil in Hi|]. rewrite !filter_cons.
  apply elem_of_cons in Hi as [<-|Hi].
  - rewrite decide_True, decide_False by set_solver. cbn. by rewrite filter_snoc_same.
  - specialize (IH Hi). assert (j ≠ i) by congruence. repeat case_decide; cbn; try lia; set_solver.
Qed.

Section paths.
Context (links : Z → list Z) (wire : Port → option Port) (srtt : Port → Z) (x : Z) (relays : list Z).
Implicit Types ns : list Notice.

(** A relay puts itself on the path, and the time of the session. *)
Definition extended (p : Port) (path : list NodePathItem) : list NodePathItem := path ++ [mkNodePathItem p.1 (srtt p)].
Definition pass_at (i : Z) (path : list NodePathItem) (c : Z) : option Notice :=
  e ← wire (i, c); if decide (e.1 ∈ x :: ids path) then None else Some (mkNotice e path).
Definition pass (n : Notice) : list Notice :=
  omap (pass_at (w_at n).1 (extended (w_at n) (w_path n))) (links (w_at n).1).

(** The [k]-th notice arrives. *)
Definition take_notice (k : nat) ns : option (list Notice) :=
  n ← ns !! k; Some (delete k ns ++ pass n).

(** The relays a notice has not been at. *)
Definition unvisited (l : list Z) : nat := length (filter (.∉ l) relays).

Definition neighbours (i : Z) : list Z := omap (λ c, fst <$> wire (i, c)) (links i).
Definition next_relays (i : Z) (l : list Z) : list Z := filter (.∉ x :: l ++ [i]) (neighbours i).

(** The deliveries that a notice at relay [i] with path [l] leads to: one for
    every way onwards without repetition. *)
Fixpoint copies (fuel : nat) (i : Z) (l : list Z) : nat :=
  match fuel with
  | O => 1
  | S fuel => S (sum_list_with (λ j, copies fuel j (l ++ [i])) (next_relays i l))
  end.

Definition proper (n : Notice) : Prop := (w_at n).1 ∈ relays ∧ (w_at n).1 ∉ ids (w_path n).
Definition load ns : nat := sum_list_with (λ n, copies (length relays) (w_at n).1 (ids (w_path n))) ns.

Context (Hwire : ∀ p e, wire p = Some e → e.1 ∈ relays).

Lemma ids_extended p path : ids (extended p path) = ids path ++ [p.1].
Proof. unfold extended. by rewrite fmap_app. Qed.

Lemma elem_of_pass n n' :
  n' ∈ pass n ↔ ∃ c, c ∈ links (w_at n).1 ∧ wire ((w_at n).1, c) = Some (w_at n') ∧
    ¬ (w_at n').1 ∈ x :: (ids (w_path n) ++ [(w_at n).1]) ∧ w_path n' = extended (w_at n) (w_path n).
Proof.
  unfold pass, pass_at. rewrite list_elem_of_omap. split.
  - intros (c & Hc & Hn). exists c. destruct (wire _) as [e|]; [|done]. cbn in Hn. rewrite ids_extended in Hn.
    case_decide; [done|]. by injection Hn as <-.
  - intros (c & Hc & He & Hnot & Hpath). exists c. split; [done|]. rewrite He. cbn. rewrite ids_extended, decide_False by done.
    destruct n'. cbn in *. by rewrite Hpath.
Qed.

Lemma pass_proper n n' : n' ∈ pass n → proper n'.
Proof using Hwire.
  intros (c & _ & He & Hnot & Hpath)%elem_of_pass. split; [by apply (Hwire _ _ He)|].
  rewrite Hpath, ids_extended. set_solver.
Qed.

Lemma unvisited_snoc i l : i ∈ relays → i ∉ l → (unvisited (l ++ [i]) < unvisited l)%nat.
Proof. intros Hi Hl. by apply filter_snoc_shorter. Qed.

Lemma elem_of_next i l j : j ∈ next_relays i l → j ∈ relays ∧ j ∉ l ++ [i].
Proof using Hwire.
  unfold next_relays, neighbours. rewrite list_elem_of_filter, list_elem_of_omap.
  intros (Hnot & c & _ & He). split; [|set_solver]. apply fmap_Some in He as (e & He & ->). by apply (Hwire _ _ He).
Qed.

(** As much fuel as relays are left is enough. *)
Lemma copies_enough f1 f2 i l :
  i ∈ relays → i ∉ l → (unvisited l ≤ f1)%nat → (unvisited l ≤ f2)%nat → copies f1 i l = copies f2 i l.
Proof using Hwire.
  revert f2 i l. induction f1 as [|f1 IH]; intros f2 i l Hi Hl H1 H2; pose proof (unvisited_snoc i l Hi Hl); [lia|].
  destruct f2 as [|f2]; [lia|]. cbn [copies]. f_equal. apply sum_with_ext.
  intros j [Hj Hnot]%elem_of_next. apply IH; [done|done|lia|lia].
Qed.

Lemma unvisited_all l : (unvisited l ≤ length relays)%nat.
Proof. apply length_filter. Qed.

Lemma pass_load n :
  load (pass n) = sum_list_with (λ j, copies (length relays) j (ids (w_path n) ++ [(w_at n).1]))
    (next_relays (w_at n).1 (ids (w_path n))).
Proof.
  unfold load, pass, next_relays, neighbours. induction (links (w_at n).1) as [|c l IH]; [done|]. csimpl.
  unfold pass_at at 1. destruct (wire _) as [e|]; cbn [fmap option_fmap option_map mbind option_bind]; [|exact IH].
  rewrite ids_extended, filter_cons.
  case_decide as Hin; [by rewrite decide_False by (intros Hn; by apply Hn)|].
  rewrite decide_True by done. cbn. rewrite ids_extended. by f_equal.
Qed.

(** Every delivery is one of those counted. *)
Lemma copies_pass n : proper n → copies (length relays) (w_at n).1 (ids (w_path n)) = S (load (pass n)).
Proof using Hwire.
  intros Hn. rewrite pass_load. destruct Hn as [Hi Hl].
  pose proof (unvisited_all (ids (w_path n))) as Hall. pose proof (unvisited_snoc _ _ Hi Hl) as Hlt.
  rewrite (copies_enough (length relays) (S (length relays))) by (done || lia). cbn [copies]. done.
Qed.

Lemma take_load k ns ns' : Forall proper ns → take_notice k ns = Some ns' → Forall proper ns' ∧ load ns = S (load ns').
Proof using Hwire.
  intros Hall Hk. unfold take_notice in Hk. destruct (ns !! k) as [n|] eqn:Hn; [|done]. injection Hk as <-.
  assert (ns ≡ₚ n :: delete k ns) as Hperm by by apply delete_Permutation.
  rewrite Hperm in Hall. apply Forall_cons in Hall as [Hp Hall]. split.
  - apply Forall_app. split; [done|]. apply Forall_forall. apply pass_proper.
  - assert (load ns = load (n :: delete k ns)) as ->.
    { unfold load. clear -Hperm. induction Hperm; cbn; lia. }
    unfold load at 1. cbn. rewrite (copies_pass n Hp). unfold load. rewrite sum_list_with_app. lia.
Qed.

(** ** All relays connected with each other *)

Context (Hnodup : NoDup relays) (Hx : x ∉ relays).
Context (Hfull : ∀ i, i ∈ relays → neighbours i ≡ₚ filter (.≠ i) relays).

Lemma next_full i l : i ∈ relays → length (next_relays i l) = unvisited (l ++ [i]).
Proof using All.
  intros Hi. unfold next_relays, unvisited. rewrite (Hfull i Hi), list_filter_filter. f_equal.
  apply filter_ext_in. intros j Hj. set_solver.
Qed.

Lemma copies_full f i l :
  i ∈ relays → i ∉ l → (unvisited l ≤ f)%nat → (fact (unvisited (l ++ [i])) ≤ copies f i l)%nat.
Proof using All.
  revert i l. induction f as [|f IH]; intros i l Hi Hl Hf; pose proof (unvisited_snoc i l Hi Hl) as Hlt; [lia|].
  cbn [copies].
  assert (length (next_relays i l) * fact (pred (unvisited (l ++ [i]))) ≤
    sum_list_with (λ j, copies f j (l ++ [i])) (next_relays i l))%nat as Hsum.
  { apply sum_with_least. intros j [Hj Hnot]%elem_of_next.
    pose proof (filter_snoc_length relays (l ++ [i]) j Hnodup Hj Hnot) as Hlen. fold (unvisited (l ++ [i])) in Hlen.
    rewrite Hlen. cbn [pred]. apply IH; [done|done|lia]. }
  rewrite next_full in Hsum by done. destruct (unvisited (l ++ [i])) as [|m]; [cbn; lia|].
  cbn [pred] in Hsum. change (fact (S m)) with (S m * fact m)%nat. lia.
Qed.
End paths.
