(* ===== verification/Mesh.v ===== *)
(** * Meshes of relays

    Relays whose sessions are connected with each other: what one enqueues on the
    control stream of a session arrives, byte by byte, at the session at the
    other end.  A mesh of relays floods a subscription as [Flood] says. *)

From stdpp Require Import relations.
From S2P Require Import Prelude Common Quicr State NodeInfo DataHeader SubscribeInfo SubscribeNodeSet AnnounceInfo InfoBase InfoBaseTables Transport PeerSession PeerSessionEvents PeerSessionControl PeerWorld PeerManager PeerForwarding PeerEvents PeerFlooding Flood.

(** What was enqueued on a control stream and has not arrived: the connection it
    arrives at, and the bytes. *)
Record Packet := mkPacket { p_at : Port; p_bytes : list Z }.

Record Mesh `{TrackNames} (C : Type) := mkMesh {
  relays : gmap Z (World C);
  in_flight : list Packet;
}.
Arguments mkMesh {_ _}.
Arguments relays {_ _}.
Arguments in_flight {_ _}.

Lemma omap_imap {A B D E} (g : B → option E) (h : nat → A → B) (k : D → E) (u : nat → A → option D) (l : list A) :
  (∀ j x, x ∈ l → g (h j x) = k <$> u j x) → omap g (imap h l) = k <$> omap id (imap u l).
Proof.
  revert h u. induction l as [|x l IH]; intros h u Hgu; [done|]. cbn [imap]. csimpl.
  rewrite (Hgu 0%nat x) by by left. rewrite (IH (h ∘ S) (u ∘ S)) by (intros j y Hy; apply Hgu; by right).
  by destruct (u 0%nat x).
Qed.

Section mesh.
Context `{UintVarLaws, TrackNamesLaws, Transport, !SubscribeMessages, Rand} {C : Type} `{!ClientManagerI C}.
Context (wires : gmap Port Port).
Abbreviation World := (World C).
Abbreviation Mesh := (Mesh C).
Implicit Types w : World.
Implicit Types ms : Mesh.

(** ** Steps *)

(** Where a call of relay [i] makes something arrive: the message of a control
    stream at the other end of the connection, if that is in the mesh. *)
Definition arriving (i : Z) w (c : TransportCall) : option Packet :=
  match c with
  | Enqueue conn ctx stream data _ _ _ =>
      r ← peer_at w conn;
      s ← sessions w !! r;
      if decide (control_data_ctx_id_ s = ctx ∧ control_stream_id_ s = stream)
      then e ← wires !! (i, conn); Some (mkPacket e data) else None
  | _ => None
  end.

(** Something happens at relay [i]; what it enqueues is in flight. *)
Definition at_relay (i : Z) (m : ST World unit) ms : option Mesh :=
  w ← relays ms !! i;
  match m w with
  | (Ok _, w') =>
      Some (mkMesh (<[i := w']> (relays ms))
                   (in_flight ms ++ omap (arriving i w') (drop (length (trace w)) (trace w'))))
  | _ => None
  end.

(** The transport puts the bytes in the stream's queue and tells the session. *)
Definition arrive (conn : Z) (bytes : list Z) : ST World unit :=
  w ← get;
  match peer_at w conn with
  | None => mret tt
  | Some r =>
      s ← the_session r;
      modify (set_rx_contexts (λ m,
        let rx := default (mkRx [] any_empty) (m !! (conn, control_stream_id_ s)) in
        <[(conn, control_stream_id_ s) := mkRx (data_queue rx ++ [Some bytes]) (rx_any rx)]> m)) ;;
      run_event (ev_recv_stream r conn (control_stream_id_ s) (Some (control_data_ctx_id_ s)) true)
  end.

(** The [k]-th packet arrives. *)
Definition deliver (k : nat) ms : option Mesh :=
  p ← in_flight ms !! k;
  at_relay (p_at p).1 (arrive (p_at p).2 (p_bytes p)) (mkMesh (relays ms) (delete k (in_flight ms))).

Definition delivers ms ms' : Prop := ∃ k, deliver k ms = Some ms'.

(** The oldest packet arrives, [n] times. *)
Fixpoint deliver_oldest (n : nat) ms : option Mesh :=
  match n with O => Some ms | S n => ms' ← deliver 0 ms; deliver_oldest n ms' end.

(** ** Relays at rest *)

(** The part of a relay that a passing subscription does not change. *)
Definition view w := (sessions w, server_peer_sessions_ w, client_peer_sessions_ w, pm_node_info_ w, state_ w,
  pm_mutex_ w, state_mutex w).

Definition drained w : Prop := map_Forall (λ _ rx, data_queue rx = []) (rx_contexts w).

(** The connections a broadcast reaches, in its order. *)
Definition ports_of w : list Z := omap (λ e : Z * SessRef,
  s ← sessions w !! e.2; if decide (status_ s = kStatusConnected) then Some e.1 else None) (all_sessions w).

(** A relay between two events: no lock is held, and every session is filed under
    its connection and has handled what it got. *)
Record relay_idle w : Prop := {
  ready_ok : world_ok w;
  ready_unlocked : unlocked w;
  ready_self : self_known w;
  ready_keyed e s : e ∈ all_sessions w → sessions w !! e.2 = Some s → t_conn_id_ s = e.1;
  ready_disjoint : client_peer_sessions_ w ##ₘ server_peer_sessions_ w;
  ready_buffers r s : sessions w !! r = Some s → controL_msg_buffer_ s = [];
  ready_drained : drained w;
}.

Lemma idle_same w w' : relay_idle w → view w' = view w → drained w' → mutex_ (info_base_ w') = false → relay_idle w'.
Proof.
  intros [Hok (Hp & Hi & Hs) Hself Hkey Hdis Hbuf Hdr] [= E1 E2 E3 E4 E5 E6 E7] Hdr' Hi'.
  unfold self_known, all_sessions in *. destruct Hok as [Ha Ht].
  split; try (split; [by rewrite E1, E2, E3|by rewrite E1]); unfold unlocked, self_known, all_sessions;
    rewrite ?E1, ?E2, ?E3, ?E4, ?E5, ?E6, ?E7; done.
Qed.

(** What does not depend on the message. *)
Lemma peer_at_listed w c r : peer_at w c = Some r → (c, r) ∈ all_sessions w.
Proof.
  intros Hp. apply elem_of_all_sessions. simpl. unfold peer_at in Hp.
  destruct (server_peer_sessions_ w !! c); [right; congruence|by left].
Qed.

Lemma peer_at_session w e s : relay_idle w → e ∈ all_sessions w → sessions w !! e.2 = Some s → peer_at w (t_conn_id_ s) = Some e.2.
Proof.
  intros Hw He Hs. rewrite (ready_keyed w Hw e s He Hs). unfold peer_at.
  apply elem_of_all_sessions in He as [He|He]; [|by rewrite He].
  rewrite (map_disjoint_Some_l _ _ _ _ (ready_disjoint w Hw) He). done.
Qed.

Lemma arriving_control i w e s bytes :
  relay_idle w → e ∈ all_sessions w → sessions w !! e.2 = Some s →
  arriving i w (control_call s bytes) = (λ p, mkPacket p bytes) <$> wires !! (i, t_conn_id_ s).
Proof.
  intros Hw He Hs. unfold arriving, control_call. rewrite (peer_at_session w e s Hw He Hs). cbn. rewrite Hs. cbn.
  rewrite decide_True by done. by destruct (wires !! _).
Qed.

Lemma arriving_view i w w' c : view w' = view w → arriving i w' c = arriving i w c.
Proof. intros [= Es Ev Ec _ _ _ _]. unfold arriving, peer_at. by rewrite Es, Ev, Ec. Qed.

Lemma view_peer_at w w' c : view w' = view w → peer_at w' c = peer_at w c.
Proof. intros [= _ Ev Ec _ _ _ _]. unfold peer_at. by rewrite Ev, Ec. Qed.
Lemma view_ports w w' : view w' = view w → ports_of w' = ports_of w.
Proof. intros [= Es Ev Ec _ _ _ _]. unfold ports_of, all_sessions. by rewrite Es, Ev, Ec. Qed.

(** A port of a relay of the mesh. *)
Definition port_in ms (p : Port) : Prop := ∃ w, relays ms !! p.1 = Some w ∧ is_Some (peer_at w p.2).

(** The relays of a mesh, and their connections. *)
Definition relay_list ms : list Z := (map_to_list (relays ms)).*1.
Definition ports_in ms (i : Z) : list Z := default [] (ports_of <$> relays ms !! i).

Lemma elem_of_relay_list ms i : i ∈ relay_list ms ↔ is_Some (relays ms !! i).
Proof.
  unfold relay_list. rewrite list_elem_of_fmap. split.
  - intros ([j w] & -> & Hj%elem_of_map_to_list). by exists w.
  - intros [w Hw]. exists (i, w). split; [done|by apply elem_of_map_to_list].
Qed.

Lemma port_in_update ms w w' i l p :
  relays ms !! i = Some w → view w' = view w → port_in ms p → port_in (mkMesh (<[i := w']> (relays ms)) l) p.
Proof.
  intros Hi Hview (v & Hv & Hp). unfold port_in. cbn. destruct (decide (p.1 = i)) as [Heq|Hne].
  - exists w'. rewrite Heq, lookup_insert_eq, (view_peer_at w w' _ Hview). rewrite Heq, Hi in Hv. by injection Hv as ->.
  - exists v. by rewrite lookup_insert_ne.
Qed.

(** ** A message arrives *)

(** The relay while it handles a message: the queue of the stream is empty, and
    the message is in the buffer of its session. *)
Definition handling w (r : SessRef) (s : PeerSession) (conn : Z) (m : ControlMessage) : World :=
  set_sessions <[r := set_buffer (λ _, cm_bytes m) s]>
    (set_rx_contexts (λ rxs, <[(conn, control_stream_id_ s) :=
      mkRx [] (rx_any (default (mkRx [] any_empty) (rxs !! (conn, control_stream_id_ s))))]> rxs) w).

Lemma arrive_process w conn r s m :
  1 ≤ kReadLoopMaxPerStream → relay_idle w → peer_at w conn = Some r → sessions w !! r = Some s → cm_valid m →
  arrive conn (cm_bytes m) w = process r m (handling w r s conn m).
Proof.
  intros Hmax [Hok Hun Hself Hkey Hdis Hbuf Hdr] Hp Hs Hm.
  unfold arrive. rewrite (bind_ok get _ w w w) by done. rewrite Hp.
  rewrite (bind_ok _ _ _ _ _ (world_session_ok w r s Hs)).
  set (key := (conn, control_stream_id_ s)). set (rx := default (mkRx [] any_empty) (rx_contexts w !! key)).
  assert (data_queue rx = []) as Hrx.
  { unfold rx. destruct (rx_contexts w !! key) eqn:Hkeyed; [|done]. by apply (Hdr _ _ Hkeyed). }
  set (w1 := set_rx_contexts <[key := mkRx [Some (cm_bytes m)] (rx_any rx)]> w).
  rewrite (bind_ok _ _ w tt w1).
  2: { unfold w1, modify, set_rx_contexts. cbv zeta beta. fold key. fold rx. by rewrite Hrx. }
  assert (set_control_ctx (control_data_ctx_id_ s) s = s) as Hctx by by destruct s.
  cbn [run_event]. rewrite (OnRecvStream_control r conn (control_stream_id_ s) (control_data_ctx_id_ s)
      m [cm_bytes m] s (rx_any rx) w1).
  - rewrite Hctx. f_equal. cbn. unfold handling, w1, set_rx_contexts. cbn. fold key. fold rx. by rewrite insert_insert_eq.
  - done.
  - apply Forall_singleton. intros Hnil. apply (f_equal length) in Hnil. by rewrite cm_bytes_length in Hnil.
  - exact (app_nil_r _).
  - exact Hmax.
  - done.
  - by apply (Hbuf r).
  - apply lookup_insert_eq.
Qed.

Lemma handling_view w r s conn m : relay_idle w → sessions w !! r = Some s →
  world_ok (handling w r s conn m) ∧ self_known (handling w r s conn m) ∧ drained (handling w r s conn m) ∧
  sessions (handling w r s conn m) !! r = Some (set_buffer (λ _, cm_bytes m) s).
Proof.
  intros [Hok Hun Hself Hkey Hdis Hbuf Hdr] Hs. set (w2 := handling w r s conn m).
  assert (∀ x y, sessions w2 !! x = Some y → ∃ y0, sessions w !! x = Some y0 ∧ status_ y0 = status_ y ∧
    transport_ y0 = transport_ y ∧ node_info_ y0 = node_info_ y) as Hback.
  { intros x y Hy. cbn in Hy. apply lookup_insert_Some in Hy as [[<- <-]|[_ Hy]]; eauto. }
  split_and!.
  - destruct Hok as [Ha Ht]. split.
    + intros id x Hx. cbn. apply lookup_insert_is_Some'. right. by apply (Ha id).
    + intros x y Hy Hst. destruct (Hback x y Hy) as (y0 & Hy0 & Hst0 & <- & _). apply (Ht x y0 Hy0). by rewrite Hst0.
  - intros e y He Hy. destruct (Hback e.2 y Hy) as (y0 & Hy0 & _ & _ & <-). by apply (Hself e y0).
  - cbn. by apply map_Forall_insert_2.
  - apply lookup_insert_eq.
Qed.

(** Handling ends, with the session as it was before the message. *)
Definition handled w (s : PeerSession) (conn : Z) (t : Trace) (n : nat) (ib : InfoBase) : World :=
  set_rand_calls n (set_trace t (set_info_base ib
    (set_rx_contexts (λ rxs, <[(conn, control_stream_id_ s) :=
      mkRx [] (rx_any (default (mkRx [] any_empty) (rxs !! (conn, control_stream_id_ s))))]> rxs) w))).

Lemma handled_drained w s conn t n ib : drained w → drained (handled w s conn t n ib).
Proof. intros Hdr. cbn. by apply map_Forall_insert_2. Qed.

Lemma restore_session w r s s' t n ib :
  sessions w !! r = Some s →
  w_set_session r s (set_rand_calls n (set_trace t (set_info_base ib (set_sessions <[r := s']> w)))) =
  set_rand_calls n (set_trace t (set_info_base ib w)).
Proof.
  intros Hs. destruct w. cbn in Hs |- *. unfold set_sessions, set_rand_calls, set_trace, set_info_base. cbn.
  by rewrite insert_insert_eq, insert_id.
Qed.

Lemma process_ok w r s conn m t n ib :
  relay_idle w → sessions w !! r = Some s →
  handle r m (handling w r s conn m) =
    (Ok tt, set_rand_calls n (set_trace t (set_info_base ib (handling w r s conn m)))) →
  process r m (handling w r s conn m) = (Ok tt, handled w s conn t n ib).
Proof.
  intros Hw Hs Hrun. unfold process, try_catch. unfold mbind at 1, st_bind at 1. rewrite Hrun.
  rewrite (on_session_modify r _ (set_buffer (λ _, cm_bytes m) s)) by apply lookup_insert_eq.
  assert (set_buffer (drop (length (cm_bytes m))) (set_buffer (λ _, cm_bytes m) s) = s) as ->.
  { pose proof (ready_buffers w Hw r s Hs) as Hbuf. destruct s. unfold set_buffer. cbn in Hbuf |- *. by rewrite drop_all, Hbuf. }
  f_equal. exact (restore_session (set_rx_contexts _ w) r s _ t n ib Hs).
Qed.

Section subscription.
Context (si0 : SubscribeInfo) (fields : Z * TrackNamespace * list Z * Parameters) (priority : Z) (ngr : option Z).

(** A relay at rest where no client publishes the track or has announced a
    namespace that matches it. *)
Record relay_ready w : Prop := {
  ready_idle : relay_idle w;
  ready_unpublished : announce_matches (si_hash si0) fields.1.1.2 (state_ w) = false;
}.

Lemma ready_same w w' : relay_ready w → view w' = view w → drained w' → mutex_ (info_base_ w') = false → relay_ready w'.
Proof.
  intros [Hidle Hun] Hview Hdr Hi. split; [by apply (idle_same w)|].
  injection Hview as _ _ _ _ -> _ _. done.
Qed.

(** ** One message *)

Context (Hmax : 1 ≤ kReadLoopMaxPerStream) (Hvalid : cm_valid (cm_subscribe si0 false)).
Context (Hparse : ParseSubscribe (si_subscribe_data si0) = Ok fields).
Context (Hprio : GetPriority fields.2 = Ok priority) (Hngr : GetNewGroup fields.2 = Ok ngr).

Abbreviation numbered q := (with_seq q si0).
Definition message (q : Z) : list Z := subscribe_bytes false (numbered q).
Definition own w : bool := bool_decide (ni_id (pm_node_info_ w) = si_source_node_id si0).

Lemma numbered_valid q : in_range 16 q → cm_valid (cm_subscribe (numbered q) false).
Proof.
  intros Hq. destruct Hvalid as [(_ & Hwf) Hlen]. assert (SubscribeInfo_wf (numbered q)) as Hm by by split.
  split; [done|]. revert Hlen. rewrite !cm_bytes_length. cbn [cm_body].
  rewrite !Nat2Z.inj_add, !(codec_size (M := SubscribeInfo)) by (done || by destruct Hvalid). done.
Qed.

Lemma message_bytes q : in_range 16 q → message q = cm_bytes (cm_subscribe (numbered q) false).
Proof.
  intros Hq. destruct (numbered_valid q Hq) as [Hwf _]. destruct cm_bytes_sent as (_ & _ & _ & _ & Hsi & _).
  exact (Hsi (numbered q) false false Hwf).
Qed.

(** The session a message arrives at does not hear of it again. *)
Lemma recipients_buffer w r s s' conn :
  (∀ e s, e ∈ all_sessions w → sessions w !! e.2 = Some s → t_conn_id_ s = e.1) →
  sessions w !! r = Some s → t_conn_id_ s = conn →
  recipients (set_sessions <[r := s']> w) (Some conn) = recipients w (Some conn).
Proof.
  intros Hkey Hs Hconn. unfold recipients. change (all_sessions (set_sessions _ w)) with (all_sessions w).
  assert (∀ l : list (Z * SessRef), (∀ e, e ∈ l → e ∈ all_sessions w) →
    omap (recipient (set_sessions <[r := s']> w) (Some conn)) l = omap (recipient w (Some conn)) l) as Hl; [|by apply Hl].
  induction l as [|e l IH]; intros Hin; csimpl; [done|]. rewrite IH by (intros x Hx; apply Hin; by right).
  replace (recipient (set_sessions <[r := s']> w) (Some conn) e) with (recipient w (Some conn) e); [done|].
  unfold recipient. case_decide as He; [done|]. cbn [sessions set_sessions].
  rewrite lookup_insert_ne; [done|]. intros Hr. apply He. rewrite <- Hconn, (Hkey e s); [done|apply Hin; left|by rewrite <- Hr].
Qed.

(** What a message does at a relay at rest. *)
Lemma arrive_ok w conn q m :
  relay_ready w → is_Some (peer_at w conn) → in_range 16 q → subs_rel (info_base_ w) m →
  ∃ w', arrive conn (message q) w = (Ok tt, w') ∧ view w' = view w ∧ drained w' ∧ mutex_ (info_base_ w') = false ∧
    subs_rel (info_base_ w') (record_subscribe m (numbered q)) ∧
    trace w' = trace w ++ (if subscribe_news m (numbered q)
                           then subscribe_calls (recipients w (Some conn)) (own w) (numbered q) false else []).
Proof.
  intros [Hidle Hquiet] [r Hp] Hq Hrel. pose proof Hidle as [Hok Hun Hself Hkey Hdis Hbuf Hdr].
  destruct (all_sessions_alive w _ Hok (peer_at_listed _ _ _ Hp)) as [s Hs]. cbn in Hs.
  assert (t_conn_id_ s = conn) as Hconn by (by apply (Hkey (conn, r) s (peer_at_listed _ _ _ Hp))).
  set (msg := cm_subscribe (numbered q) false). set (w2 := handling w r s conn msg).
  destruct (handling_view w r s conn msg Hidle Hs) as (Hok2 & Hself2 & _ & Hs2).
  destruct (subscribe_received_runs w2 m conn (numbered q) fields ngr priority) as (ib & Hrel' & Hm' & Hrun);
    [done|done|done|done|by exists r|done|done|done|done|done|].
  eexists. split.
  - rewrite message_bytes by done. fold msg.
    rewrite (arrive_process w conn r s msg Hmax Hidle Hp Hs) by by apply numbered_valid.
    apply process_ok with (n := S (rand_calls w)) (ib := ib); [done|done|].
    unfold handle. rewrite (bind_ok _ _ _ _ _ (world_session_ok w2 r _ Hs2)). cbn -[SubscribeInfoReceived].
    rewrite Hconn. exact Hrun.
  - split_and!; [done|by apply handled_drained|done|done|]. cbn.
    assert (recipients w2 (Some conn) = recipients w (Some conn)) as Hrec; [|by rewrite <- Hrec].
    exact (recipients_buffer (set_rx_contexts _ w) r s _ conn Hkey Hs Hconn).
Qed.

(** The number of the subscription a relay holds. *)
Definition held w : option Z :=
  si_seq <$> (subscribes_ (info_base_ w) !! si_hash si0 ≫= (.!! si_source_node_id si0)).

Lemma held_rel w m : subs_rel (info_base_ w) m → held w = si_seq <$> m !! sub_key si0.
Proof. intros [Hm _]. unfold held, sub_key. by rewrite Hm. Qed.

Lemma news_held w m q : subs_rel (info_base_ w) m → subscribe_news m (numbered q) = bool_decide (held w ≠ Some q).
Proof.
  intros Hrel. rewrite (held_rel w m Hrel). unfold subscribe_news. change (sub_key (numbered q)) with (sub_key si0).
  destruct (m !! sub_key si0) as [old|]; cbn; [|by rewrite bool_decide_eq_true_2].
  apply bool_decide_ext. split; [by intros ? [= ?]|congruence].
Qed.

Lemma held_recorded w w' m q :
  subs_rel (info_base_ w) m → subs_rel (info_base_ w') (record_subscribe m (numbered q)) → held w' = Some q.
Proof.
  intros Hrel Hrel'. rewrite (held_rel w' _ Hrel'). unfold record_subscribe. rewrite (news_held w m q Hrel).
  change (sub_key (numbered q)) with (sub_key si0). case_bool_decide as Hq; [by rewrite lookup_insert_eq|].
  rewrite <- (held_rel w m Hrel). destruct (decide (held w = Some q)) as [Heq|Hne]; [done|by destruct Hq].
Qed.

Lemma elem_of_recipients w skip s :
  s ∈ recipients w skip → ∃ e, e ∈ all_sessions w ∧ sessions w !! e.2 = Some s.
Proof.
  unfold recipients. intros (e & He & Hs)%list_elem_of_omap. exists e. split; [done|]. unfold recipient in Hs.
  case_decide; [done|]. destruct (sessions w !! e.2) as [s'|]; [|done]. cbn in Hs. by case_decide; simplify_eq.
Qed.

Lemma recipients_ports w c : relay_idle w → t_conn_id_ <$> recipients w (Some c) = filter (.≠ c) (ports_of w).
Proof.
  intros Hw. unfold recipients, ports_of. pose proof (ready_keyed w Hw) as Hkey. revert Hkey.
  induction (all_sessions w) as [|e l IH]; intros Hkey; csimpl; [done|].
  assert (∀ e' s, e' ∈ l → sessions w !! e'.2 = Some s → t_conn_id_ s = e'.1) as Hkey' by (intros e' s He'; apply Hkey; by right).
  specialize (IH Hkey'). unfold recipient at 1. destruct (sessions w !! e.2) as [s|] eqn:Hs; cbn.
  - pose proof (Hkey e s ltac:(left) Hs) as He. case_decide as Hskip.
    + injection Hskip as <-. case_decide; [|done]. rewrite filter_cons_False by (intros Hn; by apply Hn). done.
    + case_decide; [|done]. rewrite filter_cons_True by congruence. csimpl. by rewrite He, IH.
  - by case_decide.
Qed.

(** ** A mesh and the flood it implements *)

Context (ports : Z → list Z) (origin : Z → bool).
Abbreviation wire := (λ p, wires !! p).

Definition packet_of (n : Note) : Packet := mkPacket (n_at n) (message (n_seq n)).

(** The state of one relay agrees with the flood. *)
Record relay_agrees (f : Flood) (i : Z) w : Prop := {
  ag_ready : relay_ready w;
  ag_subs : ∃ m, subs_rel (info_base_ w) m;
  ag_held : held w = seqs f !! i;
  ag_ports : ports_of w = ports i;
  ag_own : own w = origin i;
}.

Record implements ms (f : Flood) : Prop := {
  im_relay i w : relays ms !! i = Some w → relay_agrees f i w;
  im_wire p e : wires !! p = Some e → port_in ms e;
  im_flight : in_flight ms = packet_of <$> notes f;
  im_notes n : n ∈ notes f → in_range 16 (n_seq n) ∧ port_in ms (n_at n);
}.

(** What a relay that agrees sends on is what the flood forwards. *)
Lemma forward_packets f i w w' c q :
  relay_agrees f i w → view w' = view w →
  omap (arriving i w') (subscribe_calls (recipients w (Some c)) (own w) (numbered q) false) =
  packet_of <$> forward ports wire origin (i, c) q.
Proof.
  intros [[Hw _] _ _ Hports Hown] Hview. unfold forward, subscribe_calls. cbn [fst snd].
  rewrite <- Hports, <- (recipients_ports w c Hw), imap_fmap. apply omap_imap. intros j s Hs.
  apply elem_of_recipients in Hs as (e & He & Hs). rewrite (arriving_view i w w' _ Hview).
  rewrite (arriving_control i w e s _ Hw He Hs). unfold note_at. cbn [compose]. rewrite <- Hown.
  destruct (wires !! (i, t_conn_id_ s)) as [p|]; [|done]. cbn. unfold packet_of. cbn [n_at n_seq].
  unfold message, subscribe_bytes. do 4 f_equal. unfold sent_si, renumbered. by destruct (own w).
Qed.

(** A message arrives at a relay that agrees. *)
Lemma arrive_agrees f i w c q :
  relay_agrees f i w → is_Some (peer_at w c) → in_range 16 q →
  ∃ w', arrive c (message q) w = (Ok tt, w') ∧ view w' = view w ∧ relay_ready w' ∧ (∃ m, subs_rel (info_base_ w') m) ∧
    held w' = Some q ∧
    omap (arriving i w') (drop (length (trace w)) (trace w')) =
      packet_of <$> (if decide (seqs f !! i = Some q) then [] else forward ports wire origin (i, c) q).
Proof.
  intros Hag Hp Hq. pose proof Hag as [Hw [m Hm] Hheld _ _].
  destruct (arrive_ok w c q m Hw Hp Hq Hm) as (w' & Hrun & Hview & Hdr & Hmu & Hm' & Htrace).
  exists w'. split; [done|]. split; [done|]. split; [by apply (ready_same w)|]. split; [by eexists|].
  split; [by apply (held_recorded w w' m)|].
  rewrite Htrace, drop_app_length, (news_held w m q Hm), Hheld.
  case_decide as Hs; [by rewrite bool_decide_eq_false_2 by (by intros [])|].
  rewrite bool_decide_eq_true_2 by done. by apply (forward_packets f).
Qed.

Lemma view_own w w' : view w' = view w → own w' = own w.
Proof. intros [= _ _ _ En _ _ _]. unfold own. by rewrite En. Qed.

Lemma forward_good ms f p q n :
  implements ms f → in_range 16 q → n ∈ forward ports wire origin p q → in_range 16 (n_seq n) ∧ port_in ms (n_at n).
Proof.
  intros Him Hq (k & c & e & _ & He & ->)%elem_of_forward. cbn. split; [|by apply (im_wire ms f Him (p.1, c))].
  unfold renumbered. destruct (origin p.1); [apply wrap_range; lia|done].
Qed.

(** The mesh after relay [i] took a note. *)
Lemma implements_update ms f i w w' q rest added :
  implements ms f → relays ms !! i = Some w → view w' = view w → relay_ready w' → (∃ m, subs_rel (info_base_ w') m) →
  held w' = Some q → (∀ n, n ∈ rest → n ∈ notes f) → (∀ n, n ∈ added → in_range 16 (n_seq n) ∧ port_in ms (n_at n)) →
  implements (mkMesh (<[i := w']> (relays ms)) (packet_of <$> rest ++ added)) (mkFlood (<[i := q]> (seqs f)) (rest ++ added)).
Proof.
  intros Him Hi Hview Hready Hm Hheld Hrest Hadded. pose proof (im_relay ms f Him i w Hi) as [_ _ _ Hports Hown].
  split; cbn [relays in_flight notes seqs].
  - intros j v Hj. apply lookup_insert_Some in Hj as [[<- <-]|[Hne Hj]].
    + split; cbn; [done|done|by rewrite lookup_insert_eq|by rewrite (view_ports w)|by rewrite (view_own w)].
    + destruct (im_relay ms f Him j v Hj) as [????]. split; cbn; try done. by rewrite lookup_insert_ne.
  - intros p e He. apply (port_in_update ms w); [done..|]. by apply (im_wire ms f Him p).
  - done.
  - intros n Hn. assert (in_range 16 (n_seq n) ∧ port_in ms (n_at n)) as [Hq Hp].
    { apply elem_of_app in Hn as [Hn|Hn]; [by apply (im_notes ms f Him), Hrest|by apply Hadded]. }
    split; [done|]. by apply (port_in_update ms w).
Qed.

Lemma deliver_implements ms f k :
  implements ms f →
  match take_note ports wire origin k f with
  | Some f' => ∃ ms', deliver k ms = Some ms' ∧ implements ms' f'
  | None => deliver k ms = None
  end.
Proof.
  intros Him. unfold take_note, deliver. rewrite (im_flight ms f Him), list_lookup_fmap.
  destruct (notes f !! k) as [n|] eqn:Hn; [|done]. cbn [mbind option_bind fmap option_map option_fmap].
  destruct (im_notes ms f Him n) as (Hq & w & Hw & Hp); [by eapply list_elem_of_lookup_2|].
  pose proof (im_relay ms f Him _ w Hw) as Hag.
  destruct (arrive_agrees f _ w (n_at n).2 (n_seq n) Hag Hp Hq) as (w' & Hrun & Hview & Hready & Hm & Hheld & Hcalls).
  change (p_at (packet_of n)) with (n_at n). change (p_bytes (packet_of n)) with (message (n_seq n)).
  unfold at_relay. cbn [relays in_flight]. rewrite Hw. cbn [mbind option_bind]. rewrite Hrun, Hcalls. eexists. split; [reflexivity|].
  assert (delete k (packet_of <$> notes f) = packet_of <$> delete k (notes f)) as -> by (symmetry; apply list_fmap_delete).
  rewrite <- fmap_app. rewrite <- surjective_pairing.
  set (added := if decide _ then [] else _) in *.
  assert (implements (mkMesh (<[(n_at n).1 := w']> (relays ms)) (packet_of <$> delete k (notes f) ++ added))
    (mkFlood (<[(n_at n).1 := n_seq n]> (seqs f)) (delete k (notes f) ++ added))) as Hgoal.
  { apply (implements_update ms f _ w); try done.
    - intros x. apply list_elem_of_delete_inv.
    - intros x Hx. subst added. case_decide; [by apply not_elem_of_nil in Hx|].
      by apply (forward_good ms f ((n_at n).1, (n_at n).2) (n_seq n)). }
  subst added. case_decide as Hs.
  - rewrite (insert_id (seqs f)) in Hgoal by done. rewrite decide_True by done. by rewrite app_nil_r in Hgoal |- *.
  - rewrite decide_False by done. by destruct (n_at n).
Qed.

(** The same for a subscription of the relay's own, sent to every neighbour. *)
Lemma recipients_all w : relay_idle w → t_conn_id_ <$> recipients w None = ports_of w.
Proof.
  intros Hw. unfold recipients, ports_of. pose proof (ready_keyed w Hw) as Hkey. revert Hkey.
  induction (all_sessions w) as [|e l IH]; intros Hkey; csimpl; [done|].
  assert (∀ e' s, e' ∈ l → sessions w !! e'.2 = Some s → t_conn_id_ s = e'.1) as Hkey' by (intros e' s He'; apply Hkey; by right).
  specialize (IH Hkey'). unfold recipient at 1. rewrite decide_False by done.
  destruct (sessions w !! e.2) as [s|] eqn:Hs; cbn; [|done].
  case_decide; [|done]. csimpl. by rewrite (Hkey e s ltac:(left) Hs), IH.
Qed.

Lemma client_packets w w' i :
  relay_idle w → view w' = view w →
  omap (arriving i w') (imap (λ k s, control_call s (message (u16 (Z.of_nat k + 1)))) (recipients w None)) =
  packet_of <$> omap id (imap (λ k c, (λ e, mkNote e (u16 (Z.of_nat k + 1))) <$> wires !! (i, c)) (ports_of w)).
Proof.
  intros Hw Hview. rewrite <- (recipients_all w Hw), imap_fmap. apply omap_imap. intros j s Hs.
  apply elem_of_recipients in Hs as (e & He & Hs). rewrite (arriving_view i w w' _ Hview).
  rewrite (arriving_control i w e s _ Hw He Hs). cbn [compose]. by destruct (wires !! (i, t_conn_id_ s)).
Qed.
End subscription.
End mesh.
