(* ===== verification/MeshFlood.v ===== *)
(** * Subscriptions in a mesh of relays

    A subscription that enters a mesh from outside reaches every relay after
    finitely many deliveries; one of a client of a relay in a ring goes round
    for ever. *)

From stdpp Require Import relations.
From S2P Require Import Prelude Common Quicr State NodeInfo DataHeader SubscribeInfo SubscribeNodeSet AnnounceInfo InfoBase InfoBaseTables Transport PeerSession PeerSessionEvents PeerSessionControl PeerWorld PeerManager PeerForwarding PeerEvents PeerFlooding Flood Mesh.

Section mesh.
Context `{UintVarLaws, TrackNamesLaws, Transport, !SubscribeMessages, Rand} {C : Type} `{!ClientManagerI C}.
Context (wires : gmap Port Port).
Abbreviation World := (World C).
Abbreviation Mesh := (Mesh C).
Implicit Types w : World.
Implicit Types ms : Mesh.
Context (si0 : SubscribeInfo) (fields : Z * TrackNamespace * list Z * Parameters) (priority : Z) (ngr : option Z).
Context (Hmax : 1 ≤ kReadLoopMaxPerStream) (Hvalid : cm_valid (cm_subscribe si0 false)).
Context (Hparse : ParseSubscribe (si_subscribe_data si0) = Ok fields).
Context (Hprio : GetPriority fields.2 = Ok priority) (Hngr : GetNewGroup fields.2 = Ok ngr).

Abbreviation wire := (λ p, wires !! p).
Abbreviation held := (held si0).
Abbreviation own := (own si0).

(** ** Runs *)

Lemma deliver_steps ms f ports origin :
  implements wires si0 fields ports origin ms f →
  (∀ f', takes ports wire origin f f' → ∃ ms', delivers wires ms ms' ∧ implements wires si0 fields ports origin ms' f') ∧
  (∀ ms', delivers wires ms ms' → ∃ f', takes ports wire origin f f' ∧ implements wires si0 fields ports origin ms' f').
Proof using All.
  intros Him. pose proof (λ k, deliver_implements wires si0 fields priority ngr Hmax Hvalid Hparse Hprio Hngr ports origin ms f k Him)
    as Hstep.
  split.
  - intros f' [k Hk]. specialize (Hstep k). rewrite Hk in Hstep. destruct Hstep as (ms' & Hd & Him'). exists ms'. by split; [exists k|].
  - intros ms' [k Hk]. specialize (Hstep k). destruct (take_note ports wire origin k f) as [f'|] eqn:Ht.
    + destruct Hstep as (ms1 & Hd & Him'). rewrite Hk in Hd. injection Hd as <-. exists f'. by split; [exists k|].
    + by rewrite Hk in Hstep.
Qed.

Lemma run_takes n ms f ports origin f' :
  implements wires si0 fields ports origin ms f → nsteps (takes ports wire origin) n f f' →
  ∃ ms', nsteps (delivers wires) n ms ms' ∧ implements wires si0 fields ports origin ms' f'.
Proof using All.
  intros Him Hn. revert ms Him. induction Hn as [f|n f f1 f' Hf _ IH]; intros ms Him; [exists ms; split; [constructor|done]|].
  destruct (proj1 (deliver_steps ms f ports origin Him) f1 Hf) as (ms1 & Hd & Him1).
  destruct (IH ms1 Him1) as (ms' & Hn' & Him'). exists ms'. split; [by econstructor|done].
Qed.

Lemma run_delivers n ms f ports origin ms' :
  implements wires si0 fields ports origin ms f → nsteps (delivers wires) n ms ms' →
  ∃ f', nsteps (takes ports wire origin) n f f' ∧ implements wires si0 fields ports origin ms' f'.
Proof using All.
  intros Him Hn. revert f Him. induction Hn as [ms|n ms ms1 ms' Hd _ IH]; intros f Him; [exists f; split; [constructor|done]|].
  destruct (proj2 (deliver_steps ms f ports origin Him) ms1 Hd) as (f1 & Ht & Him1).
  destruct (IH f1 Him1) as (f' & Hn' & Him'). exists f'. split; [by econstructor|done].
Qed.

Lemma run_oldest n ms f ports origin f' :
  implements wires si0 fields ports origin ms f → fifo ports wire origin n f = Some f' →
  ∃ ms', deliver_oldest wires n ms = Some ms' ∧ implements wires si0 fields ports origin ms' f'.
Proof using All.
  revert ms f. induction n as [|n IH]; intros ms f Him Hf; cbn in Hf; [injection Hf as <-; by exists ms|].
  pose proof (deliver_implements wires si0 fields priority ngr Hmax Hvalid Hparse Hprio Hngr ports origin ms f 0 Him) as Hstep.
  destruct (take_note ports wire origin 0 f) as [f1|]; [|done]. destruct Hstep as (ms1 & Hd & Him1).
  cbn [deliver_oldest]. rewrite Hd. by apply (IH ms1 f1).
Qed.

(** ** A mesh at rest *)

Record mesh_ready ms : Prop := {
  mr_relay i w : relays ms !! i = Some w → relay_ready si0 fields w ∧ ∃ m, subs_rel (info_base_ w) m;
  mr_wire p e : wires !! p = Some e → port_in ms e;
  mr_quiet : in_flight ms = [];
}.

Definition own_in ms (i : Z) : bool := default false (own <$> relays ms !! i).
Definition seqs_in ms : gmap Z Z := omap held (relays ms).

Lemma ready_implements ms ns :
  mesh_ready ms → (∀ n, n ∈ ns → in_range 16 (n_seq n) ∧ port_in ms (n_at n)) →
  implements wires si0 fields (ports_in ms) (own_in ms) (mkMesh (relays ms) (packet_of si0 <$> ns)) (mkFlood (seqs_in ms) ns).
Proof.
  intros [Hrelay Hwire _] Hns. split; cbn; try done.
  intros i w Hi. destruct (Hrelay i w Hi) as [Hr Hm].
  split; cbn; [done|done|by unfold seqs_in; rewrite lookup_omap, Hi|by unfold ports_in; rewrite Hi|by unfold own_in; rewrite Hi].
Qed.

(** How many messages the relays of a mesh send at most. *)
Definition ports_total ms : nat := sum_list_with (λ e : Z * World, length (ports_of e.2)) (map_to_list (relays ms)).
Definition connected ms : relation Z := rtc (linked (ports_in ms) wire).

Lemma work_bound ms q ns :
  (work (ports_in ms) (relay_list ms) q (mkFlood (seqs_in ms) ns) ≤ length ns + ports_total ms)%nat.
Proof.
  unfold work, ports_total, relay_list. cbn [notes]. apply Nat.add_le_mono_l.
  assert (∀ e, e ∈ map_to_list (relays ms) → ports_in ms e.1 = ports_of e.2) as Hports.
  { intros [i w] Hi%elem_of_map_to_list. unfold ports_in. cbn. by rewrite Hi. }
  induction (map_to_list (relays ms)) as [|e l IH]; [done|]. cbn. rewrite <- (Hports e) by by left.
  apply Nat.add_le_mono; [|apply IH; intros; apply Hports; by right].
  unfold left_to_send. case_decide; lia.
Qed.

(** C2: in a mesh at rest, where no client of any relay publishes the track or
    has announced a namespace that matches it (a relay with such a client would
    also subscribe to the publisher and advertise the subscriber's node), a
    well-formed subscription that comes from outside, from none of the relays and
    with a number none of them holds, reaches every relay connected to the one it
    enters at, whatever the links between them and in whatever order the messages
    arrive: each relay passes it on once, so that there are at most as many
    deliveries as the relays have connections (one between two relays counts for
    both), and one; no delivery fails; and when nothing is in
    flight any more, all of them have recorded it. *)
Theorem subscription_reaches_everyone ms i c q w :
  mesh_ready ms → (∀ p e, wires !! p = Some e → wires !! e = Some p) →
  (∀ j v, relays ms !! j = Some v → own v = false ∧ held v ≠ Some q) →
  relays ms !! i = Some w → is_Some (peer_at w c) → wires !! (i, c) = None → in_range 16 q →
  let start := mkMesh (relays ms) [mkPacket (i, c) (message si0 q)] in
  ∀ n ms', nsteps (delivers wires) n start ms' →
    (n ≤ 1 + ports_total ms)%nat ∧
    (in_flight ms' ≠ [] → ∃ ms'', deliver wires 0 ms' = Some ms'') ∧
    (in_flight ms' = [] → ∀ j v, connected ms i j → relays ms' !! j = Some v → held v = Some q).
Proof using All.
  intros Hready Hsym Hnew Hi Hp Hout Hq start n ms' Hn.
  set (ports := ports_in ms). set (origin := own_in ms). set (n0 := mkNote (i, c) q).
  set (f := mkFlood (seqs_in ms) [n0]).
  assert (implements wires si0 fields ports origin start f) as Him.
  { apply (ready_implements ms [n0] Hready). intros x ->%list_elem_of_singleton. split; [done|]. by exists w. }
  destruct (run_delivers n start f ports origin ms' Him Hn) as (f' & Hf & Him').
  assert (NoDup (relay_list ms)) as Hnodup by apply NoDup_fst_map_to_list.
  assert (∀ p e, wire p = Some e → e.1 ∈ relay_list ms) as Hwire.
  { intros p e He. destruct (mr_wire ms Hready p e He) as (v & Hv & _). apply elem_of_relay_list. by exists v. }
  assert (∀ j, j ∈ relay_list ms → origin j = false) as Hforeign.
  { intros j [v Hv]%elem_of_relay_list. unfold origin, own_in. rewrite Hv. by apply (Hnew j). }
  assert (of_one (relay_list ms) q f) as Hone.
  { intros x ->%list_elem_of_singleton. split; [done|]. apply elem_of_relay_list. by exists w. }
  destruct (nsteps_work ports wire origin (relay_list ms) q Hnodup Hwire Hforeign n f f' Hone Hf) as [_ Hwork].
  pose proof (work_bound ms q [n0]) as Hbound. change (length [n0]) with 1%nat in Hbound. fold ports f in Hbound.
  split_and!; [lia| |].
  - intros Hne. pose proof (deliver_implements wires si0 fields priority ngr Hmax Hvalid Hparse Hprio Hngr ports origin ms' f' 0 Him')
      as Hstep. rewrite (im_flight _ _ _ _ _ _ _ Him') in Hne. unfold take_note in Hstep.
    destruct (notes f') as [|x ns]; [done|]. cbn in Hstep. destruct Hstep as (ms'' & Hd & _). by exists ms''.
  - intros Hend j v Hij Hv. rewrite (im_flight _ _ _ _ _ _ _ Him') in Hend. apply fmap_nil_inv in Hend.
    assert (informed q f' j) as Hj.
    { apply (flood_reaches ports wire origin (relay_list ms) q Hwire Hforeign Hsym f f' i j); [done| | |done| |done].
      - split.
        + intros x e ->%list_elem_of_singleton He. cbn in He. by rewrite Hout in He.
        + intros x y Hx. unfold informed, f, seqs_in in Hx. cbn in Hx. rewrite lookup_omap in Hx.
          destruct (relays ms !! x) as [v'|] eqn:Hv'; [|done]. by destruct (Hnew x v' Hv').
      - by eapply rtc_nsteps_2.
      - right. exists n0. split; [by left|done]. }
    rewrite (ag_held _ _ _ _ _ _ _ (im_relay _ _ _ _ _ _ _ Him' j v Hv)). exact Hj.
Qed.

(** [n] packets are delivered, in whatever order. *)
Definition delivered (n : nat) (ms ms' : Mesh) : Prop := nsteps (delivers wires) n ms ms'.

(** C4: a mesh of relays, none of which has a client that publishes the track or
    has announced a namespace that matches it (part of [implements]), refines the
    flood of a subscription, step by step and in both directions: whichever of its
    messages arrives, in whatever order, a relay records the subscription when its
    number is another one than the relay holds, and then sends it to every other
    connected neighbour, and sends nothing otherwise; and every run of the flood
    is one of the mesh.  (With such a client a relay also subscribes to the
    publisher and advertises the subscriber's node, which this does not cover.) *)
Theorem mesh_refines_flood ports origin ms f n :
  implements wires si0 fields ports origin ms f →
  (∀ ms', delivered n ms ms' →
     ∃ f', nsteps (takes ports wire origin) n f f' ∧ implements wires si0 fields ports origin ms' f') ∧
  (∀ f', nsteps (takes ports wire origin) n f f' →
     ∃ ms', delivered n ms ms' ∧ implements wires si0 fields ports origin ms' f').
Proof using All. intros Him. split; intros x Hx; [by apply (run_delivers n ms)|by apply (run_takes n ms f)]. Qed.

(** ** The subscription of a client *)

(** One message per connection, numbered from one up. *)
Definition own_notes (a : Z) (conns : list Z) : list Note :=
  omap id (imap (λ k c, (λ e, mkNote e (u16 (Z.of_nat k + 1))) <$> wires !! (a, c)) conns).

Lemma client_subscribe_implements ms a wa tfn :
  si0 = mkSubscribeInfo 0 (ni_id (pm_node_info_ wa)) (track_hash tfn.1 tfn.2) (si_subscribe_data si0) →
  si_subscribe_data si0 ≠ [] → mesh_ready ms → relays ms !! a = Some wa →
  ∃ ms0, at_relay wires a (ClientSubscribe tfn (si_subscribe_data si0)) ms = Some ms0 ∧
    implements wires si0 fields (ports_in ms) (own_in ms) ms0
      (mkFlood (<[a := 0]> (seqs_in ms)) (own_notes a (ports_of wa))).
Proof using All.
  intros Hsi Hdata Hready Ha. destruct (mr_relay ms Hready a wa Ha) as [Hra [m Hm]]. pose proof (ready_idle _ _ _ Hra) as Hia.
  destruct (client_subscribe_numbers wa m tfn (si_subscribe_data si0) (ready_ok _ Hia) (ready_unlocked _ Hia)
    (ready_self _ Hia) Hm Hdata) as (ib & Hm' & Hib & Hrun).
  rewrite <- Hsi in Hm', Hrun. set (w' := set_trace _ _) in Hrun.
  assert (view w' = view wa) as Hview by done.
  assert (relay_ready si0 fields w') as Hrw by (apply (ready_same _ _ wa); [done|done|apply (ready_drained _ Hia)|done]).
  assert (with_seq 0 si0 = si0) as Hzero by (by rewrite Hsi).
  assert (held w' = Some 0) as Hheld by (apply (held_recorded si0 wa w' m 0 Hm); by rewrite Hzero).
  set (f0 := mkFlood (seqs_in ms) []).
  assert (implements wires si0 fields (ports_in ms) (own_in ms) (mkMesh (relays ms) []) f0) as Him0
    by (apply (ready_implements ms []); [done|by intros ? ?%not_elem_of_nil]).
  assert (∀ n, n ∈ own_notes a (ports_of wa) → in_range 16 (n_seq n) ∧ port_in (mkMesh (relays ms) []) (n_at n)) as Hstart.
  { intros n (o & Ho & Hid)%list_elem_of_omap. apply elem_of_lookup_imap in Ho as (k & c & -> & _).
    apply fmap_Some in Hid as (e & He & ->). split; [apply wrap_range; lia|exact (mr_wire ms Hready _ _ He)]. }
  pose proof (implements_update wires si0 fields (ports_in ms) (own_in ms) (mkMesh (relays ms) []) f0 a wa w' 0 [] _
    Him0 Ha Hview Hrw (ex_intro _ _ Hm') Hheld (λ n Hn, Hn) Hstart) as Him. cbn [app relays] in Him.
  eexists. split; [|exact Him]. unfold at_relay. rewrite Ha. cbn [mbind option_bind]. rewrite Hrun.
  cbn [w' trace set_trace]. rewrite drop_app_length, (mr_quiet ms Hready). cbn [app].
  unfold own_notes. by rewrite <- (client_packets wires si0 wa w' a Hia Hview).
Qed.

(** ** Three relays in a ring *)

Section ring.
Context (a b c ab ac ba bc ca cb : Z).
Context (Hdistinct : a ≠ b ∧ a ≠ c ∧ b ≠ c) (Hports : ab ≠ ac ∧ ba ≠ bc ∧ ca ≠ cb).
Context (Hab : wires !! (a, ab) = Some (b, ba)) (Hba : wires !! (b, ba) = Some (a, ab)).
Context (Hac : wires !! (a, ac) = Some (c, ca)) (Hca : wires !! (c, ca) = Some (a, ac)).
Context (Hbc : wires !! (b, bc) = Some (c, cb)) (Hcb : wires !! (c, cb) = Some (b, bc)).

(** C3: when a client of a relay that forms a ring with two others
    subscribes, and no client of a relay publishes the track or has announced a
    matching namespace, the subscription goes round for ever: however many messages
    have been delivered, oldest first, there is one in flight.  The relay gives
    each neighbour a number of its own, the neighbours take a number that
    differs for news and pass it on, and the relay that started it does not
    recognise its own subscription, but numbers it anew. *)
Theorem ring_subscription_never_ends ms wa wb wc tfn :
  si0 = mkSubscribeInfo 0 (ni_id (pm_node_info_ wa)) (track_hash tfn.1 tfn.2) (si_subscribe_data si0) →
  si_subscribe_data si0 ≠ [] → mesh_ready ms →
  relays ms !! a = Some wa → relays ms !! b = Some wb → relays ms !! c = Some wc →
  ports_of wa = [ab; ac] → ports_of wb = [ba; bc] → ports_of wc = [ca; cb] →
  own wb = false → own wc = false → held wb = None → held wc = None →
  ∃ ms0, at_relay wires a (ClientSubscribe tfn (si_subscribe_data si0)) ms = Some ms0 ∧
    ∀ n, ∃ ms', deliver_oldest wires n ms0 = Some ms' ∧ in_flight ms' ≠ [].
Proof using All.
  intros Hsi Hdata Hready Ha Hb Hc Hpa Hpb Hpc Hob Hoc Hhb Hhc.
  destruct (client_subscribe_implements ms a wa tfn Hsi Hdata Hready Ha) as (ms0 & Hrun & Him).
  exists ms0. split; [exact Hrun|]. intros n.
  assert (∀ i w, relays ms !! i = Some w → ports_in ms i = ports_of w ∧ own_in ms i = own w ∧ seqs_in ms !! i = held w) as Hat.
  { intros i w Hi. unfold ports_in, own_in, seqs_in. by rewrite lookup_omap, Hi. }
  destruct (Hat a wa Ha) as (Hpa' & Hoa & _), (Hat b wb Hb) as (Hpb' & Hob' & Hsb), (Hat c wc Hc) as (Hpc' & Hoc' & Hsc).
  assert (own wa = true) as Howna by (unfold Mesh.own; rewrite Hsi; by apply bool_decide_eq_true_2).
  assert (own_notes a (ports_of wa) = [mkNote (b, ba) 1; mkNote (c, ca) 2]) as Hstart
    by (rewrite Hpa; unfold own_notes; cbn [imap compose omap list_omap]; by rewrite Hab, Hac).
  rewrite Hstart in Him.
  destruct (ring_never_ends (ports_in ms) wire (own_in ms) a b c ab ac ba bc ca cb Hdistinct Hports) with (m := seqs_in ms) (n := n)
    as (f & Hf & Hne); try congruence.
  destruct (run_oldest n _ _ _ _ f Him Hf) as (ms' & Hd & Him').
  exists ms'. split; [exact Hd|]. rewrite (im_flight _ _ _ _ _ _ _ Him'). by intros ?%fmap_nil_inv.
Qed.
End ring.
End mesh.

(** ** Witnesses *)

Import Quicr.Demo DemoTransport DemoRelay.

(** Node [id] with a session for each of the connections. *)
Definition mesh_session (id conn : Z) : PeerSession :=
  set_transport true (set_status kStatusConnected (set_remote (relay_node_of 99)
    (PeerSession_make (300, 7) true conn (relay_node_of id) (mkRemote [] 0)))).
Definition mesh_node (id : Z) (conns : list Z) : World nat :=
  mkWorld (list_to_map ((λ c, (c, mesh_session id c)) <$> conns)) ∅ [] InfoBase_empty
    (list_to_map ((λ c, (c, c)) <$> conns)) ∅ (relay_node_of id) false false true State_empty false 0 0%nat.

(** What [relay_ready] asks of a concrete relay, as a test. *)
Definition ready_test (si : SubscribeInfo) (ns : TrackNamespace) (w : World nat) : Prop :=
  map_Forall (λ _ r, is_Some (sessions w !! r)) (server_peer_sessions_ w) ∧
  client_peer_sessions_ w = ∅ ∧
  map_Forall (λ _ s, transport_ s = true ∧ ni_id (node_info_ s) = ni_id (pm_node_info_ w) ∧
    controL_msg_buffer_ s = []) (sessions w) ∧
  map_Forall (λ c r, t_conn_id_ <$> sessions w !! r = Some c) (server_peer_sessions_ w) ∧
  pm_mutex_ w = false ∧ mutex_ (info_base_ w) = false ∧ state_mutex w = false ∧ rx_contexts w = ∅ ∧
  announce_matches (si_hash si) ns (state_ w) = false.
#[global] Instance ready_test_dec si ns w : Decision (ready_test si ns w).
Proof. unfold ready_test. apply _. Defined.

Lemma ready_test_ok si fields w : ready_test si fields.1.1.2 w → relay_ready si fields w.
Proof.
  intros (Hserver & Hclient & Hsess & Hkey & Hpm & Hib & Hst & Hrx & Han).
  assert (∀ e, e ∈ all_sessions w → server_peer_sessions_ w !! e.1 = Some e.2) as Hall.
  { intros e [He|He]%elem_of_all_sessions; [by rewrite Hclient in He|done]. }
  split; [split; [split| | | | | |]|done].
  - intros c r [Hr|Hr]; [by apply (Hserver c)|by rewrite Hclient in Hr].
  - intros r s Hs _. by apply (Hsess r).
  - done.
  - intros e s _ Hs. by apply (Hsess e.2).
  - intros e s He%Hall Hs. apply Hkey in He. rewrite Hs in He. by injection He.
  - rewrite Hclient. apply map_disjoint_empty_l.
  - intros r s Hs. by apply (Hsess r).
  - intros key rx Hk. by rewrite Hrx in Hk.
Qed.

(** Relays 1, 2 and 3 in a ring; relay 1 has a third connection that leaves the
    mesh if [extra]. *)
Definition ring_wires : gmap Port Port :=
  {[(1, 12) := (2, 21); (2, 21) := (1, 12); (1, 13) := (3, 31); (3, 31) := (1, 13); (2, 23) := (3, 32); (3, 32) := (2, 23)]}.
Definition ring_relays (extra : list Z) : gmap Z (World nat) :=
  {[1 := mesh_node 71 ([12; 13] ++ extra); 2 := mesh_node 72 [21; 23]; 3 := mesh_node 73 [31; 32]]}.
Definition ring_mesh (extra : list Z) : Mesh nat := mkMesh (ring_relays extra) [].

(** The subscription of a client of node [source]. *)
Definition mesh_subscribe (source : Z) : SubscribeInfo :=
  mkSubscribeInfo 0 source (track_hash demo_name.1 demo_name.2) [1; 128; 255; 5].

Lemma mesh_subscribe_valid : cm_valid (cm_subscribe (mesh_subscribe 71) false) ∧ cm_valid (cm_subscribe (mesh_subscribe 99) false).
Proof. split; (split; [change (SubscribeInfo_wf (mesh_subscribe 71)) || change (SubscribeInfo_wf (mesh_subscribe 99)); decide_now|decide_now]). Qed.

Lemma ring_ready source extra :
  map_Forall (λ _ w, ready_test (mesh_subscribe source) [[5]] w ∧ size (subscribes_ (info_base_ w)) = 0%nat) (ring_relays extra) →
  map_Forall (λ _ e, is_Some (ring_relays extra !! e.1 ≫= λ w, peer_at w e.2)) ring_wires →
  mesh_ready ring_wires (mesh_subscribe source) demo_fields (ring_mesh extra).
Proof.
  intros Hrelays Hwires. split; [| |done].
  - intros i w Hi. destruct (Hrelays i w Hi) as [Ht Hib]. split; [by apply ready_test_ok|].
    exists ∅. apply map_size_empty_inv in Hib. split; [|apply map_Forall_empty]. intros h n. by rewrite Hib, !lookup_empty.
  - intros p e He. pose proof (Hwires p e He) as Hp. cbn in Hp. unfold port_in. cbn.
    destruct (ring_relays extra !! e.1) as [w|]; [by exists w|by destruct Hp].
Qed.

Lemma mesh_refines_flood_witness :
  ∃ f, ∀ n ms', nsteps (delivers ring_wires) n
      (mkMesh (ring_relays [14]) [mkPacket (1, 14) (message (mesh_subscribe 99) 5)]) ms' →
    ∃ f', nsteps (takes (ports_in (ring_mesh [14])) (λ p, ring_wires !! p) (own_in (mesh_subscribe 99) (ring_mesh [14]))) n f f' ∧
      in_flight ms' = packet_of (mesh_subscribe 99) <$> notes f'.
Proof.
  assert (mesh_ready ring_wires (mesh_subscribe 99) demo_fields (ring_mesh [14])) as Hready by (apply ring_ready; decide_now).
  assert (∀ n, n ∈ [mkNote (1, 14) 5] → in_range 16 (n_seq n) ∧ port_in (ring_mesh [14]) (n_at n)) as Hns.
  { intros n ->%list_elem_of_singleton. split; [decide_now|]. exists (mesh_node 71 [12; 13; 14]). split; [vm_refl|decide_now]. }
  eexists. intros n ms' Hn.
  destruct (mesh_refines_flood ring_wires (mesh_subscribe 99) demo_fields 128 None (ltac:(decide_now)) (proj2 mesh_subscribe_valid)
    eq_refl eq_refl eq_refl _ _ _ _ n (ready_implements ring_wires _ _ (ring_mesh [14]) _ Hready Hns)) as [Hdel _].
  destruct (Hdel ms' Hn) as (f' & Hf' & Him). exists f'. split; [exact Hf'|exact (im_flight _ _ _ _ _ _ _ Him)].
Defined.

Lemma oldest_steps `{TrackNames, UintVar, !SubscribeMessages, Transport, Rand} {C} `{!ClientManagerI C} wires n (ms ms' : Mesh C) :
  deliver_oldest wires n ms = Some ms' → nsteps (delivers wires) n ms ms'.
Proof.
  revert ms. induction n as [|n IH]; intros ms Hd; cbn in Hd; [injection Hd as <-; constructor|].
  destruct (deliver wires 0 ms) as [ms1|] eqn:Hfirst; [|done]. econstructor; [by exists 0%nat|]. by apply IH.
Qed.

(** Whether the mesh is quiet after [n] deliveries. *)
Definition quiet_after wires (n : nat) (ms : Mesh nat) : bool :=
  match deliver_oldest wires n ms with Some ms' => (length (in_flight ms') =? 0)%nat | None => false end.

Lemma quiet_after_steps wires n ms :
  quiet_after wires n ms = true → ∃ ms', nsteps (delivers wires) n ms ms' ∧ in_flight ms' = [].
Proof.
  unfold quiet_after. destruct (deliver_oldest wires n ms) as [ms'|] eqn:Hd; [|done]. intros Hq%Nat.eqb_eq.
  exists ms'. split; [by apply oldest_steps|by apply length_zero_iff_nil].
Qed.

(** A ring with one way in: after five deliveries it is quiet, and relay 3
    knows the subscription. *)
Lemma subscription_reaches_everyone_witness :
  ∃ ms', nsteps (delivers ring_wires) 5
      (mkMesh (ring_relays [14]) [mkPacket (1, 14) (message (mesh_subscribe 99) 5)]) ms' ∧
    in_flight ms' = [] ∧ ∀ v, relays ms' !! 3 = Some v → Mesh.held (mesh_subscribe 99) v = Some 5.
Proof.
  assert (mesh_ready ring_wires (mesh_subscribe 99) demo_fields (ring_mesh [14])) as Hready by (apply ring_ready; decide_now).
  assert (map_Forall (λ p e, ring_wires !! e = Some p) ring_wires) as Hsym by decide_now.
  assert (map_Forall (λ _ v, Mesh.own (mesh_subscribe 99) v = false ∧ Mesh.held (mesh_subscribe 99) v ≠ Some 5) (ring_relays [14]))
    as Hnew by decide_now.
  destruct (quiet_after_steps ring_wires 5 (mkMesh (ring_relays [14]) [mkPacket (1, 14) (message (mesh_subscribe 99) 5)])) as (ms' & Hn & Hq);
    [vm_refl|].
  exists ms'. split; [exact Hn|]. split; [exact Hq|]. intros v Hv.
  destruct (subscription_reaches_everyone ring_wires (mesh_subscribe 99) demo_fields 128 None (ltac:(decide_now))
    (proj2 mesh_subscribe_valid) eq_refl eq_refl eq_refl (ring_mesh [14]) 1 14 5 (mesh_node 71 [12; 13; 14]) Hready Hsym Hnew
    eq_refl (ltac:(decide_now)) eq_refl (ltac:(decide_now)) 5 ms' Hn) as (_ & _ & Hend).
  apply (Hend Hq 3 v); [|exact Hv].
  apply rtc_once. exists 13, 31. split; [decide_now|vm_refl].
Defined.

Lemma ring_subscription_never_ends_witness :
  ∃ ms0, at_relay ring_wires 1 (ClientSubscribe demo_name [1; 128; 255; 5]) (ring_mesh []) = Some ms0 ∧
    ∀ n, ∃ ms', deliver_oldest ring_wires n ms0 = Some ms' ∧ in_flight ms' ≠ [].
Proof.
  assert (mesh_ready ring_wires (mesh_subscribe 71) demo_fields (ring_mesh [])) as Hready by (apply ring_ready; decide_now).
  apply (ring_subscription_never_ends ring_wires (mesh_subscribe 71) demo_fields 128 None (ltac:(decide_now))
    (proj1 mesh_subscribe_valid) eq_refl eq_refl eq_refl 1 2 3 12 13 21 23 31 32 (ltac:(lia)) (ltac:(lia))
    eq_refl eq_refl eq_refl eq_refl eq_refl eq_refl (ring_mesh []) (mesh_node 71 [12; 13]) (mesh_node 72 [21; 23])
    (mesh_node 73 [31; 32]) demo_name); try exact Hready; try vm_refl; try decide_now.
Defined.
