(* ===== verification/NodeMesh.v ===== *)
(** * The withdrawal of a node in a mesh of relays

    Every relay passes every withdrawal on to all neighbours that are not on its
    path, whether it knew the node or not, so that it goes along every path
    without repetition. *)

From stdpp Require Import relations.
From Stdlib Require Import Factorial.
From S2P Require Import Prelude Common Quicr State NodeInfo DataHeader SubscribeInfo SubscribeNodeSet AnnounceInfo InfoBase InfoBaseNodes Transport PeerSession PeerSessionEvents PeerSessionControl PeerWorld PeerManager PeerForwarding PeerEvents PeerFlooding Flood Mesh PathFlood MeshFlood.

#[global] Instance Notice_eq_dec : EqDecision Notice.
Proof. solve_decision. Defined.

(** Only what the sessions' ids are matters to the node tables. *)
Lemma nodes_wf_ext `{TrackNames} (l1 l2 : SessRef → option Z) ib : (∀ r, l1 r = l2 r) → nodes_wf l1 ib → nodes_wf l2 ib.
Proof.
  intros Hl ((Hitems & Hbest & Hreach) & Hby).
  assert (∀ p, lock_weak l2 p = lock_weak l1 p) as Hlock by (intros [r|]; [apply eq_sym, Hl|done]).
  split; [split; [|split; [|done]]|done].
  - intros n s item Hi. rewrite Hlock. by apply Hitems.
  - intros n p Hp. destruct (Hbest n p Hp) as (s & Hs & Hi). exists s. by rewrite Hlock.
Qed.

Section mesh.
Context `{UintVarLaws, TrackNamesLaws, Transport, !SubscribeMessages, Rand} {C : Type} `{!ClientManagerI C}.
Context (wires : gmap Port Port).
Abbreviation World := (World C).
Abbreviation Mesh := (Mesh C).
Implicit Types w : World.
Implicit Types ms : Mesh.
Abbreviation wire := (λ p, wires !! p).

(** ** Relays *)

(** A relay of node [i] between two events, which knows who is at the other end
    of its connections. *)
Record node_ready (i : Z) w : Prop := {
  nr_idle : relay_idle w;
  nr_nodes : nodes_wf (session_id w) (info_base_ w);
  nr_id : ni_id (pm_node_info_ w) = i ∧ i ≠ 0 ∧ in_range 64 i;
  nr_session e s : e ∈ all_sessions w → sessions w !! e.2 = Some s →
    0 ≤ e.1 ∧ in_range 64 (metrics_srtt_us s) ∧
    ∀ p, wires !! (i, e.1) = Some p → ni_id (remote_node_info_ s) = p.1 ∧ p.1 ≠ 0;
}.

Definition srtt_at w (c : Z) : Z := default 0 (r ← peer_at w c; metrics_srtt_us <$> sessions w !! r).
Definition srtt_in ms (p : Port) : Z := default 0 ((λ w, srtt_at w p.2) <$> relays ms !! p.1).

Lemma view_session_id w w' r : view w' = view w → session_id w' r = session_id w r.
Proof. intros [= Es _ _ _ _ _ _]. unfold session_id. by rewrite Es. Qed.
Lemma view_srtt w w' c : view w' = view w → srtt_at w' c = srtt_at w c.
Proof. intros Hview. unfold srtt_at. rewrite (view_peer_at w w' c Hview). by injection Hview as -> _ _ _ _ _ _. Qed.

Lemma ready_again i w w' :
  node_ready i w → view w' = view w → drained w' → mutex_ (info_base_ w') = false →
  nodes_wf (session_id w) (info_base_ w') → node_ready i w'.
Proof.
  intros [Hidle Hn Hid Hs] Hview Hdr Hm Hwf. split.
  - by apply (idle_same w).
  - apply (nodes_wf_ext (session_id w)); [intros r; symmetry; by apply view_session_id|done].
  - by injection Hview as _ _ _ -> _ _ _.
  - injection Hview as Es Ev Ec _ _ _ _. unfold all_sessions in *. by rewrite Es, Ev, Ec.
Qed.

(** ** The message *)

Context (Hmax : 1 ≤ kReadLoopMaxPerStream) (ni0 : NodeInfo) (Hwf0 : NodeInfo_wf ni0) (Hx : ni_id ni0 ≠ 0).
Abbreviation x := (ni_id ni0).

Definition with_path (path : list NodePathItem) : NodeInfo :=
  mkNodeInfo (ni_id ni0) (ni_type ni0) (ni_contact ni0) (ni_longitude ni0) (ni_latitude ni0) path.
Definition withdrawal (path : list NodePathItem) : list Z := NodeInfo_Serialize true true (with_path path).
Abbreviation withdraw_message path := (cm_node (with_path path) true).

(** Paths that leave the size of the message in 32 bits. *)
Definition short_path (limit : nat) (path : list NodePathItem) : Prop :=
  Forall path_item_wf path ∧ (length path ≤ length (ni_path ni0) + limit)%nat.

Lemma short_valid limit path :
  in_range 32 (7 + Z.of_nat (length (NodeInfo_put ni0)) + 16 * Z.of_nat limit) → short_path limit path →
  cm_valid (withdraw_message path).
Proof using Hwf0.
  intros Hroom [Hall Hlen]. destruct Hwf0 as (Hi & Ht & Hlo & Hla & _ & _).
  assert (Z.of_nat (length (NodeInfo_put (with_path path))) ≤ Z.of_nat (length (NodeInfo_put ni0)) + 16 * Z.of_nat limit) as Hle.
  { rewrite !NodeInfo_put_length. unfold contact_uv_len. cbn [with_path ni_contact ni_path]. lia. }
  unfold in_range in Hroom. split.
  - change (NodeInfo_wf (with_path path)). split_and!; [done..|]. unfold in_range. lia.
  - rewrite cm_bytes_length. cbn [cm_body]. change (encode _) with (NodeInfo_put (with_path path)). unfold in_range. lia.
Qed.

Lemma withdrawal_bytes path : cm_valid (withdraw_message path) → withdrawal path = cm_bytes (withdraw_message path).
Proof. intros [Hwf _]. destruct cm_bytes_sent as (_ & _ & Hni & _). exact (Hni _ true Hwf). Qed.

(** ** One withdrawal *)

Definition packet_of (n : Notice) : Packet := mkPacket (w_at n) (withdrawal (w_path n)).

Lemma node_calls_handling w r s conn m ni wd e :
  sessions w !! r = Some s → node_calls (handling w r s conn m) ni wd e = node_calls w ni wd e.
Proof.
  intros Hs. unfold node_calls. cbn. destruct (decide (e.2 = r)) as [->|Hne]; [|by rewrite lookup_insert_ne].
  rewrite lookup_insert_eq, Hs. by destruct s.
Qed.

(** What is sent arrives where the abstract notices go. *)
Lemma withdrawal_packets i w w' path :
  node_ready i w → view w' = view w →
  omap (arriving wires i w') (node_sends w (with_path path) true) = packet_of <$> omap (pass_at wire x i path) (ports_of w).
Proof using Hx.
  intros [Hidle _ _ Hsess] Hview. unfold node_sends, ports_of.
  assert (∀ e, e ∈ all_sessions w → e ∈ all_sessions w) as Hin by done. revert Hin. generalize (all_sessions w) at 1 3 4.
  intros l. induction l as [|e l IH]; intros Hin; [done|].
  assert (e ∈ all_sessions w) as He by (apply Hin; left).
  rewrite bind_cons, omap_app, IH by (intros e' He'; apply Hin; by right). csimpl.
  unfold node_calls at 1. destruct (sessions w !! e.2) as [s|] eqn:Hs; cbn [mbind option_bind]; [|done].
  pose proof (ready_keyed w Hidle e s He Hs) as Hkey. destruct (Hsess e s He Hs) as (_ & _ & Hremote).
  unfold if_sent. case_decide as Hst; [|by destruct (skip_node _ _)].
  set (rest := omap _ l). change (omap (pass_at wire x i path) (e.1 :: rest)) with
    (match pass_at wire x i path e.1 with Some n => n :: omap (pass_at wire x i path) rest | None => omap (pass_at wire x i path) rest end).
  assert (pass_at wire x i path e.1 = match wires !! (i, e.1) with
    | Some p => if decide (p.1 ∈ x :: ids path) then None else Some (mkNotice p path) | None => None end) as -> by done.
  assert (omap (arriving wires i w') [control_call s (withdrawal path)] =
    match wires !! (i, e.1) with Some p => [mkPacket p (withdrawal path)] | None => [] end) as Hone.
  { cbn [omap list_omap]. rewrite (arriving_view wires i w w' _ Hview), (arriving_control wires i w e s _ Hidle He Hs), Hkey.
    by destruct (wires !! (i, e.1)). }
  fold (withdrawal path). destruct (wires !! (i, e.1)) as [p|] eqn:Hp.
  - destruct (Hremote p eq_refl) as [Hr Hp0]. pose proof (skip_node_false (with_path path) (remote_node_info_ s)) as Hskip.
    rewrite Hr in Hskip. cbn [with_path ni_id ni_path] in Hskip. case_decide as Hd.
    + destruct (skip_node _ _); [done|]. by destruct Hskip as [(_ & _ & Hn) _].
    + destruct (skip_node _ _); [by destruct Hskip as [_ Hf]; discriminate Hf|]. by rewrite Hone.
  - destruct (skip_node _ _); [done|]. by rewrite Hone.
Qed.
Lemma withdrawal_arrives i w c path :
  node_ready i w → is_Some (peer_at w c) → cm_valid (withdraw_message path) →
  ∃ w', arrive c (withdrawal path) w = (Ok tt, w') ∧ view w' = view w ∧ node_ready i w' ∧
    nodes_ (info_base_ w') = delete (x, c) (nodes_ (info_base_ w)) ∧
    omap (arriving wires i w') (drop (length (trace w)) (trace w')) =
      packet_of <$> omap (pass_at wire x i (path ++ [mkNodePathItem i (srtt_at w c)])) (ports_of w).
Proof using All.
  intros Hready [r Hp] Hvalid. pose proof Hready as [Hidle Hnodes (Hid & _ & _) Hsess]. pose proof Hidle as [Hok Hun Hself Hkey Hdis Hbuf Hdr].
  pose proof (peer_at_listed _ _ _ Hp) as Hlisted.
  destruct (all_sessions_alive w _ Hok Hlisted) as [s Hs]. cbn in Hs.
  assert (t_conn_id_ s = c) as Hconn by (by apply (Hkey (c, r) s)). destruct (Hsess (c, r) s Hlisted Hs) as (Hpos & _).
  set (msg := withdraw_message path). set (w2 := handling w r s c msg). set (s2 := set_buffer (λ _, cm_bytes msg) s).
  destruct (handling_view w r s c msg Hidle Hs) as (Hok2 & _ & _ & Hs2). fold w2 s2 in Hok2, Hs2.
  assert (∀ y, session_id w2 y = session_id w y) as Hids.
  { intros y. unfold session_id. cbn. destruct (decide (y = r)) as [->|Hne]; [|by rewrite lookup_insert_ne].
    rewrite lookup_insert_eq, Hs. by destruct s. }
  assert (nodes_wf (session_id w2) (info_base_ w2)) as Hnodes2 by (by apply (nodes_wf_ext (session_id w))).
  destruct (NodeReceived_withdraw w2 c r s2 (with_path path) Hok2 Hun Hnodes2 Hs2 Hconn Hpos Hp) as (ib & Hrem & Hwf & Hrun).
  destruct (RemoveNode_ok (session_id w2) (info_base_ w2) c x Hnodes2 (proj1 (proj2 Hun))) as (best & Hrem' & _).
  assert (ib = remove_node_tables c x best (info_base_ w2)) as Hib by (by injection (eq_trans (eq_sym Hrem) Hrem')).
  assert (withdrawn (with_path path) s2 = with_path (path ++ [mkNodePathItem i (srtt_at w c)])) as Hext.
  { unfold withdrawn, path_push, with_path, srtt_at. cbn. rewrite Hp. cbn. rewrite Hs. cbn. do 3 f_equal.
    by rewrite <- Hid, <- (Hself (c, r) s Hlisted Hs). }
  set (w' := handled w s c (trace w2 ++ node_sends w2 (withdrawn (with_path path) s2) true) (rand_calls w) ib).
  assert (mutex_ ib = false) as Hib' by (rewrite Hib; apply Hun).
  exists w'. split_and!.
  - rewrite withdrawal_bytes by done. fold msg. rewrite (arrive_process w c r s msg Hmax Hidle Hp Hs Hvalid).
    apply process_ok; [done|done|]. unfold handle. rewrite (bind_ok _ _ _ _ _ (world_session_ok w2 r _ Hs2)).
    cbn -[NodeReceived]. unfold GetSessionId. rewrite Hconn. exact Hrun.
  - done.
  - apply (ready_again i w); [done|done|by apply handled_drained|done|]. by apply (nodes_wf_ext (session_id w2)).
  - cbn. by rewrite Hib.
  - cbn [w' handled trace set_rand_calls set_trace]. change (trace w2) with (trace w). rewrite drop_app_length, Hext.
    rewrite <- (withdrawal_packets i w w' _ Hready) by done. f_equal. unfold node_sends. change (all_sessions w2) with (all_sessions w).
    apply list_bind_ext; [|done]. intros e. by apply node_calls_handling.
Qed.
(** ** A mesh and the notices in it *)

Section notices.
Context (ms0 : Mesh).
Abbreviation links := (ports_in ms0).
Abbreviation srtt := (srtt_in ms0).
Abbreviation members := (relay_list ms0).
Context (Hroom : in_range 32 (7 + Z.of_nat (length (NodeInfo_put ni0)) + 16 * Z.of_nat (length members))).

(** No way over this connection is known to the node. *)
Definition forgot ms (p : Port) : Prop := ∀ w, relays ms !! p.1 = Some w → nodes_ (info_base_ w) !! (x, p.2) = None.

Record notice_ok ms (n : Notice) : Prop := {
  no_proper : proper members n;
  no_port : port_in ms (w_at n);
  no_wf : Forall path_item_wf (w_path n);
  no_short : (length (w_path n) + unvisited members (ids (w_path n)) ≤ length (ni_path ni0) + length members)%nat;
}.

Record carries ms (ns : list Notice) : Prop := {
  ca_relay i w : relays ms !! i = Some w →
    node_ready i w ∧ ports_of w = links i ∧ ∀ c, srtt_at w c = srtt (i, c);
  ca_members i : is_Some (relays ms !! i) ↔ i ∈ members;
  ca_wire p e : wires !! p = Some e → port_in ms e;
  ca_flight : in_flight ms = packet_of <$> ns;
  ca_notices : Forall (notice_ok ms) ns;
}.

Lemma notice_valid ms n : notice_ok ms n → cm_valid (withdraw_message (w_path n)).
Proof using Hwf0 Hroom. intros [_ _ Hwf Hshort]. apply (short_valid (length members)); [done|]. split; [done|lia]. Qed.

Lemma srtt_range ms i w c : carries ms [] → relays ms !! i = Some w → is_Some (peer_at w c) → in_range 64 (srtt (i, c)).
Proof.
  intros Hca Hi [r Hp]. destruct (ca_relay ms [] Hca i w Hi) as ([Hidle _ _ Hsess] & _ & <-).
  pose proof (peer_at_listed _ _ _ Hp) as Hin. destruct (all_sessions_alive w _ (ready_ok w Hidle) Hin) as [s Hs].
  unfold srtt_at. rewrite Hp. cbn in Hs |- *. rewrite Hs. by apply (Hsess (c, r) s).
Qed.

(** Those that are passed on are in order again. *)
Lemma pass_ok ms n n' ns :
  carries ms ns → notice_ok ms n → n' ∈ pass links wire srtt x n → notice_ok ms n'.
Proof.
  intros Hca [Hproper [w [Hw Hp]] Hwf Hshort] Hn'. pose proof Hn' as (c & _ & He & _ & Hpath)%elem_of_pass.
  assert (∀ p e, wire p = Some e → e.1 ∈ members) as Hwire.
  { intros p e Hpe. destruct (ca_wire ms ns Hca p e Hpe) as (v & Hv & _). apply (ca_members ms ns Hca). by exists v. }
  destruct (ca_relay ms ns Hca _ w Hw) as ([Hidle Hnodes (Hid & Hzero & Hrange) Hsess] & Hlinks & Hsrtt).
  assert (carries (mkMesh (relays ms) []) []) as Hca0.
  { destruct Hca as [h1 h2 h3 _ _]. by split. }
  split.
  - by apply (pass_proper links wire srtt x members Hwire n).
  - by apply (ca_wire ms ns Hca _ _ He).
  - rewrite Hpath. apply Forall_app. split; [done|]. apply Forall_singleton. split; [done|].
    destruct (w_at n) as [i d]. by apply (srtt_range _ i w d Hca0 Hw).
  - rewrite Hpath, ids_extended. unfold extended. rewrite length_app. cbn.
    destruct Hproper as [Hin Hnot]. pose proof (unvisited_snoc members _ _ Hin Hnot). lia.
Qed.

(** One delivery. *)
Lemma deliver_carries ms ns k :
  carries ms ns →
  match take_notice links wire srtt x k ns with
  | Some ns' => ∃ ms', deliver wires k ms = Some ms' ∧ carries ms' ns' ∧
      (∀ n, ns !! k = Some n → forgot ms' (w_at n)) ∧ (∀ p, forgot ms p → forgot ms' p)
  | None => deliver wires k ms = None
  end.
Proof.
  intros Hca. unfold take_notice, deliver. rewrite (ca_flight ms ns Hca), list_lookup_fmap.
  destruct (ns !! k) as [n|] eqn:Hn; [|done]. cbn [mbind option_bind fmap option_map option_fmap].
  pose proof (ca_notices ms ns Hca) as Hall. pose proof (Forall_lookup_1 _ _ _ _ Hall Hn) as Hok.
  destruct (no_port ms n Hok) as (w & Hw & Hp).
  destruct (ca_relay ms ns Hca _ w Hw) as (Hready & Hlinks & Hsrtt).
  destruct (withdrawal_arrives _ w (w_at n).2 (w_path n) Hready Hp (notice_valid ms n Hok))
    as (w' & Hrun & Hview & Hready' & Hnodes & Hcalls).
  change (p_at (packet_of n)) with (w_at n). change (p_bytes (packet_of n)) with (withdrawal (w_path n)).
  unfold at_relay. cbn [relays in_flight]. rewrite Hw. cbn [mbind option_bind]. rewrite Hrun, Hcalls.
  assert (∀ l p, port_in ms p → port_in (mkMesh (<[(w_at n).1 := w']> (relays ms)) l) p) as Hport
    by (intros l p; by apply (port_in_update ms w)).
  assert (∀ p, forgot ms p ∨ p = w_at n → ∀ l, forgot (mkMesh (<[(w_at n).1 := w']> (relays ms)) l) p) as Hforgot.
  { intros p Hcase l v Hv. cbn in Hv. apply lookup_insert_Some in Hv as [[Hi <-]|[Hne Hv]].
    - rewrite Hnodes. destruct Hcase as [Hf| ->]; [|apply lookup_delete_eq].
      rewrite lookup_delete_None. right. apply Hf. by rewrite <- Hi.
    - destruct Hcase as [Hf| ->]; [by apply Hf|done]. }
  eexists. split; [reflexivity|]. split_and!; [|intros n' [= <-]; apply Hforgot; by right|intros p Hf; apply Hforgot; by left].
  split; cbn [relays in_flight].
  - intros i v Hv. apply lookup_insert_Some in Hv as [[<- <-]|[Hne Hv]]; [|by apply (ca_relay ms ns Hca)].
    split; [done|]. rewrite (view_ports w w' Hview). split; [done|]. intros c. by rewrite (view_srtt w w' c Hview).
  - intros i. rewrite <- (ca_members ms ns Hca i). rewrite lookup_insert_is_Some. split; [intros [<-|[_ ?]]; [by exists w|done]|].
    intros Hi. destruct (decide ((w_at n).1 = i)); [by left|by right].
  - intros p e He. apply Hport. by apply (ca_wire ms ns Hca p).
  - rewrite fmap_app. f_equal; [symmetry; apply list_fmap_delete|]. unfold pass, extended.
    rewrite <- Hlinks, Hsrtt. by destruct (w_at n).
  - assert (∀ m, notice_ok ms m → ∀ l, notice_ok (mkMesh (<[(w_at n).1 := w']> (relays ms)) l) m) as Hlift
      by (intros m [h1 h2 h3 h4] l; split; [done|by apply Hport|done|done]).
    apply Forall_app. split; apply Forall_forall; intros m Hm; apply Hlift.
    + apply (list_elem_of_delete_inv) in Hm. by apply (proj1 (Forall_forall _ _) Hall).
    + by apply (pass_ok ms n m ns).
Qed.
Definition leads (n n' : Notice) : Prop := n' ∈ pass links wire srtt x n.

(** [m] has been delivered, or a notice on the way leads to it. *)
Definition covered ms (ns : list Notice) (m : Notice) : Prop := forgot ms (w_at m) ∨ ∃ n, n ∈ ns ∧ rtc leads n m.

Lemma covered_step ms ms' ns ns' k m :
  take_notice links wire srtt x k ns = Some ns' →
  (∀ n, ns !! k = Some n → forgot ms' (w_at n)) → (∀ p, forgot ms p → forgot ms' p) →
  covered ms ns m → covered ms' ns' m.
Proof.
  intros Hk Hnew Hold [Hm|(n & Hn & Hlead)]; [by left; apply Hold|]. unfold take_notice in Hk.
  destruct (ns !! k) as [n0|] eqn:Hn0; [|done]. injection Hk as <-.
  assert (n ∈ n0 :: delete k ns) as [->|Hrest]%elem_of_cons by by rewrite <- (delete_Permutation ns k n0 Hn0).
  - apply rtc_inv in Hlead as [<-|(n1 & Hn1 & Hlead)]; [left; by apply Hnew|].
    right. exists n1. split; [apply elem_of_app; by right|done].
  - right. exists n. split; [apply elem_of_app; by left|done].
Qed.

Lemma run_carries n ms ms' ns :
  carries ms ns → nsteps (delivers wires) n ms ms' →
  ∃ ns', carries ms' ns' ∧ load links wire x members ns = (n + load links wire x members ns')%nat ∧
    ∀ m, covered ms ns m → covered ms' ns' m.
Proof.
  intros Hca Hn. revert ns Hca. induction Hn as [ms|n ms ms1 ms' [k Hk] _ IH]; intros ns Hca; [by exists ns|].
  pose proof (deliver_carries ms ns k Hca) as Hstep.
  destruct (take_notice links wire srtt x k ns) as [ns1|] eqn:Hns1; [|congruence].
  destruct Hstep as (ms2 & Hk' & Hca1 & Hnew & Hold). assert (ms2 = ms1) as -> by congruence.
  destruct (IH ns1 Hca1) as (ns' & Hca' & Hload & Hcov). exists ns'. split; [done|].
  assert (∀ p e, wire p = Some e → e.1 ∈ members) as Hwire.
  { intros p e He. destruct (ca_wire ms ns Hca p e He) as (v & Hv & _). apply (ca_members ms ns Hca). by exists v. }
  assert (Forall (proper members) ns) as Hproper.
  { apply (Forall_impl _ _ _ (ca_notices ms ns Hca)). by intros ? []. }
  destruct (take_load links wire srtt x members Hwire k ns ns1 Hproper Hns1) as [_ Hone]. split; [lia|].
  intros m Hm. apply Hcov. by apply (covered_step ms ms1 ns ns1 k).
Qed.

(** A notice arrives at a mesh at rest. *)
Lemma start_carries i c w :
  (∀ j v, relays ms0 !! j = Some v → node_ready j v) → (∀ p e, wires !! p = Some e → port_in ms0 e) →
  relays ms0 !! i = Some w → is_Some (peer_at w c) → i ∉ ids (ni_path ni0) →
  carries (mkMesh (relays ms0) [packet_of (mkNotice (i, c) (ni_path ni0))]) [mkNotice (i, c) (ni_path ni0)].
Proof.
  intros Hready Hwires Hi Hp Hnot. split; cbn [relays in_flight].
  - intros j v Hj. split; [by apply Hready|]. unfold ports_in, srtt_in. cbn [fst snd]. by rewrite Hj.
  - intros j. symmetry. apply elem_of_relay_list.
  - done.
  - done.
  - apply Forall_singleton. split; cbn [w_at w_path].
    + split; [apply elem_of_relay_list; by exists w|done].
    + by exists w.
    + by destruct Hwf0 as (_ & _ & _ & _ & Hall & _).
    + pose proof (unvisited_all members (ids (ni_path ni0))). lia.
Qed.
End notices.

(** Every two relays of the mesh are connected, by one connection. *)
Definition full_mesh ms : Prop := ∀ i, i ∈ relay_list ms →
  neighbours (ports_in ms) wire i ≡ₚ filter (.≠ i) (relay_list ms).

(** The deliveries a withdrawal takes that enters at relay [i]. *)
Definition withdrawal_cost ms (i : Z) : nat :=
  copies (ports_in ms) wire x (length (relay_list ms)) i (ids (ni_path ni0)).

(** C6: the withdrawal of a node goes along every path through the mesh that
    visits no relay twice, whatever the relays know of the node: the number of
    deliveries until nothing is in flight is the number of those paths, in
    whatever order the messages arrive, and no delivery fails.  At the end every
    relay has forgotten the way to the node over every connection at which such a
    path arrives, also ways that do not lead over the connection that was lost.
    In a mesh of [n] relays that are all connected with each other this takes at
    least (n - 1)! messages. *)
Theorem withdrawal_takes_every_path ms i c w :
  (∀ j v, relays ms !! j = Some v → node_ready j v) → (∀ p e, wires !! p = Some e → port_in ms e) →
  relays ms !! i = Some w → is_Some (peer_at w c) → i ∉ ids (ni_path ni0) →
  in_range 32 (7 + Z.of_nat (length (NodeInfo_put ni0)) + 16 * Z.of_nat (length (relay_list ms))) →
  (∀ n ms', nsteps (delivers wires) n (mkMesh (relays ms) [mkPacket (i, c) (NodeInfo_Serialize true true ni0)]) ms' →
    (n ≤ withdrawal_cost ms i)%nat ∧ (in_flight ms' = [] ↔ n = withdrawal_cost ms i) ∧
    (in_flight ms' ≠ [] → ∃ ms'', deliver wires 0 ms' = Some ms'') ∧
    (in_flight ms' = [] → ∀ m, rtc (leads ms) (mkNotice (i, c) (ni_path ni0)) m → forgot ms' (w_at m))) ∧
  (full_mesh ms → x ∉ relay_list ms → Forall (.∉ ids (ni_path ni0)) (relay_list ms) →
    (fact (pred (size (relays ms))) ≤ withdrawal_cost ms i)%nat).
Proof using All.
  intros Hready Hwires Hi Hp Hnot Hroom. set (n0 := mkNotice (i, c) (ni_path ni0)).
  assert (∀ p e, wire p = Some e → e.1 ∈ relay_list ms) as Hwire.
  { intros p e He. destruct (Hwires p e He) as (v & Hv & _). apply elem_of_relay_list. by exists v. }
  assert (i ∈ relay_list ms) as Hmem by (apply elem_of_relay_list; by exists w). split.
  - intros n ms' Hn. pose proof (start_carries ms i c w Hready Hwires Hi Hp Hnot) as Hca.
    assert (packet_of n0 = mkPacket (i, c) (NodeInfo_Serialize true true ni0)) as Hpacket.
    { unfold packet_of, withdrawal, with_path. cbn. by destruct ni0. }
    rewrite <- Hpacket in Hn.
    destruct (run_carries ms Hroom n _ ms' _ Hca Hn) as (ns' & Hca' & Hload & Hcov).
    assert (load (ports_in ms) wire x (relay_list ms) [n0] = withdrawal_cost ms i) as Hcost by apply Nat.add_0_r.
    fold n0 in Hload, Hcov. rewrite Hcost in Hload. rewrite (ca_flight _ _ _ Hca'). split; [lia|]. split; [|split].
    + split; intros Hend; [apply fmap_nil_inv in Hend as ->; cbn in Hload; lia|].
      destruct ns' as [|m ns']; [done|]. exfalso.
      pose proof (ca_notices _ _ _ Hca') as [[Hm _ _ _] _]%Forall_cons. unfold load in Hload. cbn in Hload.
      rewrite (copies_pass (ports_in ms) wire (srtt_in ms) x (relay_list ms) Hwire m Hm) in Hload. lia.
    + intros Hne. pose proof (deliver_carries ms Hroom ms' ns' 0 Hca') as Hstep. unfold take_notice in Hstep.
      destruct ns' as [|m ns']; [done|]. cbn in Hstep. destruct Hstep as (ms'' & Hd & _). by exists ms''.
    + intros Hend m Hm. apply fmap_nil_inv in Hend as ->.
      destruct (Hcov m) as [Hf|(y & Hy & _)]; [|done|by apply not_elem_of_nil in Hy].
      right. exists n0. split; [by left|done].
  - intros Hfull Hnx Hall. rewrite Forall_forall in Hall.
    assert (NoDup (relay_list ms)) as Hnodup by apply NoDup_fst_map_to_list.
    pose proof (copies_full (ports_in ms) wire (srtt_in ms) x (relay_list ms) Hwire Hnodup Hnx Hfull
      (length (relay_list ms)) i (ids (ni_path ni0)) Hmem Hnot (unvisited_all _ _)) as Hfact.
    pose proof (filter_snoc_length (relay_list ms) (ids (ni_path ni0)) i Hnodup Hmem Hnot) as Hlen.
    assert (length (filter (.∉ ids (ni_path ni0)) (relay_list ms)) = size (relays ms)) as Hsize.
    { rewrite filter_all by by apply Forall_forall. unfold relay_list. rewrite length_fmap. apply length_map_to_list. }
    assert (pred (size (relays ms)) = unvisited (relay_list ms) (ids (ni_path ni0) ++ [i])) as -> by (unfold unvisited; lia).
    exact Hfact.
Qed.
End mesh.

(** ** Three relays, all connected *)

Import Quicr.Demo DemoTransport DemoRelay.

(** Node [id] with connections to nodes. *)
Definition link_session (id conn remote : Z) : PeerSession :=
  set_transport true (set_status kStatusConnected (set_remote (relay_node_of remote)
    (PeerSession_make (300, 7) true conn (relay_node_of id) (mkRemote [] 0)))).
Definition link_node (ib : InfoBase) (id : Z) (conns : list (Z * Z)) : World nat :=
  mkWorld (list_to_map ((λ c, (c.1, link_session id c.1 c.2)) <$> conns)) ∅ [] ib
    (list_to_map ((λ c, (c.1, c.1)) <$> conns)) ∅ (relay_node_of id) false false true State_empty false 0 0%nat.

(** Node 72 knows that node 73 has a connection to node 99. *)
Definition knowing : InfoBase :=
  (AddNode (session_id (link_node InfoBase_empty 72 [(21, 71); (23, 73)])) 23 (relay_node_of 99) InfoBase_empty).2.

Definition triangle_wires : gmap Port Port :=
  {[(71, 12) := (72, 21); (72, 21) := (71, 12); (71, 13) := (73, 31); (73, 31) := (71, 13); (72, 23) := (73, 32); (73, 32) := (72, 23)]}.
Definition triangle : gmap Z (World nat) :=
  {[71 := link_node InfoBase_empty 71 [(12, 72); (13, 73); (14, 99)];
    72 := link_node knowing 72 [(21, 71); (23, 73)];
    73 := link_node InfoBase_empty 73 [(31, 71); (32, 72); (39, 99)]]}.

Definition node_test (wires : gmap Port Port) (i : Z) (w : World nat) : Prop :=
  ready_test (mesh_subscribe 99) [[5]] w ∧ (ni_id (pm_node_info_ w) = i ∧ i ≠ 0 ∧ in_range 64 i) ∧
  Forall (λ e : Z * SessRef, from_option (λ s, 0 ≤ e.1 ∧ in_range 64 (metrics_srtt_us s) ∧
    from_option (λ p : Port, ni_id (remote_node_info_ s) = p.1 ∧ p.1 ≠ 0) True (wires !! (i, e.1))) True
    (sessions w !! e.2)) (all_sessions w).
#[global] Instance node_test_dec wires i w : Decision (node_test wires i w).
Proof.
  unfold node_test. do 2 (apply and_dec; [apply _|]). apply Forall_dec. intros e. destruct (sessions w !! e.2); [|apply _].
  cbn. do 2 (apply and_dec; [apply _|]). destruct (wires !! _); apply _.
Defined.

Lemma node_test_ok wires i w : node_test wires i w → nodes_wf (session_id w) (info_base_ w) → node_ready wires i w.
Proof.
  intros (Htest & Hid & Hall) Hnodes. split; [|done|done|].
  - exact (ready_idle _ _ _ (ready_test_ok (mesh_subscribe 99) demo_fields w Htest)).
  - intros e s He Hs. rewrite Forall_forall in Hall. specialize (Hall e He). rewrite Hs in Hall.
    destruct Hall as (Hpos & Hrange & Hwire). split; [done|]. split; [done|]. intros p Hp. by rewrite Hp in Hwire.
Qed.

Lemma triangle_ready j v : triangle !! j = Some v → node_ready triangle_wires j v.
Proof.
  assert (map_Forall (λ j w, node_test triangle_wires j w) triangle) as Htest by decide_now.
  intros Hv. apply node_test_ok; [by apply (Htest j v)|].
  unfold triangle in Hv. repeat (apply lookup_insert_Some in Hv as [[<- <-]|[_ Hv]]); [apply nodes_wf_empty| |].
  - unfold knowing.
    destruct (AddNode_ok (session_id (link_node InfoBase_empty 72 [(21, 71); (23, 73)])) InfoBase_empty 23 (relay_node_of 99) 23
      (nodes_wf_empty _) eq_refl (ltac:(vm_refl)) (ltac:(lia))) as (updated & best & -> & Hwf). exact Hwf.
  - apply lookup_singleton_Some in Hv as [<- <-]. apply nodes_wf_empty.
Qed.

(** The loss of the connection between 71 and 99 takes five messages, and node 72
    forgets that it can reach 99 over 73. *)
Lemma withdrawal_takes_every_path_witness :
  ∃ ms', nsteps (delivers triangle_wires) 5
      (mkMesh triangle [mkPacket (71, 14) (NodeInfo_Serialize true true (relay_node_of 99))]) ms' ∧
    in_flight ms' = [] ∧ nodes_ knowing !! (99, 23) ≠ None ∧
    ∀ v, relays ms' !! 72 = Some v → nodes_ (info_base_ v) !! (99, 23) = None.
Proof.
  assert (map_Forall (λ _ e, is_Some (triangle !! e.1 ≫= λ w, peer_at w e.2)) triangle_wires) as Hwires by decide_now.
  destruct (quiet_after_steps triangle_wires 5
    (mkMesh triangle [mkPacket (71, 14) (NodeInfo_Serialize true true (relay_node_of 99))])) as (ms' & Hn & Hq); [vm_refl|].
  exists ms'. split; [exact Hn|]. split; [exact Hq|]. split; [vm_compute; discriminate|]. intros v Hv.
  destruct (withdrawal_takes_every_path triangle_wires (ltac:(decide_now)) (relay_node_of 99) (ltac:(decide_now)) (ltac:(done))
    (mkMesh triangle []) 71 14 (link_node InfoBase_empty 71 [(12, 72); (13, 73); (14, 99)]) triangle_ready) as [Hrun _].
  - intros p e He. pose proof (Hwires p e He) as Hp. cbn in Hp. unfold port_in. cbn.
    destruct (triangle !! e.1) as [w|]; [by exists w|by destruct Hp].
  - vm_refl.
  - decide_now.
  - decide_now.
  - decide_now.
  - destruct (Hrun 5%nat ms' Hn) as (_ & _ & _ & Hend).
    set (item := λ i c, mkNodePathItem i (srtt_in (mkMesh triangle []) (i, c))).
    apply (Hend Hq (mkNotice (72, 23) [item 71 14; item 73 31])); [|exact Hv].
    apply (rtc_l _ _ (mkNotice (73, 31) [item 71 14])); [|apply rtc_once]; unfold leads; decide_now.
Defined.
